(* ===== verification/_CoqProject ===== *)
-Q . S2P
Prelude.v
Uri.v
Paging.v
GraphState.v
Router.v
Owners.v
Readiness.v
Filters.v
Format.v
Metrics.v
Knowledge.v
Loader.v
Canonical.v
Release.v
Regex.v
ApplyPlan.v
SemverText.v
PlanTexts.v
ApplyAgain.v
Answers.v
Labels.v
Distributions.v
Neighborhood.v
Lanes.v
Suggest.v
Spatial.v
Subgraph.v
ScrollRestore.v
Digests.v
Delivery.v
ChartData.v
JsonText.v
Transport.v
Commands.v
Api.v
Session.v
GraphDraw.v
LaneLayout.v
Behavior.v
Tour.v
Tours.v
Boot.v
GraphElements.v
GraphCanvas.v
GraphDim.v
GraphStage.v
RankWrap.v
Furniture.v
MountGraph.v
GraphPage.v
Pickers.v
ChangeAnalysis.v
AppShell.v
