(* ===== verification/Prelude.v ===== *)
(** * Verification of the Pacto dashboard core and release tooling

    Pacto's dashboard is a single-page application under [src/pkg/dashboard/frontend]; its
    own logic is the TypeScript of [src/lib]. The release tooling is the JavaScript of
    [src/release], and [src/examples/demo] runs the dashboard over an engine in the browser,
    with guided tours. This library models them as executable definitions and proves what
    makes them correct.

    ** The program, and the files that model it

    Every view reads its state from the location hash and links by building one.
    - [Uri.v]: percent and form encoding, UTF-8, query strings (what the code uses of
      [encodeURIComponent], [URLSearchParams] and their inverses).
    - [Paging.v]: [paging.ts], pages and patched hashes.
    - [GraphState.v]: [graphState.ts], the operational graph's parameters.
    - [Router.v]: [router.ts], [parseHash], every link builder, [navigate], the redirects.
    - [Filters.v]: [filters.ts], [Owners.v]: [owners.ts], [Readiness.v]: [readiness.ts].
    - [Commands.v]: [commands.ts], the palette, built from the links of [Router.v].
    - [ScrollRestore.v]: [scrollRestore.ts], scroll positions over the session history.
    - [Session.v]: [session.svelte.ts], the session store and the login link.

    Data comes from an API through one seam, is kept by loaders that guard against answers
    out of order, and is shown with what is known about its completeness.
    - [Transport.v]: [transport.ts], the static route table; [JsonText.v]: JSON text
      determines the value; [Api.v]: [api.ts], errors, schema check, entity details, tokens.
    - [Loader.v]: [productLoader.svelte.ts]; [Suggest.v]: [entitySuggest.svelte.ts] and
      [entityResolve.ts]. Each is a step relation over callers, timers, requests and
      promise reactions.
    - [Knowledge.v]: [knowledgeState.ts]; [Answers.v]: [answers.ts], [identityContext.ts].

    Numbers and words are derived from the data.
    - [Format.v]: [format.ts]; [Metrics.v]: [summarize] of [format.ts]; [Labels.v]: [entityLabels.ts]; [Distributions.v]: [distributions.ts];
      [ChartData.v]: [chartData.ts]; [Behavior.v]: [behavior.ts], [dateFormat.ts].
    - [Digests.v] and [Delivery.v]: [delivery.ts], its text handling and its vocabulary.
    - [Furniture.v]: [breadcrumbs.ts], [pageTitle.ts], [nodeDrawer.ts], [tocRail.ts],
      [provisioning.ts] and [deliveryLinks.svelte.ts].

    The graph is adapted from an answer, split into sides and lanes, placed and drawn.
    - [Neighborhood.v] and [Lanes.v]: [neighborhoodGraph.ts]; [Subgraph.v]:
      [graph-aggregate.ts] and [computeVisible] of [layout.ts]; [RankWrap.v]:
      [wrapWideRanks] of [layout.ts]; [MountGraph.v]: [NeighborhoodGraph.svelte], which
      makes, refreshes and takes away the canvas; [Spatial.v]:
      [graphSpatial.ts], arrangements kept in the browser.
    - [graph.ts] in six files: [GraphDraw.v] and [LaneLayout.v], geometry, label lines and
      subgraphs; [GraphElements.v], labels told apart; [GraphCanvas.v], the element list and
      how a refresh is applied to a drawn graph, over a class for Cytoscape; [GraphDim.v],
      what is faded; [GraphStage.v], the state [renderGraph] closes over and its handlers,
      timers and controls, composed from the others.

    The demo starts an engine in a worker and walks a reader through the dashboard.
    - [Tour.v]: [tour.js], the runner of a tour as a machine driven by frames and clicks, over
      a class for the page; [Tours.v]: [tours.js], the two tours and the facts their steps
      wait for; [Boot.v]: [boot.js] and [engine.js], the entry hash, the bridge to the worker,
      the fetch shim and the status strip.

    Releases are planned, hashed and released from commits.
    - [Canonical.v]: [canonical.mjs]; [Release.v]: [build-release-plan.mjs], the manifest of
      [apply-release-plan.mjs], and [detect.mjs].
    - [apply-release-plan.mjs] in five files: [Regex.v], what it uses of regular expressions,
      as a backtracking matcher; [ApplyPlan.v], the script over the files of a tree;
      [SemverText.v] and [PlanTexts.v], its edits on texts; [ApplyAgain.v], what a second run may
      still edit.

    Four components compose these modules into pages; each is a state stepped by events.
    - [AppShell.v]: [App.svelte], the sign-in gate, polling, redirects and the view of a route.
    - [GraphPage.v]: [views/GraphView.svelte], the operational graph page.
    - [ChangeAnalysis.v]: [views/ChangeAnalysisView.svelte], the comparison of two revisions.
    - [Pickers.v]: [CommandPalette.svelte], [EntitySearch.svelte], [EntityCombobox.svelte] and
      [LegacyEntityRedirect.svelte], picking an entity and migrating an old link.

    ** Representation

    A JavaScript string is the bytes of its UTF-8 encoding; where the code counts or cuts
    UTF-16 code units, the model counts those, or is stated over units of any type. [null]
    and [undefined] are [None], kept apart where the code tells them apart. An object literal
    read by a computed key is read through [Object.prototype], so a key that names one of its
    members is modelled too. A [Map] or [Set] is a list in insertion order. Integers are [Z];
    a number that may be any double is spelled out where it is ([Spatial.v], [GraphState.v]),
    and a quotient is compared as a fraction where the counts involved are small. A thrown
    exception is [None] or the left of a sum. What the host decides (locale, dates, [fetch],
    SHA-256) is a parameter, with the documented law it relies on as a class or a hypothesis.

    ** What the theorems show

    Where the code has exceptions to a rule, the theorem names them, and an [Example] or theorem
    beside it shows the code taking one.
    - Links: every link is parsed back to what it was built from ([Router], [Paging],
      [Filters]); redirects settle; parsing without percent escapes is total; the palette offers
      product views only; a login returns to this origin; a Mira link is a web link.
    - Stale data: whatever order answers arrive in, loaders and searches show the newest
      question's answer; a question is never answered with another's data, but that the pages of
      one list stand in for each other; a refused token is retried once.
    - Honest claims: an all-clear, an empty list, a healthy sentence, a green badge and an
      automatic promotion are shown only when they hold.
    - Counting: summaries, heatmaps, timelines, lanes and owner graphs count every element
      once, each in its place.
    - Graphs: the drawn graph is the answer's; subgraphs hold what they promise; boxes, of the
      sizes they are drawn with, do not overlap; wide ranks are folded exactly when they are too
      wide; an arrangement is read back, and the store stays bounded.
    - The canvas: after a refresh it has the new graph's elements and no others, with the new
      data but for the fields a survivor keeps, and unless the lanes are laid out again what
      stayed has not moved; arrivals in lanes keep a row's distance; what is faded is what pin,
      owner, filter and legend say, and the legend holds through every event but a data patch,
      which undoes it until the next dimming; a view the reader framed is left alone; the
      component that mounts it keeps one canvas, last given what the newest input says of shape,
      status and words, where no key or word holds a separator of the signatures it compares.
    - Scrolling: each navigation moves the page as the module's rule says, until the reader has
      gone between two entries that show the same hash.
    - Tours: a frame moves a tour only when its gate opened or a Skip ran out; a tour can
      always be finished; the bubble stays on screen, and a cut-out is shown exactly when some
      of its target is; stale answers never replace facts.
    - The demo: every call to the engine is answered once; a replayed tour starts once; the
      entry hash redirects as the application would.
    - Text: cutting and shortening lose nothing silently; JSON texts are equal exactly when
      the values are, up to the order of keys.
    - Releases: a transaction releases exactly what moved, once; a plan applied is idle;
      recovery repeats only a part of an existing release; a second run of a plan of stable
      versions edits no file but the chart and its README, for which nothing is claimed; and a
      pin the module path cannot carry stops the script before any edit.
    - The shell: once the session is read, one timer polls, one pass at a time, at the pace of
      discovery; a Fleet host takes a reader from a legacy location to the product, with two
      kinds of location excepted.
    - The graph page: for keys without a bar, the graph shown is of the entity the address
      names; its sentences count what the answer holds; the drawer shows what was chosen and
      gives the focus back to where it was; every control leads to the location it stands for.
    - Change analysis: the comparison on screen is the newest one's, until a reload; a shared
      link opens on its answer if nothing is picked meanwhile; the selectors say truthfully
      whether they offer every revision.
    - Pickers: the row pointed at or reached with an arrow is the one Enter opens; nothing is
      chosen but by the reader; an old link is replaced only by the one entity it can mean.

    ** Bounds and fuel

    Recursion that is not structural takes fuel, and each such function is called with an
    amount its lemmas show to be enough: the length of the text for scanners (each step
    consumes a byte), the number of nodes for graph walks (each node is queued once), the
    number of ids for columns (each step places at least one), the number of edges for paths
    (each round reaches a node or is the last), the hundred turns of the revision pager, which
    are the source's own bound. The bounds of the code (pages,
    positions, arrangements, lanes, markers) are the constants of the source.

    ** What is not modelled

    The other Svelte views, the markup of the modelled ones but for what decides which panel
    is shown, and the code that drives the DOM, D3 and Cytoscape (charts, rendering, tooltips,
    themes): they hold no state of their own beyond what the modules above compute, or are
    compiled by a compiler that is not in the sources. The generated API schema is types. In
    [graph.ts], the stylesheet, the bending of lane edges, the zoom floor and the diagnostics
    are left out; in [api.ts] the table of endpoint methods; in [apply-release-plan.mjs] the go
    tool and git, which are a parameter; in the demo, markup, styling and the loading of the
    engine's binary. The Go program is another language.

    ** This file

    Notation for strings and strict equality, the JavaScript operations several components
    use, and the lemmas on lists, maps, sorting, grouping and numbers they share. *)

From stdpp Require Import base list gmap sorting.
From Stdlib Require Import Init.Byte.
From Stdlib Require Import ZArith NArith Lia.
From Stdlib Require Import SpecFloat.
From Stdlib Require DecimalN.

(** ** Strings

    A JavaScript string is represented by the bytes of its UTF-8 encoding. *)
Abbreviation str := (list byte).

Definition str_of_bytes (s : list byte) : list byte := s.

Declare Scope js_scope.
Delimit Scope js_scope with js.
String Notation str str_of_bytes str_of_bytes : js_scope.
Open Scope js_scope.

#[export] Instance byte_eq_dec : EqDecision byte := Byte.byte_eq_dec.

#[export] Instance byte_countable : Countable byte :=
  inj_countable Byte.to_N Byte.of_N Byte.of_to_N.

(** Strict equality of the values the model compares with [===]. *)
Notation "x === y" := (bool_decide (x = y)) (at level 70) : js_scope.
Notation "x !== y" := (negb (bool_decide (x = y))) (at level 70) : js_scope.

(** *** Truthiness, [||] and [??] *)
Definition truthy (s : str) : bool := match s with [] => false | _ => true end.

Definition otruthy (o : option str) : bool :=
  match o with Some s => truthy s | None => false end.

(** [o ?? d] *)
Definition nullish {A} (o : option A) (d : A) : A :=
  match o with Some a => a | None => d end.

(** [o || d] on a string that may be absent *)
Definition or_str (o : option str) (d : str) : str :=
  match o with Some s => if truthy s then s else d | None => d end.

Definition or_s (s d : str) : str := if truthy s then s else d.

(** *** [switch] on a string, with its default *)
Fixpoint switch {A} (d : str) (cases : list (str * A)) (default : A) : A :=
  match cases with
  | [] => default
  | (k, v) :: cs => if d === k then v else switch d cs default
  end.

(** A [switch] on [string | undefined] whose cases are all string literals. *)
Definition oswitch {A} (d : option str) (cases : list (str * A)) (default : A) : A :=
  match d with Some s => switch s cases default | None => default end.

(** *** Searching and cutting *)
Fixpoint starts_with (p s : str) : bool :=
  match p, s with
  | [], _ => true
  | a :: p', b :: s' => (a === b) && starts_with p' s'
  | _ :: _, [] => false
  end.

Definition ends_with (p s : str) : bool := starts_with (rev p) (rev s).

Fixpoint includes (p s : str) : bool :=
  starts_with p s || match s with [] => false | _ :: s' => includes p s' end.

(** The part of [s] before the first byte [c], and the part after it. *)
Fixpoint cut (c : byte) (s : str) : str * option str :=
  match s with
  | [] => ([], None)
  | b :: s' => if b === c then ([], Some s')
               else let '(h, t) := cut c s' in (b :: h, t)
  end.

(** [s.split(c)] for a one-character separator. *)
Fixpoint split_on (c : byte) (s : str) : list str :=
  match s with
  | [] => [[]]
  | b :: s' => if b === c then [] :: split_on c s'
               else match split_on c s' with
                    | [] => [[b]]
                    | h :: t => (b :: h) :: t
                    end
  end.

Fixpoint join (sep : str) (l : list str) : str :=
  match l with
  | [] => []
  | [x] => x
  | x :: l' => x ++ sep ++ join sep l'
  end.

(** [s.replace(/^p/, '')] for a literal [p]. *)
Definition strip_prefix (p s : str) : str :=
  if starts_with p s then drop (length p) s else s.

(** White space as [String.prototype.trim] knows it (WhiteSpace and LineTerminator of
    ECMA-262), each code point by its UTF-8 bytes. *)
Definition js_whitespace : list str :=
  [ [x09]; [x0a]; [x0b]; [x0c]; [x0d]; [x20]; [xc2; xa0]; [xe1; x9a; x80];
    [xe2; x80; x80]; [xe2; x80; x81]; [xe2; x80; x82]; [xe2; x80; x83];
    [xe2; x80; x84]; [xe2; x80; x85]; [xe2; x80; x86]; [xe2; x80; x87];
    [xe2; x80; x88]; [xe2; x80; x89]; [xe2; x80; x8a]; [xe2; x80; xa8];
    [xe2; x80; xa9]; [xe2; x80; xaf]; [xe2; x81; x9f]; [xe3; x80; x80];
    [xef; xbb; xbf] ].

Fixpoint strip_ws (ws : list str) (fuel : nat) (s : str) : str :=
  match fuel with
  | O => s
  | S fuel' => match List.find (fun w => starts_with w s) ws with
               | Some w => strip_ws ws fuel' (drop (length w) s)
               | None => s
               end
  end.

Definition trim_start (s : str) : str := strip_ws js_whitespace (length s) s.
Definition trim_end (s : str) : str :=
  rev (strip_ws (map (@rev byte) js_whitespace) (length s) (rev s)).
Definition trim (s : str) : str := trim_end (trim_start s).

(** *** ASCII character classes of the regular expressions *)
Definition code (b : byte) : N := Byte.to_N b.
Definition in_range (lo hi : N) (b : byte) : bool := (lo <=? code b)%N && (code b <=? hi)%N.
Definition is_digit (b : byte) : bool := in_range 48 57 b.
Definition is_lower (b : byte) : bool := in_range 97 122 b.
Definition is_upper (b : byte) : bool := in_range 65 90 b.
Definition is_lower_hex (b : byte) : bool := is_digit b || in_range 97 102 b.
Definition is_hex (b : byte) : bool := is_lower_hex b || in_range 65 70 b.

(** The characters [.] does not match in a regular expression without the [s] flag:
    LF, CR, U+2028 and U+2029. *)
Definition has_line_terminator (s : str) : bool :=
  includes [x0a] s || includes [x0d] s || includes [xe2; x80; xa8] s || includes [xe2; x80; xa9] s.

(** *** Numbers as text

    [String(n)] of an integer: decimal digits (below 1e21, where the notation changes). *)
Fixpoint str_of_uint (d : Decimal.uint) : str :=
  match d with
  | Decimal.Nil => []
  | Decimal.D0 d => x30 :: str_of_uint d
  | Decimal.D1 d => x31 :: str_of_uint d
  | Decimal.D2 d => x32 :: str_of_uint d
  | Decimal.D3 d => x33 :: str_of_uint d
  | Decimal.D4 d => x34 :: str_of_uint d
  | Decimal.D5 d => x35 :: str_of_uint d
  | Decimal.D6 d => x36 :: str_of_uint d
  | Decimal.D7 d => x37 :: str_of_uint d
  | Decimal.D8 d => x38 :: str_of_uint d
  | Decimal.D9 d => x39 :: str_of_uint d
  end.

Definition show_N (n : N) : str := str_of_uint (N.to_uint n).
Definition show_Z (z : Z) : str :=
  match z with
  | Z0 => "0"
  | Zpos p => show_N (Npos p)
  | Zneg p => "-" ++ show_N (Npos p)
  end.

(** The longest run of decimal digits at the head of [s], and what follows. *)
Fixpoint take_digits (s : str) : Decimal.uint * str :=
  match s with
  | x30 :: s' => let '(d, r) := take_digits s' in (Decimal.D0 d, r)
  | x31 :: s' => let '(d, r) := take_digits s' in (Decimal.D1 d, r)
  | x32 :: s' => let '(d, r) := take_digits s' in (Decimal.D2 d, r)
  | x33 :: s' => let '(d, r) := take_digits s' in (Decimal.D3 d, r)
  | x34 :: s' => let '(d, r) := take_digits s' in (Decimal.D4 d, r)
  | x35 :: s' => let '(d, r) := take_digits s' in (Decimal.D5 d, r)
  | x36 :: s' => let '(d, r) := take_digits s' in (Decimal.D6 d, r)
  | x37 :: s' => let '(d, r) := take_digits s' in (Decimal.D7 d, r)
  | x38 :: s' => let '(d, r) := take_digits s' in (Decimal.D8 d, r)
  | x39 :: s' => let '(d, r) := take_digits s' in (Decimal.D9 d, r)
  | _ => (Decimal.Nil, s)
  end.

(** A JavaScript number as far as the integer-valued code sees it. *)
Inductive jsnum :=
  | JNaN
  | JInf (neg : bool)
  | JNum (z : Z).

#[export] Instance jsnum_eq_dec : EqDecision jsnum.
Proof. solve_decision. Defined.

(** The truncated value of a binary64 number. *)
Definition trunc_float (f : spec_float) : jsnum :=
  match f with
  | S754_zero _ => JNum 0
  | S754_infinity s => JInf s
  | S754_nan => JNaN
  | S754_finite s m e =>
      let v := if (0 <=? e)%Z then (Zpos m * 2 ^ e)%Z else (Zpos m / 2 ^ (- e))%Z in
      JNum (if s then - v else v)%Z
  end.

(** The number an integer literal denotes: itself up to 2^53, above that the binary64
    nearest to it (which is infinite past the largest double). *)
Definition double_of_Z (z : Z) : jsnum :=
  if (Z.abs z <=? 2 ^ 53)%Z then JNum z
  else trunc_float (binary_normalize 53 1024 z 0 false).

(** The truncation of the binary64 nearest to the positive ratio [num / den], rounded
    once, for [num] and [den] of any size. *)
Definition trunc_ratio (num den : positive) : jsnum :=
  let '(m, e, l) := SFdiv_core_binary 53 1024 (Zpos num) 0 (Zpos den) 0 in
  trunc_float (binary_round_aux 53 1024 false m e l).

Definition sign_num (neg : bool) (n : jsnum) : jsnum :=
  match n with
  | JNaN => JNaN
  | JInf s => JInf (xorb neg s)
  | JNum z => JNum (if neg then - z else z)%Z
  end.

Definition split_sign (s : str) : bool * str :=
  match s with
  | x2d :: s' => (true, s')
  | x2b :: s' => (false, s')
  | _ => (false, s)
  end.

(** [parseInt(s, 10)]: leading white space, an optional sign, the longest run of digits. *)
Definition parse_int (s : str) : jsnum :=
  let '(neg, s') := split_sign (trim_start s) in
  let d := (take_digits s').1 in
  match d with
  | Decimal.Nil => JNaN
  | _ => sign_num neg (double_of_Z (Z.of_N (N.of_uint d)))
  end.

(** [parseInt(undefined, 10)] reads the text "undefined", which is no number. *)
Definition parse_int_opt (o : option str) : jsnum :=
  match o with Some s => parse_int s | None => JNaN end.

(** ** Objects read by a computed key

    [o[k]] on an object literal also finds what [Object.prototype] defines; those
    members are never [null] or [undefined]. *)
Definition object_prototype_keys : list str :=
  [ "constructor"; "__defineGetter__"; "__defineSetter__"; "hasOwnProperty";
    "__lookupGetter__"; "__lookupSetter__"; "isPrototypeOf"; "propertyIsEnumerable";
    "toString"; "valueOf"; "__proto__"; "toLocaleString" ].

Inductive slot (A : Type) :=
  | Own (a : A)
  | Inherited (k : str)
  | Missing.
Arguments Own {A} a.
Arguments Inherited {A} k.
Arguments Missing {A}.

Fixpoint assoc {K A} `{EqDecision K} (k : K) (l : list (K * A)) : option A :=
  match l with
  | [] => None
  | (k', a) :: l' => if k === k' then Some a else assoc k l'
  end.

Definition obj_get {A} (o : list (str * A)) (k : str) : slot A :=
  match assoc k o with
  | Some a => Own a
  | None => if bool_decide (k ∈ object_prototype_keys) then Inherited k else Missing
  end.

(** A value read through such a key where the source expects text. *)
Inductive jsval :=
  | JStr (s : str)
  | JForeign (k : str).   (* the member [k] of [Object.prototype], not text *)

#[export] Instance jsval_eq_dec : EqDecision jsval.
Proof. solve_decision. Defined.

(** [tbl[k] ?? d] and, since the members of the tables are non-empty texts, [tbl[k] || d]. *)
Definition get_or (tbl : list (str * str)) (k : str) (d : str) : jsval :=
  match obj_get tbl k with
  | Own s => JStr s
  | Inherited k => JForeign k
  | Missing => JStr d
  end.

(** [tbl[k]?.f], for a field [f] no member of [Object.prototype] has. *)
Definition get_field {A B} (tbl : list (str * A)) (k : str) (f : A -> B) : option B :=
  match obj_get tbl k with
  | Own a => Some (f a)
  | _ => None
  end.

(** ** [Map] and [Set]: insertion order, one entry per key *)
Section Maps.
Context {K A : Type} `{EqDecision K}.

Definition map_has (k : K) (m : list (K * A)) : bool :=
  match assoc k m with Some _ => true | None => false end.

Fixpoint map_set (k : K) (a : A) (m : list (K * A)) : list (K * A) :=
  match m with
  | [] => [(k, a)]
  | (k', a') :: m' => if k === k' then (k', a) :: m' else (k', a') :: map_set k a m'
  end.

Definition map_delete (k : K) (m : list (K * A)) : list (K * A) :=
  List.filter (fun p => p.1 !== k) m.

Definition keys (m : list (K * A)) : list K := m.*1.
Definition values (m : list (K * A)) : list A := m.*2.
End Maps.

(** The elements of [new Set(l)] in iteration order: the first of each value. *)
Fixpoint dedupe_acc {A} `{EqDecision A} (seen l : list A) : list A :=
  match l with
  | [] => []
  | x :: l' => if bool_decide (x ∈ seen) then dedupe_acc seen l'
               else x :: dedupe_acc (seen ++ [x]) l'
  end.
Definition dedupe {A} `{EqDecision A} (l : list A) : list A := dedupe_acc [] l.

(** ** [Array.prototype.sort]: stable, by a comparator *)
Fixpoint insert_by {A} (cmp : A -> A -> Z) (x : A) (l : list A) : list A :=
  match l with
  | [] => [x]
  | y :: l' => if (cmp x y <=? 0)%Z then x :: y :: l' else y :: insert_by cmp x l'
  end.

Fixpoint sort_by {A} (cmp : A -> A -> Z) (l : list A) : list A :=
  match l with
  | [] => []
  | x :: l' => insert_by cmp x (sort_by cmp l')
  end.

(** The default order of [sort()] on strings. Code units order UTF-16 text and bytes
    order UTF-8 text alike, except between supplementary characters and U+E000..U+FFFF. *)
Fixpoint str_cmp (s t : str) : Z :=
  match s, t with
  | [], [] => 0
  | [], _ => -1
  | _, [] => 1
  | a :: s', b :: t' =>
      match (code a ?= code b)%N with Lt => -1 | Gt => 1 | Eq => str_cmp s' t' end
  end%Z.

Definition sort_str (l : list str) : list str := sort_by str_cmp l.

(** [a.slice(0, -1)] and [a[a.length - 1]] *)
Definition but_last {A} (l : list A) : list A := take (length l - 1) l.

(** ** Automation *)
Create HintDb js discriminated.
Create Rewrite HintDb js.

(** Case analysis on the first [bool_decide] of the goal, then simplification. *)
Ltac case_eqb := case_bool_decide; simplify_eq/=; try done.
(** Close a goal that computes. *)
Ltac solve_compute := vm_compute; reflexivity.
(** Close a decidable goal by running its decision procedure. *)
Ltac by_decide :=
  lazymatch goal with |- ?P => apply (proj1 (bool_decide_eq_true P)); vm_compute; reflexivity end.
(** Split the conjunctions and case distinctions of boolean hypotheses. *)
Ltac split_bools :=
  repeat match goal with
  | H : _ && _ = true |- _ => apply andb_true_iff in H as [? ?]
  | H : _ || _ = false |- _ => apply orb_false_iff in H as [? ?]
  | H : negb _ = true |- _ => apply negb_true_iff in H
  | H : negb _ = false |- _ => apply negb_false_iff in H
  | H : bool_decide _ = true |- _ => apply bool_decide_eq_true in H
  | H : bool_decide _ = false |- _ => apply bool_decide_eq_false in H
  end.

(** ** Lemmas on strings *)
Lemma truthy_nonempty s : truthy s = true <-> s <> [].
Proof. by destruct s. Qed.

Lemma or_s_truthy s d : truthy s = true -> or_s s d = s.
Proof. unfold or_s. by intros ->. Qed.

Lemma eqb_refl {A} `{EqDecision A} (x : A) : (x === x) = true.
Proof. by apply bool_decide_eq_true. Qed.
#[export] Hint Rewrite @eqb_refl : js.

Lemma starts_with_spec p s : starts_with p s = true <-> exists t, s = p ++ t.
Proof.
  revert s; induction p as [|a p IH]; intros s; simpl.
  - split; [by exists s | done].
  - destruct s as [|b s]; [split; [done | by intros [??]]|].
    rewrite andb_true_iff, bool_decide_eq_true, IH.
    split; [intros [-> [t ->]]; by exists t | intros [t ?]; simplify_eq; eauto].
Qed.

Lemma starts_with_app p t : starts_with p (p ++ t) = true.
Proof. apply starts_with_spec; eauto. Qed.
#[export] Hint Rewrite starts_with_app : js.

Lemma strip_prefix_app p t : strip_prefix p (p ++ t) = t.
Proof. unfold strip_prefix. rewrite starts_with_app. apply drop_app_length. Qed.

Lemma includes_spec p s : includes p s = true <-> exists u v, s = u ++ p ++ v.
Proof.
  induction s as [|b s IH]; simpl.
  - rewrite orb_false_r, starts_with_spec.
    split; [intros [t ?]; by exists [], t | intros (u & v & E)].
    destruct u; [by exists v | done].
  - rewrite orb_true_iff, starts_with_spec, IH. split.
    + intros [[t E] | (u & v & ->)]; [by exists [], t | by exists (b :: u), v].
    + intros (u & v & E). destruct u as [|c u]; simplify_eq/=; [left | right]; eauto.
Qed.

Lemma includes_byte c s : includes [c] s = true <-> c ∈ s.
Proof.
  rewrite includes_spec. split.
  - intros (u & v & ->). set_solver.
  - intros [u [v ->]]%list_elem_of_split. by exists u, v.
Qed.

Lemma includes_byte_false c s : c ∉ s -> includes [c] s = false.
Proof. intros H. apply not_true_iff_false. by rewrite includes_byte. Qed.

Lemma cut_none c s : c ∉ s -> cut c s = (s, None).
Proof.
  induction s as [|b s IH]; simpl; [done|]. intros H.
  rewrite bool_decide_eq_false_2 by set_solver. rewrite IH by set_solver. done.
Qed.

Lemma cut_some c h t : c ∉ h -> cut c (h ++ c :: t) = (h, Some t).
Proof.
  induction h as [|b h IH]; simpl; intros H; [by rewrite eqb_refl|].
  rewrite bool_decide_eq_false_2 by set_solver. rewrite IH by set_solver. done.
Qed.

Lemma cut_inv c s h t : cut c s = (h, t) ->
  c ∉ h /\ s = h ++ (match t with Some t => c :: t | None => [] end).
Proof.
  revert h t; induction s as [|b s IH]; simpl; intros h t E; simplify_eq/=; [set_solver|].
  case_bool_decide; simplify_eq/=; [set_solver|].
  destruct (cut c s) as [h' t'] eqn:E'. simplify_eq/=.
  destruct (IH _ _ eq_refl) as [? ->]. set_solver.
Qed.

Lemma split_on_none c s : c ∉ s -> split_on c s = [s].
Proof.
  induction s as [|b s IH]; simpl; [done|]. intros H.
  rewrite bool_decide_eq_false_2 by set_solver. by rewrite IH by set_solver.
Qed.

Lemma split_on_app c h t : c ∉ h -> split_on c (h ++ c :: t) = h :: split_on c t.
Proof.
  induction h as [|b h IH]; simpl; intros H; [by rewrite eqb_refl|].
  rewrite bool_decide_eq_false_2 by set_solver. by rewrite IH by set_solver.
Qed.

Lemma join_cons2 sep x y l : join sep (x :: y :: l) = x ++ sep ++ join sep (y :: l).
Proof. done. Qed.

Lemma split_join c l :
  l <> [] -> Forall (fun s => c ∉ s) l -> split_on c (join [c] l) = l.
Proof.
  induction l as [|x l IH]; intros Hne Hf; [done|]. inversion Hf; subst.
  destruct l as [|y l]; [by apply split_on_none|].
  rewrite join_cons2. cbn [app]. rewrite split_on_app by done. by rewrite IH.
Qed.

Lemma switch_default {A} d (cs : list (str * A)) x :
  d ∉ cs.*1 -> switch d cs x = x.
Proof.
  induction cs as [|[k v] cs IH]; simpl; [done|]. intros H.
  rewrite bool_decide_eq_false_2 by set_solver. apply IH. set_solver.
Qed.

Lemma switch_in {A} (P : A -> Prop) d (cs : list (str * A)) x :
  Forall P cs.*2 -> P x -> P (switch d cs x).
Proof.
  induction cs as [|[k v] cs IH]; simpl; [done|]. intros [??]%Forall_cons ?. case_eqb; auto.
Qed.

(** ** Lemmas on numbers as text *)
Lemma take_digits_of_uint d r :
  (match r with b :: _ => is_digit b = false | [] => True end) ->
  take_digits (str_of_uint d ++ r) = (d, r).
Proof.
  intros Hr. induction d as [|d IH|d IH|d IH|d IH|d IH|d IH|d IH|d IH|d IH|d IH];
    simpl; rewrite ?IH; try done.
  destruct r as [|b r]; [done|]. by destruct b; vm_compute in Hr.
Qed.

Lemma uint_not_nil n : N.to_uint n <> Decimal.Nil.
Proof.
  intros E. assert (n = 0%N) as -> by (rewrite <- (DecimalN.Unsigned.of_to n), E; done).
  done.
Qed.

Lemma show_N_nonempty n : show_N n <> [].
Proof. unfold show_N. pose proof (uint_not_nil n). by destruct (N.to_uint n). Qed.

Lemma str_of_uint_digits d : Forall (fun b => is_digit b = true) (str_of_uint d).
Proof. induction d; simpl; constructor; done. Qed.

Lemma show_N_digits n : Forall (fun b => is_digit b = true) (show_N n).
Proof. apply str_of_uint_digits. Qed.

Lemma digits_head s :
  Forall (fun b => is_digit b = true) s -> trim_start s = s /\ split_sign s = (false, s).
Proof. intros [|b s' Hb _]; [done|]. by destruct b; vm_compute in Hb. Qed.

Lemma double_of_Z_small z : (Z.abs z <= 2 ^ 53)%Z -> double_of_Z z = JNum z.
Proof. intros H. unfold double_of_Z. by rewrite (proj2 (Z.leb_le _ _)). Qed.

(** Reading back an integer that was printed. *)
Lemma parse_int_show_N n :
  (Z.of_N n <= 2 ^ 53)%Z -> parse_int (show_N n) = JNum (Z.of_N n).
Proof.
  intros Hn. unfold parse_int.
  destruct (digits_head _ (show_N_digits n)) as [-> ->]. unfold show_N.
  rewrite <- (app_nil_r (str_of_uint _)), take_digits_of_uint by done. simpl.
  pose proof (uint_not_nil n) as Hnn. pose proof (DecimalN.Unsigned.of_to n) as Hof.
  destruct (N.to_uint n); try done; rewrite Hof, double_of_Z_small by lia; done.
Qed.

(** ** Lemmas on [Map], [Set] and [sort] *)
Section MapLemmas.
Context {K A : Type} `{EqDecision K}.
Implicit Types (k : K) (a : A) (m : list (K * A)).

Lemma assoc_map_set k k' a m :
  assoc k (map_set k' a m) = if k === k' then Some a else assoc k m.
Proof.
  induction m as [|[k1 a1] m IH]; simpl.
  - repeat case_eqb.
  - destruct (bool_decide_reflect (k' = k1)); simpl; [subst|rewrite IH];
      repeat case_bool_decide; simplify_eq/=; done.
Qed.

Lemma assoc_elem k a m : assoc k m = Some a -> (k, a) ∈ m.
Proof. induction m as [|[k1 a1] m IH]; simpl; [done|]. case_eqb; set_solver. Qed.

Lemma assoc_None k m : assoc k m = None <-> k ∉ keys m.
Proof.
  induction m as [|[k1 a1] m IH]; simpl; [set_solver|].
  case_eqb; [set_solver|]. rewrite IH. unfold keys. simpl. set_solver.
Qed.

Lemma assoc_unique k a m : NoDup (keys m) -> (k, a) ∈ m -> assoc k m = Some a.
Proof.
  induction m as [|[k1 a1] m IH]; simpl; [set_solver|].
  unfold keys; simpl; intros [Hn Hd]%NoDup_cons [E|Hin]%elem_of_cons.
  - simplify_eq. by rewrite eqb_refl.
  - case_eqb; [|auto]. destruct Hn. apply list_elem_of_fmap. by exists (k1, a).
Qed.

Lemma map_has_spec k m : map_has k m = true <-> k ∈ keys m.
Proof.
  unfold map_has. pose proof (assoc_None k m) as H.
  destruct (assoc k m) as [a|] eqn:E; split; intros; try done.
  - apply list_elem_of_fmap. exists (k, a). split; [done|]. by apply assoc_elem.
  - naive_solver.
Qed.

Lemma keys_map_set k a m :
  keys (map_set k a m) = if map_has k m then keys m else keys m ++ [k].
Proof.
  unfold map_has, keys. induction m as [|[k1 a1] m IH]; simpl; [done|].
  case_eqb. rewrite IH. by destruct (assoc k m).
Qed.

Lemma NoDup_map_set k a m : NoDup (keys m) -> NoDup (keys (map_set k a m)).
Proof.
  intros H. rewrite keys_map_set. destruct (map_has k m) eqn:E; [done|].
  apply NoDup_app; split_and!; [done| |apply NoDup_singleton].
  intros x Hx ->%list_elem_of_singleton. apply map_has_spec in Hx. congruence.
Qed.

Lemma elem_of_keys_map_set k k' a m :
  k ∈ keys (map_set k' a m) <-> k = k' \/ k ∈ keys m.
Proof.
  rewrite keys_map_set. destruct (map_has k' m) eqn:E; [|set_solver].
  apply map_has_spec in E. naive_solver.
Qed.
End MapLemmas.

Section DedupeLemmas.
Context {A : Type} `{EqDecision A}.
Implicit Types l seen : list A.

Lemma elem_of_dedupe_acc x seen l : x ∈ dedupe_acc seen l <-> x ∈ l /\ x ∉ seen.
Proof.
  revert seen; induction l as [|y l IH]; intros seen; simpl; [set_solver|].
  case_bool_decide; rewrite ?elem_of_cons, IH.
  - naive_solver.
  - rewrite not_elem_of_app, list_elem_of_singleton. destruct (decide (x = y)); naive_solver.
Qed.

Lemma NoDup_dedupe_acc seen l : NoDup (dedupe_acc seen l).
Proof.
  revert seen; induction l as [|y l IH]; intros seen; simpl; [constructor|].
  case_bool_decide; [done|]. constructor; [|done].
  rewrite elem_of_dedupe_acc. set_solver.
Qed.

Lemma elem_of_dedupe x l : x ∈ dedupe l <-> x ∈ l.
Proof. unfold dedupe. rewrite elem_of_dedupe_acc. set_solver. Qed.

Lemma NoDup_dedupe l : NoDup (dedupe l).
Proof. apply NoDup_dedupe_acc. Qed.

Lemma dedupe_acc_NoDup seen l :
  NoDup l -> (forall x, x ∈ l -> x ∉ seen) -> dedupe_acc seen l = l.
Proof.
  revert seen; induction l as [|y l IH]; intros seen; simpl; [done|].
  intros [Hy Hl]%NoDup_cons Hs. rewrite bool_decide_eq_false_2 by set_solver.
  f_equal. apply IH; [done|]. intros x Hx.
  rewrite not_elem_of_app, list_elem_of_singleton. split; [set_solver|]. by intros ->.
Qed.

Lemma dedupe_NoDup l : NoDup l -> dedupe l = l.
Proof. intros H. apply dedupe_acc_NoDup; set_solver. Qed.
End DedupeLemmas.

Section SortLemmas.
Context {A : Type} (cmp : A -> A -> Z).

Lemma insert_by_Permutation x l : insert_by cmp x l ≡ₚ x :: l.
Proof.
  induction l as [|y l IH]; simpl; [done|].
  case_match; [done|]. rewrite IH. by constructor.
Qed.

Lemma sort_by_Permutation l : sort_by cmp l ≡ₚ l.
Proof. induction l as [|x l IH]; simpl; [done|]. by rewrite insert_by_Permutation, IH. Qed.

Lemma elem_of_sort_by x l : x ∈ sort_by cmp l <-> x ∈ l.
Proof. by rewrite sort_by_Permutation. Qed.

Lemma length_sort_by l : length (sort_by cmp l) = length l.
Proof. apply Permutation_length, sort_by_Permutation. Qed.

Definition le_by (x y : A) : Prop := (cmp x y <= 0)%Z.

Hypothesis cmp_total : forall x y, (0 < cmp x y)%Z -> le_by y x.
Hypothesis cmp_trans : forall x y z, le_by x y -> le_by y z -> le_by x z.

Lemma insert_by_Sorted x l :
  StronglySorted le_by l -> StronglySorted le_by (insert_by cmp x l).
Proof using cmp_total cmp_trans.
  induction 1 as [|y l Hs IH Hall]; simpl; [repeat constructor|].
  destruct (cmp x y <=? 0)%Z eqn:E.
  - apply Z.leb_le in E. repeat constructor; try done.
    eapply Forall_impl; [exact Hall|]. intros z ?. by eapply cmp_trans.
  - apply Z.leb_gt in E. constructor; [done|].
    rewrite insert_by_Permutation. constructor; auto.
Qed.

Lemma sort_by_Sorted l : StronglySorted le_by (sort_by cmp l).
Proof using cmp_total cmp_trans.
  induction l; simpl; [constructor|]. by apply insert_by_Sorted.
Qed.
End SortLemmas.

Lemma str_cmp_refl s : str_cmp s s = 0%Z.
Proof. induction s; simpl; [done|]. by rewrite N.compare_refl. Qed.

Lemma code_inj a b : code a = code b -> a = b.
Proof.
  unfold code. intros E. apply (f_equal Byte.of_N) in E. rewrite !Byte.of_to_N in E. congruence.
Qed.

Lemma str_cmp_eq s t : str_cmp s t = 0%Z -> s = t.
Proof.
  revert t; induction s as [|a s IH]; intros [|b t]; simpl; try done.
  destruct (N.compare_spec (code a) (code b)) as [E| |]; try done.
  intros H. f_equal; [by apply code_inj | auto].
Qed.

Lemma str_cmp_total s t : (0 < str_cmp s t)%Z -> le_by str_cmp t s.
Proof.
  unfold le_by. revert t; induction s as [|a s IH]; intros [|b t]; simpl; try done.
  rewrite (N.compare_antisym (code a) (code b)).
  destruct (code a ?= code b)%N; simpl; auto; lia.
Qed.

Lemma str_cmp_antisym s t : Z.sgn (str_cmp t s) = (- Z.sgn (str_cmp s t))%Z.
Proof.
  revert t; induction s as [|a s IH]; intros [|b t]; simpl; try done.
  rewrite (N.compare_antisym (code a) (code b)). destruct (code a ?= code b)%N; simpl; auto.
Qed.

Lemma str_cmp_trans s t u : le_by str_cmp s t -> le_by str_cmp t u -> le_by str_cmp s u.
Proof.
  unfold le_by. revert t u; induction s as [|a s IH]; intros [|b t] [|c u]; simpl; try done.
  destruct (N.compare_spec (code a) (code b)) as [E1|L1|L1];
    destruct (N.compare_spec (code b) (code c)) as [E2|L2|L2];
    destruct (N.compare_spec (code a) (code c)) as [E3|L3|L3]; intros; try lia; eauto.
Qed.

Lemma sort_str_Sorted l : StronglySorted (le_by str_cmp) (sort_str l).
Proof. apply sort_by_Sorted; [apply str_cmp_total | apply str_cmp_trans]. Qed.

#[export] Instance str_cmp_anti : AntiSymm (=) (le_by str_cmp).
Proof.
  intros s t H1 H2. unfold le_by in *. apply str_cmp_eq. pose proof (str_cmp_antisym s t). lia.
Qed.

(** Sorting text forgets the order it came in. *)
Lemma sort_str_perm l l' : l ≡ₚ l' -> sort_str l = sort_str l'.
Proof.
  intros Hp. apply (StronglySorted_unique (le_by str_cmp)); [apply sort_str_Sorted..|].
  unfold sort_str. by rewrite !sort_by_Permutation.
Qed.

(** ** What the locale decides

    Case mapping and collation come from the host's Unicode and locale data, which no
    source of the repository fixes. The code relies on collation being a consistent
    comparator: antisymmetric and transitive, as ECMA-402 requires of [localeCompare]. *)
Class Locale := {
  toLowerCase : str -> str;
  toUpperCase : str -> str;
  localeCompare : str -> str -> Z;
  localeCompare_antisym : forall a b, Z.sgn (localeCompare b a) = (- Z.sgn (localeCompare a b))%Z;
  localeCompare_trans : forall a b c,
    le_by localeCompare a b -> le_by localeCompare b c -> le_by localeCompare a c }.

(** A concrete locale: ASCII case mapping and code order. *)
Definition shift_byte (from to : N) (d : Z) (b : byte) : byte :=
  if in_range from to b then default b (Byte.of_N (Z.to_N (Z.of_N (code b) + d))) else b.

#[export] Instance ascii_locale : Locale | 100 := {
  toLowerCase := fmap (shift_byte 65 90 32);
  toUpperCase := fmap (shift_byte 97 122 (-32));
  localeCompare := str_cmp;
  localeCompare_antisym := str_cmp_antisym;
  localeCompare_trans := str_cmp_trans }.

Lemma localeCompare_total `{Locale} a b :
  (0 < localeCompare a b)%Z -> le_by localeCompare b a.
Proof. unfold le_by. pose proof (localeCompare_antisym a b). lia. Qed.

(** The comparator [a || b] chains: the first that tells the two apart. *)
Definition cmp_or (a b : Z) : Z := if (a =? 0)%Z then b else a.

(** ** Grouping: the loop that finds the row of an element's key in a [Map], makes it when
    it is not there, and updates it *)
Section Grouping.
Context {K A R : Type} `{EqDecision K} (key : A -> K) (new : K -> R) (add : R -> A -> R).

Definition group_step (m : list (K * R)) (x : A) : list (K * R) :=
  map_set (key x) (add (nullish (assoc (key x) m) (new (key x))) x) m.

Definition group_by (l : list A) : list (K * R) := fold_left group_step l [].

(** The row of [k]: the elements of that key, added in order to a new row. *)
Definition group_row (l : list A) (k : K) : R :=
  fold_left add (List.filter (fun x => key x === k) l) (new k).

Lemma dedupe_acc_snoc (seen l : list K) x :
  dedupe_acc seen (l ++ [x]) =
    dedupe_acc seen l ++ (if bool_decide (x ∈ seen ++ l) then [] else [x]).
Proof.
  revert seen. induction l as [|y l IH]; intros seen; simpl.
  - rewrite app_nil_r. by case_bool_decide.
  - case_bool_decide as Hy; rewrite IH; simpl.
    + f_equal. rewrite (bool_decide_ext (x ∈ seen ++ y :: l) (x ∈ seen ++ l)); [done|]. set_solver.
    + do 2 f_equal. rewrite <- app_assoc. done.
Qed.

Lemma dedupe_snoc (l : list K) x :
  dedupe (l ++ [x]) = dedupe l ++ (if bool_decide (x ∈ l) then [] else [x]).
Proof. apply dedupe_acc_snoc. Qed.

Lemma group_row_snoc l x k :
  group_row (l ++ [x]) k = if key x === k then add (group_row l k) x else group_row l k.
Proof.
  unfold group_row. rewrite List.filter_app, fold_left_app. simpl. by case_bool_decide.
Qed.

Lemma assoc_fmap_keys (f : K -> R) (ks : list K) k :
  assoc k ((fun k => (k, f k)) <$> ks) = if bool_decide (k ∈ ks) then Some (f k) else None.
Proof using Type.
  clear new add.
  induction ks as [|k1 ks IH]; [done|]. rewrite fmap_cons. cbn [assoc].
  destruct (decide (k = k1)) as [->|Hne]; [by rewrite eqb_refl, bool_decide_eq_true_2 by set_solver|].
  rewrite bool_decide_eq_false_2 by done. rewrite IH.
  apply (f_equal (fun b : bool => if b then Some (f k) else None)). apply bool_decide_ext. set_solver.
Qed.

Lemma map_set_fmap (f g : K -> R) (ks : list K) k :
  NoDup ks -> (forall k', k' <> k -> g k' = f k') ->
  map_set k (g k) ((fun k => (k, f k)) <$> ks) =
    (fun k => (k, g k)) <$> (ks ++ (if bool_decide (k ∈ ks) then [] else [k])).
Proof.
  intros Hn Hg. induction ks as [|k1 ks IH]; [done|]. apply NoDup_cons in Hn as [Hk1 Hn].
  rewrite fmap_cons. cbn [map_set app]. rewrite fmap_cons.
  destruct (decide (k = k1)) as [->|Hne].
  - rewrite eqb_refl, bool_decide_eq_true_2, app_nil_r by set_solver. f_equal.
    apply list_fmap_ext. intros i k' Hi. rewrite Hg; [done|].
    intros ->. apply Hk1. by eapply list_elem_of_lookup_2.
  - rewrite bool_decide_eq_false_2 by done. rewrite (Hg k1) by congruence. f_equal. rewrite IH by done.
    assert (bool_decide (k ∈ k1 :: ks) = bool_decide (k ∈ ks)) as ->; [|done].
    apply bool_decide_ext. set_solver.
Qed.

(** The loop gives one row per key, in order of first appearance, each the sum of its
    own elements. *)
Lemma group_by_rows (l : list A) :
  group_by l = (fun k => (k, group_row l k)) <$> dedupe (key <$> l).
Proof.
  unfold group_by. induction l as [|x l IH] using rev_ind; [done|].
  rewrite fold_left_app. simpl. rewrite IH. unfold group_step at 1.
  rewrite fmap_app. change (key <$> [x]) with [key x]. rewrite dedupe_snoc.
  assert (add (nullish (assoc (key x) ((fun k => (k, group_row l k)) <$> dedupe (key <$> l))) (new (key x))) x
    = group_row (l ++ [x]) (key x)) as ->.
  { rewrite group_row_snoc, eqb_refl, assoc_fmap_keys. case_bool_decide as Hin; [done|]. simpl.
    unfold group_row. assert (List.filter (fun y => key y === key x) l = []) as ->; [|done].
    destruct (List.filter _ l) as [|y t] eqn:E; [done|]. destruct Hin.
    assert (y ∈ List.filter (fun y => key y === key x) l) as Hy by (rewrite E; set_solver).
    apply list_elem_of_In, filter_In in Hy as [Hy Hk]. apply bool_decide_eq_true in Hk.
    rewrite elem_of_dedupe, <- Hk. apply list_elem_of_fmap. exists y. by rewrite list_elem_of_In. }
  rewrite map_set_fmap.
  - do 2 f_equal. f_equal. apply (f_equal (fun b : bool => if b then [] else [key x])).
    apply bool_decide_ext. by rewrite elem_of_dedupe.
  - apply NoDup_dedupe.
  - intros k Hk. rewrite group_row_snoc. by rewrite bool_decide_eq_false_2 by congruence.
Qed.

End Grouping.

Section Partition.
Context {K A : Type} `{EqDecision K} (key : A -> K).

Lemma filter_filter_ne (l : list A) k k' :
  k' <> k ->
  List.filter (fun x => key x === k') l =
  List.filter (fun x => key x === k') (List.filter (fun x => key x !== k) l).
Proof.
  intros Hk. induction l as [|x l IH]; simpl; [done|].
  destruct (decide (key x = k)) as [E|E].
  - rewrite (bool_decide_eq_true_2 (key x = k)), (bool_decide_eq_false_2 (key x = k')) by congruence.
    exact IH.
  - rewrite (bool_decide_eq_false_2 (key x = k)) by done. simpl. by rewrite IH.
Qed.

(** Every element is in the group of its key, and in no other. *)
Lemma groups_Permutation (l : list A) (ks : list K) :
  NoDup ks -> (forall x, x ∈ l -> key x ∈ ks) ->
  concat ((fun k => List.filter (fun x => key x === k) l) <$> ks) ≡ₚ l.
Proof.
  intros Hn. revert l. induction Hn as [|k ks Hk Hn IH]; intros l Hl; simpl.
  - destruct l as [|x l]; [done|]. specialize (Hl x). set_solver.
  - transitivity (List.filter (fun x => key x === k) l ++ List.filter (fun x => key x !== k) l).
    + f_equiv. rewrite <- (IH (List.filter (fun x => key x !== k) l)).
      * erewrite list_fmap_ext; [reflexivity|]. intros i k' Hi.
        apply list_elem_of_lookup_2 in Hi. apply filter_filter_ne. set_solver.
      * intros x Hx. apply list_elem_of_In, filter_In in Hx as [Hx Hxk]. apply list_elem_of_In, Hl in Hx.
        split_bools. set_solver.
    + clear. induction l as [|x l IH]; simpl; [done|]. destruct (bool_decide (key x = k)); simpl.
      * by rewrite IH.
      * rewrite <- Permutation_middle. by rewrite IH.
Qed.
End Partition.

Lemma fold_left_concat {A B S} (f : S -> B -> S) (h : A -> list B) (l : list A) (s : S) :
  fold_left (fun s x => fold_left f (h x) s) l s = fold_left f (concat (h <$> l)) s.
Proof. revert s. induction l as [|x l IH]; intros s; simpl; [done|]. by rewrite fold_left_app, IH. Qed.

Lemma filter_sublist {A} (p : A -> bool) (l : list A) : sublist (List.filter p l) l.
Proof. induction l as [|x l IH]; simpl; [done|]. destruct (p x); by constructor. Qed.

(** Membership in a filtered list, by its test. *)
Lemma elem_of_lfilter {A} (p : A -> bool) (l : list A) x : x ∈ List.filter p l <-> x ∈ l /\ p x = true.
Proof. by rewrite !list_elem_of_In, filter_In. Qed.

Lemma elem_of_concat {A} (x : A) (ls : list (list A)) : x ∈ concat ls <-> exists l, x ∈ l /\ l ∈ ls.
Proof. rewrite list_elem_of_In, in_concat. setoid_rewrite list_elem_of_In. naive_solver. Qed.

Lemma fold_left_ext {A B} (f g : A -> B -> A) l a :
  (forall a b, f a b = g a b) -> fold_left f l a = fold_left g l a.
Proof. intros Hfg. revert a. induction l as [|x l IH]; intros a; simpl; [done|]. by rewrite Hfg, IH. Qed.

(** ** Maps filled with fresh keys *)
Section Fresh.
Context {K V A : Type} `{EqDecision K}.

Lemma map_set_fresh (k : K) (v : V) m : k ∉ keys m -> map_set k v m = m ++ [(k, v)].
Proof.
  induction m as [|[k' v'] m IH]; simpl; [done|]. intros Hk. change (k ∉ k' :: keys m) in Hk.
  apply not_elem_of_cons in Hk as [Hne Hk]. rewrite bool_decide_eq_false_2 by done. by rewrite IH.
Qed.

Lemma fold_set_fresh (f : A -> K) (g : A -> V) l m :
  NoDup (keys m ++ (f <$> l)) ->
  fold_left (fun m x => map_set (f x) (g x) m) l m = m ++ ((fun x => (f x, g x)) <$> l).
Proof.
  revert m. induction l as [|x l IH]; intros m Hn; simpl; [by rewrite app_nil_r|].
  rewrite fmap_cons in Hn. rewrite map_set_fresh.
  - rewrite IH; [by rewrite <- app_assoc|]. unfold keys in *. rewrite fmap_app. simpl. by rewrite <- app_assoc.
  - apply NoDup_app in Hn as (_ & Hd & _). intros Hk. apply (Hd _ Hk). by left.
Qed.
End Fresh.

(** ** Numbers as text are distinct, and text is cut at a separator *)
Lemma str_of_uint_inj d d' : str_of_uint d = str_of_uint d' -> d = d'.
Proof.
  intros E. pose proof (take_digits_of_uint d [] ltac:(done)) as H1. pose proof (take_digits_of_uint d' [] ltac:(done)) as H2.
  rewrite app_nil_r in H1, H2. rewrite E in H1. congruence.
Qed.

Lemma show_N_inj n n' : show_N n = show_N n' -> n = n'.
Proof.
  intros E%str_of_uint_inj. rewrite <- (DecimalN.Unsigned.of_to n), <- (DecimalN.Unsigned.of_to n').
  by rewrite E.
Qed.

Lemma show_Z_digits z : exists s ds, show_Z z = s ++ ds /\ (s = [] \/ s = "-") /\ Forall (fun b => is_digit b = true) ds.
Proof.
  destruct z as [|p|p]; simpl; [exists [], "0"|exists [], (show_N (N.pos p))|exists "-", (show_N (N.pos p))];
    split_and!; auto using show_N_digits.
Qed.

Lemma show_Z_inj z z' : show_Z z = show_Z z' -> z = z'.
Proof.
  assert (forall p p', show_N (N.pos p) = "-" ++ show_N (N.pos p') -> False) as Hs.
  { intros p p' E. pose proof (show_N_digits (N.pos p)) as Hd. rewrite E in Hd. by apply Forall_cons in Hd as [Hd _]. }
  assert (("0" : str) = show_N 0) as H0 by done.
  destruct z as [|p|p], z' as [|p'|p']; simpl; intros E; try done.
  - rewrite H0 in E. by apply show_N_inj in E.
  - rewrite H0 in E. by apply show_N_inj in E.
  - apply show_N_inj in E. congruence.
  - by apply Hs in E.
  - symmetry in E. by apply Hs in E.
  - injection E as E. apply show_N_inj in E. congruence.
Qed.

Lemma pipe_not_in_show z : x7c ∉ show_Z z.
Proof.
  destruct (show_Z_digits z) as (s & ds & -> & Hs & Hd). intros [H|H]%elem_of_app.
  - destruct Hs as [->| ->]; [by apply not_elem_of_nil in H|]. by apply list_elem_of_singleton in H.
  - rewrite Forall_forall in Hd. by apply Hd in H.
Qed.

(** Cutting at the first or the last separator. *)
Lemma cut_first c (a b x y : str) : c ∉ a -> c ∉ b -> a ++ c :: x = b ++ c :: y -> a = b /\ x = y.
Proof.
  intros Ha Hb E. pose proof (cut_some c a x Ha) as H1. pose proof (cut_some c b y Hb) as H2. rewrite E in H1.
  split; congruence.
Qed.

Lemma cut_last c (a b x y : str) : c ∉ a -> c ∉ b -> x ++ c :: a = y ++ c :: b -> x = y /\ a = b.
Proof.
  intros Ha Hb E. apply (f_equal reverse) in E. rewrite !reverse_app, !reverse_cons, <- !app_assoc in E. cbn [app] in E.
  apply cut_first in E as [E1 E2]; [|by rewrite elem_of_reverse..]. split; by apply (inj reverse).
Qed.

(** ** Deleting from a map *)
Section Deleting.
Context {K A : Type} `{EqDecision K}.

Lemma assoc_delete (k k' : K) (m : list (K * A)) :
  assoc k' (map_delete k m) = if k' === k then None else assoc k' m.
Proof.
  unfold map_delete. induction m as [|[k1 a] m IH]; [by case_bool_decide|]. cbn [List.filter fst assoc].
  destruct (decide (k1 = k)) as [->|Hk].
  - rewrite eqb_refl. cbn [negb]. rewrite IH. by case_bool_decide.
  - rewrite (bool_decide_eq_false_2 (k1 = k)) by done. cbn [negb assoc]. rewrite IH.
    case_bool_decide as E; [|done]. subst. by rewrite bool_decide_eq_false_2.
Qed.

Lemma NoDup_keys_filter (p : K * A -> bool) (m : list (K * A)) : NoDup (keys m) -> NoDup (keys (List.filter p m)).
Proof. intros Hn. eapply sublist_NoDup; [exact Hn|]. apply fmap_sublist, filter_sublist. Qed.

Lemma length_map_set (k : K) (a a' : A) m : length (map_set k a m) = length (map_set k a' m).
Proof. induction m as [|[k' b] m IH]; [done|]. simpl. case_bool_decide; simpl; congruence. Qed.

(** Keeping a part of a map keeps the values of the keys that stay. *)
Lemma assoc_sublist (k : K) (a : A) m m' : sublist m' m -> NoDup (keys m) -> assoc k m' = Some a -> assoc k m = Some a.
Proof.
  intros Hs Hn Ha%assoc_elem. apply assoc_unique; [done|]. eapply elem_of_submseteq; [exact Ha|by apply sublist_submseteq].
Qed.
End Deleting.
