(* ===== verification/Uri.v ===== *)
(** * URI components and [URLSearchParams]

    The language's own URL functions the router is written with: [encodeURIComponent],
    [decodeURIComponent] (ECMA-262 Encode and Decode) and the [URLSearchParams] of the
    URL standard, over strings held as UTF-8 bytes. *)

From stdpp Require Import base list gmap.
From Stdlib Require Import Init.Byte ZArith NArith Lia.
From S2P Require Import Prelude.

(** ** UTF-8 *)

Definition is_ascii (b : byte) : bool := (code b <=? 127)%N.
Definition is_cont (b : byte) : bool := in_range 128 191 b.
Definition lead2 (b : byte) : bool := in_range 194 223 b.
Definition lead3 (b : byte) : bool := in_range 224 239 b.
Definition lead4 (b : byte) : bool := in_range 240 244 b.

(** The range of the second byte, which rules out overlong forms, surrogates and code
    points past U+10FFFF. *)
Definition second_lo (a : byte) : N :=
  if a === xe0 then 160 else if a === xf0 then 144 else 128.
Definition second_hi (a : byte) : N :=
  if a === xed then 159 else if a === xf4 then 143 else 191.
Definition second_ok (a b : byte) : bool := in_range (second_lo a) (second_hi a) b.

(** [u] is the encoding of one code point. *)
Definition is_code_point (u : str) : bool :=
  match u with
  | [a] => is_ascii a
  | [a; b] => lead2 a && is_cont b
  | [a; b; c] => lead3 a && second_ok a b && is_cont c
  | [a; b; c; d] => lead4 a && second_ok a b && is_cont c && is_cont d
  | _ => false
  end.

(** Well-formed UTF-8, the image of the strings the model represents. *)
Inductive Utf8 : str -> Prop :=
  | Utf8_nil : Utf8 []
  | Utf8_cons u s : is_code_point u = true -> Utf8 s -> Utf8 (u ++ s).

Fixpoint valid_utf8 (s : str) : bool :=
  match s with
  | [] => true
  | a :: s1 =>
      if is_ascii a then valid_utf8 s1
      else match s1 with
      | [] => false
      | b :: s2 =>
          if lead2 a then is_cont b && valid_utf8 s2
          else match s2 with
          | [] => false
          | c :: s3 =>
              if lead3 a then second_ok a b && is_cont c && valid_utf8 s3
              else match s3 with
              | [] => false
              | d :: s4 => lead4 a && second_ok a b && is_cont c && is_cont d && valid_utf8 s4
              end
          end
      end
  end.

(** The UTF-8 decoder of the Encoding standard: a malformed sequence becomes U+FFFD and
    the byte that broke it is read again. *)
Definition replacement : str := [xef; xbf; xbd].

Record decoder := Decoder { pending : str; needed : nat; low : N; high : N }.
Definition fresh : decoder := Decoder [] 0 128 191.

Definition decode_first (b : byte) : str * decoder :=
  if is_ascii b then ([b], fresh)
  else if lead2 b then ([], Decoder [b] 1 128 191)
  else if lead3 b then ([], Decoder [b] 2 (second_lo b) (second_hi b))
  else if lead4 b then ([], Decoder [b] 3 (second_lo b) (second_hi b))
  else (replacement, fresh).

Definition decode_byte (d : decoder) (b : byte) : str * decoder :=
  match needed d with
  | 0 => decode_first b
  | S n =>
      if in_range (low d) (high d) b then
        let p := pending d ++ [b] in
        if (n =? 0)%nat then (p, fresh) else ([], Decoder p n 128 191)
      else let '(o, d') := decode_first b in (replacement ++ o, d')
  end.

Fixpoint decode_run (d : decoder) (s : str) : str :=
  match s with
  | [] => if (needed d =? 0)%nat then [] else replacement
  | b :: s' => let '(o, d') := decode_byte d b in o ++ decode_run d' s'
  end.

Definition utf8_decode (s : str) : str := decode_run fresh s.

(** ** Percent encoding *)
Definition hex_digits : str := "0123456789ABCDEF".
Definition hex_digit (n : N) : byte := nth (N.to_nat n) hex_digits x30.
Definition pct (b : byte) : str := [x25; hex_digit (code b / 16); hex_digit (code b mod 16)].

Definition hex_val (b : byte) : option N :=
  if is_digit b then Some (code b - 48)%N
  else if in_range 65 70 b then Some (code b - 55)%N
  else if in_range 97 102 b then Some (code b - 87)%N
  else None.

Definition hex_pair (a b : byte) : option byte :=
  h ← hex_val a; l ← hex_val b; Byte.of_N (16 * h + l).

Definition is_alnum (b : byte) : bool := is_digit b || is_lower b || is_upper b.

(** *** [encodeURIComponent] *)
Definition uri_unreserved (b : byte) : bool :=
  is_alnum b || bool_decide (b ∈ ("-_.!~*'()" : str)).

Definition encode_byte (b : byte) : str := if uri_unreserved b then [b] else pct b.
Definition encodeURIComponent (s : str) : str := s ≫= encode_byte.

(** *** [decodeURIComponent]; [None] is a thrown [URIError] *)

(** Each character, or each escape with the byte it stands for. *)
Fixpoint tokens (s : str) : option (list (bool * byte)) :=
  match s with
  | [] => Some []
  | x25 :: s1 =>
      match s1 with
      | a :: b :: s2 => c ← hex_pair a b; r ← tokens s2; Some ((true, c) :: r)
      | _ => None
      end
  | b :: s1 => r ← tokens s1; Some ((false, b) :: r)
  end.

(** Escaped bytes from 128 up must spell a whole code point. *)
Fixpoint detoken (t : list (bool * byte)) : option str :=
  match t with
  | [] => Some []
  | (e, a) :: t1 =>
      if negb e || is_ascii a then r ← detoken t1; Some (a :: r)
      else match t1 with
      | (true, b) :: t2 =>
          if lead2 a then
            if is_cont b then r ← detoken t2; Some (a :: b :: r) else None
          else match t2 with
          | (true, c) :: t3 =>
              if lead3 a then
                if second_ok a b && is_cont c then r ← detoken t3; Some (a :: b :: c :: r)
                else None
              else match t3 with
              | (true, d) :: t4 =>
                  if lead4 a && second_ok a b && is_cont c && is_cont d
                  then r ← detoken t4; Some (a :: b :: c :: d :: r) else None
              | _ => None
              end
          | _ => None
          end
      | _ => None
      end
  end.

Definition decodeURIComponent (s : str) : option str := tokens s ≫= detoken.

(** ** [URLSearchParams] *)
Definition form_safe (b : byte) : bool :=
  is_alnum b || bool_decide (b ∈ ("*-._" : str)).

Definition form_byte (b : byte) : str :=
  if b === x20 then "+" else if form_safe b then [b] else pct b.
Definition form_encode (s : str) : str := s ≫= form_byte.

Definition plus_to_space (s : str) : str := (fun b => if b === x2b then x20 else b) <$> s.

Fixpoint percent_decode (s : str) : str :=
  match s with
  | [] => []
  | x25 :: s1 =>
      match s1 with
      | a :: b :: s2 => match hex_pair a b with
                        | Some c => c :: percent_decode s2
                        | None => x25 :: percent_decode s1
                        end
      | _ => x25 :: percent_decode s1
      end
  | b :: s1 => b :: percent_decode s1
  end.

Definition form_decode (s : str) : str := utf8_decode (percent_decode (plus_to_space s)).

(** One [name=value] of a query; without [=] the value is empty. *)
Definition parse_pair (s : str) : str * str :=
  let '(n, v) := cut x3d s in (form_decode n, form_decode (nullish v [])).

Definition form_parse (s : str) : list (str * str) :=
  parse_pair <$> List.filter truthy (split_on x26 s).

(** [new URLSearchParams(s)] *)
Definition search_params (s : str) : list (str * str) :=
  form_parse (match s with x3f :: s' => s' | _ => s end).

Definition print_pair (p : str * str) : str := form_encode p.1 ++ [x3d] ++ form_encode p.2.

(** [qs.toString()], [qs.get(k)], [qs.set(k, v)], [qs.delete(k)] *)
Definition qs_print (qs : list (str * str)) : str := join [x26] (print_pair <$> qs).
Definition qs_get (qs : list (str * str)) (k : str) : option str := assoc k qs.
Definition qs_delete (k : str) (qs : list (str * str)) : list (str * str) :=
  List.filter (fun p => p.1 !== k) qs.

Fixpoint qs_set (k v : str) (qs : list (str * str)) : list (str * str) :=
  match qs with
  | [] => [(k, v)]
  | (k', v') :: qs' => if k' === k then (k, v) :: qs_delete k qs' else (k', v') :: qs_set k v qs'
  end.

(** [if (v) qs.set(k, v)] *)
Definition qs_set_if (k : str) (v : option str) (qs : list (str * str)) : list (str * str) :=
  if otruthy v then qs_set k (nullish v []) qs else qs.

(** [str ? `${base}?${str}` : base] with [str = qs.toString()] *)
Definition with_query (base : str) (qs : list (str * str)) : str :=
  let s := qs_print qs in if truthy s then base ++ "?" ++ s else base.

(** ** Facts about UTF-8 *)
Lemma Utf8_app s t : Utf8 s -> Utf8 t -> Utf8 (s ++ t).
Proof. induction 1; [done|]. rewrite <- app_assoc. intros. constructor; auto. Qed.

Lemma code_point_cases u : is_code_point u = true ->
  (exists a, u = [a] /\ is_ascii a = true) \/
  (exists a b, u = [a; b] /\ lead2 a = true /\ is_cont b = true) \/
  (exists a b c, u = [a; b; c] /\ lead3 a = true /\ second_ok a b = true /\ is_cont c = true) \/
  (exists a b c d, u = [a; b; c; d] /\ lead4 a = true /\ second_ok a b = true /\
     is_cont c = true /\ is_cont d = true).
Proof.
  destruct u as [|a [|b [|c [|d [|]]]]]; simpl; intros H; try done; split_bools; naive_solver.
Qed.

(** The classes of lead bytes are disjoint. *)
Lemma in_range_spec lo hi b : in_range lo hi b = true <-> (lo <= code b <= hi)%N.
Proof. unfold in_range. rewrite andb_true_iff, !N.leb_le. done. Qed.
Lemma in_range_false lo hi b : in_range lo hi b = false <-> (code b < lo \/ hi < code b)%N.
Proof. rewrite <- not_true_iff_false, in_range_spec. lia. Qed.
Lemma is_ascii_false b : is_ascii b = false <-> (127 < code b)%N.
Proof. unfold is_ascii. apply N.leb_gt. Qed.

Lemma lead2_class a : lead2 a = true -> is_ascii a = false.
Proof. unfold lead2. rewrite in_range_spec, is_ascii_false. lia. Qed.
Lemma lead3_class a : lead3 a = true -> is_ascii a = false /\ lead2 a = false.
Proof. unfold lead2, lead3. rewrite in_range_spec, is_ascii_false, in_range_false. lia. Qed.
Lemma lead4_class a : lead4 a = true -> is_ascii a = false /\ lead2 a = false /\ lead3 a = false.
Proof. unfold lead2, lead3, lead4. rewrite in_range_spec, is_ascii_false, !in_range_false. lia. Qed.
Lemma cont_class b : is_cont b = true -> is_ascii b = false.
Proof. unfold is_cont. rewrite in_range_spec, is_ascii_false. lia. Qed.
Lemma second_class a b : second_ok a b = true -> is_ascii b = false.
Proof.
  unfold second_ok, second_lo, second_hi. rewrite in_range_spec, is_ascii_false.
  repeat case_bool_decide; lia.
Qed.

Ltac lead_class :=
  repeat match goal with
  | H : lead4 _ = true |- _ => rewrite ?(proj1 (lead4_class _ H)),
      ?(proj1 (proj2 (lead4_class _ H))), ?(proj2 (proj2 (lead4_class _ H))), ?H; clear H
  | H : lead3 _ = true |- _ => rewrite ?(proj1 (lead3_class _ H)), ?(proj2 (lead3_class _ H)), ?H; clear H
  | H : lead2 _ = true |- _ => rewrite ?(lead2_class _ H), ?H; clear H
  end.

(** Break a code point into its bytes. *)
Tactic Notation "destruct_code_point" hyp(H) :=
  apply code_point_cases in H as
    [(a & -> & Ha) | [(a & b & -> & Ha & Hb) | [(a & b & c & -> & Ha & Hb & Hc) |
       (a & b & c & d & -> & Ha & Hb & Hc & Hd)]]].

Lemma valid_utf8_spec s : valid_utf8 s = true <-> Utf8 s.
Proof.
  split.
  - induction s as [s IH] using (induction_ltof1 _ (@length byte)); unfold ltof in IH.
    destruct s as [|a s1]; [constructor|]. simpl.
    destruct (is_ascii a) eqn:Ea; [|destruct s1 as [|b s2]; [done|]; destruct (lead2 a) eqn:E2;
      [|destruct s2 as [|c s3]; [done|]; destruct (lead3 a) eqn:E3;
        [|destruct s3 as [|d s4]; [done|]]]]; intros Hv; split_bools.
    + apply (Utf8_cons [a]); [done|]. apply IH; [simpl; lia | done].
    + apply (Utf8_cons [a; b]); [simpl; by apply andb_true_iff |]. apply IH; [simpl; lia | done].
    + apply (Utf8_cons [a; b; c]); [simpl; rewrite !andb_true_iff; done |].
      apply IH; [simpl; lia | done].
    + apply (Utf8_cons [a; b; c; d]); [simpl; rewrite !andb_true_iff; done |].
      apply IH; [simpl; lia | done].
  - induction 1 as [|u s Hu _ IH]; [done|]. destruct_code_point Hu; simpl.
    + by rewrite Ha.
    + lead_class. by rewrite Hb.
    + lead_class. by rewrite Hb, Hc.
    + lead_class. by rewrite Hb, Hc, Hd.
Qed.

#[export] Instance utf8_dec s : Decision (Utf8 s).
Proof.
  destruct (valid_utf8 s) eqn:E; [left; by apply valid_utf8_spec | right].
  intros H%valid_utf8_spec. congruence.
Defined.

(** A text that is well-formed where it is present. *)
Definition outf8 (o : option str) : Prop := match o with Some s => Utf8 s | None => True end.
#[export] Instance outf8_dec o : Decision (outf8 o).
Proof. destruct o; simpl; apply _. Defined.

(** The decoder reads a whole code point back to the bytes it read. *)
Lemma decode_run_code_point u s :
  is_code_point u = true -> decode_run fresh (u ++ s) = u ++ decode_run fresh s.
Proof.
  intros Hu; destruct_code_point Hu; simpl; unfold decode_byte at 1, decode_first; simpl.
  - by rewrite Ha.
  - lead_class. simpl. unfold decode_byte; simpl. unfold is_cont in *. by rewrite Hb.
  - lead_class. simpl. unfold decode_byte at 1; simpl. unfold second_ok, is_cont in *.
    rewrite Hb. simpl. unfold decode_byte at 1; simpl. by rewrite Hc.
  - lead_class. simpl. unfold decode_byte at 1; simpl. unfold second_ok, is_cont in *.
    rewrite Hb. simpl. unfold decode_byte at 1; simpl. rewrite Hc. simpl.
    unfold decode_byte at 1; simpl. by rewrite Hd.
Qed.

Lemma utf8_decode_valid s : Utf8 s -> utf8_decode s = s.
Proof.
  unfold utf8_decode. induction 1 as [|u s Hu _ IH]; [done|].
  by rewrite decode_run_code_point, IH.
Qed.

(** What the decoder holds back is the beginning of a code point. *)
Definition decoder_ok (d : decoder) : Prop :=
  match needed d with
  | 0 => True
  | S n => forall b, in_range (low d) (high d) b = true ->
      forall v, length v = n -> Forall (fun c => is_cont c = true) v ->
      is_code_point (pending d ++ b :: v) = true
  end.

Lemma decode_first_ok b :
  Utf8 (decode_first b).1 /\ decoder_ok (decode_first b).2.
Proof.
  unfold decode_first.
  destruct (is_ascii b) eqn:E1; [split; [by apply (Utf8_cons [b]); [|constructor] | done]|].
  destruct (lead2 b) eqn:E2; [split; [constructor|]|].
  { intros c Hc v Hv%nil_length_inv _; subst. simpl. by rewrite E2. }
  destruct (lead3 b) eqn:E3; [split; [constructor|]|].
  { intros c Hc [|d [|]] Hv Hf; try done. inversion Hf; subst. simpl.
    unfold second_ok. by rewrite E3, !andb_true_iff. }
  destruct (lead4 b) eqn:E4; [split; [constructor|]|].
  { intros c Hc [|d [|e [|]]] Hv Hf; try done. inversion Hf as [|? ? ? Hf']; subst.
    inversion Hf'; subst. simpl. unfold second_ok. by rewrite E4, !andb_true_iff. }
  split; [by apply (Utf8_cons replacement []); [|constructor] | done].
Qed.

Lemma decode_byte_ok d b :
  decoder_ok d -> Utf8 (decode_byte d b).1 /\ decoder_ok (decode_byte d b).2.
Proof.
  intros Hd. unfold decode_byte. pose proof (decode_first_ok b) as [H1 H2].
  unfold decoder_ok in Hd. destruct (needed d) as [|n]; [done|].
  destruct (in_range (low d) (high d) b) eqn:Hb.
  - destruct n as [|n]; simpl; split.
    + rewrite <- (app_nil_r (pending d ++ [b])). apply Utf8_cons; [|constructor]. by apply Hd.
    + done.
    + constructor.
    + unfold decoder_ok; simpl. intros c Hc v Hv Hf. rewrite <- app_assoc. simpl.
      apply Hd; [done | simpl; lia | by constructor].
  - destruct (decode_first b) as [o d']; simpl in *. split; [|done].
    by apply (Utf8_cons replacement).
Qed.

(** Whatever the bytes, the decoder's output is well-formed. *)
Lemma utf8_decode_wf s : Utf8 (utf8_decode s).
Proof.
  unfold utf8_decode. assert (decoder_ok fresh) as Hd by done. revert Hd.
  generalize fresh as d. induction s as [|b s IH]; intros d Hd; simpl.
  - case_match; [constructor | by apply (Utf8_cons replacement []); [|constructor]].
  - pose proof (decode_byte_ok d b Hd) as [H1 H2].
    destruct (decode_byte d b) as [o d']; simpl in *. by apply Utf8_app; [|apply IH].
Qed.

(** ** Facts about percent encoding *)
Lemma hex_pair_pct b : hex_pair (hex_digit (code b / 16)) (hex_digit (code b mod 16)) = Some b.
Proof. by destruct b. Qed.

Lemma tokens_encode_byte b r :
  tokens (encode_byte b ++ r) = t ← tokens r; Some ((negb (uri_unreserved b), b) :: t).
Proof. by destruct b. Qed.

Lemma tokens_encode s :
  tokens (encodeURIComponent s) = Some ((fun b => (negb (uri_unreserved b), b)) <$> s).
Proof.
  unfold encodeURIComponent. induction s as [|b s IH]; [done|].
  rewrite bind_cons, tokens_encode_byte, IH. done.
Qed.

Lemma uri_unreserved_ascii b : uri_unreserved b = true -> is_ascii b = true.
Proof. by destruct b. Qed.

Lemma not_ascii_reserved b : is_ascii b = false -> negb (uri_unreserved b) = true.
Proof. intros H. apply negb_true_iff, not_true_iff_false. intros ?%uri_unreserved_ascii. congruence. Qed.

(** Text without a percent sign decodes to itself. *)
Lemma decode_plain s : x25 ∉ s -> decodeURIComponent s = Some s.
Proof.
  intros Hs. unfold decodeURIComponent.
  assert (tokens s = Some ((fun b => (false, b)) <$> s)) as ->.
  { induction s as [|b s IH]; [done|]. apply not_elem_of_cons in Hs as [Hb Hs].
    rewrite fmap_cons. specialize (IH Hs). destruct b; simpl; rewrite ?IH; done. }
  simpl. clear Hs. induction s as [|b s IH]; [done|]. rewrite fmap_cons. cbn [detoken negb orb]. by rewrite IH.
Qed.

(** Decoding an encoded component gives it back. *)
Lemma decode_encode s :
  Utf8 s -> decodeURIComponent (encodeURIComponent s) = Some s.
Proof.
  intros Hs. unfold decodeURIComponent. rewrite tokens_encode. simpl.
  induction Hs as [|u s Hu _ IH]; [done|]. rewrite fmap_app. destruct_code_point Hu; simpl.
  - rewrite Ha, orb_true_r, IH. done.
  - pose proof (lead2_class _ Ha) as Na. rewrite Na, !not_ascii_reserved by
      (first [done | by apply cont_class]). simpl. rewrite Ha, Hb, IH. done.
  - destruct (lead3_class _ Ha) as [Na N2].
    rewrite Na, !not_ascii_reserved by
      (first [done | by eapply second_class | by apply cont_class]). simpl.
    rewrite N2, Ha, Hb, Hc, IH. done.
  - destruct (lead4_class _ Ha) as (Na & N2 & N3).
    rewrite Na, !not_ascii_reserved by
      (first [done | by eapply second_class | by apply cont_class]). simpl.
    rewrite N2, N3, Ha, Hb, Hc, Hd, IH. done.
Qed.

(** The characters an encoded component is made of. *)
Definition component_char (b : byte) : bool := uri_unreserved b || (b === x25).

Lemma encode_chars s : Forall (fun b => component_char b = true) (encodeURIComponent s).
Proof.
  unfold encodeURIComponent. induction s as [|b s IH]; [constructor|].
  rewrite bind_cons. apply Forall_app; split; [|done].
  destruct b; repeat constructor.
Qed.

Lemma encode_not_elem c s : component_char c = false -> c ∉ encodeURIComponent s.
Proof. intros Hc Hin. pose proof (encode_chars s) as H. rewrite Forall_forall in H. apply H in Hin. congruence. Qed.

Lemma encode_nonempty s : s <> [] -> encodeURIComponent s <> [].
Proof. destruct s as [|b s]; [done|]. by destruct b. Qed.

(** ** Facts about queries *)
Lemma percent_decode_form_byte b r :
  percent_decode (plus_to_space (form_byte b) ++ r) = b :: percent_decode r.
Proof. by destruct b. Qed.

Lemma form_decode_encode s : Utf8 s -> form_decode (form_encode s) = s.
Proof.
  intros Hs. unfold form_decode, form_encode.
  assert (percent_decode (plus_to_space (s ≫= form_byte)) = s) as ->.
  { clear Hs. induction s as [|b s IH]; [done|].
    rewrite bind_cons. unfold plus_to_space in *. rewrite fmap_app.
    fold (plus_to_space (form_byte b)). rewrite percent_decode_form_byte. by rewrite IH. }
  by apply utf8_decode_valid.
Qed.

Lemma form_encode_not_elem c s :
  form_safe c = false -> c <> x25 -> c <> x2b -> c ∉ form_encode s.
Proof.
  intros H1 H2 H3. unfold form_encode. induction s as [|b s IH]; [set_solver|].
  rewrite bind_cons, not_elem_of_app. split; [|done].
  intros Hin. clear IH. destruct b; vm_compute in Hin;
    repeat (apply elem_of_cons in Hin as [Hin|Hin]; [by subst; vm_compute in * |]);
    by apply not_elem_of_nil in Hin.
Qed.

Lemma print_pair_not_amp p : x26 ∉ print_pair p.
Proof.
  unfold print_pair. rewrite !not_elem_of_app, list_elem_of_singleton.
  split_and!; try done; by apply form_encode_not_elem.
Qed.

Lemma print_pair_truthy p : truthy (print_pair p) = true.
Proof. unfold print_pair. by destruct (form_encode p.1). Qed.

Lemma parse_print_pair p : Utf8 p.1 -> Utf8 p.2 -> parse_pair (print_pair p) = p.
Proof.
  intros H1 H2. unfold parse_pair, print_pair. simpl ([_] ++ _).
  rewrite cut_some by (by apply form_encode_not_elem). simpl.
  rewrite !form_decode_encode by done. by destruct p.
Qed.

Definition utf8_pairs (qs : list (str * str)) : Prop :=
  Forall (fun p => Utf8 p.1 /\ Utf8 p.2) qs.

Lemma qs_print_head qs : head (qs_print qs) <> Some x3f.
Proof.
  destruct qs as [|p qs]; [done|]. intros H.
  assert (x3f ∈ form_encode p.1 ++ [x3d]) as Hin.
  { unfold qs_print in H. destruct qs; simpl in H; unfold print_pair in H;
      destruct (form_encode p.1); simplify_eq/=; left. }
  apply elem_of_app in Hin as [Hin|Hin]; [|by apply list_elem_of_singleton in Hin].
  by apply form_encode_not_elem in Hin.
Qed.

Lemma search_params_print qs : utf8_pairs qs -> search_params (qs_print qs) = qs.
Proof.
  intros Hu. unfold search_params. pose proof (qs_print_head qs) as Hh.
  replace (match qs_print qs with x3f :: s' => s' | _ => qs_print qs end) with (qs_print qs)
    by (destruct (qs_print qs) as [|b s]; [done|]; by destruct b).
  unfold form_parse, qs_print. destruct qs as [|p qs]; [done|].
  rewrite split_join; [|done|]; last first.
  { apply Forall_fmap, Forall_forall. intros q _. apply print_pair_not_amp. }
  revert Hu. generalize (p :: qs) as l. clear.
  induction l as [|p l IH]; [done|]. intros [[H1 H2] Hl]%Forall_cons. cbn [fmap list_fmap List.filter].
  rewrite print_pair_truthy. cbn [fmap list_fmap]. rewrite parse_print_pair by done. f_equal. auto.
Qed.

Lemma qs_print_truthy qs : truthy (qs_print qs) = negb (qs === []).
Proof.
  destruct qs as [|p [|q qs]]; [done| |]; unfold qs_print; simpl.
  - by rewrite print_pair_truthy.
  - pose proof (print_pair_truthy p) as H. by destruct (print_pair p).
Qed.

Lemma qs_delete_absent k qs : k ∉ keys qs -> qs_delete k qs = qs.
Proof.
  unfold qs_delete, keys. induction qs as [|[k1 v1] qs IH]; [done|]. simpl. intros H.
  rewrite bool_decide_eq_false_2 by set_solver. simpl. f_equal. apply IH. set_solver.
Qed.

Lemma qs_get_delete k k' qs :
  qs_get (qs_delete k' qs) k = if k === k' then None else qs_get qs k.
Proof.
  unfold qs_get, qs_delete. induction qs as [|[k1 v1] qs IH]; simpl; [by case_match|].
  destruct (bool_decide_reflect (k1 = k')); simpl; rewrite IH;
    repeat case_bool_decide; simplify_eq; done.
Qed.

Lemma qs_get_set k k' v qs :
  qs_get (qs_set k' v qs) k = if k === k' then Some v else qs_get qs k.
Proof.
  unfold qs_get. induction qs as [|[k1 v1] qs IH]; simpl; [done|].
  destruct (bool_decide_reflect (k1 = k')); simpl.
  - subst. pose proof (qs_get_delete k k' qs) as H. unfold qs_get in H. rewrite H.
    by repeat case_bool_decide.
  - rewrite IH. by repeat case_bool_decide; simplify_eq.
Qed.

Lemma qs_set_fresh k v qs : k ∉ keys qs -> qs_set k v qs = qs ++ [(k, v)].
Proof.
  unfold keys. induction qs as [|[k1 v1] qs IH]; [done|]. simpl. intros H.
  rewrite bool_decide_eq_false_2 by set_solver. rewrite IH by set_solver. done.
Qed.

Lemma qs_set_keys k k' v qs : k ∈ keys (qs_set k' v qs) -> k = k' \/ k ∈ keys qs.
Proof.
  unfold keys. induction qs as [|[k1 v1] qs IH]; simpl; [set_solver|].
  case_bool_decide; simpl; [|set_solver].
  intros [?|Hin]%elem_of_cons; [by left|]. right. right.
  unfold qs_delete in Hin. apply list_elem_of_fmap in Hin as (p & -> & Hp).
  apply list_elem_of_In, filter_In in Hp as [Hp _].
  apply list_elem_of_fmap. exists p. by rewrite list_elem_of_In.
Qed.

Lemma utf8_pairs_set k v qs : Utf8 k -> Utf8 v -> utf8_pairs qs -> utf8_pairs (qs_set k v qs).
Proof.
  intros Hk Hv. induction 1 as [|[k1 v1] qs Hp Hq IH]; simpl; [by repeat constructor|].
  case_bool_decide; constructor; try done. unfold qs_delete.
  rewrite Forall_forall in Hq |- *. intros p [Hp' _]%list_elem_of_In%filter_In. apply Hq. by apply list_elem_of_In.
Qed.

(** ** Queries built by a run of [if (v) qs.set(k, v)] and read by a run of
    [const v = qs.get(k); if (v) params[k] = v] *)
Definition qs_build (l : list (str * option str)) : list (str * str) :=
  fold_left (fun qs p => qs_set_if p.1 p.2 qs) l [].

(** The value [if (v)] lets through. *)
Definition when_truthy (o : option str) : option str := if otruthy o then o else None.

Definition read_params (ks : list str) (qs : list (str * str)) : gmap str str :=
  fold_left (fun m k => match when_truthy (qs_get qs k) with
                        | Some v => <[k := v]> m
                        | None => m
                        end) ks ∅.

(** What [l] binds [k] to, when the code keeps it. *)
Definition field_of (l : list (str * option str)) (k : str) : option str :=
  assoc k l ≫= when_truthy.

Lemma qs_build_app l p : qs_build (l ++ [p]) = qs_set_if p.1 p.2 (qs_build l).
Proof. unfold qs_build. by rewrite fold_left_app. Qed.

Lemma qs_set_if_eq k v qs :
  qs_set_if k v qs = match when_truthy v with Some s => qs_set k s qs | None => qs end.
Proof. unfold qs_set_if, when_truthy, otruthy. destruct v as [[|]|]; done. Qed.

Lemma assoc_snoc {A} k (l : list (str * A)) p :
  assoc k (l ++ [p]) =
    match assoc k l with Some a => Some a | None => if k === p.1 then Some p.2 else None end.
Proof.
  induction l as [|[k1 a1] l IH]; simpl; [by destruct p|].
  destruct (bool_decide (k = k1)); done.
Qed.

(** A built query answers with the fields it was built from. *)
Lemma qs_get_build l k :
  NoDup (keys l) -> qs_get (qs_build l) k = field_of l k.
Proof.
  unfold field_of. induction l as [|[k1 v1] l IH] using rev_ind; [done|].
  unfold keys in *. rewrite fmap_app. intros (Hl & Hd & _)%NoDup_app.
  rewrite qs_build_app, qs_set_if_eq, assoc_snoc. simpl.
  assert (k = k1 -> assoc k l = None) as Hk.
  { intros ->. apply assoc_None. intros ?. apply (Hd k1); [done|]. by left. }
  destruct (when_truthy v1) as [s|] eqn:E; rewrite ?qs_get_set.
  - case_bool_decide; [rewrite Hk by done; simpl; congruence|].
    rewrite IH by done. by destruct (assoc k l).
  - rewrite IH by done. case_bool_decide; [rewrite Hk by done; simpl; congruence|].
    by destruct (assoc k l).
Qed.

Definition utf8_fields (l : list (str * option str)) : Prop :=
  Forall (fun p => Utf8 p.1 /\ outf8 p.2) l.

Lemma utf8_build l :
  utf8_fields l -> utf8_pairs (qs_build l).
Proof.
  induction l as [|p l IH] using rev_ind; [constructor|].
  intros [Hl Hp]%Forall_app. apply Forall_singleton in Hp as [H1 H2].
  rewrite qs_build_app, qs_set_if_eq. destruct (when_truthy p.2) eqn:E; [|auto].
  apply utf8_pairs_set; auto. unfold when_truthy in E. case_match; [|done]. by rewrite E in H2.
Qed.

Lemma lookup_read_params ks qs k :
  read_params ks qs !! k = if bool_decide (k ∈ ks) then when_truthy (qs_get qs k) else None.
Proof.
  unfold read_params. induction ks as [|k1 ks IH] using rev_ind; [done|].
  rewrite fold_left_app. simpl. destruct (decide (k = k1)) as [->|Hne].
  - rewrite bool_decide_eq_true_2 by set_solver.
    destruct (when_truthy (qs_get qs k1)) as [v|] eqn:E; [apply lookup_insert_eq|].
    rewrite IH. by destruct (bool_decide (k1 ∈ ks)).
  - rewrite (bool_decide_ext (k ∈ ks ++ [k1]) (k ∈ ks)) by set_solver. rewrite <- IH.
    destruct (when_truthy (qs_get qs k1)); [by rewrite lookup_insert_ne|done].
Qed.

Lemma when_truthy_idemp o : when_truthy (when_truthy o) = when_truthy o.
Proof. by destruct o as [[|]|]. Qed.

Lemma when_truthy_field l k : when_truthy (field_of l k) = field_of l k.
Proof. unfold field_of. destruct (assoc k l); simpl; [apply when_truthy_idemp | done]. Qed.

(** Building a query from fields, printing it, parsing it and reading it back under the
    keys [ks] recovers exactly the non-empty fields of those keys. *)
Lemma read_build_roundtrip ks l :
  NoDup (keys l) -> utf8_fields l ->
  forall k, read_params ks (search_params (qs_print (qs_build l))) !! k =
    if bool_decide (k ∈ ks) then field_of l k else None.
Proof.
  intros Hd Hu k. rewrite search_params_print by (by apply utf8_build).
  rewrite lookup_read_params, qs_get_build by done. by rewrite when_truthy_field.
Qed.

(** ** A location split at its first [?] *)
Definition path_of (hash : str) : str := (cut x3f hash).1.
Definition query_of (hash : str) : list (str * str) := search_params (nullish (cut x3f hash).2 []).

Lemma utf8_search_params s : utf8_pairs (search_params s).
Proof.
  unfold search_params, form_parse. apply Forall_fmap, Forall_forall. intros x _. simpl.
  unfold parse_pair. destruct (cut x3d x); simpl. split; apply utf8_decode_wf.
Qed.

Lemma utf8_pairs_delete k qs : utf8_pairs qs -> utf8_pairs (qs_delete k qs).
Proof.
  unfold utf8_pairs, qs_delete. rewrite !Forall_forall. intros H p [Hp _]%list_elem_of_In%filter_In.
  apply H. by apply list_elem_of_In.
Qed.

Lemma with_query_eq base qs :
  with_query base qs = match qs with [] => base | _ => base ++ x3f :: qs_print qs end.
Proof. unfold with_query. rewrite qs_print_truthy. by destruct qs. Qed.

Lemma path_of_with_query base qs : x3f ∉ base -> path_of (with_query base qs) = base.
Proof.
  intros H. unfold path_of. rewrite with_query_eq.
  destruct qs; [by rewrite cut_none | by rewrite cut_some].
Qed.

(** What a link with a query carries is what was put in it. *)
Lemma query_of_with_query base qs :
  x3f ∉ base -> utf8_pairs qs -> query_of (with_query base qs) = qs.
Proof.
  intros H Hu. unfold query_of. rewrite with_query_eq.
  destruct qs as [|p qs]; [by rewrite cut_none|].
  rewrite cut_some by done. by apply search_params_print.
Qed.
