(* ===== verification/Paging.v ===== *)
(** * Paging: [src/pkg/dashboard/frontend/src/lib/paging.ts]

    The one paging model every long list shares: what a pager shows, where its links
    go, a page of a list the client holds, and the query keys a list keeps in the URL. *)

From stdpp Require Import base list gmap sorting.
From Stdlib Require Import Init.Byte ZArith NArith Lia.
From S2P Require Import Prelude Uri.
Local Open Scope Z_scope.

(** A page as the server describes it. *)
Record PageWire := { pw_total : Z; pw_offset : Z; pw_limit : Z }.

(** What a pager shows; [None] is a link that leads nowhere. *)
Record PageView := {
  pv_from : Z; pv_to : Z; pv_total : Z; pv_limit : Z; pv_page : Z; pv_pages : Z;
  pv_first : option Z; pv_prev : option Z; pv_next : option Z; pv_last : option Z }.

(** [Math.ceil(a / b)] of integers, [b > 0]. *)
Definition ceil_div (a b : Z) : Z := - (- a / b).

Definition pageView (p : option PageWire) : PageView :=
  let total := Z.max 0 (nullish (pw_total <$> p) 0) in
  let limit := Z.max 1 (nullish (pw_limit <$> p) 1) in
  let offset := Z.max 0 (nullish (pw_offset <$> p) 0) in
  let pages := Z.max 1 (ceil_div total limit) in
  let page := Z.min pages (offset / limit + 1) in
  let lastOffset := (pages - 1) * limit in
  {| pv_from := if total =? 0 then 0 else offset + 1;
     pv_to := Z.min (offset + limit) total;
     pv_total := total; pv_limit := limit; pv_page := page; pv_pages := pages;
     pv_first := if 0 <? offset then Some 0 else None;
     pv_prev := if 0 <? offset then Some (Z.min lastOffset (Z.max 0 (offset - limit))) else None;
     pv_next := if offset + limit <? total then Some (offset + limit) else None;
     pv_last := if negb (offset =? lastOffset) then Some lastOffset else None |}.

(** The server matched rows but this page holds none. *)
Definition pastEnd (p : option PageWire) (count : Z) : bool :=
  match p with
  | None => false
  | Some p => (0 <? pw_total p) && (count =? 0) && (0 <? pw_offset p)
  end.

(** [Math.trunc(n) || 1] and [Math.min(Math.max(1, _), _)] on a number that may be [NaN]
    or infinite. *)
Definition offsetOfPage (n : jsnum) (pages limit : Z) : Z :=
  let page := match n with
              | JNaN => Z.min 1 (Z.max 1 pages)
              | JInf true => Z.min 1 (Z.max 1 pages)
              | JInf false => Z.max 1 pages
              | JNum 0 => Z.min 1 (Z.max 1 pages)
              | JNum z => Z.min (Z.max 1 z) (Z.max 1 pages)
              end in
  (page - 1) * limit.

Definition default_sizes : list Z := [25; 50; 100].

(** [[...new Set([...sizes, limit])].filter((n) => n > 0).sort((a, b) => a - b)] *)
Definition pageSizes (limit : Z) (sizes : list Z) : list Z :=
  sort_by (fun a b => a - b) (List.filter (fun n => 0 <? n) (dedupe (sizes ++ [limit]))).

(** ** Numbers read from a URL *)

(** A value handed to [Number], [String] or a query. *)
Inductive pval := VStr (s : str) | VNum (z : Z) | VNull | VUndefined.

#[export] Instance pval_eq_dec : EqDecision pval.
Proof. solve_decision. Defined.

(** The digits of a literal in base [2 ^ k]; [None] when another character occurs. *)
Fixpoint radix_digits (base : N) (acc : N) (s : str) : option N :=
  match s with
  | [] => Some acc
  | b :: s' => v ← hex_val b; if (v <? base)%N then radix_digits base (base * acc + v)%N s' else None
  end.

Definition radix_literal (base : N) (s : str) : jsnum :=
  match s with
  | [] => JNaN
  | _ => match radix_digits base 0 s with Some n => double_of_Z (Z.of_N n) | None => JNaN end
  end.

(** The exponent part at the head of [s]: its value, and what follows it. *)
Definition exponent (s : str) : option (Z * str) :=
  match s with
  | x65 :: s' | x45 :: s' =>
      let '(neg, s'') := split_sign s' in
      match take_digits s'' with
      | (Decimal.Nil, _) => None
      | (d, r) => let e := Z.of_N (N.of_uint d) in Some (if neg then - e else e, r)
      end
  | _ => Some (0, s)
  end.

(** The truncation of [m * 10 ^ e]. Past the largest double, and below 1, the power is
    not computed. *)
Definition scaled (m : N) (digits : Z) (e : Z) : jsnum :=
  match m with
  | N0 => JNum 0
  | Npos p =>
      if 309 <? e then JInf false
      else if 0 <=? e then double_of_Z (Zpos p * 10 ^ e)
      else if e <? - (digits + 1) then JNum 0
      else match 10 ^ (- e) with
           | Zpos q => trunc_ratio p q
           | _ => JNaN
           end
  end.

(** [StrDecimalLiteral] without its sign, truncated. *)
Definition decimal_literal (s : str) : jsnum :=
  if s === "Infinity" then JInf false
  else
    let '(ip, r1) := take_digits s in
    let '(fp, r2) := match r1 with x2e :: r => take_digits r | _ => (Decimal.Nil, r1) end in
    match Decimal.app ip fp with
    | Decimal.Nil => JNaN
    | ds => match exponent r2 with
            | Some (e, []) =>
                scaled (N.of_uint ds) (Z.of_nat (Decimal.nb_digits ds))
                  (e - Z.of_nat (Decimal.nb_digits fp))
            | _ => JNaN
            end
    end.

(** [Math.trunc(Number(s))] *)
Definition number_trunc (s : str) : jsnum :=
  match trim s with
  | [] => JNum 0
  | x30 :: x78 :: r | x30 :: x58 :: r => radix_literal 16 r
  | x30 :: x6f :: r | x30 :: x4f :: r => radix_literal 8 r
  | x30 :: x62 :: r | x30 :: x42 :: r => radix_literal 2 r
  | t => let '(neg, r) := split_sign t in sign_num neg (decimal_literal r)
  end.

(** [Math.trunc(Number(v))] *)
Definition number_of (v : pval) : jsnum :=
  match v with
  | VStr s => number_trunc s
  | VNum z => JNum z
  | VNull => JNum 0
  | VUndefined => JNaN
  end.

(** A non-negative whole number read from a URL value; 0 when it is not one. *)
Definition urlInt (v : pval) : Z :=
  match number_of v with
  | JNum n => if 0 <? n then n else 0
  | _ => 0
  end.

(** ** Query keys *)

(** [v !== undefined && v !== null && v !== '' && v !== 0], with [String(v)]. *)
Definition kept (v : pval) : option str :=
  match v with
  | VStr s => if truthy s then Some s else None
  | VNum z => if z =? 0 then None else Some (show_Z z)
  | VNull | VUndefined => None
  end.

Definition pagedHash (path : str) (params : list (str * pval)) : str :=
  with_query path (fold_left (fun qs p => match kept p.2 with
                                          | Some s => qs_set p.1 s qs
                                          | None => qs
                                          end) params []).

(** The limit a link carries. *)
Definition limitParam (wanted : Z) (urlLimit : pval) (defaultLimit : Z) : option Z :=
  if negb (urlInt urlLimit =? 0) || negb (wanted =? defaultLimit) then Some wanted else None.

(** One key of the patch: set, or deleted when its value is empty, zero or absent. *)
Definition patch_key (qs : list (str * str)) (p : str * pval) : list (str * str) :=
  match kept p.2 with
  | Some s => qs_set p.1 s qs
  | None => qs_delete p.1 qs
  end.

Definition hashWith (hash : str) (patch : list (str * pval)) : str :=
  let '(p, q) := cut x3f hash in
  let path := if (p === []) || (p === "#") then "#/" else p in
  let qs := search_params (nullish q []) in
  with_query path (fold_left patch_key patch qs).

(** ** A page of a list the client holds *)
Definition clientPage {T} (all : list T) (offset limit : Z) : list T * PageWire :=
  let size := Z.max 1 limit in
  let len := Z.of_nat (length all) in
  let lastOffset := Z.max 0 (ceil_div len size - 1) * size in
  let start := Z.min (Z.max 0 offset) lastOffset in
  (take (Z.to_nat size) (drop (Z.to_nat start) all),
   {| pw_total := len; pw_offset := start; pw_limit := size |}).

(** ** Properties *)

Lemma ceil_div_spec a b : 0 < b -> (ceil_div a b - 1) * b < a <= ceil_div a b * b.
Proof.
  intros Hb. unfold ceil_div. pose proof (Z.div_mod (- a) b ltac:(lia)).
  pose proof (Z.mod_pos_bound (- a) b Hb). nia.
Qed.

(** The clamped fields of a page, and where its last page starts. *)
Lemma last_offset_spec total limit :
  0 <= total -> 1 <= limit ->
  let pages := Z.max 1 (ceil_div total limit) in
  1 <= pages /\ 0 <= (pages - 1) * limit /\
  (0 < total -> (pages - 1) * limit < total <= pages * limit) /\
  (total = 0 -> pages = 1).
Proof.
  intros Ht Hl pages. pose proof (ceil_div_spec total limit ltac:(lia)). subst pages. nia.
Qed.

(** Whatever page the server sends (a negative or past-the-end offset and a zero
    limit included), the pager shows a page number within 1..pages and a range within
    the total, and every link it offers leads to an offset inside the list: Previous
    strictly back and never past the last page, Next to a row that exists, Last to the
    page holding the last row. *)
Theorem pageView_in_range (p : option PageWire) :
  let v := pageView p in
  let lastOffset := (pv_pages v - 1) * pv_limit v in
  let offset := Z.max 0 (nullish (pw_offset <$> p) 0) in
  1 <= pv_page v <= pv_pages v /\ pv_to v <= pv_total v /\
  (0 < pv_total v -> lastOffset < pv_total v <= lastOffset + pv_limit v) /\
  (forall o, pv_prev v = Some o -> 0 <= o < offset /\ o <= lastOffset) /\
  (forall o, pv_next v = Some o -> offset < o < pv_total v) /\
  (forall o, pv_first v = Some o -> o = 0 /\ 0 < offset) /\
  (forall o, pv_last v = Some o -> o = lastOffset /\ offset <> lastOffset).
Proof.
  cbv zeta. unfold pageView; simpl.
  set (total := Z.max 0 (nullish (pw_total <$> p) 0)).
  set (limit := Z.max 1 (nullish (pw_limit <$> p) 1)).
  set (offset := Z.max 0 (nullish (pw_offset <$> p) 0)).
  pose proof (last_offset_spec total limit ltac:(lia) ltac:(lia)) as (Hp & Hlo & Ht & _).
  assert (0 <= offset) by lia. assert (1 <= limit) by lia. assert (0 <= total) by lia.
  clearbody total limit offset.
  pose proof (Z.div_pos offset limit ltac:(lia) ltac:(lia)).
  set (pages := Z.max 1 (ceil_div total limit)) in *. clearbody pages.
  split_and!; try lia.
  - intros o. destruct (Z.ltb_spec 0 offset); intros; simplify_eq. lia.
  - intros o. destruct (Z.ltb_spec (offset + limit) total); intros; simplify_eq. lia.
  - intros o. destruct (Z.ltb_spec 0 offset); intros; simplify_eq. lia.
  - intros o. destruct (Z.eqb_spec offset ((pages - 1) * limit)); intros; simplify_eq/=. lia.
Qed.

(** Consecutive windows of [size] elements put a list back together. *)
Lemma windows_concat {T} (size : nat) (n : nat) (l : list T) :
  (length l <= n * size)%nat ->
  concat ((fun i => take size (drop (i * size) l)) <$> seq 0 n) = l.
Proof.
  revert l. induction n as [|n IH]; intros l Hl; simpl.
  - symmetry. apply nil_length_inv. lia.
  - rewrite <- (take_drop size l) at 2. f_equal.
    rewrite <- (IH (drop size l)) by (rewrite length_drop; lia).
    rewrite <- fmap_S_seq, <- list_fmap_compose. f_equal. apply list_fmap_ext.
    intros _ i _. simpl. by rewrite drop_drop.
Qed.

Lemma clientPage_start {T} (all : list T) offset limit :
  let size := Z.max 1 limit in
  let len := Z.of_nat (length all) in
  let start := pw_offset (clientPage all offset limit).2 in
  0 <= start /\ (0 < len -> start < len) /\ (len = 0 -> start = 0).
Proof.
  cbv zeta. simpl. pose proof (ceil_div_spec (Z.of_nat (length all)) (Z.max 1 limit) ltac:(lia)).
  split_and!; nia.
Qed.

(** Paging through a list the client holds loses and repeats nothing. For every
    page size (a zero or negative one counts as 1) the pages at offsets 0, size, 2*size,
    ... put the list back together, and no offset answers an empty page of a list that
    has rows, so the page it describes is never past the end. *)
Theorem clientPage_partition {T} (all : list T) (limit : Z) :
  let size := Z.max 1 limit in
  let pages := pv_pages (pageView (Some (clientPage all 0 limit).2)) in
  concat ((fun i => (clientPage all (Z.of_nat i * size) limit).1) <$> seq 0 (Z.to_nat pages)) = all /\
  (forall offset, let r := clientPage all offset limit in
     (all <> [] -> r.1 <> []) /\ pastEnd (Some r.2) (Z.of_nat (length r.1)) = false).
Proof.
  cbv zeta. split.
  - unfold pageView; simpl. set (size := Z.max 1 limit). set (len := Z.of_nat (length all)).
    rewrite (Z.max_r 0 len), (Z.max_r 1 size) by lia.
    pose proof (last_offset_spec len size ltac:(lia) ltac:(lia)) as (Hp & Hlo & Ht & Hz).
    set (pages := Z.max 1 (ceil_div len size)) in *.
    transitivity (concat ((fun i => take (Z.to_nat size) (drop (i * Z.to_nat size) all))
                          <$> seq 0 (Z.to_nat pages))).
    + f_equal. apply list_fmap_ext. intros j i Hi%lookup_seq. do 2 f_equal.
      assert (Z.max 0 (ceil_div len size - 1) = pages - 1) as -> by lia.
      assert (Z.of_nat i <= pages - 1) by lia. rewrite Z.min_l, Z.max_r by nia. nia.
    + apply windows_concat. destruct (decide (len = 0)) as [E|]; [lia|].
      specialize (Ht ltac:(lia)). assert (len <= pages * size) by lia.
      assert (Z.of_nat (length all) <= Z.of_nat (Z.to_nat pages * Z.to_nat size)); [|lia].
      rewrite Nat2Z.inj_mul, !Z2Nat.id by lia. done.
  - intros offset. pose proof (clientPage_start all offset limit) as (H0 & H1 & H2).
    set (start := pw_offset (clientPage all offset limit).2) in *.
    assert (Z.of_nat (length (clientPage all offset limit).1)
              = Z.min (Z.max 1 limit) (Z.of_nat (length all) - start)) as Hlen.
    { change ((clientPage all offset limit).1)
        with (take (Z.to_nat (Z.max 1 limit)) (drop (Z.to_nat start) all)).
      rewrite length_take, length_drop. destruct (decide (length all = 0%nat)) as [E|]; [|lia].
      rewrite H2; lia. }
    split.
    + intros Hne E. rewrite E in Hlen. destruct all; [done|]. simpl in *. lia.
    + unfold pastEnd. rewrite Hlen.
      change (pw_total (clientPage all offset limit).2) with (Z.of_nat (length all)).
      fold start. rewrite !andb_false_iff, Z.ltb_ge, Z.eqb_neq, Z.ltb_ge. lia.
Qed.

(** The page sizes on offer are positive, strictly increasing (so without
    duplicates), and hold every positive size of the list with the current limit among
    them. *)
Theorem pageSizes_spec (limit : Z) (sizes : list Z) :
  StronglySorted Z.lt (pageSizes limit sizes) /\
  (forall n, n ∈ pageSizes limit sizes <-> 0 < n /\ (n ∈ sizes \/ n = limit)).
Proof.
  unfold pageSizes. set (l := List.filter _ _).
  assert (Hl : NoDup l).
  { unfold l. apply NoDup_ListNoDup, List.NoDup_filter, NoDup_ListNoDup, NoDup_dedupe. }
  split.
  - pose proof (sort_by_Sorted (fun a b => a - b)) as Hs.
    assert (Hss : StronglySorted (le_by (fun a b => a - b)) (sort_by (fun a b => a - b) l)).
    { apply Hs; unfold le_by; intros; lia. }
    rewrite <- (sort_by_Permutation (fun a b => a - b)) in Hl. revert Hl Hss.
    generalize (sort_by (fun a b => a - b) l) as r. clear.
    induction r as [|x r IH]; intros Hn Hs; [constructor|].
    inversion Hs as [|? ? Hs' Hall]; subst. apply NoDup_cons in Hn as [Hx Hn].
    constructor; [auto|]. rewrite Forall_forall in Hall |- *. intros y Hy.
    specialize (Hall y Hy). unfold le_by in Hall. assert (x <> y) by (by intros ->). lia.
  - intros n. rewrite elem_of_sort_by. unfold l.
    rewrite list_elem_of_In, filter_In, <- list_elem_of_In, elem_of_dedupe, Z.ltb_lt.
    rewrite elem_of_app, list_elem_of_singleton. naive_solver.
Qed.

(** Moving to page [n] of the pager lands on page [n]: the offset of any page
    number, clamped to 1..pages, is the offset a pager describes as that page. *)
Theorem offsetOfPage_lands (total limit : Z) (n : Z) :
  0 <= total -> 1 <= limit ->
  let pages := Z.max 1 (ceil_div total limit) in
  let o := offsetOfPage (JNum n) pages limit in
  let v := pageView (Some {| pw_total := total; pw_offset := o; pw_limit := limit |}) in
  pv_page v = Z.max 1 (Z.min n pages) /\ (0 < total -> o < total).
Proof.
  intros Ht Hl pages o v.
  pose proof (last_offset_spec total limit Ht Hl) as (Hp & Hlo & Htot & Hz).
  set (k := Z.max 1 (Z.min n pages)).
  assert (o = (k - 1) * limit) as Ho.
  { unfold o, offsetOfPage, k. destruct n; f_equal; f_equal; lia. }
  assert (1 <= k <= pages) by (unfold k; lia).
  split; [|intros; specialize (Htot ltac:(lia)); fold pages in Htot; nia].
  subst v. unfold pageView; simpl. rewrite (Z.max_r 0 total), (Z.max_r 1 limit) by lia.
  fold pages. rewrite (Z.max_r 0 o) by nia. rewrite Ho, Z.div_mul by lia. lia.
Qed.

Lemma offsetOfPage_lands_witness :
  let v := pageView (Some {| pw_total := 101; pw_offset := offsetOfPage (JNum 9) 5 25; pw_limit := 25 |}) in
  pv_page v = 5 /\ (0 < 101 -> offsetOfPage (JNum 9) 5 25 < 101).
Proof. apply (offsetOfPage_lands 101 25 9); lia. Defined.

(** ** Query keys read back *)
Lemma show_Z_utf8 z : Utf8 (show_Z z).
Proof.
  assert (forall d, Utf8 (str_of_uint d)) as Hd.
  { induction d; simpl; [constructor|..]; by apply (Utf8_cons [_]). }
  destruct z; simpl; [by apply (Utf8_cons [x30]); [|constructor] | apply Hd |].
  apply (Utf8_cons [x2d]); [done | apply Hd].
Qed.

(** The texts of a patch are well-formed. *)
Definition putf8 (v : pval) : Prop := match v with VStr s => Utf8 s | _ => True end.
#[export] Instance putf8_dec v : Decision (putf8 v).
Proof. destruct v; simpl; apply _. Defined.

Definition patch_ok (patch : list (str * pval)) : Prop :=
  Forall (fun p => Utf8 p.1 /\ putf8 p.2) patch.

Lemma kept_utf8 v s : putf8 v -> kept v = Some s -> Utf8 s.
Proof.
  destruct v; simpl; intros H E; try done; case_match; simplify_eq/=; [done | apply show_Z_utf8].
Qed.

Lemma patch_fold_utf8 patch qs :
  patch_ok patch -> utf8_pairs qs -> utf8_pairs (fold_left patch_key patch qs).
Proof.
  revert qs. induction patch as [|[k v] patch IH]; [done|]; intros qs [[Hk Hv] Hp]%Forall_cons Hq.
  simpl. apply IH; [done|]. unfold patch_key; simpl. destruct (kept v) eqn:E.
  - apply utf8_pairs_set; [done | by eapply kept_utf8 | done].
  - by apply utf8_pairs_delete.
Qed.

Lemma patch_fold_get patch qs k :
  NoDup (keys patch) ->
  qs_get (fold_left patch_key patch qs) k =
    match assoc k patch with Some v => kept v | None => qs_get qs k end.
Proof.
  revert qs. induction patch as [|[k1 v] patch IH]; [done|]; intros qs [Hk Hn]%NoDup_cons.
  simpl. rewrite IH by done. unfold patch_key; simpl.
  destruct (assoc k patch) as [v'|] eqn:E.
  - rewrite bool_decide_eq_false_2; [done|]. intros ->.
    apply Hk. apply list_elem_of_fmap. exists (k1, v'). split; [done|]. by apply assoc_elem.
  - destruct (kept v) as [s|] eqn:Ev; rewrite ?qs_get_set, ?qs_get_delete; by case_match.
Qed.

(** C10: [hashWith] changes exactly the keys it is given. Reading the new location back,
    each key of the patch has its new value, or is gone when the value is empty, zero or
    absent, every other key keeps its value, and the path is unchanged (an empty location
    becoming the home route). *)
Theorem hashWith_reads_back (hash : str) (patch : list (str * pval)) :
  NoDup (keys patch) -> patch_ok patch ->
  let h := hashWith hash patch in
  (forall k, qs_get (query_of h) k =
     match assoc k patch with Some v => kept v | None => qs_get (query_of hash) k end) /\
  path_of h = if (path_of hash === []) || (path_of hash === "#") then "#/" else path_of hash.
Proof.
  intros Hn Hp h. subst h. unfold hashWith.
  destruct (cut x3f hash) as [p q] eqn:Ec. pose proof (cut_inv _ _ _ _ Ec) as [Hq _].
  set (path := if _ || _ then _ else p). set (qs := fold_left _ _ _).
  assert (x3f ∉ path) as Hpath by (unfold path; case_match; [|done]; vm_compute; set_solver).
  assert (utf8_pairs qs) by (apply patch_fold_utf8; [done | apply utf8_search_params]).
  split.
  - intros k. rewrite query_of_with_query by done. unfold qs. rewrite patch_fold_get by done.
    unfold query_of. by rewrite Ec.
  - rewrite path_of_with_query by done. unfold path, path_of. by rewrite Ec.
Qed.

Lemma hashWith_reads_back_witness :
  qs_get (query_of (hashWith "#/owners?q=a&offset=50" [("offset", VNum 0); ("sort", VStr "name")])) "sort"
  = Some "name".
Proof.
  destruct (hashWith_reads_back "#/owners?q=a&offset=50" [("offset", VNum 0); ("sort", VStr "name")])
    as [H _].
  - by_decide.
  - unfold patch_ok. by_decide.
  - exact (H "sort").
Defined.
