(* ===== verification/GraphState.v ===== *)
(** * Operational graph state: [src/pkg/dashboard/frontend/src/lib/graphState.ts]

    The shareable state of the search-first graph (route parameters to state, bounded),
    the difference and corroboration vocabularies, and the canonicalization of the focus
    when a perspective reinterprets it. *)

From stdpp Require Import base list gmap.
From Stdlib Require Import Init.Byte ZArith NArith Lia.
From S2P Require Import Prelude Uri.
Local Open Scope Z_scope.

(** ** Vocabularies *)
Inductive KnowledgeView := Expected | Observed | Differences.
Inductive Direction := Dependencies | Dependents | Both.
Inductive GraphPerspective := PService | PRevision | PTarget.

#[export] Instance KnowledgeView_eq_dec : EqDecision KnowledgeView.
Proof. solve_decision. Defined.
#[export] Instance Direction_eq_dec : EqDecision Direction.
Proof. solve_decision. Defined.
#[export] Instance GraphPerspective_eq_dec : EqDecision GraphPerspective.
Proof. solve_decision. Defined.

(** The wire spelling of each value. *)
Definition view_str (v : KnowledgeView) : str :=
  match v with Expected => "expected" | Observed => "observed" | Differences => "differences" end.
Definition direction_str (d : Direction) : str :=
  match d with Dependencies => "dependencies" | Dependents => "dependents" | Both => "both" end.
Definition perspective_str (p : GraphPerspective) : str :=
  match p with PService => "service" | PRevision => "revision" | PTarget => "target" end.

Definition GRAPH_PERSPECTIVES : list GraphPerspective := [PService; PRevision; PTarget].
Definition KNOWN_VIEWS : list KnowledgeView := [Expected; Observed; Differences].
Definition KNOWN_DIRECTIONS : list Direction := [Dependencies; Dependents; Both].

(** The member of a vocabulary a text spells, if any. *)
Definition member {A} (spell : A -> str) (vocabulary : list A) (s : str) : option A :=
  List.find (fun a => spell a === s) vocabulary.

Definition DEFAULT_VIEWS : list KnowledgeView := [Expected; Differences].
Definition MAX_DEPTH : Z := 6.
Definition DEFAULT_MAX_NODES : Z := 40.
Definition MAX_NODES_STEPS : list Z := [40; 100; 200].
Definition MAX_NODES : Z := List.last MAX_NODES_STEPS 0.

Record GraphState := {
  gs_kind : str; gs_key : str; gs_perspective : GraphPerspective;
  gs_views : list KnowledgeView; gs_direction : Direction; gs_depth : Z; gs_maxNodes : Z }.

(** ** State from the route *)
Definition hasFocus (params : gmap str str) : bool :=
  otruthy (params !! "kind") && otruthy (params !! "sel").

Definition clampDepth (d : jsnum) : Z :=
  match d with
  | JNum d => if d <? 1 then 1 else Z.min MAX_DEPTH d
  | _ => 1
  end.

Definition clampMaxNodes (n : jsnum) : Z :=
  match n with
  | JNum n => if n <? 1 then DEFAULT_MAX_NODES else Z.min MAX_NODES n
  | _ => DEFAULT_MAX_NODES
  end.

Definition maxEdgesFor (maxNodes : Z) : Z := Z.min 1000 (2 * maxNodes).

Definition nextMaxNodes (current : Z) : option Z :=
  List.find (fun s => current <? s) MAX_NODES_STEPS.

Definition dedupeViews (views : list KnowledgeView) : list KnowledgeView :=
  fold_left (fun out v => if bool_decide (v ∈ out) then out else out ++ [v]) views [].

Definition graphStateFromParams (params : gmap str str) : GraphState :=
  let views := omap (fun v => member view_str KNOWN_VIEWS (trim v))
                 (match when_truthy (params !! "views") with
                  | Some s => split_on x2c s | None => [] end) in
  {| gs_kind := or_str (params !! "kind") [];
     gs_key := or_str (params !! "sel") [];
     gs_perspective := nullish (params !! "perspective" ≫= member perspective_str GRAPH_PERSPECTIVES) PService;
     gs_views := match views with [] => DEFAULT_VIEWS | _ => dedupeViews views end;
     gs_direction := nullish (params !! "direction" ≫= member direction_str KNOWN_DIRECTIONS) Both;
     gs_depth := clampDepth (parse_int_opt (params !! "depth"));
     gs_maxNodes := clampMaxNodes (parse_int_opt (params !! "maxNodes")) |}.

Definition toggleView (views : list KnowledgeView) (v : KnowledgeView) : list KnowledgeView :=
  if bool_decide (v ∈ views) then
    let next := List.filter (fun x => x !== v) views in
    match next with [] => views | _ => next end
  else
    List.filter (fun x => bool_decide (x ∈ views) || (x === v)) [Expected; Observed; Differences].

(** ** The difference vocabulary, rendered as the backend sent it *)
Definition differenceLabel (d : option str) : str :=
  oswitch d [ ("matched", "Matched");
              ("expected-not-observed", "Expected, not observed");
              ("observed-not-expected", "Observed, not expected");
              ("insufficient", "Insufficient evidence") ]
    (or_str d "Unknown").

Inductive Tone := TOk | TWarn | TErr | TInfo | TNeutral.
#[export] Instance Tone_eq_dec : EqDecision Tone.
Proof. solve_decision. Defined.

Definition differenceTone (d : option str) : Tone :=
  oswitch d [ ("matched", TOk); ("observed-not-expected", TWarn);
              ("expected-not-observed", TInfo) ] TNeutral.

Definition differenceDescription (d : option str) : str :=
  oswitch d
    [ ("matched", "Declared and corroborated by observed traffic.");
      ("expected-not-observed", "Declared, but not seen in the observation window. It may still be in use.");
      ("observed-not-expected", "Observed at runtime but never declared.");
      ("insufficient", "Declared, but there is no observation data to reconcile against.") ] "".

Definition relationLabel (rel : option str) : str :=
  if rel === Some "runs" then "Runs"
  else if rel === Some "configuration_reference" then "Takes configuration from"
  else "Depends on".

(** ** Focus and perspective validity *)
Definition defaultPerspectiveForKind (kind : str) : GraphPerspective :=
  switch kind [("revision", PRevision); ("target", PTarget)] PService.

Definition availablePerspectives (kind : str) (targetRevisionAuthoritative : bool) : list GraphPerspective :=
  switch kind
    [ ("revision", [PService; PRevision]);
      ("target", if targetRevisionAuthoritative then [PService; PRevision; PTarget] else [PService; PTarget]);
      ("service", [PService]) ]
    [PService].

Definition revisionLinkAuthoritative (revisionState : option str) : bool :=
  (revisionState === Some "exact") || (revisionState === Some "inferred").

Record CanonRef := { cr_kind : str; cr_key : str }.
Record CanonEdge := { ce_relation : option str; ce_to : option CanonRef }.
Record CanonNeighborhood := {
  nb_focusService : option CanonRef;
  nb_projectionFocus : option CanonRef;
  nb_edges : option (list (option CanonEdge)) }.

(** [ref?.kind && ref.key ? { kind, key } : null] *)
Definition full_ref (r : option CanonRef) : option CanonRef :=
  match r with
  | Some r => if truthy (cr_kind r) && truthy (cr_key r) then Some r else None
  | None => None
  end.

Definition canonicalFocusForPerspective (nb : option CanonNeighborhood) (currentKind : str)
    (perspective : GraphPerspective) : option CanonRef :=
  match nb with
  | None => None
  | Some nb =>
      if perspective === PService then full_ref (nb_focusService nb)
      else if (perspective === PRevision) && (currentKind === "target") then
        let runs := List.find (fun e => (e ≫= ce_relation) === Some "runs") (nullish (nb_edges nb) []) in
        full_ref (mjoin runs ≫= ce_to)
      else None
  end.

Definition projectionFocusMismatch (nb : option CanonNeighborhood) (currentKind currentKey : str)
    : option CanonRef :=
  match nb ≫= nb_projectionFocus with
  | None => None
  | Some pf =>
      if negb (truthy (cr_kind pf)) || negb (truthy (cr_key pf)) then None
      else if (cr_kind pf === currentKind) && (cr_key pf === currentKey) then None
      else Some {| cr_kind := cr_kind pf; cr_key := cr_key pf |}
  end.

Definition perspectiveSupportsDepth (perspective : str) : bool := perspective !== "target".

(** ** Service-scoped corroboration *)
Definition corroborationLabel (c : option str) : str :=
  oswitch c
    [ ("matched", "Service traffic corroborates it");
      ("expected-not-observed", "Declared, service traffic did not witness it");
      ("insufficient", "No service observation to corroborate") ] "".

Definition corroborationTone (c : option str) : Tone :=
  oswitch c [("matched", TOk); ("expected-not-observed", TInfo)] TNeutral.

Definition serviceScopedCaveat (perspective : str) : str :=
  if perspective === "revision" then
    "Observation is recorded per service, so it supports the service as a whole and cannot confirm this specific revision edge."
  else if perspective === "target" then
    "Observation is recorded per service, so it supports the service as a whole and cannot confirm this specific deployment edge."
  else "".

(** The number of edges and of unresolved dependencies, [None] where the field is absent. *)
Definition neighborhoodIsEmpty (nb : option (option Z * option Z)) : bool :=
  match nb with
  | None => false
  | Some (edges, unresolved) => (nullish edges 0 =? 0) && (nullish unresolved 0 =? 0)
  end.

(** ** Properties *)

Lemma member_spell {A} (spell : A -> str) vocabulary a :
  Inj (=) (=) spell -> a ∈ vocabulary -> member spell vocabulary (spell a) = Some a.
Proof.
  intros Hi. unfold member. induction vocabulary as [|b l IH]; simpl; [set_solver|].
  intros Ha. case_bool_decide as E; [f_equal; by apply Hi|].
  apply IH. apply elem_of_cons in Ha as [->|]; done.
Qed.

#[export] Instance view_str_inj : Inj (=) (=) view_str.
Proof. intros [] []; vm_compute; congruence. Qed.
#[export] Instance direction_str_inj : Inj (=) (=) direction_str.
Proof. intros [] []; vm_compute; congruence. Qed.
#[export] Instance perspective_str_inj : Inj (=) (=) perspective_str.
Proof. intros [] []; vm_compute; congruence. Qed.

Lemma known_views v : v ∈ KNOWN_VIEWS.
Proof. destruct v; set_solver. Qed.
Lemma known_directions d : d ∈ KNOWN_DIRECTIONS.
Proof. destruct d; set_solver. Qed.
Lemma known_perspectives p : p ∈ GRAPH_PERSPECTIVES.
Proof. destruct p; set_solver. Qed.

(** The loop of [dedupeViews] keeps the first of each view. *)
Lemma dedupeViews_acc (views out : list KnowledgeView) :
  NoDup out ->
  let r := fold_left (fun out v => if bool_decide (v ∈ out) then out else out ++ [v]) views out in
  NoDup r /\ (forall v, v ∈ r <-> v ∈ out \/ v ∈ views).
Proof.
  revert out. induction views as [|v views IH]; intros out Hn; simpl; [set_solver|].
  case_bool_decide as Hv.
  - destruct (IH out Hn) as [H1 H2]. split; [done|]. intros x. rewrite H2. set_solver.
  - destruct (IH (out ++ [v])) as [H1 H2].
    { apply NoDup_app; split_and!; [done| |apply NoDup_singleton]. set_solver. }
    split; [done|]. intros x. rewrite H2. set_solver.
Qed.

Lemma dedupeViews_id (views out : list KnowledgeView) :
  NoDup (out ++ views) ->
  fold_left (fun out v => if bool_decide (v ∈ out) then out else out ++ [v]) views out = out ++ views.
Proof.
  revert out. induction views as [|v views IH]; intros out Hn; simpl; [by rewrite app_nil_r|].
  rewrite bool_decide_eq_false_2.
  - rewrite IH; rewrite <- app_assoc; done.
  - intros Hv. apply NoDup_app in Hn as (_ & Hd & _). apply (Hd v); set_solver.
Qed.

(** The states the graph works with. *)
Definition graph_state_ok (s : GraphState) : Prop :=
  1 <= gs_depth s <= MAX_DEPTH /\ 1 <= gs_maxNodes s <= MAX_NODES /\
  gs_views s <> [] /\ NoDup (gs_views s).

(** A hand-edited graph URL cannot ask for more than the graph allows. From any
    route parameters (garbage numbers, repeated, unknown or blank views) the state has a
    depth within 1..6, a node budget within 1..200 and a non-empty list of distinct
    knowledge views, every view named in the URL that exists being among them. *)
Theorem graphStateFromParams_bounded (params : gmap str str) :
  let s := graphStateFromParams params in
  graph_state_ok s /\
  (forall t v, params !! "views" = Some t -> view_str v ∈ split_on x2c t -> v ∈ gs_views s).
Proof.
  cbv zeta. unfold graph_state_ok, graphStateFromParams; simpl.
  set (views := omap _ _).
  assert (Hd : NoDup (dedupeViews views) /\ forall v, v ∈ dedupeViews views <-> v ∈ views).
  { unfold dedupeViews. destruct (dedupeViews_acc views [] (NoDup_nil_2)) as [H1 H2].
    split; [done|]. intros v. rewrite H2. set_solver. }
  destruct Hd as [Hnd Hel]. split; [split_and!|].
  - unfold clampDepth, MAX_DEPTH. repeat case_match; lia.
  - unfold clampDepth, MAX_DEPTH. repeat case_match; lia.
  - unfold clampMaxNodes, MAX_NODES, DEFAULT_MAX_NODES; simpl. repeat case_match; lia.
  - unfold clampMaxNodes, MAX_NODES, DEFAULT_MAX_NODES; simpl. repeat case_match; lia.
  - destruct views as [|v views'] eqn:E; [done|]. intros Hnil.
    assert (v ∈ dedupeViews (v :: views')) as Hv by (apply Hel; left).
    rewrite Hnil in Hv. set_solver.
  - destruct views; [by_decide | done].
  - intros t v Ht Hv.
    assert (v ∈ views) as Hin.
    { unfold views. rewrite Ht. assert (t <> []) as Hne.
      { intros ->. apply list_elem_of_singleton in Hv. by destruct v. }
      assert (when_truthy (Some t) = Some t) as -> by (by destruct t).
      apply list_elem_of_omap. exists (view_str v). split; [done|].
      assert (trim (view_str v) = view_str v) as -> by (by destruct v).
      by destruct v. }
    destruct views; [set_solver|]. by apply Hel.
Qed.

(** Turning a knowledge view on or off never leaves the graph without a view. A view
    that is on is removed, unless it is the last one, which stays; a view that is off is
    added, and no other view changes. *)
Theorem toggleView_spec (views : list KnowledgeView) (v : KnowledgeView) :
  views <> [] ->
  toggleView views v <> [] /\
  (forall x, x <> v -> x ∈ toggleView views v <-> x ∈ views) /\
  (v ∈ toggleView views v <-> v ∉ views \/ forall x, x ∈ views -> x = v).
Proof.
  intros Hne. unfold toggleView. case_bool_decide as Hv.
  - set (next := List.filter _ views).
    assert (Hn : forall x, x ∈ next <-> x ∈ views /\ x <> v).
    { intros x. unfold next. rewrite list_elem_of_In, filter_In, <- list_elem_of_In,
        negb_true_iff, bool_decide_eq_false. done. }
    destruct next as [|y next'] eqn:E; split_and!; try done.
    + split; [|done]. intros _. right. intros x Hx. destruct (decide (x = v)); [done|].
      exfalso. apply (not_elem_of_nil x). by apply Hn.
    + intros x Hx. rewrite Hn. naive_solver.
    + rewrite Hn. split; [naive_solver|]. intros [|Hall]; [done|].
      destruct (proj1 (Hn y) (list_elem_of_here _ _)) as [Hy Hyv]. exfalso. by apply Hyv, Hall.
  - assert (Hn : forall x, x ∈ List.filter (fun x => bool_decide (x ∈ views) || (x === v))
        [Expected; Observed; Differences] <-> x ∈ views \/ x = v).
    { intros x. rewrite list_elem_of_In, filter_In, <- list_elem_of_In, orb_true_iff, !bool_decide_eq_true.
      pose proof (known_views x). naive_solver. }
    split_and!.
    + intros E. apply (not_elem_of_nil v). rewrite <- E. apply Hn. by right.
    + intros x Hx. rewrite Hn. naive_solver.
    + rewrite Hn. naive_solver.
Qed.

Lemma toggleView_spec_witness :
  toggleView [Observed] Observed <> [] /\ (Observed ∈ toggleView [Observed] Observed <->
    Observed ∉ [Observed] \/ forall x, x ∈ [Observed] -> x = Observed).
Proof. destruct (toggleView_spec [Observed] Observed) as (H1 & _ & H3); [done|]. by split. Defined.

(** Following the backend's projection focus settles in one step. When the projected
    entity differs from the URL's focus the URL adopts exactly the projected entity, and
    at the adopted focus there is nothing left to canonicalize, so the redirect cannot
    loop. *)
Theorem projectionFocus_settles (nb : option CanonNeighborhood) (kind key : str) (f : CanonRef) :
  projectionFocusMismatch nb kind key = Some f ->
  nb ≫= nb_projectionFocus = Some f /\ (cr_kind f <> kind \/ cr_key f <> key) /\
  projectionFocusMismatch nb (cr_kind f) (cr_key f) = None.
Proof.
  unfold projectionFocusMismatch. destruct (nb ≫= nb_projectionFocus) as [pf|] eqn:E; [|done].
  destruct (negb (truthy (cr_kind pf)) || negb (truthy (cr_key pf))) eqn:E1; [done|].
  destruct ((cr_kind pf === kind) && (cr_key pf === key)) eqn:E2; [done|]. intros H.
  assert (f = pf) as -> by (by destruct pf; simplify_eq).
  cbn beta iota. rewrite ?E1, !eqb_refl. split_and!; [done| |done].
  apply andb_false_iff in E2 as [E2|E2]; apply bool_decide_eq_false in E2; auto.
Qed.

Lemma projectionFocus_settles_witness :
  let nb := Some {| nb_focusService := None;
                    nb_projectionFocus := Some {| cr_kind := "revision"; cr_key := "r1" |};
                    nb_edges := None |} in
  projectionFocusMismatch nb "revision" "r1" = None.
Proof.
  intros nb. apply (projectionFocus_settles nb "target" "t1" {| cr_kind := "revision"; cr_key := "r1" |}).
  reflexivity.
Defined.

(** The projection a search result opens in is one the controls offer for its kind. *)
Lemma defaultPerspective_available kind auth :
  defaultPerspectiveForKind kind ∈ availablePerspectives kind auth.
Proof.
  unfold defaultPerspectiveForKind, availablePerspectives; simpl.
  repeat case_bool_decide; destruct auth; set_solver.
Qed.

(** Climbing the node budget strictly grows it and stops at the top level. *)
Lemma nextMaxNodes_spec current :
  match nextMaxNodes current with
  | Some n => current < n <= MAX_NODES
  | None => MAX_NODES <= current
  end.
Proof.
  unfold nextMaxNodes, MAX_NODES; simpl.
  destruct (Z.ltb_spec current 40), (Z.ltb_spec current 100), (Z.ltb_spec current 200); lia.
Qed.
