(* ===== verification/Router.v ===== *)
(** * The hash router: [src/pkg/dashboard/frontend/src/lib/router.ts]

    [parseHash] reads a location into a route; the URL builders write the locations.
    Reading can throw: [decodeURIComponent] raises [URIError] on a malformed escape, so
    a parse is an [option Route], [None] being the exception. *)

From stdpp Require Import base list gmap.
From Stdlib Require Import Init.Byte ZArith NArith Lia.
From S2P Require Import Prelude Uri Paging GraphState.

(** ** Routes *)
Inductive View :=
  | VList | VDetail | VDiff | VGraph | VOwners | VOwnerDetail | VReadiness
  | VFleet | VChanges | VFleetOverview | VFleetServices | VFleetOwners | VFleetSources
  | VFleetDomains | VFleetOfferings | VFleetEntity | VFleetEntityList | VFleetAttention
  | VDeliveryInbox | VDeliveryEnvironments | VDeliveryAutonomy | VDeliveryChange
  | VDeliveryHistory | VDeliveryPublish
  | VForeign (k : str).   (* not a view: the member [k] of [Object.prototype] *)

#[export] Instance View_eq_dec : EqDecision View.
Proof. solve_decision. Defined.

Record Route := { view : View; params : gmap str str }.

Definition route (v : View) (ps : gmap str str) : Route := {| view := v; params := ps |}.

Definition KIND_PLURAL : list (str * str) :=
  [ ("service", "services"); ("revision", "revisions"); ("target", "targets"); ("owner", "owners");
    ("source", "sources"); ("domain", "domains"); ("offering", "offerings") ].
Definition PLURAL_KIND : list (str * str) :=
  [ ("services", "service"); ("revisions", "revision"); ("targets", "target"); ("owners", "owner");
    ("sources", "source"); ("domains", "domain"); ("offerings", "offering") ].

(** ** The regular expressions *)

(** [replace(/^#\/?/, '')] *)
Definition strip_hash (h : str) : str :=
  match h with
  | x23 :: x2f :: r => r
  | x23 :: r => r
  | _ => h
  end.

(** [(.+)$] on the whole of [s] *)
Definition dot_plus (s : str) : option str :=
  if truthy s && negb (has_line_terminator s) then Some s else None.

(** [(.+?)] followed by what [m] matches: the shortest non-empty prefix. *)
Fixpoint lazy_prefix {A} (m : str -> option A) (s : str) : option (str * A) :=
  match s with
  | [] => None
  | b :: s' =>
      match m s' with
      | Some a => Some ([b], a)
      | None => match lazy_prefix m s' with Some (n, a) => Some (b :: n, a) | None => None end
      end
  end.

Definition lazy_dot {A} (m : str -> option A) (s : str) : option (str * A) :=
  match lazy_prefix m s with
  | Some (n, a) => if has_line_terminator n then None else Some (n, a)
  | None => None
  end.

(** What follows the literal [p] at the head of [s]. *)
Definition after (p s : str) : option str :=
  if starts_with p s then Some (drop (length p) s) else None.

(** The optional query that ends the two diff expressions: [None] without one. It may not
    hold a line terminator, which [.] does not match. *)
Definition opt_query (s : str) : option (option str) :=
  match s with
  | [] => Some None
  | x3f :: q => if has_line_terminator q then None else Some (Some q)
  | _ => None
  end.

(** The legacy same-service diff: the lazy service name, then [/diff] and its query. *)
Definition service_diff (raw : str) : option (str * option str) :=
  r ← after "services/" raw; lazy_dot (fun s => q ← after "/diff" s; opt_query q) r.

(** [/^services\/(.+?)\/versions\/(.+)$/] *)
Definition service_version (path : str) : option (str * str) :=
  r ← after "services/" path; lazy_dot (fun s => v ← after "/versions/" s; dot_plus v) r.

(** [/^p\/(.+)$/] *)
Definition after_key (p path : str) : option str := r ← after p path; dot_plus r.

(** [/^p([^/]+)\/(.+)$/] *)
Definition two_keys (p path : str) : option (str * str) :=
  r ← after p path;
  match cut x2f r with
  | (k, Some t) => if truthy k then t' ← dot_plus t; Some (k, t') else None
  | _ => None
  end.

(** [/^changes\/([^/]+)\/([^/]+)$/] *)
Definition two_segments (p path : str) : option (str * str) :=
  r ← after p path;
  match cut x2f r with
  | (k, Some t) => if truthy k && truthy t && negb (includes [x2f] t) then Some (k, t) else None
  | _ => None
  end.

(** ** The delivery routes *)
Definition DELIVERY_QUERY : list str :=
  [ "namespace"; "stage"; "offset"; "limit"; "q"; "environment"; "tier"; "held"; "frozen";
    "errored"; "blockers"; "show"; "service"; "domain" ].

Definition delivery_views : list (str * View) :=
  [ ("environments", VDeliveryEnvironments); ("autonomy", VDeliveryAutonomy);
    ("publish", VDeliveryPublish); ("history", VDeliveryHistory) ].

(** One Stage's history needs both halves of its name; a domain only narrows a service. *)
Definition delivery_params (qs : list (str * str)) : gmap str str :=
  let ps := read_params DELIVERY_QUERY qs in
  let ps := if otruthy (ps !! "namespace") && otruthy (ps !! "stage") then ps
            else delete "stage" (delete "namespace" ps) in
  if otruthy (ps !! "service") then ps else delete "domain" ps.

Definition parseDelivery (path query : str) : option Route :=
  let rest := strip_prefix "/" (drop (length ("delivery" : str)) path) in
  match two_segments "changes/" rest with
  | Some (ns, name) =>
      ns' ← decodeURIComponent ns; name' ← decodeURIComponent name;
      Some (route VDeliveryChange {[ "namespace" := ns'; "name" := name' ]})
  | None =>
      let v := match obj_get delivery_views rest with
               | Own v => v
               | Inherited k => VForeign k
               | Missing => VDeliveryInbox
               end in
      Some (route v (delivery_params (search_params query)))
  end.

(** ** The fleet routes *)
Definition GRAPH_QUERY : list str :=
  ["perspective"; "views"; "direction"; "depth"; "sel"; "kind"; "maxNodes"].
Definition ATTENTION_QUERY : list str :=
  [ "category"; "offset"; "limit"; "owner"; "ownerKey"; "source"; "service"; "businessDomain";
    "severity"; "status"; "staleOnly" ].
Definition CHANGES_QUERY : list str := ["name"; "old"; "new"; "observed"].
Definition SERVICES_QUERY : list str :=
  [ "text"; "owner"; "ownerKey"; "ownership"; "status"; "domain"; "businessDomain"; "capability";
    "offering"; "consumes"; "offset"; "limit"; "sort" ].
Definition ENTITY_LIST_QUERY : list str :=
  ["text"; "service"; "status"; "scope"; "offset"; "limit"; "sort"].
Definition LIST_QUERY : list str := ["text"; "sourceHealth"; "offset"; "limit"; "sort"].

Definition list_views : list (str * View) :=
  [ ("owners", VFleetOwners); ("sources", VFleetSources); ("domains", VFleetDomains);
    ("offerings", VFleetOfferings) ].

(** [/^(services|revisions|...)\/(.+)$/]: the kind of the segment, and its key *)
Definition entity_match (rest : str) : option (str * str) :=
  match cut x2f rest with
  | (seg, Some t) => k ← assoc seg PLURAL_KIND; t' ← dot_plus t; Some (k, t')
  | _ => None
  end.

Definition parseFleet (path query : str) : option Route :=
  let qs := search_params query in
  if path === "fleet" then Some (route VFleetOverview ∅)
  else
    let rest := drop (length ("fleet/" : str)) path in
    if (rest === "graph") || starts_with "graph/" rest then
      let ps := read_params GRAPH_QUERY qs in
      match two_keys "graph/" rest with
      | Some (k, s) =>
          k' ← decodeURIComponent k; s' ← decodeURIComponent s;
          Some (route VFleet (<["sel" := s']> (<["kind" := k']> ps)))
      | None => Some (route VFleet ps)
      end
    else if rest === "attention" then Some (route VFleetAttention (read_params ATTENTION_QUERY qs))
    else if (rest === "changes") || starts_with "changes/" rest || starts_with "impact/" rest then
      let ps := read_params CHANGES_QUERY qs in
      match after_key "changes/" rest, after_key "impact/" rest with
      | Some svc, _ | None, Some svc =>
          svc' ← decodeURIComponent svc; Some (route VChanges (<["svc" := svc']> ps))
      | None, None => Some (route VChanges ps)
      end
    else if rest === "services" then Some (route VFleetServices (read_params SERVICES_QUERY qs))
    else if (rest === "revisions") || (rest === "targets") then
      let isRevisions := rest === "revisions" in
      let ps := read_params (if isRevisions then ENTITY_LIST_QUERY ++ ["readiness"]
                             else ENTITY_LIST_QUERY ++ ["environment"]) qs in
      Some (route VFleetEntityList (<["kind" := if isRevisions then ("revision" : str) else "target"]> ps))
    else match assoc rest list_views with
    | Some v => Some (route v (read_params LIST_QUERY qs))
    | None =>
        match entity_match rest with
        | Some (kind, key) =>
            key' ← decodeURIComponent key;
            Some (route VFleetEntity {[ "kind" := kind; "key" := key' ]})
        | None => Some (route VFleetOverview ∅)
        end
    end.

(** ** [parseHash] *)
Definition DIFF_QUERY : list (str * str) :=
  [("from_name", "fromName"); ("from_ver", "fromVer"); ("to_name", "toName"); ("to_ver", "toVer")].
Definition IMPACT_QUERY : list str := ["svc"; "old"; "new"; "observed"].

(** [if (qs.get(k)) params[p] = qs.get(k)] for each pair of the list *)
Definition read_renamed (ks : list (str * str)) (qs : list (str * str)) : gmap str str :=
  fold_left (fun m kp => match when_truthy (qs_get qs kp.1) with
                         | Some v => <[kp.2 := v]> m
                         | None => m
                         end) ks ∅.

Definition set_if (k : str) (v : option str) (m : gmap str str) : gmap str str :=
  match when_truthy v with Some s => <[k := s]> m | None => m end.

Definition parse_service_diff (name : str) (q : option str) : option Route :=
  name ← decodeURIComponent name;
  let ps : gmap str str := {[ "name" := name; "fromName" := name; "toName" := name ]} in
  let ps := match when_truthy q with
            | None => ps
            | Some q =>
                let qs := search_params q in
                let from := qs_get qs "from" in
                let to := qs_get qs "to" in
                set_if "toVer" to (set_if "to" to (set_if "fromVer" from (set_if "from" from ps)))
            end in
  Some (route VDiff ps).

(** The routes after the diff ones: their path and query are apart. *)
Definition parsePath (path query : str) : option Route :=
  match service_version path with
  | Some (name, version) =>
      n ← decodeURIComponent name; v ← decodeURIComponent version;
      Some (route VDetail {[ "name" := n; "version" := v ]})
  | None =>
  match after_key "services/" path with
  | Some name => n ← decodeURIComponent name; Some (route VDetail {[ "name" := n ]})
  | None =>
      if path === "graph" then Some (route VGraph ∅)
      else if path === "readiness" then Some (route VReadiness ∅)
      else if (path === "fleet") || starts_with "fleet/" path then parseFleet path query
      else if (path === "delivery") || starts_with "delivery/" path then parseDelivery path query
      else if path === "impact" then
        Some (route VChanges (read_params IMPACT_QUERY (search_params query)))
      else match after_key "owners/" path with
      | Some owner => o ← decodeURIComponent owner; Some (route VOwnerDetail {[ "owner" := o ]})
      | None => if path === "owners" then Some (route VOwners ∅) else Some (route VList ∅)
      end
  end
  end.

Definition parseHash (hash : option str) : option Route :=
  let raw := strip_hash (or_str hash []) in
  if (raw === []) || (raw === "/") then Some (route VList ∅)
  else
    match after "diff" raw ≫= opt_query with
    | Some q => Some (route VDiff (match when_truthy q with
                                   | Some q => read_renamed DIFF_QUERY (search_params q)
                                   | None => ∅
                                   end))
    | None =>
        match service_diff raw with
        | Some (name, q) => parse_service_diff name q
        | None => parsePath (path_of raw) (nullish (cut x3f raw).2 [])
        end
    end.

(** ** The URL builders *)
Definition enc := encodeURIComponent.

Definition serviceUrl (name : str) : str := "#/services/" ++ enc name.
Definition serviceVersionUrl (name version : str) : str :=
  "#/services/" ++ enc name ++ "/versions/" ++ enc version.
Definition diffUrl (name : str) (from to : option str) : str :=
  with_query ("#/services/" ++ enc name ++ "/diff") (qs_build [("from", from); ("to", to)]).
Definition graphUrl : str := "#/graph".
Definition ownersUrl : str := "#/owners".
Definition readinessUrl : str := "#/readiness".
Definition fleetUrl : str := "#/fleet/graph".

Definition hashForHref (href : option str) : str :=
  match when_truthy href with
  | None => "#/fleet"
  | Some h => if starts_with "#" h then h else "#" ++ h
  end.

Definition fleetOverviewUrl : str := "#/fleet".

(** The page, page size and order a Fleet list keeps in its URL. *)
Record ListPaging := { lp_offset : option Z; lp_limit : option Z; lp_sort : option str }.
Definition no_paging : ListPaging := {| lp_offset := None; lp_limit := None; lp_sort := None |}.

(** [if (n && n > 0) qs.set(k, String(n))] *)
Definition positive_field (n : option Z) : option str :=
  match n with Some z => if (0 <? z)%Z then Some (show_Z z) else None | None => None end.

(** The keys [setPaging] sets, in its order. *)
Definition setPaging (p : ListPaging) : list (str * option str) :=
  [ ("offset", positive_field (lp_offset p)); ("limit", positive_field (lp_limit p));
    ("sort", lp_sort p) ].

Record ServicesQuery := {
  sq_text : option str; sq_owner : option str; sq_ownerKey : option str; sq_ownership : option str;
  sq_status : option str; sq_domain : option str; sq_businessDomain : option str;
  sq_capability : option str; sq_offering : option str; sq_consumes : option str;
  sq_paging : ListPaging }.

Definition services_fields (o : ServicesQuery) : list (str * option str) :=
  [ ("text", sq_text o); ("owner", sq_owner o); ("ownerKey", sq_ownerKey o);
    ("ownership", sq_ownership o); ("status", sq_status o); ("domain", sq_domain o);
    ("businessDomain", sq_businessDomain o); ("capability", sq_capability o);
    ("offering", sq_offering o); ("consumes", sq_consumes o) ] ++ setPaging (sq_paging o).

Definition fleetServicesUrl (o : ServicesQuery) : str :=
  with_query "#/fleet/services" (qs_build (services_fields o)).

Definition no_services_query : ServicesQuery :=
  {| sq_text := None; sq_owner := None; sq_ownerKey := None; sq_ownership := None;
     sq_status := None; sq_domain := None; sq_businessDomain := None; sq_capability := None;
     sq_offering := None; sq_consumes := None; sq_paging := no_paging |}.

Definition fleetOwnersUrl (text : option str) (p : ListPaging) : str :=
  with_query "#/fleet/owners" (qs_build (("text", text) :: setPaging p)).
Definition fleetDomainsUrl (text : option str) (p : ListPaging) : str :=
  with_query "#/fleet/domains" (qs_build (("text", text) :: setPaging p)).
Definition fleetOfferingsUrl (text : option str) (p : ListPaging) : str :=
  with_query "#/fleet/offerings" (qs_build (("text", text) :: setPaging p)).
Definition fleetSourcesUrl (text sourceHealth : option str) (p : ListPaging) : str :=
  with_query "#/fleet/sources"
    (qs_build (("text", text) :: ("sourceHealth", sourceHealth) :: setPaging p)).

Record EntityListQuery := {
  eq_service : option str; eq_text : option str; eq_status : option str; eq_scope : option str;
  eq_readiness : option str; eq_environment : option str; eq_paging : ListPaging }.

Definition no_entity_query : EntityListQuery :=
  {| eq_service := None; eq_text := None; eq_status := None; eq_scope := None;
     eq_readiness := None; eq_environment := None; eq_paging := no_paging |}.

(** The list page of a kind that has one. *)
Definition entity_lists : list (str * str) :=
  [ ("owner", fleetOwnersUrl None no_paging); ("source", fleetSourcesUrl None None no_paging);
    ("domain", fleetDomainsUrl None no_paging); ("offering", fleetOfferingsUrl None no_paging) ].

Definition entity_list_fields (kind : str) (o : EntityListQuery) : list (str * option str) :=
  [ ("service", eq_service o); ("text", eq_text o); ("status", eq_status o); ("scope", eq_scope o);
    ("readiness", if kind === "revision" then eq_readiness o else None);
    ("environment", if kind === "target" then eq_environment o else None) ]
  ++ setPaging (eq_paging o).

(** A kind that names a member of [Object.prototype] calls that member instead. *)
Definition fleetEntityListUrl (kind : str) (o : EntityListQuery) : jsval :=
  if (kind !== "revision") && (kind !== "target") then
    get_or entity_lists kind (fleetServicesUrl no_services_query)
  else
    let plural : str := if kind === "revision" then "revisions" else "targets" in
    JStr (with_query ("#/fleet/" ++ plural) (qs_build (entity_list_fields kind o))).

(** The text of a member of [Object.prototype] put in a template string. *)
Definition builtin_text (k : str) : str :=
  if k === "__proto__" then "[object Object]"
  else "function " ++ (if k === "constructor" then "Object" else k) ++ "() { [native code] }".

Definition fleetEntityUrl (kind key : str) : str :=
  let plural := match obj_get KIND_PLURAL kind with
                | Own p => p
                | Inherited k => builtin_text k
                | Missing => "services"
                end in
  "#/fleet/" ++ plural ++ "/" ++ enc key.

Definition fleetGraphDiscoveryUrl : str := "#/fleet/graph".

Definition sameViews (a b : list KnowledgeView) : bool :=
  (length a =? length b)%nat && forallb (fun v => bool_decide (v ∈ a)) b.

(** The optional graph state a focus URL may carry. *)
Record GraphOptions := {
  go_perspective : option GraphPerspective; go_views : option (list KnowledgeView);
  go_direction : option Direction; go_depth : option Z; go_maxNodes : option Z }.

Definition graph_fields (o : GraphOptions) : list (str * option str) :=
  [ ("perspective", match go_perspective o with
                    | Some p => if p !== PService then Some (perspective_str p) else None
                    | None => None end);
    ("views", match go_views o with
              | Some vs => if negb (length vs =? 0)%nat && negb (sameViews vs DEFAULT_VIEWS)
                           then Some (join "," (view_str <$> vs)) else None
              | None => None end);
    ("direction", match go_direction o with
                  | Some d => if d !== Both then Some (direction_str d) else None
                  | None => None end);
    ("depth", match go_depth o with
              | Some d => if negb (d =? 0)%Z && negb (d =? 1)%Z then Some (show_Z d) else None
              | None => None end);
    ("maxNodes", match go_maxNodes o with
                 | Some n => if negb (n =? 0)%Z && negb (n =? DEFAULT_MAX_NODES)%Z
                             then Some (show_Z n) else None
                 | None => None end) ].

Definition fleetGraphFocusUrl (kind key : str) (o : GraphOptions) : str :=
  if negb (truthy key) then fleetGraphDiscoveryUrl
  else with_query ("#/fleet/graph/" ++ enc kind ++ "/" ++ enc key) (qs_build (graph_fields o)).

Record AttentionQuery := {
  aq_category : option str; aq_owner : option str; aq_ownerKey : option str; aq_source : option str;
  aq_service : option str; aq_businessDomain : option str; aq_severity : option str;
  aq_status : option str; aq_staleOnly : bool; aq_paging : ListPaging }.

Definition attention_fields (o : AttentionQuery) : list (str * option str) :=
  [ ("category", aq_category o); ("owner", aq_owner o); ("ownerKey", aq_ownerKey o);
    ("source", aq_source o); ("service", aq_service o); ("businessDomain", aq_businessDomain o);
    ("severity", aq_severity o); ("status", aq_status o);
    ("staleOnly", if aq_staleOnly o then Some ("1" : str) else None) ] ++ setPaging (aq_paging o).

Definition fleetAttentionUrl (o : AttentionQuery) : str :=
  with_query "#/fleet/attention" (qs_build (attention_fields o)).

Record ChangesQuery := {
  cq_name : option str; cq_old : option str; cq_new : option str; cq_observed : bool }.

Definition no_changes_query : ChangesQuery :=
  {| cq_name := None; cq_old := None; cq_new := None; cq_observed := false |}.

Definition changes_fields (serviceKey : str) (o : ChangesQuery) : list (str * option str) :=
  [ ("name", if truthy serviceKey then None else cq_name o); ("old", cq_old o); ("new", cq_new o);
    ("observed", if cq_observed o then Some ("1" : str) else None) ].

Definition fleetChangesUrl (serviceKey : str) (o : ChangesQuery) : str :=
  with_query (if truthy serviceKey then "#/fleet/changes/" ++ enc serviceKey else "#/fleet/changes")
    (qs_build (changes_fields serviceKey o)).

Definition ownerUrl (key : str) : str := "#/owners/" ++ enc key.

Definition compareDiffUrl (fromName fromVer toName toVer : option str) : str :=
  with_query "#/diff"
    (qs_build [("from_name", fromName); ("from_ver", fromVer); ("to_name", toName); ("to_ver", toVer)]).

(** *** Delivery *)
Definition deliveryInboxUrl (q : list (str * pval)) : str := pagedHash "#/delivery/inbox" q.
Definition deliveryEnvironmentsUrl (q : list (str * pval)) : str := pagedHash "#/delivery/environments" q.
Definition deliveryAutonomyUrl (q : list (str * pval)) : str := pagedHash "#/delivery/autonomy" q.
Definition deliveryPublishUrl (q : list (str * pval)) : str := pagedHash "#/delivery/publish" q.

Definition deliveryHistoryUrl (namespace stage : option str) (q : list (str * pval)) : str :=
  pagedHash "#/delivery/history"
    (match when_truthy namespace, when_truthy stage with
     | Some ns, Some st => ("namespace", VStr ns) :: ("stage", VStr st) :: q
     | _, _ => q
     end).

Definition deliveryChangeUrl (namespace name : str) : str :=
  "#/delivery/changes/" ++ enc namespace ++ "/" ++ enc name.

(** ** Navigation *)

(** The location [navigate] assigns; the views are named by their text. *)
Definition navigate_hash (v : str) (ps : gmap str str) : str :=
  let name := ps !! "name" in
  if (v === "detail") && otruthy name then
    match when_truthy (ps !! "version") with
    | Some version => serviceVersionUrl (nullish name []) version
    | None => serviceUrl (nullish name [])
    end
  else if (v === "diff") && otruthy name then "#/services/" ++ enc (nullish name []) ++ "/diff"
  else if v === "graph" then "#/graph"
  else if v === "readiness" then "#/readiness"
  else if v === "fleet" then fleetUrl
  else if v === "fleet-overview" then fleetOverviewUrl
  else if v === "changes" then fleetChangesUrl (or_str (ps !! "svc") []) no_changes_query
  else if v === "owners" then "#/owners"
  else if (v === "owner-detail") && otruthy (ps !! "owner") then ownerUrl (nullish (ps !! "owner") [])
  else "#/".

(** The browser's side: the location, the entries behind it and the [hashchange] events
    the application is told of. *)
Record Browser := { location : str; history : list str; notified : list str }.

Definition replaceHash (b : Browser) (hash : str) : Browser :=
  let h := if starts_with "#" hash then hash else "#" ++ hash in
  if h === location b then b
  else {| location := h; history := history b; notified := notified b ++ [h] |}.

Definition navigate (b : Browser) (v : str) (ps : gmap str str) : Browser :=
  let h := navigate_hash v ps in
  if h === location b then b
  else {| location := h; history := location b :: history b; notified := notified b ++ [h] |}.

(** ** Legacy redirects

    [None] is the exception, [Some None] no redirect. *)
Definition legacyRedirectTarget (hash : option str) : option (option str) :=
  let full := strip_hash (or_str hash []) in
  let raw := path_of full in
  let qs := query_of full in
  match after "services/" raw ≫= lazy_dot (fun s => if s === "/diff" then Some tt else None) with
  | Some (name, _) =>
      n ← decodeURIComponent name;
      Some (Some (fleetChangesUrl [] {| cq_name := Some n; cq_old := None; cq_new := None; cq_observed := false |}))
  | None =>
  match after_key "fleet/impact/" raw with
  | Some key => k ← decodeURIComponent key; Some (Some (fleetChangesUrl k no_changes_query))
  | None =>
      if (raw === []) || (raw === "/") then Some (Some fleetOverviewUrl)
      else if raw === "services" then Some (Some (fleetServicesUrl no_services_query))
      else if raw === "graph" then Some (Some fleetGraphDiscoveryUrl)
      else if raw === "owners" then Some (Some (fleetOwnersUrl None no_paging))
      else if raw === "readiness" then
        Some (match fleetEntityListUrl "revision" no_entity_query with JStr s => Some s | _ => None end)
      else if raw === "diff" then
        let name := or_str (qs_get qs "from_name") (or_str (qs_get qs "to_name") []) in
        Some (Some (fleetChangesUrl []
          {| cq_name := Some name; cq_old := None; cq_new := None; cq_observed := false |}))
      else if raw === "impact" then
        Some (Some (fleetChangesUrl (or_str (qs_get qs "svc") [])
          {| cq_name := None; cq_old := Some (or_str (qs_get qs "old") []);
             cq_new := Some (or_str (qs_get qs "new") []);
             cq_observed := qs_get qs "observed" === Some "1" |}))
      else Some None
  end
  end.

(** ** Lemmas on the expressions *)
Lemma after_app p t : after p (p ++ t) = Some t.
Proof. unfold after. rewrite starts_with_app, drop_app_length. done. Qed.

Lemma after_inv p s t : after p s = Some t -> s = p ++ t.
Proof.
  unfold after. destruct (starts_with p s) eqn:E; [|done].
  apply starts_with_spec in E as [u ->]. rewrite drop_app_length. congruence.
Qed.

Lemma dot_plus_inv s t : dot_plus s = Some t -> t = s.
Proof. unfold dot_plus. case_match; congruence. Qed.

(** An encoded key holds none of the characters that delimit it. *)
Lemma enc_no_lt s : has_line_terminator (enc s) = false.
Proof.
  unfold has_line_terminator.
  assert (forall c p, component_char c = false -> includes (c :: p) (enc s) = false) as H.
  { intros c p Hc. apply not_true_iff_false. rewrite includes_spec. intros (u & v & E).
    apply (encode_not_elem c s Hc). unfold enc in E. rewrite E. set_solver. }
  rewrite !H by done. done.
Qed.

Lemma enc_slash s : x2f ∉ enc s.
Proof. by apply encode_not_elem. Qed.
Lemma enc_question s : x3f ∉ enc s.
Proof. by apply encode_not_elem. Qed.
#[export] Hint Resolve enc_slash enc_question enc_no_lt : js.

Lemma enc_truthy s : s <> [] -> truthy (enc s) = true.
Proof. intros H. apply truthy_nonempty. by apply encode_nonempty. Qed.

Lemma dot_plus_enc s : s <> [] -> dot_plus (enc s) = Some (enc s).
Proof. intros H. unfold dot_plus. by rewrite enc_truthy, enc_no_lt. Qed.

Lemma after_key_enc p s : s <> [] -> after_key p (p ++ enc s) = Some (enc s).
Proof. intros H. unfold after_key. rewrite after_app. by apply dot_plus_enc. Qed.

(** The lazy group stops at the first delimiter its continuation accepts. *)
Lemma lazy_prefix_none {A} (m : str -> option A) s :
  (forall u v, s = u ++ v -> u <> [] -> m v = None) -> lazy_prefix m s = None.
Proof.
  induction s as [|b s IH]; intros H; [done|]. simpl.
  rewrite (H [b] s) by done. rewrite IH; [done|].
  intros u v -> Hu. by apply (H (b :: u) v).
Qed.

Lemma lazy_prefix_first {A} (m : str -> option A) n t a :
  n <> [] -> (forall u v, n = u ++ v -> u <> [] -> v <> [] -> m (v ++ t) = None) ->
  m t = Some a -> lazy_prefix m (n ++ t) = Some (n, a).
Proof.
  induction n as [|b n IH]; intros Hn Hm Ht; [done|]. simpl.
  destruct n as [|c n]; [simpl; by rewrite Ht|].
  rewrite (Hm [b] (c :: n)) by done. rewrite IH; try done.
  intros u v E Hu Hv. apply (Hm (b :: u) v); [by rewrite E | done | done].
Qed.

Lemma after_slash_none p v t :
  v <> [] -> x2f ∉ v -> after (x2f :: p) (v ++ t) = None.
Proof.
  intros Hv Hs. destruct v as [|b v]; [done|]. unfold after. simpl.
  rewrite bool_decide_eq_false_2 by set_solver. done.
Qed.

(** ** Links *)
Lemma with_query_app p b qs : with_query (p ++ b) qs = p ++ with_query b qs.
Proof. rewrite !with_query_eq. destruct qs; [done|]. by rewrite <- app_assoc. Qed.

(** A link whose path starts with neither a diff nor a service is read by [parsePath]. *)
Lemma parse_link c1 c2 b qs :
  x3f ∉ c1 :: c2 :: b -> c1 <> x73 -> (c1 = x64 -> c2 <> x69) ->
  parseHash (Some ("#/" ++ with_query (c1 :: c2 :: b) qs)) = parsePath (c1 :: c2 :: b) (qs_print qs).
Proof.
  intros Hq H1 H2. unfold parseHash.
  set (raw := with_query (c1 :: c2 :: b) qs).
  assert (strip_hash (or_str (Some ("#/" ++ raw)) []) = raw) as -> by done.
  assert (exists r, raw = c1 :: c2 :: r) as [r Hr].
  { unfold raw. rewrite with_query_eq. destruct qs; eauto. }
  assert ((raw === []) || (raw === "/") = false) as ->.
  { rewrite Hr. apply orb_false_iff. split; apply bool_decide_eq_false; intros ?; simplify_eq. }
  assert (after "diff" raw ≫= opt_query = None) as ->.
  { rewrite Hr. unfold after. cbn [starts_with].
    repeat case_bool_decide; subst; try done. by destruct H2. }
  assert (service_diff raw = None) as ->.
  { rewrite Hr. unfold service_diff, after. cbn [starts_with].
    rewrite (bool_decide_eq_false_2 (x73 = c1)) by congruence. done. }
  unfold path_of, raw. rewrite with_query_eq. destruct qs as [|p qs].
  - by rewrite cut_none.
  - by rewrite cut_some.
Qed.

Lemma parse_fleet_link b qs :
  x3f ∉ b -> parseHash (Some (with_query ("#/fleet/" ++ b) qs)) = parseFleet ("fleet/" ++ b) (qs_print qs).
Proof.
  intros H. change ("#/fleet/" ++ b) with ("#/" ++ ("fleet/" ++ b)). rewrite with_query_app.
  change ("fleet/" ++ b) with (x66 :: x6c :: ("eet/" ++ b)).
  rewrite parse_link; try done.
  rewrite !not_elem_of_cons. split_and!; try done. apply not_elem_of_app. split; [set_solver|done].
Qed.

(** A fleet page found by its bare name. *)
Ltac fleet_page :=
  unfold parseFleet;
  repeat match goal with
  | |- context [if bool_decide ?P then _ else _] =>
      first [ rewrite (bool_decide_eq_false_2 P) by (by intros ?; simplify_eq)
            | rewrite (bool_decide_eq_true_2 P) by done ]
  | |- context [bool_decide ?P || _] =>
      first [ rewrite (bool_decide_eq_false_2 P) by (by intros ?; simplify_eq)
            | rewrite (bool_decide_eq_true_2 P) by done ]
  end.

(** ** Round trips *)

(** No query delimiter in a path made of literals and encoded keys. *)
Ltac no_question :=
  repeat (rewrite not_elem_of_app; split); first [apply enc_question | by_decide].

(** Discharge the tests of a path that starts differently. *)
Ltac other_paths :=
  repeat (rewrite bool_decide_eq_false_2 by (by intros ?; simplify_eq)); cbn [orb].

Lemma entity_match_inv rest kind k :
  entity_match rest = Some (kind, k) ->
  exists plural, (plural, kind) ∈ PLURAL_KIND /\ rest = plural ++ x2f :: k.
Proof.
  unfold entity_match. destruct (cut x2f rest) as [seg [t|]] eqn:E; [|done].
  apply cut_inv in E as [_ ->]. destruct (assoc seg PLURAL_KIND) as [k'|] eqn:Ea; [|done]. simpl.
  destruct (dot_plus t) eqn:Ed; [|done]. apply dot_plus_inv in Ed. intros; simplify_eq/=.
  exists seg. split; [by apply assoc_elem | done].
Qed.

Lemma parseFleet_entity rest q kind k :
  entity_match rest = Some (kind, k) ->
  parseFleet ("fleet/" ++ rest) q =
    k' ← decodeURIComponent k; Some (route VFleetEntity {[ "kind" := kind; "key" := k' ]}).
Proof.
  intros He. unfold parseFleet.
  change (drop (length ("fleet/" : str)) ("fleet/" ++ rest)) with rest. rewrite He.
  apply entity_match_inv in He as (plural & Hp & ->). clear -Hp.
  repeat (apply elem_of_cons in Hp as [Hp|Hp];
    [injection Hp as -> ->; cbn [app starts_with]; other_paths; reflexivity|]).
  by apply not_elem_of_nil in Hp.
Qed.

Lemma fleetEntityUrl_parses (kind key : str) :
  kind ∈ KIND_PLURAL.*1 -> key <> [] -> Utf8 key ->
  parseHash (Some (fleetEntityUrl kind key)) =
    Some (route VFleetEntity {[ "kind" := kind; "key" := key ]}).
Proof.
  intros Hk Hne Hu.
  assert (exists plural, fleetEntityUrl kind key = "#/fleet/" ++ (plural ++ x2f :: enc key) /\
    x3f ∉ plural /\ entity_match (plural ++ x2f :: enc key) = Some (kind, enc key)) as (plural & -> & Hq & He).
  { unfold fleetEntityUrl, entity_match.
    repeat (apply elem_of_cons in Hk as [->|Hk];
      [eexists; split; [reflexivity|]; split; [by_decide|];
       rewrite cut_some by by_decide; simpl; by rewrite dot_plus_enc|]).
    by apply not_elem_of_nil in Hk. }
  pose proof (parse_fleet_link (plural ++ x2f :: enc key) []) as Hp. rewrite with_query_eq in Hp.
  rewrite Hp; last first.
  { rewrite not_elem_of_app, not_elem_of_cons. split_and!; [done|done|apply enc_question]. }
  rewrite (parseFleet_entity _ _ _ _ He). unfold enc. by rewrite decode_encode.
Qed.

(** C1: an entity link opens its entity. For every entity kind the router knows and every
    non-empty canonical key (slashes, percent signs, spaces, any Unicode text), parsing the
    URL [fleetEntityUrl] builds gives the entity page of exactly that kind and key. *)
Theorem fleetEntityUrl_roundtrip (kind key : str) :
  kind ∈ KIND_PLURAL.*1 -> key <> [] -> Utf8 key ->
  parseHash (Some (fleetEntityUrl kind key)) =
    Some (route VFleetEntity {[ "kind" := kind; "key" := key ]}).
Proof. apply fleetEntityUrl_parses. Qed.

Lemma fleetEntityUrl_roundtrip_witness :
  parseHash (Some (fleetEntityUrl "revision" "oci://reg/a b@é%")) =
    Some (route VFleetEntity {[ "kind" := "revision"; "key" := "oci://reg/a b@é%" ]}).
Proof. apply fleetEntityUrl_roundtrip; [by_decide | done | by_decide]. Defined.

(** A page that reads the keys [ks] from its query reads back the fields its link was
    built from. *)
Lemma list_page_roundtrip (b : str) (v : View) (ks : list str) (l : list (str * option str))
    (f : gmap str str -> gmap str str) :
  x3f ∉ b ->
  (forall q, parseFleet ("fleet/" ++ b) q = Some (route v (f (read_params ks (search_params q))))) ->
  NoDup (keys l) -> utf8_fields l ->
  exists ps, parseHash (Some (with_query ("#/fleet/" ++ b) (qs_build l))) = Some (route v (f ps)) /\
    forall k, ps !! k = if bool_decide (k ∈ ks) then field_of l k else None.
Proof.
  intros Hb Hp Hn Hu. rewrite parse_fleet_link by done. rewrite Hp. eexists. split; [done|].
  intros k. by rewrite read_build_roundtrip.
Qed.

Lemma field_absent (l : list (str * option str)) (ks : list str) :
  forallb (fun p => bool_decide (p.1 ∈ ks) || (p.2 === None)) l = true ->
  forall k, k ∉ ks -> field_of l k = None.
Proof.
  intros H k Hk. unfold field_of. destruct (assoc k l) as [v|] eqn:E; [|done]. simpl.
  apply assoc_elem, list_elem_of_In in E. rewrite forallb_forall in H. apply H in E. simpl in E.
  apply orb_true_iff in E as [E|E]; apply bool_decide_eq_true in E; [done|by subst].
Qed.

(** The Services and Attention links carry their filters, page and order. Parsing the
    URL built from any filters gives the same page with exactly the non-empty filters and
    the positive offset and limit that were put in, and no other parameter. (The backlog
    has no order of its own, so the order is the one field Attention does not read.) *)
Theorem list_links_roundtrip (o : ServicesQuery) (a : AttentionQuery) :
  utf8_fields (services_fields o) -> utf8_fields (attention_fields a) ->
  (exists ps, parseHash (Some (fleetServicesUrl o)) = Some (route VFleetServices ps) /\
     forall k, ps !! k = field_of (services_fields o) k) /\
  (exists ps, parseHash (Some (fleetAttentionUrl a)) = Some (route VFleetAttention ps) /\
     forall k, ps !! k = if k === "sort" then None else field_of (attention_fields a) k).
Proof.
  intros Ho Ha. split.
  - destruct (list_page_roundtrip "services" VFleetServices SERVICES_QUERY (services_fields o) id)
      as (ps & Hp & Hf); try done; [by_decide|by_decide|].
    exists ps. split; [exact Hp|]. intros k. rewrite Hf. case_bool_decide as Hk; [done|].
    symmetry. revert k Hk. apply field_absent. vm_compute. reflexivity.
  - destruct (list_page_roundtrip "attention" VFleetAttention ATTENTION_QUERY (attention_fields a) id)
      as (ps & Hp & Hf); try done; [by_decide|by_decide|].
    exists ps. split; [exact Hp|]. intros k. rewrite Hf. case_bool_decide as Hk.
    + rewrite bool_decide_eq_false_2; [done|]. intros ->. revert Hk. by_decide.
    + case_bool_decide as Hs; [done|]. symmetry.
      apply (field_absent _ ("sort" :: ATTENTION_QUERY)); [vm_compute; reflexivity|set_solver].
Qed.

Lemma list_links_roundtrip_witness :
  let o := {| sq_text := Some "a&b=c"; sq_owner := None; sq_ownerKey := Some "team:é"; sq_ownership := Some "";
              sq_status := None; sq_domain := None; sq_businessDomain := None; sq_capability := None;
              sq_offering := None; sq_consumes := None;
              sq_paging := {| lp_offset := Some 50%Z; lp_limit := Some 0%Z; lp_sort := None |} |} in
  let a := {| aq_category := Some "stale"; aq_owner := None; aq_ownerKey := None; aq_source := None;
              aq_service := None; aq_businessDomain := None; aq_severity := None; aq_status := None;
              aq_staleOnly := true; aq_paging := no_paging |} in
  exists ps, parseHash (Some (fleetServicesUrl o)) = Some (route VFleetServices ps) /\
     forall k, ps !! k = field_of (services_fields o) k.
Proof.
  intros o a. apply (list_links_roundtrip o a); unfold utf8_fields; by_decide.
Defined.

(** A scoped inventory link (revisions or targets) opens that inventory with its
    filters, and a filter the other kind owns is never put in the URL: readiness travels
    with revisions only and environment with targets only. *)
Theorem fleetEntityListUrl_roundtrip (rev : bool) (o : EntityListQuery) :
  let kind : str := if rev then "revision" else "target" in
  utf8_fields (entity_list_fields kind o) ->
  exists url ps, fleetEntityListUrl kind o = JStr url /\
    parseHash (Some url) = Some (route VFleetEntityList (<["kind" := kind]> ps)) /\
    (forall k, ps !! k = field_of (entity_list_fields kind o) k) /\
    (if rev then ps !! "environment" = None else ps !! "readiness" = None).
Proof.
  intros kind Hu. subst kind. destruct rev.
  - destruct (list_page_roundtrip "revisions" VFleetEntityList (ENTITY_LIST_QUERY ++ ["readiness"])
      (entity_list_fields "revision" o) (<["kind" := "revision"]>)) as (ps & Hp & Hf);
      try done; [by_decide|by_decide|].
    assert (forall k, ps !! k = field_of (entity_list_fields "revision" o) k) as Hf'.
    { intros k. rewrite Hf. case_bool_decide as Hk; [done|]. symmetry. revert k Hk.
      apply field_absent. vm_compute. reflexivity. }
    eexists _, ps. split_and!; [reflexivity | exact Hp | exact Hf' | by rewrite Hf'].
  - destruct (list_page_roundtrip "targets" VFleetEntityList (ENTITY_LIST_QUERY ++ ["environment"])
      (entity_list_fields "target" o) (<["kind" := "target"]>)) as (ps & Hp & Hf);
      try done; [by_decide|by_decide|].
    assert (forall k, ps !! k = field_of (entity_list_fields "target" o) k) as Hf'.
    { intros k. rewrite Hf. case_bool_decide as Hk; [done|]. symmetry. revert k Hk.
      apply field_absent. vm_compute. reflexivity. }
    eexists _, ps. split_and!; [reflexivity | exact Hp | exact Hf' | by rewrite Hf'].
Qed.

Lemma fleetEntityListUrl_roundtrip_witness :
  let o := {| eq_service := Some "d/svc"; eq_text := None; eq_status := None; eq_scope := None;
              eq_readiness := Some "passing"; eq_environment := Some "prod"; eq_paging := no_paging |} in
  exists url ps, fleetEntityListUrl "target" o = JStr url /\
    parseHash (Some url) = Some (route VFleetEntityList (<["kind" := "target"]> ps)) /\
    (forall k, ps !! k = field_of (entity_list_fields "target" o) k) /\ ps !! "readiness" = None.
Proof.
  intros o. apply (fleetEntityListUrl_roundtrip false o). unfold utf8_fields. by_decide.
Defined.

(** *** Graph links *)

Lemma show_Z_pos z : (0 < z)%Z -> show_Z z = show_N (Z.to_N z).
Proof. by destruct z. Qed.

Lemma parse_int_show z : (0 < z <= 2 ^ 53)%Z -> parse_int (show_Z z) = JNum z.
Proof.
  intros H. rewrite show_Z_pos by lia. rewrite parse_int_show_N by lia. f_equal. lia.
Qed.

Lemma show_Z_truthy z : (0 < z)%Z -> truthy (show_Z z) = true.
Proof. intros H. rewrite show_Z_pos by done. apply truthy_nonempty, show_N_nonempty. Qed.

Lemma view_str_utf8 v : Utf8 (view_str v).
Proof. destruct v; by_decide. Qed.

Lemma join_views_utf8 vs : Utf8 (join "," (view_str <$> vs)).
Proof.
  induction vs as [|v [|w vs] IH]; [by_decide | apply view_str_utf8 |].
  rewrite !fmap_cons, join_cons2. apply Utf8_app; [apply view_str_utf8|].
  apply Utf8_app; [by_decide | exact IH].
Qed.

Lemma read_join_views vs :
  vs <> [] ->
  omap (fun v => member view_str KNOWN_VIEWS (trim v)) (split_on x2c (join "," (view_str <$> vs))) = vs.
Proof.
  intros Hne. rewrite (split_join x2c).
  - clear Hne. induction vs as [|v vs IH]; [done|]. rewrite fmap_cons. cbn [omap list_omap].
    assert (member view_str KNOWN_VIEWS (trim (view_str v)) = Some v) as -> by (by destruct v).
    f_equal. exact IH.
  - by destruct vs.
  - apply Forall_fmap, Forall_forall. intros v _. destruct v; by_decide.
Qed.

Lemma sameViews_default vs : NoDup vs -> sameViews vs DEFAULT_VIEWS = true -> DEFAULT_VIEWS ≡ₚ vs.
Proof.
  unfold sameViews. intros Hn [Hl Hm]%andb_true_iff. apply Nat.eqb_eq in Hl.
  rewrite forallb_forall in Hm.
  apply submseteq_length_Permutation; [|lia]. apply NoDup_submseteq; [by_decide|].
  intros v Hv%list_elem_of_In. apply Hm in Hv. by apply bool_decide_eq_true in Hv.
Qed.

(** The optional parts of a link that shares the whole state. *)
Definition graph_options (s : GraphState) : GraphOptions :=
  {| go_perspective := Some (gs_perspective s); go_views := Some (gs_views s);
     go_direction := Some (gs_direction s); go_depth := Some (gs_depth s);
     go_maxNodes := Some (gs_maxNodes s) |}.

(** What the graph page reads from its parameters, given the fields of the link. *)
Lemma graph_fields_read (s : GraphState) (ps : gmap str str) :
  graph_state_ok s -> ps !! "kind" = Some (gs_kind s) -> ps !! "sel" = Some (gs_key s) ->
  (forall k, k ∈ keys (graph_fields (graph_options s)) ->
     ps !! k = field_of (graph_fields (graph_options s)) k) ->
  let s' := graphStateFromParams ps in
  s' = {| gs_kind := gs_kind s; gs_key := gs_key s; gs_perspective := gs_perspective s;
          gs_views := gs_views s'; gs_direction := gs_direction s; gs_depth := gs_depth s;
          gs_maxNodes := gs_maxNodes s |} /\ gs_views s' ≡ₚ gs_views s.
Proof.
  intros (Hd & Hm & Hv & Hn) Hk Hs Hf s'. subst s'. unfold graphStateFromParams.
  rewrite Hk, Hs, !Hf by (clear; simpl; set_solver). unfold field_of. simpl.
  split; [f_equal|].
  - by destruct (gs_kind s).
  - by destruct (gs_key s).
  - by destruct (gs_perspective s).
  - by destruct (gs_direction s).
  - unfold MAX_DEPTH in *. assert (gs_depth s = 1 \/ gs_depth s = 2 \/ gs_depth s = 3 \/ gs_depth s = 4 \/
      gs_depth s = 5 \/ gs_depth s = 6)%Z as Hc by lia.
    by destruct Hc as [->|[->|[->|[->|[->| ->]]]]].
  - change MAX_NODES with 200%Z in *. unfold DEFAULT_MAX_NODES.
    rewrite (proj2 (Z.eqb_neq (gs_maxNodes s) 0)) by lia. simpl.
    destruct (Z.eqb_spec (gs_maxNodes s) 40) as [->|Hne]; simpl; [done|].
    unfold when_truthy. simpl. rewrite show_Z_truthy by lia. simpl. rewrite parse_int_show by lia.
    unfold clampMaxNodes. rewrite (proj2 (Z.ltb_ge _ _)) by lia.
    change MAX_NODES with 200%Z. lia.
  - assert ((length (gs_views s) =? 0)%nat = false) as -> by (by destruct (gs_views s)). simpl.
    destruct (sameViews (gs_views s) DEFAULT_VIEWS) eqn:E; simpl; [by apply sameViews_default|].
    assert (truthy (join "," (view_str <$> gs_views s)) = true) as Ht.
    { destruct (gs_views s) as [|v [|w l]]; [done|by destruct v|]. rewrite !fmap_cons, join_cons2. by destruct v. }
    unfold when_truthy. simpl. rewrite Ht. simpl. rewrite Ht. rewrite read_join_views by done.
    destruct (gs_views s) eqn:Es; [done|]. unfold dedupeViews. rewrite dedupeViews_id; simpl; done.
Qed.

Lemma graph_fields_utf8 o : utf8_fields (graph_fields o).
Proof.
  unfold utf8_fields, graph_fields. repeat (apply Forall_cons; split; [split; [by_decide|]|]);
    [..|constructor]; simpl; repeat case_match; simpl; auto using join_views_utf8, show_Z_utf8;
    match goal with |- Utf8 (_ ?p) => destruct p; by_decide end.
Qed.

(** A graph link reads back as the state it was built from. *)
Lemma graph_link_reads (s : GraphState) :
  graph_state_ok s -> gs_kind s <> [] -> gs_key s <> [] -> Utf8 (gs_kind s) -> Utf8 (gs_key s) ->
  exists r, parseHash (Some (fleetGraphFocusUrl (gs_kind s) (gs_key s) (graph_options s))) = Some r /\
    view r = VFleet /\ hasFocus (params r) = true /\
    let s' := graphStateFromParams (params r) in
    s' = {| gs_kind := gs_kind s; gs_key := gs_key s; gs_perspective := gs_perspective s;
            gs_views := gs_views s'; gs_direction := gs_direction s; gs_depth := gs_depth s;
            gs_maxNodes := gs_maxNodes s |} /\ gs_views s' ≡ₚ gs_views s.
Proof.
  intros Hok Hk Hs Uk Us. unfold fleetGraphFocusUrl.
  rewrite (proj2 (truthy_nonempty _)) by done. cbn [negb].
  change ("#/fleet/graph/" ++ enc (gs_kind s) ++ "/" ++ enc (gs_key s))
    with ("#/fleet/" ++ ("graph/" ++ enc (gs_kind s) ++ "/" ++ enc (gs_key s))).
  rewrite parse_fleet_link by no_question. unfold parseFleet.
  rewrite bool_decide_eq_false_2 by (by intros ?; simplify_eq).
  change (drop (length ("fleet/" : str)) ("fleet/" ++ ?r)) with r.
  rewrite starts_with_app, orb_true_r.
  assert (two_keys "graph/" ("graph/" ++ enc (gs_kind s) ++ "/" ++ enc (gs_key s)) =
    Some (enc (gs_kind s), enc (gs_key s))) as ->.
  { unfold two_keys. rewrite after_app. simpl. rewrite cut_some by apply enc_slash.
    rewrite enc_truthy, dot_plus_enc by done. done. }
  unfold enc. rewrite !decode_encode by done. cbn [mbind option_bind].
  eexists. split; [reflexivity|]. cbn [view params route]. split; [done|].
  set (q := read_params _ _).
  assert (forall k, k ∈ keys (graph_fields (graph_options s)) ->
    q !! k = field_of (graph_fields (graph_options s)) k) as Hq.
  { intros k Hkk. unfold q. rewrite read_build_roundtrip; [|by_decide|apply graph_fields_utf8].
    rewrite bool_decide_eq_true_2; [done|]. revert k Hkk. clear. simpl. unfold GRAPH_QUERY, keys. simpl.
    intros k. set_solver. }
  split.
  - unfold hasFocus. rewrite lookup_insert_ne, !lookup_insert_eq by done. simpl.
    by rewrite !(proj2 (truthy_nonempty _)).
  - apply graph_fields_read; [done| | |].
    + by rewrite lookup_insert_ne, lookup_insert_eq.
    + by rewrite lookup_insert_eq.
    + intros k Hkk. rewrite !lookup_insert_ne; [by apply Hq|..]; intros <-; revert Hkk; by_decide.
Qed.

(** C5: a shared graph link reopens the same graph. For every focus and every state the
    graph works with, parsing the URL [fleetGraphFocusUrl] builds and reading the state
    from its parameters gives back the focus, perspective, direction, depth and node
    budget, and the same set of knowledge views (the default set in its own order). *)
Theorem fleetGraphFocusUrl_roundtrip (s : GraphState) :
  graph_state_ok s -> gs_kind s <> [] -> gs_key s <> [] -> Utf8 (gs_kind s) -> Utf8 (gs_key s) ->
  exists r, parseHash (Some (fleetGraphFocusUrl (gs_kind s) (gs_key s) (graph_options s))) = Some r /\
    view r = VFleet /\ hasFocus (params r) = true /\
    let s' := graphStateFromParams (params r) in
    s' = {| gs_kind := gs_kind s; gs_key := gs_key s; gs_perspective := gs_perspective s;
            gs_views := gs_views s'; gs_direction := gs_direction s; gs_depth := gs_depth s;
            gs_maxNodes := gs_maxNodes s |} /\ gs_views s' ≡ₚ gs_views s.
Proof. apply graph_link_reads. Qed.

Lemma fleetGraphFocusUrl_roundtrip_witness :
  let s := {| gs_kind := "service"; gs_key := "dom/svc ?"; gs_perspective := PRevision;
              gs_views := [Differences; Observed]; gs_direction := Both; gs_depth := 4; gs_maxNodes := 100 |} in
  exists r, parseHash (Some (fleetGraphFocusUrl (gs_kind s) (gs_key s) (graph_options s))) = Some r /\
    view r = VFleet /\ hasFocus (params r) = true /\
    let s' := graphStateFromParams (params r) in
    s' = {| gs_kind := gs_kind s; gs_key := gs_key s; gs_perspective := gs_perspective s;
            gs_views := gs_views s'; gs_direction := gs_direction s; gs_depth := gs_depth s;
            gs_maxNodes := gs_maxNodes s |} /\ gs_views s' ≡ₚ gs_views s.
Proof.
  intros s. apply fleetGraphFocusUrl_roundtrip; try done; [|by_decide|by_decide].
  unfold graph_state_ok, s; simpl. split_and!; [..|by_decide]; vm_compute; congruence.
Defined.

(** *** Change analysis and delivery links *)

Lemma parse_changes_link (key : str) (o : ChangesQuery) :
  Utf8 key -> utf8_fields (changes_fields key o) ->
  exists ps, parseHash (Some (fleetChangesUrl key o)) =
      Some (route VChanges (if truthy key then <["svc" := key]> ps else ps)) /\
    (forall k, ps !! k = field_of (changes_fields key o) k).
Proof.
  intros Uk Uf.
  assert (forall k, field_of (changes_fields key o) k = None \/ k ∈ CHANGES_QUERY) as Ha.
  { intros k. destruct (decide (k ∈ CHANGES_QUERY)); [by right|left].
    revert k n. apply field_absent. vm_compute. reflexivity. }
  set (ps := read_params CHANGES_QUERY (search_params (qs_print (qs_build (changes_fields key o))))).
  assert (forall k, ps !! k = field_of (changes_fields key o) k) as Hf.
  { intros k. unfold ps. rewrite read_build_roundtrip by (done || by_decide).
    case_bool_decide; [done|]. destruct (Ha k); congruence. }
  exists ps. split; [|exact Hf].
  unfold fleetChangesUrl. destruct (truthy key) eqn:Ht.
  - change ("#/fleet/changes/" ++ enc key) with ("#/fleet/" ++ ("changes/" ++ enc key)).
    rewrite parse_fleet_link by no_question. unfold parseFleet. fold ps.
    change (drop (length ("fleet/" : str)) ("fleet/" ++ ("changes/" ++ enc key))) with ("changes/" ++ enc key).
    rewrite starts_with_app, after_key_enc by (by apply truthy_nonempty).
    cbn [app starts_with]. other_paths.
    unfold enc. by rewrite decode_encode.
  - pose proof (parse_fleet_link "changes" (qs_build (changes_fields key o))) as Hp.
    etransitivity; [apply Hp; by_decide | reflexivity].
Qed.

(** A Change analysis link reopens its comparison. Parsing the URL gives the workspace
    with the service key it was built for, both revisions and the observed toggle; a
    display name travels only when there is no key. *)
Theorem fleetChangesUrl_roundtrip (key : str) (o : ChangesQuery) :
  Utf8 key -> utf8_fields (changes_fields key o) ->
  exists ps, parseHash (Some (fleetChangesUrl key o)) =
      Some (route VChanges (if truthy key then <["svc" := key]> ps else ps)) /\
    (forall k, ps !! k = field_of (changes_fields key o) k) /\
    (truthy key = true -> ps !! "name" = None).
Proof.
  intros Uk Uf. destruct (parse_changes_link key o Uk Uf) as (ps & Hp & Hf).
  exists ps. split_and!; [done|done|]. intros Ht. rewrite Hf. unfold field_of, changes_fields. by rewrite Ht.
Qed.

Lemma fleetChangesUrl_roundtrip_witness :
  let o := {| cq_name := Some "n"; cq_old := Some "1.0.0 β"; cq_new := None; cq_observed := true |} in
  exists ps, parseHash (Some (fleetChangesUrl "d/s" o)) = Some (route VChanges (<["svc" := "d/s"]> ps)) /\
    (forall k, ps !! k = field_of (changes_fields "d/s" o) k) /\ (truthy "d/s" = true -> ps !! "name" = None).
Proof. intros o. apply (fleetChangesUrl_roundtrip "d/s" o); [by_decide | unfold utf8_fields; by_decide]. Defined.

Lemma parse_delivery_link b qs :
  x3f ∉ b -> parseHash (Some (with_query ("#/delivery/" ++ b) qs)) = parseDelivery ("delivery/" ++ b) (qs_print qs).
Proof.
  intros H. change ("#/delivery/" ++ b) with ("#/" ++ ("delivery/" ++ b)). rewrite with_query_app.
  change ("delivery/" ++ b) with (x64 :: x65 :: ("livery/" ++ b)).
  rewrite parse_link; try done.
  rewrite !not_elem_of_cons. split_and!; try done. apply not_elem_of_app. split; [set_solver|done].
Qed.

(** A change request's link opens that request: its namespace and its name, whatever
    characters they hold, come back from the URL. *)
Theorem deliveryChangeUrl_roundtrip (ns name : str) :
  ns <> [] -> name <> [] -> Utf8 ns -> Utf8 name ->
  parseHash (Some (deliveryChangeUrl ns name)) =
    Some (route VDeliveryChange {[ "namespace" := ns; "name" := name ]}).
Proof.
  intros Hn Hm Un Um. unfold deliveryChangeUrl.
  change ("#/delivery/changes/" ++ enc ns ++ "/" ++ enc name)
    with ("#/delivery/" ++ ("changes/" ++ enc ns ++ "/" ++ enc name)).
  pose proof (parse_delivery_link ("changes/" ++ enc ns ++ "/" ++ enc name) []) as Hp.
  rewrite with_query_eq in Hp. rewrite Hp by no_question. unfold parseDelivery.
  change (strip_prefix "/" (drop (length ("delivery" : str)) ("delivery/" ++ ?r))) with r.
  assert (two_segments "changes/" ("changes/" ++ enc ns ++ "/" ++ enc name) = Some (enc ns, enc name)) as ->.
  { unfold two_segments. rewrite after_app. cbn [mbind option_bind app]. rewrite cut_some by apply enc_slash.
    rewrite !enc_truthy, includes_byte_false by auto with js. done. }
  unfold enc. by rewrite !decode_encode.
Qed.

Lemma deliveryChangeUrl_roundtrip_witness :
  parseHash (Some (deliveryChangeUrl "team a" "x/y?z")) =
    Some (route VDeliveryChange {[ "namespace" := "team a"; "name" := "x/y?z" ]}).
Proof. apply deliveryChangeUrl_roundtrip; try done; by_decide. Defined.

(** *** Navigation *)

(** What [parseHash] does with a service location that is no legacy diff. *)
Lemma parse_service_link (n t : str) :
  x3f ∉ t -> (forall u, t <> u ++ "/diff") ->
  parseHash (Some ("#/services/" ++ enc n ++ t)) = parsePath ("services/" ++ enc n ++ t) [].
Proof.
  intros Hq Ht. unfold parseHash.
  change (strip_hash (or_str (Some ("#/services/" ++ enc n ++ t)) [])) with ("services/" ++ enc n ++ t).
  set (raw := "services/" ++ enc n ++ t).
  assert ((raw === []) || (raw === "/") = false) as ->.
  { apply orb_false_iff. split; apply bool_decide_eq_false; by intros ?. }
  assert (after "diff" raw ≫= opt_query = None) as -> by done.
  assert (forall u v, t = u ++ v -> after "/diff" v ≫= opt_query = None) as Ht'.
  { intros u v ->. destruct (after "/diff" v) as [r|] eqn:E; [|done]. apply after_inv in E as ->.
    destruct r as [|b r]; [by destruct (Ht u)|]. simpl. destruct b; try done. destruct Hq. set_solver. }
  assert (service_diff raw = None) as ->.
  { unfold service_diff, raw. rewrite after_app. cbn [mbind option_bind]. unfold lazy_dot.
    rewrite lazy_prefix_none; [done|]. intros u v E Hu.
    apply app_eq_inv in E as [(k & E1 & E2)|(k & E1 & E2)]; [|by apply (Ht' k)].
    subst v. destruct k as [|b k]; [by apply (Ht' [])|].
    rewrite after_slash_none; [done..|]. pose proof (enc_slash n) as Hs. rewrite E1 in Hs. set_solver. }
  unfold path_of. rewrite cut_none; [done|]. unfold raw. rewrite !not_elem_of_app.
  split_and!; [by_decide | apply enc_question | done].
Qed.

Lemma parse_service_detail n :
  n <> [] -> Utf8 n -> parseHash (Some (serviceUrl n)) = Some (route VDetail {[ "name" := n ]}).
Proof.
  intros Hn Hu. unfold serviceUrl. pose proof (parse_service_link n []) as Hp. rewrite app_nil_r in Hp.
  rewrite Hp; [|set_solver|by intros [|??]]. unfold parsePath.
  assert (service_version ("services/" ++ enc n) = None) as ->.
  { unfold service_version. rewrite after_app. cbn [mbind option_bind]. unfold lazy_dot.
    rewrite lazy_prefix_none; [done|]. intros u v E Hne. pose proof (enc_slash n) as Hs. rewrite E in Hs.
    destruct v as [|b v]; [done|]. rewrite <- (app_nil_r (b :: v)), after_slash_none; set_solver. }
  rewrite after_key_enc by done. unfold enc. by rewrite decode_encode.
Qed.

Lemma parse_service_version n v :
  n <> [] -> v <> [] -> v <> "diff" -> Utf8 n -> Utf8 v ->
  parseHash (Some (serviceVersionUrl n v)) = Some (route VDetail {[ "name" := n; "version" := v ]}).
Proof.
  intros Hn Hv Hd Un Uv. unfold serviceVersionUrl.
  rewrite (parse_service_link n ("/versions/" ++ enc v)); [|no_question|].
  - unfold parsePath.
    assert (service_version ("services/" ++ enc n ++ "/versions/" ++ enc v) = Some (enc n, enc v)) as ->.
    { unfold service_version. rewrite after_app. cbn [mbind option_bind]. unfold lazy_dot.
      rewrite (lazy_prefix_first _ (enc n) _ (enc v)).
      - by rewrite enc_no_lt.
      - by apply encode_nonempty.
      - intros u w E Hu Hw. pose proof (enc_slash n) as Hs. rewrite E in Hs.
        rewrite after_slash_none; set_solver.
      - rewrite after_app. by apply dot_plus_enc. }
    unfold enc. by rewrite !decode_encode.
  - intros u E.
    assert (enc v <> "diff") as He.
    { intros E'. apply Hd. apply (f_equal decodeURIComponent) in E'. unfold enc in E'.
      rewrite decode_encode in E' by done. vm_compute in E'. congruence. }
    pose proof (enc_slash v) as Hs.
    do 10 (destruct u as [|? u];
      [cbn in E; first [discriminate E | injection E as E; by destruct He]
      |cbn in E; injection E as _ E]).
    rewrite E in Hs. set_solver.
Qed.

Lemma parse_owner n :
  n <> [] -> Utf8 n -> parseHash (Some (ownerUrl n)) = Some (route VOwnerDetail {[ "owner" := n ]}).
Proof.
  intros Hn Hu. unfold ownerUrl.
  pose proof (parse_link x6f x77 ("ners/" ++ enc n) []) as Hp. rewrite with_query_eq in Hp.
  change ("#/" ++ x6f :: x77 :: ("ners/" ++ enc n)) with ("#/owners/" ++ enc n) in Hp.
  rewrite Hp; try done; [|rewrite !not_elem_of_cons; split_and!; try done; no_question].
  change (x6f :: x77 :: ("ners/" ++ enc n)) with ("owners/" ++ enc n).
  unfold parsePath. rewrite (after_key_enc "owners/") by done.
  cbn [app starts_with]. other_paths. unfold enc. by rewrite decode_encode.
Qed.

Lemma parse_service_diff_link n :
  n <> [] -> Utf8 n ->
  parseHash (Some ("#/services/" ++ enc n ++ "/diff")) =
    Some (route VDiff {[ "name" := n; "fromName" := n; "toName" := n ]}).
Proof.
  intros Hn Hu. unfold parseHash.
  change (strip_hash (or_str (Some ("#/services/" ++ enc n ++ "/diff")) [])) with ("services/" ++ enc n ++ "/diff").
  set (raw := "services/" ++ enc n ++ "/diff").
  assert ((raw === []) || (raw === "/") = false) as ->.
  { apply orb_false_iff. split; apply bool_decide_eq_false; by intros ?. }
  assert (after "diff" raw ≫= opt_query = None) as -> by done.
  assert (service_diff raw = Some (enc n, None)) as ->.
  { unfold service_diff, raw. rewrite after_app. cbn [mbind option_bind]. unfold lazy_dot.
    rewrite (lazy_prefix_first _ (enc n) _ None); [by rewrite enc_no_lt|by apply encode_nonempty| |done].
    intros u w E Hne Hw. pose proof (enc_slash n) as Hs. rewrite E in Hs.
    rewrite after_slash_none; set_solver. }
  unfold parse_service_diff, enc. by rewrite decode_encode.
Qed.

(** The views [navigate] is called with, and the view each is routed to. *)
Definition navigable : list (str * View) :=
  [ ("detail", VDetail); ("diff", VDiff); ("graph", VGraph); ("readiness", VReadiness); ("fleet", VFleet);
    ("fleet-overview", VFleetOverview); ("changes", VChanges); ("owners", VOwners);
    ("owner-detail", VOwnerDetail) ].

Definition nav_params_ok (ps : gmap str str) : Prop :=
  (forall k s, ps !! k = Some s -> Utf8 s /\ s <> []) /\ ps !! "version" <> Some "diff" /\
  is_Some (ps !! "name") /\ is_Some (ps !! "owner").

(** Navigating to a view and parsing the location it set agree. For every view
    [navigate] knows, called with well-formed parameters, the browser lands on a location
    that [parseHash] reads as that view, with the name, version, owner or service key
    the call carried. (The version "diff" is excluded: its URL is also a legacy diff.) *)
Theorem navigate_agrees (b : Browser) (v : str) (V : View) (ps : gmap str str) :
  (v, V) ∈ navigable -> nav_params_ok ps ->
  exists r, parseHash (Some (location (navigate b v ps))) = Some r /\ view r = V /\
    (forall k, k ∈ ["name"; "version"] -> v = "detail" -> params r !! k = ps !! k) /\
    (v = "diff" -> params r !! "name" = ps !! "name") /\
    (v = "changes" -> params r !! "svc" = ps !! "svc") /\
    (v = "owner-detail" -> params r !! "owner" = ps !! "owner").
Proof.
  intros Hv (Hu & Hd & [n Hn] & [o Ho]).
  assert (location (navigate b v ps) = navigate_hash v ps) as ->.
  { unfold navigate. case_bool_decide; simpl; congruence. }
  destruct (Hu _ _ Hn) as [Un Nn]. destruct (Hu _ _ Ho) as [Uo No].
  pose proof (proj2 (truthy_nonempty n) Nn) as Tn. pose proof (proj2 (truthy_nonempty o) No) as To.
  repeat (apply elem_of_cons in Hv as [Hv|Hv]; [injection Hv as -> ->|]);
    [..|by apply not_elem_of_nil in Hv];
    unfold navigate_hash; rewrite ?Hn, ?Ho; cbn [otruthy nullish]; rewrite ?Tn, ?To;
    repeat (rewrite bool_decide_eq_false_2 by (by intros ?; simplify_eq));
    rewrite ?(bool_decide_eq_true_2 _ eq_refl); cbn [andb].
  - destruct (ps !! "version") as [ver|] eqn:Ev.
    + destruct (Hu _ _ Ev) as [Uv Nv].
      assert (when_truthy (Some ver) = Some ver) as -> by (by destruct ver).
      rewrite parse_service_version by congruence || done.
      eexists. split_and!; try done. intros k Hk _. simpl.
      repeat (apply elem_of_cons in Hk as [->|Hk]); [by rewrite lookup_insert_eq|rewrite lookup_insert_ne by done; by rewrite lookup_singleton_eq|set_solver].
    + simpl. rewrite parse_service_detail by done. eexists. split_and!; try done. intros k Hk _. simpl.
      repeat (apply elem_of_cons in Hk as [->|Hk]); [by rewrite lookup_singleton_eq|by rewrite lookup_singleton_ne|set_solver].
  - rewrite parse_service_diff_link by done. by eexists.
  - eexists. split_and!; [reflexivity|done..].
  - eexists. split_and!; [reflexivity|done..].
  - eexists. split_and!; [reflexivity|done..].
  - eexists. split_and!; [reflexivity|done..].
  - destruct (ps !! "svc") as [svc|] eqn:Es.
    + destruct (Hu _ _ Es) as [Us Ns]. pose proof (proj2 (truthy_nonempty svc) Ns) as Ts.
      cbn [or_str]. rewrite Ts.
      destruct (parse_changes_link svc no_changes_query) as (qs & Hp & Hf);
        [done|unfold utf8_fields, changes_fields; rewrite Ts; by_decide|].
      rewrite Hp, Ts. eexists. split_and!; try done. intros _. simpl. by rewrite lookup_insert_eq.
    + eexists. split_and!; [reflexivity|done..].
  - eexists. split_and!; [reflexivity|done..].
  - rewrite parse_owner by done. by eexists.
Qed.

Lemma navigate_agrees_witness :
  let ps : gmap str str := {[ "name" := "a/b"; "version" := "1.0 β"; "owner" := "team:x" ]} in
  let b := {| location := "#/"; history := []; notified := [] |} in
  exists r, parseHash (Some (location (navigate b "detail" ps))) = Some r /\ view r = VDetail /\
    (forall k, k ∈ ["name"; "version"] -> "detail" = "detail" -> params r !! k = ps !! k) /\
    ("detail" = "diff" -> params r !! "name" = ps !! "name") /\
    ("detail" = "changes" -> params r !! "svc" = ps !! "svc") /\
    ("detail" = "owner-detail" -> params r !! "owner" = ps !! "owner").
Proof.
  intros ps b. apply navigate_agrees; [by_decide|].
  split_and!; [|done|by eexists|by eexists].
  assert (map_Forall (fun _ s => Utf8 s /\ s <> []) ps) as H; [|exact H].
  unfold ps. apply map_Forall_insert_2; [split; [by_decide|done]|].
  apply map_Forall_insert_2; [split; [by_decide|done]|].
  apply map_Forall_singleton. split; [by_decide|done].
Defined.

(** *** Redirects *)

(** A location under [#/fleet] is never redirected, but for the superseded impact path. *)
Lemma fleet_not_redirected b qs :
  x3f ∉ b -> starts_with "/impact/" b = false ->
  legacyRedirectTarget (Some (with_query ("#/fleet" ++ b) qs)) = Some None.
Proof.
  intros Hb Hi. change ("#/fleet" ++ b) with ("#/" ++ ("fleet" ++ b)). rewrite with_query_app.
  unfold legacyRedirectTarget.
  set (full := with_query ("fleet" ++ b) qs).
  assert (strip_hash (or_str (Some ("#/" ++ full)) []) = full) as -> by done.
  assert (path_of full = "fleet" ++ b) as ->.
  { apply path_of_with_query. rewrite not_elem_of_app. split; [by_decide|done]. }
  assert (after "services/" ("fleet" ++ b) = None) as -> by done. cbn [mbind option_bind].
  assert (after_key "fleet/impact/" ("fleet" ++ b) = None) as ->.
  { unfold after_key, after. change (starts_with "fleet/impact/" ("fleet" ++ b)) with (starts_with "/impact/" b).
    by rewrite Hi. }
  cbn [app]. other_paths. done.
Qed.

Lemma changes_not_redirected key o : legacyRedirectTarget (Some (fleetChangesUrl key o)) = Some None.
Proof.
  unfold fleetChangesUrl. destruct (truthy key).
  - change ("#/fleet/changes/" ++ enc key) with ("#/fleet" ++ ("/changes/" ++ enc key)).
    apply fleet_not_redirected; [no_question|done].
  - apply (fleet_not_redirected "/changes"); [by_decide|done].
Qed.

Lemma changes_is_fleet key o : starts_with "#/fleet" (fleetChangesUrl key o) = true.
Proof.
  unfold fleetChangesUrl. destruct (truthy key); rewrite with_query_eq; destruct (qs_build _); done.
Qed.

(** A legacy bookmark is redirected at most once, and into the product. Whatever hash
    is redirected, its target lies under [#/fleet] and is not redirected again, so
    canonicalizing the location cannot loop. *)
Theorem legacyRedirect_settles (hash : option str) (target : str) :
  legacyRedirectTarget hash = Some (Some target) ->
  starts_with "#/fleet" target = true /\ legacyRedirectTarget (Some target) = Some None.
Proof.
  intros H. unfold legacyRedirectTarget in H.
  destruct (_ ≫= _) as [[name []]|]; [|destruct (after_key _ _) as [key|]].
  - destruct (decodeURIComponent name); [|discriminate]. cbn [mbind option_bind] in H. injection H as <-.
    split; [apply changes_is_fleet | apply changes_not_redirected].
  - destruct (decodeURIComponent key); [|discriminate]. cbn [mbind option_bind] in H. injection H as <-.
    split; [apply changes_is_fleet | apply changes_not_redirected].
  - repeat (match type of H with context [if ?c then _ else _] => destruct c end;
      [lazymatch type of H with
       | context [fleetChangesUrl] =>
           injection H as <-; split; [apply changes_is_fleet | apply changes_not_redirected]
       | _ => injection H as <-; vm_compute; split; reflexivity
       end|]).
    discriminate.
Qed.

Lemma legacyRedirect_settles_witness :
  let t := fleetChangesUrl [] {| cq_name := Some "pay ments"; cq_old := None; cq_new := None; cq_observed := false |} in
  legacyRedirectTarget (Some "#/services/pay%20ments/diff?from=1") = Some (Some t) /\
  starts_with "#/fleet" t = true /\ legacyRedirectTarget (Some t) = Some None.
Proof.
  intros t. split; [solve_compute|].
  apply (legacyRedirect_settles (Some "#/services/pay%20ments/diff?from=1")). solve_compute.
Defined.

(** *** Totality *)
Lemma lazy_dot_inv {A} (m : str -> option A) s n a :
  lazy_dot m s = Some (n, a) -> exists t, s = n ++ t /\ m t = Some a.
Proof.
  unfold lazy_dot. destruct (lazy_prefix m s) as [[n' a']|] eqn:E; [|done].
  case_match; [done|]. intros [= -> ->]. clear H. revert n E.
  induction s as [|b s IH]; simpl; [done|]. intros n.
  destruct (m s) eqn:Em; [intros [= <- ->]; by exists s|].
  destruct (lazy_prefix m s) as [[n' a']|]; [|done]. intros [= <- ->].
  destruct (IH n' eq_refl) as (t & -> & ?). by exists t.
Qed.

(** The parts a match captures are parts of the text. *)
Lemma after_key_elem p s k c : after_key p s = Some k -> c ∉ s -> c ∉ k.
Proof.
  unfold after_key. destruct (after p s) as [r|] eqn:E; [|done]. apply after_inv in E as ->.
  intros ->%dot_plus_inv. set_solver.
Qed.

Lemma cut_elem d s h t c : cut d s = (h, t) -> c ∉ s -> c ∉ h /\ (forall t', t = Some t' -> c ∉ t').
Proof. intros [_ ->]%cut_inv. destruct t; set_solver. Qed.

Lemma service_version_elem s n v c : service_version s = Some (n, v) -> c ∉ s -> c ∉ n /\ c ∉ v.
Proof.
  unfold service_version. destruct (after _ s) as [r|] eqn:E; [|done]. apply after_inv in E as ->.
  cbn [mbind option_bind]. intros (t & -> & Ht)%lazy_dot_inv.
  destruct (after "/versions/" t) as [w|] eqn:E; [|done]. apply after_inv in E as ->.
  apply dot_plus_inv in Ht as ->. set_solver.
Qed.

Lemma service_diff_elem s n q c : service_diff s = Some (n, q) -> c ∉ s -> c ∉ n.
Proof.
  unfold service_diff. destruct (after _ s) as [r|] eqn:E; [|done]. apply after_inv in E as ->.
  cbn [mbind option_bind]. intros (t & -> & Ht)%lazy_dot_inv. set_solver.
Qed.

Lemma two_keys_elem p s k t c : two_keys p s = Some (k, t) -> c ∉ s -> c ∉ k /\ c ∉ t.
Proof.
  unfold two_keys. destruct (after p s) as [r|] eqn:E; [|done]. apply after_inv in E as ->.
  cbn [mbind option_bind]. destruct (cut x2f r) as [h [u|]] eqn:Ec; [|done].
  case_match; [|done]. destruct (dot_plus u) eqn:Ed; [|done]. apply dot_plus_inv in Ed as ->.
  intros [= -> ->] Hc. apply (cut_elem _ _ _ _ c) in Ec as [? Hu]; [|set_solver]. eauto.
Qed.

Lemma two_segments_elem p s k t c : two_segments p s = Some (k, t) -> c ∉ s -> c ∉ k /\ c ∉ t.
Proof.
  unfold two_segments. destruct (after p s) as [r|] eqn:E; [|done]. apply after_inv in E as ->.
  cbn [mbind option_bind]. destruct (cut x2f r) as [h [u|]] eqn:Ec; [|done].
  case_match; [|done].
  intros [= -> ->] Hc. apply (cut_elem _ _ _ _ c) in Ec as [? Hu]; [|set_solver]. eauto.
Qed.

Lemma drop_elem {A} (c : A) n (s : list A) : c ∉ s -> c ∉ drop n s.
Proof. rewrite <- (take_drop n s) at 1. set_solver. Qed.

(** Decode the parts of a text without a percent sign that a match captured. *)
Ltac decode_captured :=
  repeat match goal with
  | H : after_key _ ?s = Some _, N : x25 ∉ ?s |- _ => pose proof (after_key_elem _ _ _ x25 H N); clear H
  | H : service_version ?s = Some _, N : x25 ∉ ?s |- _ => destruct (service_version_elem _ _ _ x25 H N); clear H
  | H : service_diff ?s = Some _, N : x25 ∉ ?s |- _ => pose proof (service_diff_elem _ _ _ x25 H N); clear H
  | H : two_keys _ ?s = Some _, N : x25 ∉ ?s |- _ => destruct (two_keys_elem _ _ _ _ x25 H N); clear H
  | H : two_segments _ ?s = Some _, N : x25 ∉ ?s |- _ => destruct (two_segments_elem _ _ _ _ x25 H N); clear H
  end;
  rewrite ?decode_plain by done; cbn [mbind option_bind].

Lemma parseFleet_total path q :
  x25 ∉ path -> exists r, parseFleet path q = Some r /\ forall k, view r <> VForeign k.
Proof.
  intros Hp. unfold parseFleet. set (rest := drop _ path).
  assert (x25 ∉ rest) as Hr by (by apply drop_elem).
  repeat match goal with
  | |- exists r, Some _ = Some r /\ _ => eexists; split; [reflexivity | done]
  | |- exists r, (if ?c then _ else _) = _ /\ _ => destruct c
  | |- exists r, (match two_keys ?a ?b with _ => _ end) = _ /\ _ =>
      destruct (two_keys a b) as [[??]|] eqn:?; decode_captured
  | |- exists r, (match after_key ?a ?b with _ => _ end) = _ /\ _ =>
      destruct (after_key a b) eqn:?; decode_captured
  end.
  destruct (assoc rest list_views) as [v|] eqn:Ev.
  - eexists. split; [reflexivity|]. intros k. apply assoc_elem in Ev. clear -Ev. simpl.
    repeat (apply elem_of_cons in Ev as [Ev|Ev]; [by injection Ev as -> ->|]). by apply not_elem_of_nil in Ev.
  - destruct (entity_match rest) as [[kind k]|] eqn:Ee; [|eexists; split; [reflexivity|done]].
    apply entity_match_inv in Ee as (plural & _ & Hrest).
    rewrite decode_plain by (rewrite Hrest in Hr; set_solver). eexists; split; [reflexivity|done].
Qed.

Lemma parseDelivery_total path q :
  x25 ∉ path -> (path === "delivery") || starts_with "delivery/" path = true ->
  exists r, parseDelivery path q = Some r /\
    forall k, view r = VForeign k -> path = "delivery/" ++ k /\ k ∈ object_prototype_keys.
Proof.
  intros Hp Hd. unfold parseDelivery. set (rest := strip_prefix "/" _).
  assert (x25 ∉ rest /\ (rest = [] \/ path = "delivery/" ++ rest)) as [Hr Hpath].
  { apply orb_true_iff in Hd as [->%bool_decide_eq_true|[t ->]%starts_with_spec].
    - split; [by_decide | by left].
    - assert (rest = t) as -> by done. set_solver. }
  destruct (two_segments "changes/" rest) as [[ns name]|] eqn:E.
  - decode_captured. eexists. split; [reflexivity|done].
  - eexists. split; [reflexivity|]. intros k. cbn [view route]. unfold obj_get.
    destruct (assoc rest delivery_views) as [v|] eqn:Ev.
    + intros ->. apply assoc_elem in Ev. exfalso. revert Ev. clear.
      unfold delivery_views. rewrite !elem_of_cons, elem_of_nil. naive_solver.
    + clear Hd. case_bool_decide as Hk; [|done]. intros [= <-]. split; [|done].
      destruct Hpath as [Hnil|]; [|done]. rewrite Hnil in Hk. exfalso. revert Hk. by_decide.
Qed.

Lemma strip_hash_suffix h : exists u, h = u ++ strip_hash h.
Proof.
  destruct h as [|b h]; [by exists []|]. destruct b; try (by exists []).
  destruct h as [|c h]; [by exists "#"|]. destruct c; first [by exists "#" | by exists "#/"].
Qed.

(** [parseHash] answers every location that has no percent escape, without an
    exception, and with a view of the application: the one way to get something else is
    the path [delivery/] followed by the name of a member of [Object.prototype]. *)
Theorem parseHash_total (hash : option str) :
  x25 ∉ or_str hash [] ->
  exists r, parseHash hash = Some r /\
    forall k, view r = VForeign k ->
      path_of (strip_hash (or_str hash [])) = "delivery/" ++ k /\ k ∈ object_prototype_keys.
Proof.
  intros Hh. unfold parseHash. set (raw := strip_hash _).
  assert (x25 ∉ raw) as Hraw.
  { unfold raw. destruct (strip_hash_suffix (or_str hash [])) as [u E]. rewrite E in Hh. set_solver. }
  destruct (_ || _); [eexists; split; [reflexivity|done]|].
  destruct (after "diff" raw ≫= opt_query); [eexists; split; [reflexivity|done]|].
  destruct (service_diff raw) as [[name q]|] eqn:Esd.
  { unfold parse_service_diff. decode_captured. eexists; split; [reflexivity|done]. }
  assert (x25 ∉ path_of raw) as Hp.
  { unfold path_of. destruct (cut x3f raw) as [h t] eqn:Ec. by apply (cut_elem _ _ _ _ x25) in Ec as [? _]. }
  set (path := path_of raw) in *. generalize (nullish (cut x3f raw).2 []) as query. intros query.
  unfold parsePath.
  destruct (service_version path) as [[??]|] eqn:?; [decode_captured; eexists; split; [reflexivity|done]|].
  destruct (after_key "services/" path) eqn:?; [decode_captured; eexists; split; [reflexivity|done]|].
  destruct (path === "graph"); [eexists; split; [reflexivity|done]|].
  destruct (path === "readiness"); [eexists; split; [reflexivity|done]|].
  destruct ((path === "fleet") || _).
  { destruct (parseFleet_total path query Hp) as (r & Hr & Hv). exists r. split; [done|]. intros k Hk. by destruct (Hv k). }
  destruct ((path === "delivery") || _) eqn:Ed; [by apply parseDelivery_total|].
  destruct (path === "impact"); [eexists; split; [reflexivity|done]|].
  destruct (after_key "owners/" path) eqn:?; [decode_captured; eexists; split; [reflexivity|done]|].
  destruct (path === "owners"); (eexists; split; [reflexivity|done]).
Qed.

Lemma parseHash_total_witness :
  exists r, parseHash (Some "#/fleet/revisions/a+b?x=1") = Some r /\
    forall k, view r = VForeign k ->
      path_of (strip_hash (or_str (Some "#/fleet/revisions/a+b?x=1") [])) = "delivery/" ++ k /\
      k ∈ object_prototype_keys.
Proof. apply parseHash_total. by_decide. Defined.

(** Two locations the router does not handle. A stray percent sign in a fleet key makes
    the parse throw, where an unknown location is meant to fall back to the overview, and
    [#/delivery/constructor] is routed to a function instead of a view. *)
Theorem parseHash_unhandled :
  parseHash (Some "#/fleet/services/%") = None /\
  parseHash (Some "#/delivery/constructor") = Some (route (VForeign "constructor") ∅) /\
  parseHash (Some (serviceVersionUrl "pay" "diff")) =
    Some (route VDiff {[ "name" := "pay/versions"; "fromName" := "pay/versions"; "toName" := "pay/versions" ]}).
Proof. split_and!; vm_compute; reflexivity. Qed.
