(* ===== verification/Owners.v ===== *)
(** * Owner identity: [src/pkg/dashboard/frontend/src/lib/owners.ts]

    How a service's owner is keyed, labelled, matched and merged. The owner on the wire
    is unknown data: what is not an object is [None]. *)

From stdpp Require Import base list gmap sorting.
From Stdlib Require Import Init.Byte ZArith NArith Lia.
From S2P Require Import Prelude.

Record OwnerContact := { type : str; value : str; purpose : option str }.

#[export] Instance OwnerContact_eq_dec : EqDecision OwnerContact.
Proof. solve_decision. Defined.

Record Owner := { team : option str; dri : option str; contacts : option (list OwnerContact) }.

Definition ownerDisplay (owner : option Owner) : str :=
  match owner with
  | None => []
  | Some o => if otruthy (team o) then nullish (team o) []
              else if otruthy (dri o) then nullish (dri o) [] else []
  end.

Definition ownerKey (owner : option Owner) : str :=
  match owner with
  | None => []
  | Some o => if otruthy (team o) then "team:" ++ nullish (team o) []
              else if otruthy (dri o) then "dri:" ++ nullish (dri o) [] else []
  end.

Definition UNOWNED_KEY : str := "(unowned)".

Inductive OwnerKind := Team | DRI.

#[export] Instance OwnerKind_eq_dec : EqDecision OwnerKind.
Proof. solve_decision. Defined.

Record ParsedOwnerKey := { pk_kind : OwnerKind; pk_value : str }.

#[export] Instance ParsedOwnerKey_eq_dec : EqDecision ParsedOwnerKey.
Proof. solve_decision. Defined.

Definition parseOwnerKey (key : str) : option ParsedOwnerKey :=
  match cut x3a key with
  | (kind, Some value) =>
      if negb (truthy kind) || negb (truthy value) then None
      else if kind === "team" then Some {| pk_kind := Team; pk_value := value |}
      else if kind === "dri" then Some {| pk_kind := DRI; pk_value := value |}
      else None
  | _ => None
  end.

Definition ownerKeyLabel (key : str) : str :=
  match parseOwnerKey key with Some p => pk_value p | None => key end.

Definition ownerKeyKind (key : str) : str :=
  match parseOwnerKey key with
  | None => []
  | Some p => if pk_kind p === DRI then "DRI" else "Team"
  end.

Definition ownerMatchesFilter `{Locale} (owner : option Owner) (query : str) : bool :=
  match owner with
  | None => false
  | Some o =>
      let q := toLowerCase query in
      includes q (toLowerCase (or_str (team o) [])) ||
      includes q (toLowerCase (or_str (dri o) [])) ||
      existsb (fun c => includes q (toLowerCase (value c))) (nullish (contacts o) [])
  end.

Definition ownerIsStructured (owner : option Owner) : bool :=
  match owner with Some _ => true | None => false end.

(** ** Detail extraction *)
Record OwnerDetail := {
  od_key : str; od_team : str; od_dri : str; od_contacts : list OwnerContact;
  od_isStructured : bool; od_driConflict : bool; od_allDris : list str }.

(** The identity of a contact: its type and value, apart by a NUL. *)
Definition contact_key (c : OwnerContact) : str := type c ++ [x00] ++ value c.

(** The variables the loop over the services updates. *)
Record Extraction := {
  ex_team : str; ex_structured : bool; ex_seen : list str; ex_merged : list OwnerContact;
  ex_dris : list str }.

Definition add_contact (acc : list str * list OwnerContact) (c : OwnerContact) :=
  if bool_decide (contact_key c ∈ acc.1) then acc
  else (acc.1 ++ [contact_key c], acc.2 ++ [c]).

Definition extract_service (ex : Extraction) (owner : option Owner) : Extraction :=
  match owner with
  | None => ex
  | Some o =>
      let d := or_str (dri o) [] in
      let '(seen, merged) :=
        fold_left add_contact (nullish (contacts o) []) (ex_seen ex, ex_merged ex) in
      {| ex_team := if negb (truthy (ex_team ex)) && otruthy (team o) then nullish (team o) []
                    else ex_team ex;
         ex_structured := true; ex_seen := seen; ex_merged := merged;
         ex_dris := if truthy d && negb (bool_decide (d ∈ ex_dris ex)) then ex_dris ex ++ [d]
                    else ex_dris ex |}
  end.

Definition no_extraction : Extraction :=
  {| ex_team := []; ex_structured := false; ex_seen := []; ex_merged := []; ex_dris := [] |}.

(** [services] by the owner each carries. *)
Definition extractOwnerDetail (ownerKeyStr : str) (services : list (option Owner)) : OwnerDetail :=
  let ex := fold_left extract_service services no_extraction in
  let allDris := sort_str (ex_dris ex) in
  {| od_key := ownerKeyStr; od_team := ex_team ex; od_dri := nullish (head allDris) [];
     od_contacts := ex_merged ex; od_isStructured := ex_structured ex;
     od_driConflict := (1 <? length (ex_dris ex))%nat; od_allDris := allDris |}.

(** ** Properties *)

(** The identity an owner declares: its team, else its DRI. *)
Definition owner_identity (owner : option Owner) : option ParsedOwnerKey :=
  match owner with
  | None => None
  | Some o => if otruthy (team o) then Some {| pk_kind := Team; pk_value := nullish (team o) [] |}
              else if otruthy (dri o) then Some {| pk_kind := DRI; pk_value := nullish (dri o) [] |}
              else None
  end.

(** The spelling of an identity. *)
Definition spell_key (p : ParsedOwnerKey) : str :=
  (match pk_kind p with Team => "team:" | DRI => "dri:" end) ++ pk_value p.

Lemma parse_spell p : pk_value p <> [] -> parseOwnerKey (spell_key p) = Some p.
Proof.
  destruct p as [[] v]; unfold spell_key, parseOwnerKey; simpl; intros Hv; by destruct v.
Qed.

Lemma parseOwnerKey_inv key p : parseOwnerKey key = Some p -> key = spell_key p /\ pk_value p <> [].
Proof.
  unfold parseOwnerKey. destruct (cut x3a key) as [k [v|]] eqn:E; [|done].
  apply cut_inv in E as [_ ->]. destruct k as [|b k], v as [|c v]; try done. cbn [truthy negb orb].
  case_bool_decide as Ht; [intros [= <-]; by rewrite Ht|].
  case_bool_decide as Hd; [intros [= <-]; by rewrite Hd|done].
Qed.

Lemma ownerKey_spell o :
  ownerKey o = match owner_identity o with Some p => spell_key p | None => [] end.
Proof.
  destruct o as [o|]; [|done]. simpl. destruct (otruthy (team o)); [done|]. by destruct (otruthy (dri o)).
Qed.

Lemma owner_identity_value o p : owner_identity o = Some p -> pk_value p <> [].
Proof.
  destruct o as [[t d cs]|]; simpl; [|done]. unfold otruthy.
  destruct t as [[|]|], d as [[|]|]; intros ?; by simplify_eq/=.
Qed.

Lemma ownerKey_owned o : ownerKey o <> UNOWNED_KEY.
Proof. rewrite ownerKey_spell. by destruct (owner_identity o) as [[[] v]|]. Qed.

(** The owner key is an identity. Parsing the key of any owner gives back the namespace
    and the name it declares (none for an owner known by contacts alone), two owners share
    a key exactly when they declare the same namespace and name (so a team and a person of
    one name stay apart), the key read back is the only spelling of what it parses to, and
    the bucket of the unowned is no owner's key. *)
Theorem ownerKey_identity (o1 o2 : option Owner) (key : str) :
  parseOwnerKey (ownerKey o1) = owner_identity o1 /\
  (ownerKey o1 = ownerKey o2 <-> owner_identity o1 = owner_identity o2) /\
  (forall p, parseOwnerKey key = Some p <-> key = spell_key p /\ pk_value p <> []) /\
  ownerKey o1 <> UNOWNED_KEY /\ parseOwnerKey UNOWNED_KEY = None.
Proof.
  assert (forall o, parseOwnerKey (ownerKey o) = owner_identity o) as Hp.
  { intros o. rewrite ownerKey_spell. destruct (owner_identity o) as [p|] eqn:E; [|done].
    apply parse_spell. by eapply owner_identity_value. }
  split_and!; [done| | |apply ownerKey_owned|done].
  - split; [|by rewrite !ownerKey_spell; intros ->]. intros E. by rewrite <- !Hp, E.
  - intros p. split; [apply parseOwnerKey_inv|]. intros [-> Hv]. by apply parse_spell.
Qed.

(** *** Merging the owners of several services *)
Lemma add_contact_fold cs seen merged :
  seen = contact_key <$> merged -> NoDup seen ->
  let r := fold_left add_contact cs (seen, merged) in
  r.1 = contact_key <$> r.2 /\ NoDup r.1 /\
  (forall k, k ∈ r.1 <-> k ∈ seen \/ k ∈ contact_key <$> cs) /\
  (forall c, c ∈ r.2 -> c ∈ merged \/ c ∈ cs).
Proof.
  revert seen merged. induction cs as [|c cs IH]; intros seen merged Hs Hn; simpl; [set_solver|].
  set (acc := add_contact (seen, merged) c). unfold add_contact in acc. simpl in acc. subst acc.
  case_bool_decide as Hc.
  - destruct (IH seen merged Hs Hn) as (H1 & H2 & H3 & H4). split_and!; try done.
    + intros k. rewrite H3. set_solver.
    + intros k Hk. destruct (H4 k Hk); set_solver.
  - destruct (IH (seen ++ [contact_key c]) (merged ++ [c])) as (H1 & H2 & H3 & H4).
    + by rewrite Hs, fmap_app.
    + apply NoDup_app; split_and!; [done| |apply NoDup_singleton]. set_solver.
    + split_and!; try done.
      * intros k. rewrite H3. set_solver.
      * intros k Hk. destruct (H4 k Hk); set_solver.
Qed.

(** What the loop has gathered from the services it has passed. *)
Record extraction_ok (os : list (option Owner)) (ex : Extraction) : Prop := {
  eo_seen : ex_seen ex = contact_key <$> ex_merged ex;
  eo_nodup : NoDup (ex_seen ex);
  eo_contacts : forall k, k ∈ ex_seen ex <->
    exists o c, Some o ∈ os /\ c ∈ nullish (contacts o) [] /\ k = contact_key c;
  eo_merged : forall c, c ∈ ex_merged ex -> exists o, Some o ∈ os /\ c ∈ nullish (contacts o) [];
  eo_dris_nodup : NoDup (ex_dris ex);
  eo_dris : forall d, d ∈ ex_dris ex <-> d <> [] /\ exists o, Some o ∈ os /\ dri o = Some d;
  eo_team : ex_team ex = default [] (head (List.filter truthy (omap (fun o => o ≫= team) os))) }.

Lemma head_filter_team (os : list (option Owner)) (o : option Owner) :
  default [] (head (List.filter truthy (omap (fun o => o ≫= team) (os ++ [o])))) =
  let t := default [] (head (List.filter truthy (omap (fun o => o ≫= team) os))) in
  if truthy t then t else or_str (o ≫= team) [].
Proof.
  rewrite omap_app, List.filter_app. cbn zeta.
  assert (Forall (fun s => truthy s = true) (List.filter truthy (omap (fun o => o ≫= team) os))) as Hf.
  { apply Forall_forall. intros s Hs. apply list_elem_of_In, filter_In in Hs. apply Hs. }
  destruct (List.filter truthy (omap _ os)) as [|s l]; simpl.
  - destruct (o ≫= team) as [[|]|]; done.
  - apply Forall_cons in Hf as [Hs _]. by rewrite Hs.
Qed.

Lemma extract_service_ok os o ex :
  extraction_ok os ex -> extraction_ok (os ++ [o]) (extract_service ex o).
Proof.
  intros [Hs Hn Hc Hm Hdn Hd Ht]. destruct o as [o|]; simpl.
  2:{ split; try done; [intros k; rewrite Hc; set_solver| |intros d; rewrite Hd; set_solver|].
      - intros c Hc'. destruct (Hm c Hc') as (o & ? & ?). exists o. set_solver.
      - rewrite head_filter_team, <- Ht. simpl. by destruct (ex_team ex). }
  destruct (add_contact_fold (nullish (contacts o) []) (ex_seen ex) (ex_merged ex) Hs Hn)
    as (H1 & H2 & H3 & H4).
  destruct (fold_left _ _ _) as [seen merged]. simpl in *. split; simpl; try done.
  - intros k. rewrite H3, Hc. split.
    + intros [(o' & c & ?)|[c [-> Hk]]%list_elem_of_fmap]; [exists o', c|exists o, c]; set_solver.
    + intros (o' & c & [Ho|[= ->]%list_elem_of_singleton]%elem_of_app & Hk & ->); [left; eauto|].
      right. apply list_elem_of_fmap. eauto.
  - intros c Hk. destruct (H4 c Hk) as [Hk'|Hk']; [destruct (Hm c Hk') as (o' & ? & ?); exists o'; set_solver|].
    exists o. set_solver.
  - destruct (truthy _ && _) eqn:E; [|done]. apply andb_true_iff in E as [_ E]. split_bools.
    apply NoDup_app; split_and!; [done| |apply NoDup_singleton]. set_solver.
  - intros d. assert (d ∈ ex_dris ex \/ (d <> [] /\ dri o = Some d) <->
      d <> [] /\ exists o', Some o' ∈ os ++ [Some o] /\ dri o' = Some d) as <-.
    { rewrite Hd. split; [naive_solver set_solver|].
      intros (Hne & o' & [Ho|[= ->]%list_elem_of_singleton]%elem_of_app & Hk); [left|right]; eauto. }
    destruct (dri o) as [[|b d']|]; simpl; [naive_solver| |naive_solver].
    case_bool_decide; simpl; [naive_solver|]. rewrite elem_of_app, list_elem_of_singleton. naive_solver.
  - rewrite head_filter_team, <- Ht. simpl. destruct (ex_team ex) as [|]; simpl; [|done].
    by destruct (team o) as [[|]|].
Qed.

Lemma extract_all_ok os : extraction_ok os (fold_left extract_service os no_extraction).
Proof.
  induction os as [|o os IH] using rev_ind; simpl.
  - split; simpl; try done; try constructor; try set_solver.
  - rewrite fold_left_app. by apply extract_service_ok.
Qed.

Lemma two_elements {A} (l : list A) :
  NoDup l -> (1 <? length l)%nat = true <-> exists x y, x ∈ l /\ y ∈ l /\ x <> y.
Proof.
  intros Hn. rewrite Nat.ltb_lt. split.
  - destruct l as [|x [|y l]]; simpl; [lia..|]. intros _. exists x, y.
    apply NoDup_cons in Hn as [Hx _]. set_solver.
  - intros (x & y & Hx & Hy & Hne). destruct l as [|a [|b l]]; simpl; [set_solver| |lia]. set_solver.
Qed.

(** An owner's detail merges its services. Contacts are the services' contacts, one per
    type and value; the DRIs are exactly those the services name, distinct and in order,
    the first being shown; a conflict is flagged exactly when two services name different
    DRIs; and the team is the first one named. *)
Theorem extractOwnerDetail_merges (key : str) (services : list (option Owner)) :
  let d := extractOwnerDetail key services in
  NoDup (contact_key <$> od_contacts d) /\
  (forall c, c ∈ od_contacts d -> exists o, Some o ∈ services /\ c ∈ nullish (contacts o) []) /\
  (forall o c, Some o ∈ services -> c ∈ nullish (contacts o) [] ->
     contact_key c ∈ contact_key <$> od_contacts d) /\
  NoDup (od_allDris d) /\ StronglySorted (le_by str_cmp) (od_allDris d) /\
  (forall n, n ∈ od_allDris d <-> n <> [] /\ exists o, Some o ∈ services /\ dri o = Some n) /\
  od_dri d = default [] (head (od_allDris d)) /\
  (od_driConflict d = true <-> exists o1 o2 d1 d2, Some o1 ∈ services /\ Some o2 ∈ services /\
     dri o1 = Some d1 /\ dri o2 = Some d2 /\ d1 <> [] /\ d2 <> [] /\ d1 <> d2) /\
  od_team d = default [] (head (List.filter truthy (omap (fun o => o ≫= team) services))).
Proof.
  cbv zeta. unfold extractOwnerDetail. simpl. destruct (extract_all_ok services) as [Hs Hn Hc Hm Hdn Hd Ht].
  set (ex := fold_left _ _ _) in *. rewrite <- Hs. split_and!; try done.
  - intros o c Ho Hk. apply Hc. eauto.
  - unfold sort_str. by rewrite sort_by_Permutation.
  - apply sort_str_Sorted.
  - intros n. unfold sort_str. by rewrite elem_of_sort_by.
  - rewrite two_elements by done. split.
    + intros (d1 & d2 & H1 & H2 & Hne). apply Hd in H1 as (? & o1 & ? & ?), H2 as (? & o2 & ? & ?).
      by exists o1, o2, d1, d2.
    + intros (o1 & o2 & d1 & d2 & H1 & H2 & E1 & E2 & N1 & N2 & Hne).
      exists d1, d2. rewrite !Hd. split_and!; eauto.
Qed.
