(* ===== verification/Readiness.v ===== *)
(** * The readiness model: [src/pkg/dashboard/frontend/src/lib/readiness.ts]

    Buckets, gate classes and per-check status of a readiness assessment. Scores, weights
    and counts are integers on the wire. *)

From stdpp Require Import base list gmap.
From Stdlib Require Import Init.Byte ZArith NArith Lia.
From S2P Require Import Prelude Uri.
Local Open Scope Z_scope.

Record ReadinessCheck := {
  rc_id : str; rc_type : str; rc_category : option str; rc_status : str; rc_evidence : option str;
  rc_description : option str; rc_weight : Z; rc_earnedWeight : Z; rc_excluded : bool;
  rc_docPath : option str }.

Record ReadinessInfo := {
  score : Z; minScore : Z; totalWeight : Z; earnedWeight : Z; partialCredit : Z; passing : bool;
  expires : str; expired : bool; daysRemaining : option Z; doneCount : Z; partialCount : Z;
  notDoneCount : Z; deferredCount : Z; checks : option (list ReadinessCheck) }.

Inductive ReadinessBucket := Ready | Partial | NotReady | RUnknown.

#[export] Instance ReadinessBucket_eq_dec : EqDecision ReadinessBucket.
Proof. solve_decision. Defined.

Definition bucket_str (b : ReadinessBucket) : str :=
  match b with Ready => "ready" | Partial => "partial" | NotReady => "not-ready" | RUnknown => "unknown" end.

(** The argument is the service's [readiness], if it has one. *)
Definition readinessBucket (r : option ReadinessInfo) : ReadinessBucket :=
  match r with
  | None => RUnknown
  | Some r => if passing r && negb (expired r) then Ready
              else if 50 <=? score r then Partial else NotReady
  end.

Definition readinessGateClass (r : option ReadinessInfo) : str :=
  match r with
  | None => []
  | Some r => if passing r && negb (expired r) then "score-ok"
              else if (50 <=? score r) && negb (expired r) then "score-warn" else "score-err"
  end.

Definition readinessGateTip (r : option ReadinessInfo) : str :=
  match r with
  | None => []
  | Some r =>
      if expired r then show_Z (score r) ++ "% — expired (minScore " ++ show_Z (minScore r) ++ ")"
      else let verdict : str := if passing r then "passing" else "below gate" in
           show_Z (score r) ++ "% — " ++ verdict ++ " (minScore " ++ show_Z (minScore r) ++ ")"
  end.

Definition readinessBucketLabel (b : ReadinessBucket) : str :=
  match b with
  | Ready => "Ready" | Partial => "Partial" | NotReady => "Not Ready" | RUnknown => "Not configured"
  end.

Definition readinessBucketClass (b : ReadinessBucket) : str :=
  match b with
  | Ready => "badge-ok" | Partial => "badge-warn" | NotReady => "badge-err" | RUnknown => "badge-neutral"
  end.

(** [/^https?:\/\//i], with no case folding of non-ASCII letters in play: [s] also matches
    U+017F only under the [u] flag. *)
Definition ascii_lower (b : byte) : byte := shift_byte 65 90 32 b.
Definition isUrlEvidence (evidence : option str) : bool :=
  match evidence with
  | None => false
  | Some e => truthy e && (starts_with "http://" (ascii_lower <$> e) || starts_with "https://" (ascii_lower <$> e))
  end.

Definition CHECK_STATUS_LABELS : list (str * str) :=
  [("done", "Done"); ("partial", "Partial"); ("not-done", "Not done"); ("deferred", "Deferred")].

Definition checkStatusLabel (status : option str) : jsval :=
  match when_truthy status with
  | None => JStr "—"
  | Some s => get_or CHECK_STATUS_LABELS s s
  end.

Definition checkStatusClass (status : option str) : str :=
  oswitch status [("done", "badge-ok"); ("partial", "badge-warn"); ("not-done", "badge-err");
    ("deferred", "badge-neutral")] "badge-neutral".

Definition assessmentCountdownLabel (expired : option bool) (days : option Z) : str :=
  if nullish expired false then "Expired"
  else match days with
  | None => []
  | Some d => if d <? 0 then "Expired" else if d =? 0 then "expires today"
              else if d =? 1 then "expires in 1 day"
              else "expires in " ++ show_Z d ++ " days"
  end.

(** ** Properties *)

(** An expired or failing assessment is never shown as ready. The bucket is Ready
    exactly when the gate colour is green, which is exactly when the assessment passes and
    has not expired; below the gate the bucket goes by the score alone, and the colour is
    never amber once the assessment has expired. *)
Theorem readiness_gate (r : ReadinessInfo) :
  (readinessBucket (Some r) = Ready <-> passing r = true /\ expired r = false) /\
  (readinessBucket (Some r) = Ready <-> readinessGateClass (Some r) = "score-ok") /\
  (readinessBucket (Some r) = NotReady -> score r < 50) /\
  (readinessBucket (Some r) = Partial -> 50 <= score r) /\
  (expired r = true -> readinessGateClass (Some r) = "score-err" /\ readinessBucket (Some r) <> Ready) /\
  readinessBucket (Some r) <> RUnknown.
Proof.
  unfold readinessBucket, readinessGateClass.
  destruct (passing r), (expired r), (Z.leb_spec 50 (score r)); simpl; intuition (done || lia).
Qed.
