(* ===== verification/Filters.v ===== *)
(** * List filters: [src/pkg/dashboard/frontend/src/lib/filters.ts]

    The filter state a list keeps in its hash, and the services it lets through. The
    service record holds the fields of a list entry that the filters and the fleet
    metrics read; each may be missing. *)

From stdpp Require Import base list gmap.
From Stdlib Require Import Init.Byte ZArith NArith Lia.
From S2P Require Import Prelude Uri Owners Readiness.

Record Service := {
  svc_name : option str; svc_owner : option Owner; svc_contractStatus : option str;
  svc_readiness : option ReadinessInfo; svc_sources : option (list str); svc_source : option str;
  svc_blastRadius : option Z; svc_coverage : option (option Z * option Z) }.

Record FilterState := {
  search : str; owner : str; category : str; contractStatus : str; readinessStatus : str;
  source : str; focus : str; group : str }.

Definition EMPTY_FILTERS : FilterState :=
  {| search := []; owner := []; category := []; contractStatus := []; readinessStatus := [];
     source := []; focus := []; group := [] |}.

Definition readFiltersFromHash (hash : str) : FilterState :=
  match (cut x3f hash).2 with
  | None => EMPTY_FILTERS
  | Some q =>
      let qs := search_params q in
      let get k := or_str (qs_get qs k) [] in
      {| search := get "search"; owner := get "owner"; category := get "category";
         contractStatus := get "contractStatus"; readinessStatus := get "readinessStatus";
         source := get "source"; focus := get "focus"; group := get "group" |}
  end.

Definition filter_fields (f : FilterState) : list (str * option str) :=
  [ ("search", Some (search f)); ("owner", Some (owner f)); ("category", Some (category f));
    ("contractStatus", Some (contractStatus f)); ("readinessStatus", Some (readinessStatus f));
    ("source", Some (source f)); ("focus", Some (focus f)); ("group", Some (group f)) ].

(** The keys of the old query a filter change keeps. *)
Definition kept_keys : list str := ["sort"; "dir"; "limit"].

Definition writeFiltersToHash (hash : str) (f : FilterState) : str :=
  let old := query_of hash in
  with_query (path_of hash)
    (qs_build (filter_fields f ++ ((fun k => (k, qs_get old k)) <$> kept_keys))).

Definition filtersActive (f : FilterState) : bool :=
  truthy (search f) || truthy (owner f) || truthy (category f) || truthy (contractStatus f) ||
  truthy (readinessStatus f) || truthy (source f).

(** ** The predicates of [applyFilters] *)
Definition matches_search `{Locale} (q : str) (s : Service) : bool :=
  match svc_name s with Some n => includes q (toLowerCase n) | None => false end ||
  ownerMatchesFilter (svc_owner s) q.

Definition matches_category (c : str) (s : Service) : bool :=
  existsb (fun ck => rc_category ck === Some c) (nullish (svc_readiness s ≫= checks) []).

Definition matches_source (src : str) (s : Service) : bool :=
  let sources := nullish (svc_sources s)
                   (match when_truthy (svc_source s) with Some x => [x] | None => [] end) in
  bool_decide (src ∈ sources).

Definition applyFilters `{Locale} (services : list Service) (f : FilterState) : list Service :=
  let list := services in
  let list := if truthy (search f)
              then let q := toLowerCase (search f) in List.filter (matches_search q) list else list in
  let list := if truthy (owner f)
              then List.filter (fun s => ownerKey (svc_owner s) === owner f) list else list in
  let list := if truthy (category f) then List.filter (matches_category (category f)) list else list in
  let list := if truthy (contractStatus f)
              then List.filter (fun s => svc_contractStatus s === Some (contractStatus f)) list else list in
  let list := if truthy (readinessStatus f)
              then List.filter (fun s => bucket_str (readinessBucket (svc_readiness s)) === readinessStatus f) list
              else list in
  if truthy (source f) then List.filter (matches_source (source f)) list else list.

(** ** Properties *)
Definition filters_utf8 (f : FilterState) : Prop := utf8_fields (filter_fields f).

Lemma kept_utf8_fields hash :
  utf8_fields ((fun k => (k, qs_get (query_of hash) k)) <$> kept_keys).
Proof.
  unfold utf8_fields. apply Forall_fmap, Forall_forall. intros k Hk. simpl. split.
  - revert k Hk. apply (Forall_forall _ kept_keys). by_decide.
  - destruct (qs_get (query_of hash) k) as [v|] eqn:E; [|done]. apply assoc_elem in E.
    pose proof (utf8_search_params (nullish (cut x3f hash).2 [])) as Hu. unfold utf8_pairs in Hu.
    rewrite Forall_forall in Hu. by apply Hu in E as [_ ?].
Qed.

Lemma or_field s : or_str (when_truthy (Some s)) [] = s.
Proof. by destruct s. Qed.

Lemma truthy_field_none s : when_truthy (Some s) = None -> [] = s.
Proof. by destruct s. Qed.

(** The filters survive the URL. For any location and any filters, reading the filters
    back from the rewritten location gives exactly the filters written; the path stays,
    the order and page size of the old location are kept, and every other key of the old
    query (the page above all) is gone. *)
Theorem filters_roundtrip (hash : str) (f : FilterState) :
  filters_utf8 f ->
  let h := writeFiltersToHash hash f in
  readFiltersFromHash h = f /\ path_of h = path_of hash /\
  (forall k, k ∈ kept_keys -> qs_get (query_of h) k = when_truthy (qs_get (query_of hash) k)) /\
  (forall k, k ∉ kept_keys -> k ∉ keys (filter_fields f) -> qs_get (query_of h) k = None).
Proof.
  intros Hf h. unfold h, writeFiltersToHash.
  set (fields := filter_fields f ++ _).
  assert (x3f ∉ path_of hash) as Hq.
  { unfold path_of. destruct (cut x3f hash) eqn:E. by apply cut_inv in E as [? _]. }
  assert (utf8_fields fields) as Hu by (apply Forall_app; split; [done|apply kept_utf8_fields]).
  assert (NoDup (keys fields)) as Hn by (unfold fields; simpl; by_decide).
  assert (query_of (with_query (path_of hash) (qs_build fields)) = qs_build fields) as Hb.
  { apply query_of_with_query; [done|]. by apply utf8_build. }
  assert (forall k, qs_get (qs_build fields) k = field_of fields k) as Hg by (intros; by apply qs_get_build).
  split_and!.
  - unfold readFiltersFromHash. unfold query_of in Hb.
    destruct ((cut x3f _).2) as [q|]; cbn [nullish] in Hb.
    + rewrite Hb, !Hg. destruct f. f_equal; exact (or_field _).
    + assert (forall k, field_of fields k = None) as Hnone by (intros k; by rewrite <- Hg, <- Hb).
      unfold fields, field_of in Hnone. destruct f as [s1 s2 s3 s4 s5 s6 s7 s8]. unfold EMPTY_FILTERS.
      f_equal; apply truthy_field_none;
        [exact (Hnone "search") | exact (Hnone "owner") | exact (Hnone "category")
        | exact (Hnone "contractStatus") | exact (Hnone "readinessStatus") | exact (Hnone "source")
        | exact (Hnone "focus") | exact (Hnone "group")].
  - by apply path_of_with_query.
  - intros k Hk. rewrite Hb, Hg. unfold field_of, fields.
    apply list_elem_of_In in Hk. destruct Hk as [<-|[<-|[<-|[]]]]; reflexivity.
  - intros k Hk Hk'. rewrite Hb, Hg. unfold field_of.
    assert (assoc k fields = None) as ->; [|done]. apply assoc_None. unfold fields, keys.
    rewrite fmap_app, not_elem_of_app. split; [done|]. rewrite <- list_fmap_compose. simpl. set_solver.
Qed.

Lemma filters_roundtrip_witness :
  let f := {| search := "a b"; owner := "team:é"; category := []; contractStatus := []; readinessStatus := [];
              source := "oci"; focus := []; group := [] |} in
  let h := writeFiltersToHash "#/list?limit=50&offset=100&owner=x" f in
  readFiltersFromHash h = f /\ path_of h = path_of "#/list?limit=50&offset=100&owner=x" /\
  (forall k, k ∈ kept_keys ->
     qs_get (query_of h) k = when_truthy (qs_get (query_of "#/list?limit=50&offset=100&owner=x") k)) /\
  (forall k, k ∉ kept_keys -> k ∉ keys (filter_fields f) -> qs_get (query_of h) k = None).
Proof. intros f. apply filters_roundtrip. unfold filters_utf8, utf8_fields. by_decide. Defined.

(** A service that every filter in use lets through. *)
Definition passes `{Locale} (f : FilterState) (s : Service) : Prop :=
  (search f <> [] ->
     (exists n, svc_name s = Some n /\ includes (toLowerCase (search f)) (toLowerCase n) = true) \/
     ownerMatchesFilter (svc_owner s) (toLowerCase (search f)) = true) /\
  (owner f <> [] -> ownerKey (svc_owner s) = owner f) /\
  (category f <> [] ->
     exists r cs c, svc_readiness s = Some r /\ checks r = Some cs /\ c ∈ cs /\ rc_category c = Some (category f)) /\
  (contractStatus f <> [] -> svc_contractStatus s = Some (contractStatus f)) /\
  (readinessStatus f <> [] -> bucket_str (readinessBucket (svc_readiness s)) = readinessStatus f) /\
  (source f <> [] ->
     (exists l, svc_sources s = Some l /\ source f ∈ l) \/
     (svc_sources s = None /\ svc_source s = Some (source f))).

Lemma elem_of_filter_if {A} (b : bool) (p : A -> bool) (l : list A) x :
  x ∈ (if b then List.filter p l else l) <-> x ∈ l /\ (b = true -> p x = true).
Proof. destruct b; rewrite ?list_elem_of_In, ?filter_In; intuition done. Qed.

Lemma matches_category_spec c s :
  matches_category c s = true <->
  exists r cs k, svc_readiness s = Some r /\ checks r = Some cs /\ k ∈ cs /\ rc_category k = Some c.
Proof.
  unfold matches_category. rewrite existsb_exists. split.
  - intros (k & Hk & Hc). apply bool_decide_eq_true in Hc. apply list_elem_of_In in Hk.
    destruct (svc_readiness s) as [r|]; simpl in Hk; [|set_solver].
    destruct (checks r) as [cs|] eqn:E; simpl in Hk; [|set_solver]. eauto 8.
  - intros (r & cs & k & Er & Ec & Hk & Hc). rewrite Er. simpl. rewrite Ec. exists k.
    rewrite <- list_elem_of_In. split; [done|]. by apply bool_decide_eq_true.
Qed.

Lemma matches_source_spec src s :
  src <> [] ->
  matches_source src s = true <->
  (exists l, svc_sources s = Some l /\ src ∈ l) \/ (svc_sources s = None /\ svc_source s = Some src).
Proof.
  intros Hne. unfold matches_source. rewrite bool_decide_eq_true.
  destruct (svc_sources s) as [l|]; simpl; [naive_solver|].
  destruct (svc_source s) as [[|]|]; simpl; rewrite ?elem_of_nil, ?list_elem_of_singleton; naive_solver.
Qed.

(** C9: a filtered list holds exactly the services every filter in use lets through, in
    the order of the list, and filters that are all empty leave the list alone. *)
Theorem applyFilters_spec `{Locale} (services : list Service) (f : FilterState) :
  (forall s, s ∈ applyFilters services f <-> s ∈ services /\ passes f s) /\
  sublist (applyFilters services f) services /\
  (filtersActive f = false -> applyFilters services f = services).
Proof.
  unfold applyFilters. cbv zeta. split_and!.
  - intros s. rewrite !elem_of_filter_if, !truthy_nonempty. unfold passes.
    assert ((exists n, svc_name s = Some n /\ includes (toLowerCase (search f)) (toLowerCase n) = true) \/
       ownerMatchesFilter (svc_owner s) (toLowerCase (search f)) = true <->
       matches_search (toLowerCase (search f)) s = true) as ->.
    { unfold matches_search. rewrite orb_true_iff. destruct (svc_name s); naive_solver. }
    rewrite matches_category_spec, !bool_decide_eq_true.
    pose proof (matches_source_spec (source f) s). tauto.
  - repeat match goal with
    | |- sublist (if ?b then List.filter ?p ?l else ?l) _ =>
        transitivity l; [destruct b; [apply filter_sublist | done]|]
    end. done.
  - unfold filtersActive. intros Hn. split_bools.
    repeat match goal with H : truthy _ = false |- _ => rewrite H; clear H end. done.
Qed.

Lemma applyFilters_spec_witness :
  let svc n := {| svc_name := Some n; svc_owner := None; svc_contractStatus := Some "Warning";
                  svc_readiness := None; svc_sources := Some ["oci"]; svc_source := None;
                  svc_blastRadius := None; svc_coverage := None |} in
  let f := {| search := "PAY"; owner := []; category := []; contractStatus := "Warning";
              readinessStatus := "unknown"; source := "oci"; focus := []; group := [] |} in
  applyFilters [svc "Payments"; svc "orders"] f = [svc "Payments"] /\
  (forall s, s ∈ applyFilters [svc "Payments"; svc "orders"] f <-> s ∈ [svc "Payments"; svc "orders"] /\ passes f s).
Proof. intros svc f. split; [solve_compute|]. apply applyFilters_spec. Defined.
