(* ===== verification/Format.v ===== *)
(** * Formatting, classification and fleet metrics: [src/pkg/dashboard/frontend/src/lib/format.ts]

    The status vocabulary and its tones, the dependency-resolution vocabulary, digests,
    counts, and [summarize], the one pass over the services that every KPI, owner row and
    category row comes from. *)

From stdpp Require Import base list gmap sorting.
From Stdlib Require Import Init.Byte ZArith NArith Lia.
From Stdlib Require Import SpecFloat.
From S2P Require Import Prelude Uri Owners Readiness Filters.
Local Open Scope Z_scope.

(** ** Statuses *)
Definition STATUS_META : list (str * (str * str)) :=
  [ ("Compliant", ("Compliant", "ok")); ("Warning", ("Warning", "warn"));
    ("NonCompliant", ("Not compliant", "err")); ("Invalid", ("Invalid", "err"));
    ("Unknown", ("Unknown", "warn")); ("Reference", ("Reference", "reference"));
    ("NotEvaluated", ("Not evaluated", "neutral")) ].

(** No member of [Object.prototype] has a [tone] or a [label]. *)
Definition statusClass (status : option str) : str :=
  nullish (get_field STATUS_META (or_str status []) snd) "neutral".

Definition statusLabel (status : option str) : str :=
  match when_truthy status with
  | None => "Unknown"
  | Some s => nullish (get_field STATUS_META s fst) s
  end.

Definition statusTone (status : option str) : str :=
  let c := statusClass status in if c === "reference" then "info" else c.

(** [s in STATUS_META] *)
Definition STATUS_FILTER_OPTIONS : list str :=
  List.filter (fun s => match obj_get STATUS_META s with Missing => false | _ => true end)
    ["NonCompliant"; "Invalid"; "Warning"; "Unknown"; "NotEvaluated"; "Compliant"].

Definition complianceClass (score : Z) : str :=
  if 80 <=? score then "score-ok" else if 50 <=? score then "score-warn" else "score-err".

Definition complianceStatusClass (status : str) : str :=
  switch status [("OK", "score-ok"); ("WARNING", "score-warn"); ("ERROR", "score-err");
    ("UNKNOWN", "score-info")] [].

Definition referencedDocPaths (r : option ReadinessInfo) : list str :=
  omap (fun c => when_truthy (rc_docPath c)) (nullish (r ≫= checks) []).

Definition methodClass `{Locale} (method : option str) : str :=
  oswitch (toUpperCase <$> method)
    [("GET", "badge-ok"); ("POST", "badge-info"); ("PUT", "badge-warn"); ("PATCH", "badge-warn");
     ("DELETE", "badge-err")] "badge-neutral".

Definition classificationClass (c : str) : str :=
  switch c [("BREAKING", "badge-err"); ("POTENTIAL_BREAKING", "badge-warn");
    ("NON_BREAKING", "badge-ok")] "badge-neutral".

Definition COMPLETENESS_LABELS : list (str * str) :=
  [("complete", "Complete"); ("partial", "Partial"); ("empty", "Empty")].

Definition completenessLabel (c : option str) : jsval :=
  match when_truthy c with None => JStr "Unknown" | Some c => get_or COMPLETENESS_LABELS c c end.

Definition completenessClass (c : option str) : str :=
  oswitch c [("complete", "badge-ok"); ("partial", "badge-warn"); ("empty", "badge-neutral")] "badge-neutral".

Definition changeTypeClass (t : str) : str :=
  switch t [("added", "diff-added"); ("removed", "diff-removed"); ("modified", "diff-modified")] [].

(** ** Identifiers that wrap at their separators *)
Definition escape_byte (b : byte) : str :=
  match b with x26 => "&amp;" | x3c => "&lt;" | x3e => "&gt;" | _ => [b] end.

(** The characters of the class [.[\]:/_@#-]. *)
Definition is_separator (b : byte) : bool :=
  match b with x2e | x5b | x5d | x3a | x2f | x5f | x40 | x23 | x2d => true | _ => false end.

Definition breakableIdentifierHtml (s : option str) : str :=
  let escaped := nullish s [] ≫= escape_byte in
  escaped ≫= (fun b => if is_separator b then b :: "<wbr>" else [b]).

(** ** Dependency resolution *)
Definition REASON_LABELS : list (str * str) :=
  [ ("non_oci_ref", "External"); ("auth_failed", "Auth required"); ("no_semver_tags", "No versions");
    ("not_found", "Not found"); ("pull_failed", "Unreachable"); ("discovering", "Discovering…") ].

Definition REASON_TOOLTIPS : list (str * str) :=
  [ ("non_oci_ref", "A dependency outside OCI with no contract of its own");
    ("auth_failed", "Registry authentication failed. Run `pacto login` or check your credentials.");
    ("no_semver_tags", "OCI repository found but contains no valid semver tags");
    ("not_found", "OCI artifact not found in the registry");
    ("pull_failed", "Registry unreachable. Check network connectivity or DNS.");
    ("discovering", "Background OCI discovery is still running and may resolve this shortly.") ].

Definition REASON_BADGE_CLASSES : list (str * str) :=
  [ ("non_oci_ref", "badge-neutral"); ("auth_failed", "badge-err"); ("no_semver_tags", "badge-warn");
    ("not_found", "badge-warn"); ("pull_failed", "badge-err"); ("discovering", "badge-info") ].

Definition reasonLabel (reason : option str) : jsval :=
  match when_truthy reason with None => JStr "External" | Some r => get_or REASON_LABELS r "External" end.

Definition reasonTooltip (reason : option str) : jsval :=
  match when_truthy reason with
  | None => JStr "External dependency"
  | Some r => get_or REASON_TOOLTIPS r "External dependency"
  end.

Definition reasonBadgeClass (reason : option str) : jsval :=
  match when_truthy reason with
  | None => JStr "badge-neutral"
  | Some r => get_or REASON_BADGE_CLASSES r "badge-neutral"
  end.

Definition isReasonActionable (reason : option str) : bool :=
  (reason === Some "auth_failed") || (reason === Some "not_found") || (reason === Some "no_semver_tags") ||
  (reason === Some "pull_failed").

Definition SOURCE_DESCRIPTIONS : list (str * str) :=
  [ ("kubernetes", "Kubernetes — live cluster runtime data");
    ("oci", "OCI Registry — versioned contract bundles");
    ("local", "Local — contracts from local filesystem");
    ("cache", "Cache — offline baseline from a previously pulled bundle");
    ("target-state", "Target state — a file describing where each revision runs");
    ("evidence-http", "Evidence Server — signed reports from remote environments");
    ("evidence-ingest", "Evidence Server — signed reports accepted by this server");
    ("observation", "Observation — recorded calls between services");
    ("catalog", "Catalog — contracts discovered in a registry");
    ("mira", "Mira — calls between services seen in its trace store") ].

Definition sourceTooltip (src : str) : jsval := get_or SOURCE_DESCRIPTIONS src src.

(** ** Digests *)

(** [hex.slice(0, n)] for a count that is not negative. *)
Definition shortDigest (digest : option str) (n : nat) : str :=
  match when_truthy digest with None => [] | Some d => take n (strip_prefix "sha256:" d) end.

(** The longest run of bytes of a class, and what follows. *)
Fixpoint span (p : byte -> bool) (s : str) : str * str :=
  match s with
  | [] => ([], [])
  | b :: s' => if p b then let '(h, t) := span p s' in (b :: h, t) else ([], s)
  end.

(** [[a-z0-9]+:([0-9a-f]{32,})] at the head of [s]: the digest, and what follows. The first
    run holds no colon and is greedy, so it ends at the only colon it can. *)
Definition digest_match (s : str) : option (str * str) :=
  let '(alg, r) := span (fun b => is_lower b || is_digit b) s in
  match r with
  | x3a :: r' =>
      let '(hex, rest) := span is_lower_hex r' in
      if truthy alg && (32 <=? length hex)%nat then Some (hex, rest) else None
  | _ => None
  end.

(** The global [replace]: leftmost match first, then on from its end. *)
Fixpoint replace_digests (fuel n : nat) (s : str) : str :=
  match fuel with
  | O => s
  | S fuel' =>
      match s with
      | [] => []
      | b :: s' => match digest_match s with
                   | Some (hex, rest) => take n hex ++ "…" ++ replace_digests fuel' n rest
                   | None => b :: replace_digests fuel' n s'
                   end
      end
  end.

Definition abbreviateDigests (text : option str) (n : nat) : str :=
  match when_truthy text with None => [] | Some t => replace_digests (length t) n t end.

Definition driftBadgeClass (status : option str) : str :=
  oswitch status [("locked", "badge-ok"); ("drift", "badge-warn"); ("unlocked", "badge-neutral")] "badge-neutral".

Definition driftBadgeLabel (status : option str) : str :=
  oswitch status [("locked", "Locked"); ("drift", "Drift"); ("unlocked", "Unlocked")] [].

(** ** Scores *)
Definition compareScoresUnassessedLast (a b dir : Z) : Z :=
  let au := a <? 0 in let bu := b <? 0 in
  if au && bu then 0 else if au then 1 else if bu then -1 else (a - b) * dir.

Definition HIGH_IMPACT_THRESHOLD : Z := 3.

Definition blast (s : Service) : Z := nullish (svc_blastRadius s) 0.

Definition countHighImpact (services : list Service) : Z :=
  Z.of_nat (length (List.filter (fun s => HIGH_IMPACT_THRESHOLD <=? blast s) services)).

(** ** Counts *)

(** The digits of [s] in groups of three from the right: [Intl.NumberFormat('en-US')] on an
    integer. *)
Fixpoint group_rev (fuel : nat) (r : str) : str :=
  match fuel with
  | O => r
  | S fuel' => match r with
               | a :: b :: c :: d :: r' => a :: b :: c :: x2c :: group_rev fuel' (d :: r')
               | _ => r
               end
  end.

Definition formatCount (n : Z) : str :=
  let digits := show_N (Z.to_N (Z.abs n)) in
  (if n <? 0 then "-" else []) ++ rev (group_rev (length digits) (rev digits)).

Definition countOf (n : Z) (one : str) (many : option str) : str :=
  formatCount n ++ " " ++ (if n =? 1 then one else nullish many (one ++ "s")).
