(* ===== verification/Metrics.v ===== *)
(** * Fleet metrics: [summarize] of [src/pkg/dashboard/frontend/src/lib/format.ts]

    One pass over the services, counting statuses, readiness, owners and categories; the
    rows of the owner and category maps are found or made as the pass meets their key. *)

From stdpp Require Import base list gmap sorting.
From Stdlib Require Import Init.Byte ZArith NArith Lia.
From Stdlib Require Import SpecFloat.
From S2P Require Import Prelude Uri Owners Readiness Filters Format.
Local Open Scope Z_scope.

(** ** Percentages, in double arithmetic *)
Definition float_of_Z (z : Z) : spec_float := binary_normalize 53 1024 z 0 false.
Definition js_div (a b : spec_float) : spec_float := SFdiv 53 1024 a b.
Definition js_mul (a b : spec_float) : spec_float := SFmul 53 1024 a b.

(** [Math.round]: the nearest integer, halves up. The results here are finite. *)
Definition js_round (f : spec_float) : Z :=
  match f with
  | S754_finite s m e =>
      let m' := if s then Zneg m else Zpos m in
      if 0 <=? e then m' * 2 ^ e else (2 * m' + 2 ^ (- e)) / 2 ^ (1 - e)
  | _ => 0
  end.

(** [Math.round((a / b) * 100)] and [Math.round(a / b)] *)
Definition percent (a b : Z) : Z := js_round (js_mul (js_div (float_of_Z a) (float_of_Z b)) (float_of_Z 100)).
Definition mean (a b : Z) : Z := js_round (js_div (float_of_Z a) (float_of_Z b)).

(** ** Data *)
Record StatusCounts := {
  compliant : Z; warning : Z; nonCompliant : Z; reference : Z; unknown : Z; invalid : Z;
  notEvaluated : Z }.

Definition no_counts : StatusCounts :=
  {| compliant := 0; warning := 0; nonCompliant := 0; reference := 0; unknown := 0; invalid := 0;
     notEvaluated := 0 |}.

Record OwnerAggregation := {
  oa_key : str; oa_label : str; oa_kind : str; oa_services : Z; oa_counts : StatusCounts;
  oa_runtimeEvaluated : Z; oa_conclusive : Z; oa_totalBlast : Z; oa_maxBlast : Z;
  oa_compliancePercent : Z; oa_ready : Z; oa_partial : Z; oa_notReady : Z; oa_notConfigured : Z }.

Record CategoryBreakdown := {
  cb_category : str; cb_checks : Z; cb_done : Z; cb_partial : Z; cb_notDone : Z; cb_deferred : Z }.

Record ReadinessSummary := {
  rs_total : Z; rs_ready : Z; rs_partial : Z; rs_notReady : Z; rs_notConfigured : Z; rs_configured : Z;
  rs_avgScore : Z; rs_expiredAssessments : Z; rs_totalDone : Z; rs_totalPartial : Z;
  rs_totalNotDone : Z; rs_totalDeferred : Z }.

Record Metrics := {
  m_total : Z; m_assessed : Z; m_counts : StatusCounts; m_needsAttention : Z; m_compliancePercent : Z;
  m_highImpact : Z; m_runtimeEvaluated : Z; m_conclusive : Z; m_coverage : Z * Z;
  m_readiness : ReadinessSummary; m_byOwner : list OwnerAggregation; m_byCategory : list CategoryBreakdown }.

(** ** The loop *)
Definition add_status (status : option str) (c : StatusCounts) : StatusCounts :=
  let '(Build_StatusCounts co wa nc re un iv ne) := c in
  oswitch status
    [ ("Compliant", Build_StatusCounts (co + 1) wa nc re un iv ne);
      ("Warning", Build_StatusCounts co (wa + 1) nc re un iv ne);
      ("NonCompliant", Build_StatusCounts co wa (nc + 1) re un iv ne);
      ("Reference", Build_StatusCounts co wa nc (re + 1) un iv ne);
      ("Unknown", Build_StatusCounts co wa nc re (un + 1) iv ne);
      ("Invalid", Build_StatusCounts co wa nc re un (iv + 1) ne);
      ("NotEvaluated", Build_StatusCounts co wa nc re un iv (ne + 1)) ]
    (Build_StatusCounts co wa nc re (un + 1) iv ne).

(** [ownerKey(svc.owner) || UNOWNED_KEY] *)
Definition row_key (s : Service) : str := or_s (ownerKey (svc_owner s)) UNOWNED_KEY.

Definition new_row (key : str) : OwnerAggregation :=
  {| oa_key := key; oa_label := if key === UNOWNED_KEY then UNOWNED_KEY else ownerKeyLabel key;
     oa_kind := ownerKeyKind key; oa_services := 0; oa_counts := no_counts; oa_runtimeEvaluated := 0;
     oa_conclusive := 0; oa_totalBlast := 0; oa_maxBlast := 0; oa_compliancePercent := 0;
     oa_ready := 0; oa_partial := 0; oa_notReady := 0; oa_notConfigured := 0 |}.

Definition bump (b : bool) : Z := if b then 1 else 0.

Definition add_to_row (agg : OwnerAggregation) (s : Service) : OwnerAggregation :=
  let bucket := readinessBucket (svc_readiness s) in
  {| oa_key := oa_key agg; oa_label := oa_label agg; oa_kind := oa_kind agg;
     oa_services := oa_services agg + 1; oa_counts := add_status (svc_contractStatus s) (oa_counts agg);
     oa_runtimeEvaluated := oa_runtimeEvaluated agg; oa_conclusive := oa_conclusive agg;
     oa_totalBlast := oa_totalBlast agg + blast s; oa_maxBlast := Z.max (oa_maxBlast agg) (blast s);
     oa_compliancePercent := oa_compliancePercent agg;
     oa_ready := oa_ready agg + bump (bucket === Ready);
     oa_partial := oa_partial agg + bump (bucket === Partial);
     oa_notReady := oa_notReady agg + bump (bucket === NotReady);
     oa_notConfigured := oa_notConfigured agg + bump (bucket === RUnknown) |}.

Definition cat_key (c : ReadinessCheck) : str := or_str (rc_category c) "other".

Definition new_category (cat : str) : CategoryBreakdown :=
  {| cb_category := cat; cb_checks := 0; cb_done := 0; cb_partial := 0; cb_notDone := 0; cb_deferred := 0 |}.

Definition add_to_category (a : CategoryBreakdown) (c : ReadinessCheck) : CategoryBreakdown :=
  {| cb_category := cb_category a; cb_checks := cb_checks a + 1;
     cb_done := cb_done a + bump (rc_status c === "done");
     cb_partial := cb_partial a + bump (rc_status c === "partial");
     cb_notDone := cb_notDone a + bump (rc_status c === "not-done");
     cb_deferred := cb_deferred a + bump (rc_status c === "deferred") |}.

(** The readiness totals, [rs_avgScore] holding the sum of the scores until the end. *)
Definition add_readiness (s : Service) (rs : ReadinessSummary) : ReadinessSummary :=
  match svc_readiness s with
  | None =>
      {| rs_total := rs_total rs; rs_ready := rs_ready rs; rs_partial := rs_partial rs;
         rs_notReady := rs_notReady rs; rs_notConfigured := rs_notConfigured rs + 1;
         rs_configured := rs_configured rs; rs_avgScore := rs_avgScore rs;
         rs_expiredAssessments := rs_expiredAssessments rs; rs_totalDone := rs_totalDone rs;
         rs_totalPartial := rs_totalPartial rs; rs_totalNotDone := rs_totalNotDone rs;
         rs_totalDeferred := rs_totalDeferred rs |}
  | Some r =>
      let bucket := readinessBucket (Some r) in
      {| rs_total := rs_total rs; rs_ready := rs_ready rs + bump (bucket === Ready);
         rs_partial := rs_partial rs + bump (bucket === Partial);
         rs_notReady := rs_notReady rs + bump (negb ((bucket === Ready) || (bucket === Partial)));
         rs_notConfigured := rs_notConfigured rs; rs_configured := rs_configured rs + 1;
         rs_avgScore := rs_avgScore rs + score r;
         rs_expiredAssessments := rs_expiredAssessments rs + bump (expired r);
         rs_totalDone := rs_totalDone rs + doneCount r;
         rs_totalPartial := rs_totalPartial rs + partialCount r;
         rs_totalNotDone := rs_totalNotDone rs + notDoneCount r;
         rs_totalDeferred := rs_totalDeferred rs + deferredCount r |}
  end.

(** The variables of the loop. *)
Record Pass := {
  p_counts : StatusCounts; p_highImpact : Z; p_coverage : Z * Z; p_readiness : ReadinessSummary;
  p_owners : list (str * OwnerAggregation); p_categories : list (str * CategoryBreakdown) }.

Definition start (services : list Service) : Pass :=
  {| p_counts := no_counts; p_highImpact := 0; p_coverage := (0, 0);
     p_readiness := {| rs_total := Z.of_nat (length services); rs_ready := 0; rs_partial := 0;
                       rs_notReady := 0; rs_notConfigured := 0; rs_configured := 0; rs_avgScore := 0;
                       rs_expiredAssessments := 0; rs_totalDone := 0; rs_totalPartial := 0;
                       rs_totalNotDone := 0; rs_totalDeferred := 0 |};
     p_owners := []; p_categories := [] |}.

Definition service_checks (s : Service) : list ReadinessCheck := nullish (svc_readiness s ≫= checks) [].

Definition summarize_service (p : Pass) (s : Service) : Pass :=
  {| p_counts := add_status (svc_contractStatus s) (p_counts p);
     p_highImpact := p_highImpact p + bump (HIGH_IMPACT_THRESHOLD <=? blast s);
     p_coverage := match svc_coverage s with
                   | Some (e, r) => ((p_coverage p).1 + nullish e 0, (p_coverage p).2 + nullish r 0)
                   | None => p_coverage p
                   end;
     p_readiness := add_readiness s (p_readiness p);
     p_owners := group_step row_key new_row add_to_row (p_owners p) s;
     p_categories := fold_left (group_step cat_key new_category add_to_category) (service_checks s) (p_categories p) |}.

(** ** The end of the pass *)
Definition assessed_of (c : StatusCounts) : Z :=
  compliant c + warning c + nonCompliant c + unknown c + invalid c.
Definition runtime_of (c : StatusCounts) : Z := compliant c + warning c + nonCompliant c + unknown c.
Definition conclusive_of (c : StatusCounts) : Z := compliant c + warning c + nonCompliant c.

Definition finalize_row (agg : OwnerAggregation) : OwnerAggregation :=
  let c := oa_counts agg in
  {| oa_key := oa_key agg; oa_label := oa_label agg; oa_kind := oa_kind agg; oa_services := oa_services agg;
     oa_counts := c; oa_runtimeEvaluated := runtime_of c; oa_conclusive := conclusive_of c;
     oa_totalBlast := oa_totalBlast agg; oa_maxBlast := oa_maxBlast agg;
     oa_compliancePercent := if 0 <? assessed_of c then percent (compliant c) (assessed_of c) else -1;
     oa_ready := oa_ready agg; oa_partial := oa_partial agg; oa_notReady := oa_notReady agg;
     oa_notConfigured := oa_notConfigured agg |}.

Definition finalize_readiness (rs : ReadinessSummary) : ReadinessSummary :=
  {| rs_total := rs_total rs; rs_ready := rs_ready rs; rs_partial := rs_partial rs;
     rs_notReady := rs_notReady rs; rs_notConfigured := rs_notConfigured rs;
     rs_configured := rs_configured rs;
     rs_avgScore := if 0 <? rs_configured rs then mean (rs_avgScore rs) (rs_configured rs) else -1;
     rs_expiredAssessments := rs_expiredAssessments rs; rs_totalDone := rs_totalDone rs;
     rs_totalPartial := rs_totalPartial rs; rs_totalNotDone := rs_totalNotDone rs;
     rs_totalDeferred := rs_totalDeferred rs |}.

Definition cmp_rows `{Locale} (a b : OwnerAggregation) : Z :=
  cmp_or (localeCompare (oa_label a) (oa_label b)) (localeCompare (oa_key a) (oa_key b)).
Definition cmp_categories `{Locale} (a b : CategoryBreakdown) : Z :=
  localeCompare (cb_category a) (cb_category b).

Definition summarize `{Locale} (services : list Service) : Metrics :=
  let p := fold_left summarize_service services (start services) in
  let c := p_counts p in
  let assessed := assessed_of c in
  {| m_total := Z.of_nat (length services); m_assessed := assessed; m_counts := c;
     m_needsAttention := nonCompliant c + warning c + invalid c;
     m_compliancePercent := if 0 <? assessed then percent (compliant c) assessed else -1;
     m_highImpact := p_highImpact p; m_runtimeEvaluated := runtime_of c; m_conclusive := conclusive_of c;
     m_coverage := p_coverage p; m_readiness := finalize_readiness (p_readiness p);
     m_byOwner := sort_by cmp_rows (finalize_row <$> values (p_owners p));
     m_byCategory := sort_by cmp_categories (values (p_categories p)) |}.

Definition aggregateByOwner `{Locale} (services : list Service) : list OwnerAggregation :=
  m_byOwner (summarize services).

(** ** Properties *)

(** *** Status counts form a commutative monoid *)
Definition add_counts (a b : StatusCounts) : StatusCounts :=
  {| compliant := compliant a + compliant b; warning := warning a + warning b;
     nonCompliant := nonCompliant a + nonCompliant b; reference := reference a + reference b;
     unknown := unknown a + unknown b; invalid := invalid a + invalid b;
     notEvaluated := notEvaluated a + notEvaluated b |}.

Definition sum_counts (l : list StatusCounts) : StatusCounts := foldr add_counts no_counts l.

(** Every service under its one status. *)
Definition status_total (c : StatusCounts) : Z :=
  compliant c + warning c + nonCompliant c + reference c + unknown c + invalid c + notEvaluated c.

Lemma counts_eq a b :
  compliant a = compliant b -> warning a = warning b -> nonCompliant a = nonCompliant b ->
  reference a = reference b -> unknown a = unknown b -> invalid a = invalid b ->
  notEvaluated a = notEvaluated b -> a = b.
Proof. destruct a, b; simpl; intros; subst; done. Qed.

Lemma add_counts_assoc a b c : add_counts a (add_counts b c) = add_counts (add_counts a b) c.
Proof. apply counts_eq; simpl; lia. Qed.
Lemma add_counts_comm a b : add_counts a b = add_counts b a.
Proof. apply counts_eq; simpl; lia. Qed.
Lemma add_counts_0 a : add_counts no_counts a = a.
Proof. apply counts_eq; simpl; lia. Qed.

Definition unit_count (s : Service) : StatusCounts := add_status (svc_contractStatus s) no_counts.

Lemma oswitch_fmap {A B} (f : A -> B) d (cs : list (str * A)) x :
  f (oswitch d cs x) = oswitch d (prod_map id f <$> cs) (f x).
Proof.
  destruct d as [d|]; [|done]. simpl. induction cs as [|[k v] cs IH]; [done|].
  rewrite fmap_cons. simpl. by destruct (bool_decide (d = k)).
Qed.

Lemma add_status_unit s c : add_status (svc_contractStatus s) c = add_counts (unit_count s) c.
Proof.
  unfold unit_count, add_status. destruct c. simpl.
  rewrite (oswitch_fmap (fun u => add_counts u _)). simpl.
  f_equal; [repeat f_equal|]; apply counts_eq; simpl; lia.
Qed.

Lemma unit_count_total s : status_total (unit_count s) = 1.
Proof. unfold unit_count, add_status. simpl. rewrite (oswitch_fmap status_total). simpl. unfold oswitch.
  destruct (svc_contractStatus s); [|done]. apply switch_in; [repeat constructor|done]. Qed.

Definition count_all (l : list Service) : StatusCounts := sum_counts (unit_count <$> l).

Lemma sum_counts_app a b : sum_counts (a ++ b) = add_counts (sum_counts a) (sum_counts b).
Proof.
  induction a as [|x a IH]; simpl; [by rewrite add_counts_0|]. by rewrite IH, add_counts_assoc.
Qed.

Lemma sum_counts_perm a b : a ≡ₚ b -> sum_counts a = sum_counts b.
Proof.
  induction 1 as [|x a b _ IH|x y a|a b c _ IH1 _ IH2]; simpl; [done|by rewrite IH| |congruence].
  rewrite !add_counts_assoc. by rewrite (add_counts_comm x y).
Qed.

Lemma count_all_perm a b : a ≡ₚ b -> count_all a = count_all b.
Proof. intros H. unfold count_all. apply sum_counts_perm. by rewrite H. Qed.

Lemma count_all_concat (ls : list (list Service)) :
  count_all (concat ls) = sum_counts (count_all <$> ls).
Proof.
  unfold count_all. induction ls as [|l ls IH]; [done|]. simpl.
  by rewrite fmap_app, sum_counts_app, IH.
Qed.

Lemma status_total_add a b : status_total (add_counts a b) = status_total a + status_total b.
Proof. unfold status_total. simpl. lia. Qed.

Lemma count_all_total l : status_total (count_all l) = Z.of_nat (length l).
Proof.
  induction l as [|s l IH]; [done|].
  change (count_all (s :: l)) with (add_counts (unit_count s) (count_all l)).
  rewrite status_total_add, unit_count_total, IH. cbn [length]. lia.
Qed.

(** *** The pass *)

(** The pass computes each part on its own: the counts of all services, the rows of the
    owners and the rows of the categories. *)
Lemma pass_parts (l : list Service) (p : Pass) :
  let r := fold_left summarize_service l p in
  p_counts r = add_counts (count_all l) (p_counts p) /\
  p_highImpact r = countHighImpact l + p_highImpact p /\
  p_readiness r = fold_left (fun rs s => add_readiness s rs) l (p_readiness p) /\
  p_owners r = fold_left (group_step row_key new_row add_to_row) l (p_owners p) /\
  p_categories r = fold_left (group_step cat_key new_category add_to_category)
                     (concat (service_checks <$> l)) (p_categories p).
Proof.
  revert p. induction l as [|s l IH]; intros p; simpl.
  - split_and!; try done. by rewrite add_counts_0.
  - destruct (IH (summarize_service p s)) as (-> & -> & -> & -> & ->). split_and!; try done.
    + unfold summarize_service. simpl. rewrite add_status_unit.
      change (count_all (s :: l)) with (add_counts (unit_count s) (count_all l)).
      apply counts_eq; simpl; lia.
    + unfold countHighImpact. simpl. destruct (HIGH_IMPACT_THRESHOLD <=? blast s); simpl; lia.
    + by rewrite fold_left_app.
Qed.

(** The row of an owner, as counted from its own services. *)
Definition owner_row (services : list Service) (k : str) : OwnerAggregation :=
  finalize_row (group_row row_key new_row add_to_row services k).

Lemma row_parts (l : list Service) (a : OwnerAggregation) :
  let r := fold_left add_to_row l a in
  oa_key r = oa_key a /\ oa_label r = oa_label a /\
  oa_services r = Z.of_nat (length l) + oa_services a /\
  oa_counts r = add_counts (count_all l) (oa_counts a) /\
  oa_ready r + oa_partial r + oa_notReady r + oa_notConfigured r =
    Z.of_nat (length l) + (oa_ready a + oa_partial a + oa_notReady a + oa_notConfigured a).
Proof.
  revert a. induction l as [|s l IH]; intros a; simpl.
  - split_and!; try done. by rewrite add_counts_0.
  - destruct (IH (add_to_row a s)) as (-> & -> & -> & -> & ->). split_and!; try done.
    + simpl. lia.
    + simpl. rewrite add_status_unit.
      change (count_all (s :: l)) with (add_counts (unit_count s) (count_all l)).
      apply counts_eq; simpl; lia.
    + simpl. destruct (readinessBucket (svc_readiness s)); simpl; lia.
Qed.

Lemma summarize_owners `{Locale} (services : list Service) :
  m_byOwner (summarize services) =
    sort_by cmp_rows (owner_row services <$> dedupe (row_key <$> services)).
Proof.
  unfold summarize. simpl.
  destruct (pass_parts services (start services)) as (_ & _ & _ & -> & _). simpl.
  change (fold_left _ services []) with (group_by row_key new_row add_to_row services).
  rewrite group_by_rows. unfold values. f_equal. rewrite <- !list_fmap_compose. done.
Qed.

(** The fleet metrics partition the fleet. Every service is counted under exactly one
    status and one readiness bucket; the assessed services are those with an outcome; the
    readiness totals split into configured and not; and "needs attention" counts exactly
    the non-compliant, warning and invalid ones among the assessed. *)
Theorem summarize_partitions `{Locale} (services : list Service) :
  let m := summarize services in
  let r := m_readiness m in
  status_total (m_counts m) = m_total m /\ m_total m = Z.of_nat (length services) /\
  m_assessed m + reference (m_counts m) + notEvaluated (m_counts m) = m_total m /\
  m_assessed m = m_needsAttention m + compliant (m_counts m) + unknown (m_counts m) /\
  rs_ready r + rs_partial r + rs_notReady r = rs_configured r /\
  rs_configured r + rs_notConfigured r = m_total m /\
  m_highImpact m = countHighImpact services.
Proof.
  cbv zeta. unfold summarize. simpl.
  destruct (pass_parts services (start services)) as (-> & -> & -> & _ & _). simpl.
  assert (status_total (add_counts (count_all services) no_counts) = Z.of_nat (length services)) as Ht.
  { rewrite status_total_add, count_all_total. unfold status_total. simpl. lia. }
  unfold status_total, assessed_of in *. simpl in *.
  assert (forall l rs, let r := fold_left (fun rs s => add_readiness s rs) l rs in
    rs_ready r + rs_partial r + rs_notReady r - rs_configured r =
      rs_ready rs + rs_partial rs + rs_notReady rs - rs_configured rs /\
    rs_configured r + rs_notConfigured r = Z.of_nat (length l) + (rs_configured rs + rs_notConfigured rs)) as Hr.
  { clear. intros l. induction l as [|s l IH]; intros rs; simpl; [lia|].
    destruct (IH (add_readiness s rs)) as [-> ->]. unfold add_readiness.
    destruct (svc_readiness s) as [i|]; simpl; [|lia].
    destruct (passing i && negb (expired i)), (50 <=? score i); simpl; lia. }
  pose proof (Hr services (p_readiness (start services))) as [H1 H2]. simpl in H1, H2.
  split_and!; lia.
Qed.

Lemma owner_row_parts (services : list Service) (k : str) :
  let own := List.filter (fun s => row_key s === k) services in
  let r := owner_row services k in
  oa_key r = k /\ oa_services r = Z.of_nat (length own) /\ oa_counts r = count_all own /\
  oa_ready r + oa_partial r + oa_notReady r + oa_notConfigured r = oa_services r.
Proof.
  cbv zeta. unfold owner_row, group_row. simpl.
  destruct (row_parts (List.filter (fun s => row_key s === k) services) (new_row k))
    as (-> & _ & Hs & Hc & Hr). rewrite Hs, Hc, Hr. simpl. split_and!; try lia; [done|].
  rewrite add_counts_comm. apply add_counts_0.
Qed.

Lemma cmp_rows_total `{Locale} a b : 0 < cmp_rows a b -> le_by cmp_rows b a.
Proof.
  unfold le_by, cmp_rows, cmp_or.
  pose proof (localeCompare_antisym (oa_label a) (oa_label b)).
  pose proof (localeCompare_antisym (oa_key a) (oa_key b)).
  repeat match goal with |- context [(?x =? 0)] => destruct (Z.eqb_spec x 0) end; lia.
Qed.

Lemma cmp_rows_trans `{Locale} a b c :
  le_by cmp_rows a b -> le_by cmp_rows b c -> le_by cmp_rows a c.
Proof.
  unfold le_by, cmp_rows, cmp_or.
  set (la := oa_label a). set (lb := oa_label b). set (lc := oa_label c).
  pose proof (localeCompare_antisym la lb). pose proof (localeCompare_antisym lb lc).
  pose proof (localeCompare_antisym la lc).
  pose proof (localeCompare_trans la lb lc). pose proof (localeCompare_trans lb lc la).
  pose proof (localeCompare_trans lc la lb).
  pose proof (localeCompare_trans (oa_key a) (oa_key b) (oa_key c)). unfold le_by in *.
  repeat match goal with |- context [(?x =? 0)] => destruct (Z.eqb_spec x 0) end; lia.
Qed.

(** The services of the rows, row by row, are the services of the fleet. *)
Lemma rows_cover (services : list Service) :
  concat ((fun k => List.filter (fun s => row_key s === k) services) <$> dedupe (row_key <$> services))
    ≡ₚ services.
Proof.
  apply groups_Permutation; [apply NoDup_dedupe|]. intros s Hs.
  rewrite elem_of_dedupe. apply list_elem_of_fmap. eauto.
Qed.

Definition sum_services (rows : list OwnerAggregation) : Z := foldr (fun r n => oa_services r + n) 0 rows.

Lemma sum_services_perm a b : a ≡ₚ b -> sum_services a = sum_services b.
Proof. induction 1; simpl; lia. Qed.

Lemma sum_services_rows services ks :
  sum_services (owner_row services <$> ks) =
    Z.of_nat (length (concat ((fun k => List.filter (fun s => row_key s === k) services) <$> ks))).
Proof.
  induction ks as [|k ks IH]; [done|]. rewrite !fmap_cons. cbn [concat].
  rewrite length_app, Nat2Z.inj_add, <- IH.
  destruct (owner_row_parts services k) as (_ & <- & _). done.
Qed.

(** The services a row is about: those of its owner, or for the unowned row those whose
    owner has no key. *)
Definition in_row (k : str) (s : Service) : bool :=
  if k === UNOWNED_KEY then negb (truthy (ownerKey (svc_owner s))) else ownerKey (svc_owner s) === k.

Lemma row_key_in_row k s : k <> [] -> (row_key s === k) = in_row k s.
Proof.
  intros Hk. pose proof (ownerKey_owned (svc_owner s)) as Hu. unfold in_row, row_key, or_s.
  destruct (ownerKey (svc_owner s)) as [|b o]; simpl.
  - rewrite (bool_decide_eq_false_2 ([] = k)) by done. case_bool_decide; by repeat case_bool_decide.
  - case_bool_decide as E; [|by case_bool_decide]. subst k. by rewrite bool_decide_eq_false_2.
Qed.

Lemma row_key_nonempty s : row_key s <> [].
Proof. unfold row_key, or_s. by destruct (ownerKey (svc_owner s)). Qed.

(** C6: one row per owner, and the rows add up to the fleet. The owner rows are, sorted by
    name and then key, one row for each distinct owner key among the services (the unowned in a row of
    their own), each counting exactly its own services, every one under one status and one
    readiness bucket; their counts, status by status, add up to the fleet's. *)
Theorem summarize_owner_rows `{Locale} (services : list Service) :
  let m := summarize services in
  m_byOwner m ≡ₚ owner_row services <$> dedupe (row_key <$> services) /\
  StronglySorted (le_by cmp_rows) (m_byOwner m) /\ NoDup (oa_key <$> m_byOwner m) /\
  (forall r, r ∈ m_byOwner m ->
     oa_services r = Z.of_nat (length (List.filter (in_row (oa_key r)) services)) /\
     status_total (oa_counts r) = oa_services r /\
     oa_ready r + oa_partial r + oa_notReady r + oa_notConfigured r = oa_services r) /\
  sum_services (m_byOwner m) = m_total m /\
  sum_counts (oa_counts <$> m_byOwner m) = m_counts m.
Proof.
  cbv zeta. rewrite summarize_owners.
  set (rows := owner_row services <$> dedupe (row_key <$> services)).
  pose proof (sort_by_Permutation cmp_rows rows) as Hp.
  assert (oa_key <$> rows = dedupe (row_key <$> services)) as Hk.
  { unfold rows. rewrite <- list_fmap_compose. rewrite <- (list_fmap_id (dedupe _)) at 2.
    apply list_fmap_ext. intros i k _. exact (proj1 (owner_row_parts services k)). }
  split_and!; [done| | | | |].
  - apply sort_by_Sorted; [apply cmp_rows_total | apply cmp_rows_trans].
  - rewrite Hp, Hk. apply NoDup_dedupe.
  - intros r Hr. rewrite Hp in Hr. apply list_elem_of_fmap in Hr as (k & -> & Hin).
    destruct (owner_row_parts services k) as (-> & -> & -> & ->).
    apply elem_of_dedupe, list_elem_of_fmap in Hin as (s & -> & _).
    rewrite (List.filter_ext (in_row (row_key s)) (fun x => row_key x === row_key s))
      by (intros x; symmetry; apply row_key_in_row, row_key_nonempty).
    split_and!; [done| |done]. apply count_all_total.
  - rewrite (sum_services_perm _ _ Hp). unfold summarize; simpl.
    rewrite <- (Permutation_length (rows_cover services)). 
    apply sum_services_rows.
  - rewrite (sum_counts_perm _ (oa_counts <$> rows)) by (by rewrite Hp).
    unfold summarize; simpl. destruct (pass_parts services (start services)) as (-> & _). simpl.
    rewrite add_counts_comm, add_counts_0. rewrite <- (count_all_perm _ _ (rows_cover services)), count_all_concat.
    unfold rows. f_equal. rewrite <- !list_fmap_compose. apply list_fmap_ext. intros i k _.
    destruct (owner_row_parts services k) as (_ & _ & Hc & _). exact Hc.
Qed.

(** The row of a category, as counted from the checks of that category. *)
Definition category_row (services : list Service) (k : str) : CategoryBreakdown :=
  group_row cat_key new_category add_to_category (concat (service_checks <$> services)) k.

Lemma category_row_parts (l : list ReadinessCheck) (a : CategoryBreakdown) :
  let r := fold_left add_to_category l a in
  cb_category r = cb_category a /\ cb_checks r = Z.of_nat (length l) + cb_checks a /\
  cb_done r + cb_partial r + cb_notDone r + cb_deferred r <=
    Z.of_nat (length l) + (cb_done a + cb_partial a + cb_notDone a + cb_deferred a).
Proof.
  revert a. induction l as [|c l IH]; intros a; simpl; [split_and!; (done || lia)|].
  destruct (IH (add_to_category a c)) as (-> & -> & Hle). split_and!; [done|simpl; lia|].
  etransitivity; [exact Hle|]. simpl. unfold bump. repeat case_bool_decide; (lia || congruence).
Qed.

(** The category table counts every check of every assessed service once, under its
    own category ("other" when it names none): one row per category, in collation order,
    each with as many checks as declare it. *)
Theorem summarize_categories `{Locale} (services : list Service) :
  let rows := m_byCategory (summarize services) in
  let all := concat (service_checks <$> services) in
  rows ≡ₚ category_row services <$> dedupe (cat_key <$> all) /\
  NoDup (cb_category <$> rows) /\ StronglySorted (le_by localeCompare) (cb_category <$> rows) /\
  (forall r, r ∈ rows ->
     cb_checks r = Z.of_nat (length (List.filter (fun c => cat_key c === cb_category r) all)) /\
     cb_done r + cb_partial r + cb_notDone r + cb_deferred r <= cb_checks r).
Proof.
  cbv zeta. set (all := concat (service_checks <$> services)).
  assert (m_byCategory (summarize services) =
    sort_by cmp_categories (category_row services <$> dedupe (cat_key <$> all))) as ->.
  { unfold summarize. simpl. destruct (pass_parts services (start services)) as (_ & _ & _ & _ & ->).
    simpl. change (fold_left _ _ []) with (group_by cat_key new_category add_to_category all).
    rewrite group_by_rows. unfold values. f_equal. rewrite <- list_fmap_compose. done. }
  set (rows := category_row services <$> _).
  assert (forall k, let r := category_row services k in cb_category r = k /\
    cb_checks r = Z.of_nat (length (List.filter (fun c => cat_key c === k) all)) /\
    cb_done r + cb_partial r + cb_notDone r + cb_deferred r <= cb_checks r) as Hrow.
  { intros k. unfold category_row, group_row. fold all.
    destruct (category_row_parts (List.filter (fun c => cat_key c === k) all) (new_category k)) as (H1 & H2 & H3).
    rewrite H1, H2 in *. simpl in *. split_and!; [done|lia|lia]. }
  assert (cb_category <$> rows = dedupe (cat_key <$> all)) as Hk.
  { unfold rows. rewrite <- list_fmap_compose. rewrite <- (list_fmap_id (dedupe _)) at 2.
    apply list_fmap_ext. intros i k _. exact (proj1 (Hrow k)). }
  split_and!.
  - apply sort_by_Permutation.
  - rewrite (sort_by_Permutation cmp_categories rows), Hk. apply NoDup_dedupe.
  - assert (StronglySorted (le_by cmp_categories) (sort_by cmp_categories rows)) as Hs.
    { apply sort_by_Sorted; intros *; apply localeCompare_total || apply localeCompare_trans. }
    induction Hs as [|a l _ IH Ha]; simpl; constructor; [exact IH|]. apply Forall_fmap. exact Ha.
  - intros r Hr. rewrite elem_of_sort_by in Hr. apply list_elem_of_fmap in Hr as (k & -> & _).
    by destruct (Hrow k) as (-> & -> & ?).
Qed.
