(* ===== verification/Knowledge.v ===== *)
(** * Truthful knowledge states: [src/pkg/dashboard/frontend/src/lib/knowledgeState.ts]

    What a snapshot lets the dashboard claim, and the one state machine every list and
    detail view renders from. *)

From stdpp Require Import base list gmap.
From Stdlib Require Import Init.Byte ZArith NArith Lia.
From S2P Require Import Prelude.
Local Open Scope Z_scope.

Inductive CompletenessLevel := Complete | EmptyLevel | PartialLevel | Stale | Unavailable | UnknownLevel.

#[export] Instance CompletenessLevel_eq_dec : EqDecision CompletenessLevel.
Proof. solve_decision. Defined.

Record SnapshotKnowledge := {
  level : CompletenessLevel; degradedSources : Z; staleSources : Z; unavailableSources : Z;
  incomplete : bool; countsBounded : bool }.

(** The tally over every source of a snapshot ([SourceCounts] of entityLabels.ts). *)
Record SourceCounts := {
  sc_total : option Z; sc_available : option Z; sc_partial : option Z; sc_stale : option Z;
  sc_unavailable : option Z }.

(** A source of the preview is its status, if it and the status are there. *)
Record MetaLike := {
  ml_completeness : option str; ml_sources : option (list (option str));
  ml_sourcesTruncated : option bool; ml_sourceCounts : option SourceCounts }.

(** One round of the loop over the preview: the partial, stale and unavailable seen. *)
Definition count_source (acc : Z * Z * Z) (status : option str) : Z * Z * Z :=
  let '(d, s, u) := acc in
  oswitch status [("partial", (d + 1, s, u)); ("stale", (d, s + 1, u)); ("unavailable", (d, s, u + 1))]
    (d, s, u).

Definition source_health (m : MetaLike) : Z * Z * Z * bool :=
  match ml_sourceCounts m with
  | Some c => (nullish (sc_partial c) 0, nullish (sc_stale c) 0, nullish (sc_unavailable c) 0, false)
  | None => (fold_left count_source (nullish (ml_sources m) []) (0, 0, 0),
             ml_sourcesTruncated m === Some true)
  end.

Definition snapshotKnowledge (meta : option MetaLike) : SnapshotKnowledge :=
  match meta with
  | None => {| level := UnknownLevel; degradedSources := 0; staleSources := 0; unavailableSources := 0;
               incomplete := true; countsBounded := false |}
  | Some m =>
      let '(degraded, stale, unavailable, bounded) := source_health m in
      let level := if 0 <? unavailable then Unavailable
                   else if 0 <? stale then Stale
                   else if 0 <? degraded then PartialLevel
                   else oswitch (ml_completeness m)
                          [("partial", PartialLevel); ("complete", Complete); ("empty", EmptyLevel)]
                          UnknownLevel in
      {| level := level; degradedSources := degraded; staleSources := stale; unavailableSources := unavailable;
         incomplete := (level !== Complete) && (level !== EmptyLevel); countsBounded := bounded |}
  end.

(** The clauses of the caveat: the noun is on the first one only. *)
Definition clause (first : bool) (n : Z) (word : str) : str :=
  let verb : str := if n =? 1 then "is" else "are" in
  let subject := if first then show_Z n ++ " data source" ++ (if n =? 1 then [] else "s") else show_Z n in
  subject ++ " " ++ verb ++ " " ++ word.

Definition add_clause (clauses : list str) (nw : Z * str) : list str :=
  if nw.1 <=? 0 then clauses
  else clauses ++ [clause (length clauses =? 0)%nat nw.1 nw.2].

Definition degradedSourceSummary (k : SnapshotKnowledge) : str :=
  let clauses := fold_left add_clause
    [(unavailableSources k, "unavailable"); (staleSources k, "stale"); (degradedSources k, "partial")] [] in
  match clauses with
  | [] => []
  | c :: rest =>
      let sentence := match rest with
                      | [] => c
                      | _ => join ", " (but_last clauses) ++ " and " ++ List.last clauses []
                      end in
      if countsBounded k then "at least " ++ sentence else sentence
  end.

(** ** Errors: the classes [classifyError] tells apart, and any other thrown value by its
    text. Every class extends [Error], so each has a message. *)
Inductive thrown :=
  | SchemaCompatibilityError (message : str)
  | ApiContractError (message : str)
  | ApiError (status : Z) (message : str)
  | OtherError (message : str)
  | OtherValue (text : str).

#[export] Instance thrown_eq_dec : EqDecision thrown.
Proof. solve_decision. Defined.

Inductive ErrorKind := NotFoundKind | SchemaKind | BackendKind.

Definition classifyError (err : thrown) : ErrorKind :=
  match err with
  | SchemaCompatibilityError _ | ApiContractError _ => SchemaKind
  | ApiError status _ => if status =? 404 then NotFoundKind else BackendKind
  | _ => BackendKind
  end.

Definition message_of (err : thrown) : str :=
  match err with
  | SchemaCompatibilityError m | ApiContractError m | ApiError _ m | OtherError m => m
  | OtherValue t => t
  end.

Inductive ViewState :=
  | VsLoading
  | VsBackendError (message : str)
  | VsSchemaError (message : str)
  | VsNotFound (message : str)
  | VsEmptyFleet
  | VsEmptyUnknown (k : SnapshotKnowledge)
  | VsFilteredEmpty (k : SnapshotKnowledge)
  | VsReady (k : SnapshotKnowledge) (revalidating : bool) (refreshError : option thrown).

Record ViewStateInput := {
  vi_loading : bool; vi_error : option thrown; vi_itemCount : Z; vi_filtered : option bool;
  vi_knowledge : option SnapshotKnowledge }.

Definition decideViewState (i : ViewStateInput) : ViewState :=
  let knowledge := nullish (vi_knowledge i) (snapshotKnowledge None) in
  if 0 <? vi_itemCount i then VsReady knowledge (vi_loading i) (vi_error i)
  else if vi_loading i then VsLoading
  else match vi_error i with
  | Some e =>
      match classifyError e with
      | NotFoundKind => VsNotFound (message_of e)
      | SchemaKind => VsSchemaError (message_of e)
      | BackendKind => VsBackendError (message_of e)
      end
  | None =>
      if nullish (vi_filtered i) false then VsFilteredEmpty knowledge
      else if incomplete knowledge then VsEmptyUnknown knowledge
      else VsEmptyFleet
  end.

Definition allClearAllowed (k : SnapshotKnowledge) (attentionCount : Z) : bool :=
  negb (incomplete k) && (attentionCount <=? 0).

(** ** Properties *)
Lemma oswitch_cases {A} (P : A -> Prop) d (cs : list (str * A)) x :
  Forall P cs.*2 -> P x -> P (oswitch d cs x).
Proof. destruct d; [apply switch_in | done]. Qed.

Lemma count_source_fold l d s u :
  let '(d', s', u') := fold_left count_source l (d, s, u) in
  d' = d + Z.of_nat (length (List.filter (fun x => x === Some "partial") l)) /\
  s' = s + Z.of_nat (length (List.filter (fun x => x === Some "stale") l)) /\
  u' = u + Z.of_nat (length (List.filter (fun x => x === Some "unavailable") l)).
Proof.
  revert d s u. induction l as [|x l IH]; intros d s u; [simpl; lia|].
  cbn [fold_left]. destruct (count_source (d, s, u) x) as [[d1 s1] u1] eqn:E.
  specialize (IH d1 s1 u1). destruct (fold_left count_source l (d1, s1, u1)) as [[d2 s2] u2].
  destruct IH as (-> & -> & ->). destruct x as [x|]; [|simpl in *; simplify_eq; lia].
  cbn [count_source oswitch switch] in E. cbn [List.filter].
  assert (forall t, bool_decide (Some x = Some t) = bool_decide (x = t)) as Hs.
  { intros t. apply bool_decide_ext. split; congruence. }
  rewrite !Hs. repeat case_bool_decide; simplify_eq/=; try done; lia.
Qed.

(** What it takes to claim the snapshot is fully known. *)
Definition fully_known (m : MetaLike) : Prop :=
  (ml_completeness m = Some "complete" \/ ml_completeness m = Some "empty") /\
  match ml_sourceCounts m with
  | Some c => nullish (sc_partial c) 0 <= 0 /\ nullish (sc_stale c) 0 <= 0 /\ nullish (sc_unavailable c) 0 <= 0
  | None => forall s, s ∈ nullish (ml_sources m) [] -> s ∉ [Some "partial"; Some "stale"; Some "unavailable"]
  end.

Lemma filter_count_le {A} (p : A -> bool) (l : list A) :
  Z.of_nat (length (List.filter p l)) <= 0 <-> forall x, x ∈ l -> p x = false.
Proof.
  induction l as [|x l IH]; simpl; [split; [set_solver|lia]|].
  destruct (p x) eqn:E; simpl.
  - split; [lia|]. intros H. rewrite (H x) in E by set_solver. done.
  - rewrite IH. split; [|set_solver]. intros H y [->|Hy]%elem_of_cons; auto.
Qed.

Lemma source_health_spec m :
  let '(d, s, u, _) := source_health m in
  (d <= 0 /\ s <= 0 /\ u <= 0) <->
  match ml_sourceCounts m with
  | Some c => nullish (sc_partial c) 0 <= 0 /\ nullish (sc_stale c) 0 <= 0 /\ nullish (sc_unavailable c) 0 <= 0
  | None => forall x, x ∈ nullish (ml_sources m) [] -> x ∉ [Some "partial"; Some "stale"; Some "unavailable"]
  end.
Proof.
  unfold source_health. destruct (ml_sourceCounts m) as [c|]; [done|].
  pose proof (count_source_fold (nullish (ml_sources m) []) 0 0 0) as H.
  destruct (fold_left _ _ _) as [[d s] u]. destruct H as (-> & -> & ->). rewrite !Z.add_0_l.
  rewrite !filter_count_le. split.
  - intros (H1 & H2 & H3) x Hx. specialize (H1 x Hx). specialize (H2 x Hx). specialize (H3 x Hx).
    split_bools. set_solver.
  - intros H. split_and!; intros x Hx; apply bool_decide_eq_false; specialize (H x Hx); set_solver.
Qed.

Lemma knowledge_complete meta :
  incomplete (snapshotKnowledge meta) = false <-> exists m, meta = Some m /\ fully_known m.
Proof.
  destruct meta as [m|]; [|simpl; naive_solver]. unfold snapshotKnowledge, fully_known.
  pose proof (source_health_spec m) as H. destruct (source_health m) as [[[d s] u] b]. simpl.
  transitivity ((ml_completeness m = Some "complete" \/ ml_completeness m = Some "empty") /\ d <= 0 /\ s <= 0 /\ u <= 0);
    [|rewrite H; naive_solver].
  destruct (Z.ltb_spec 0 u), (Z.ltb_spec 0 s), (Z.ltb_spec 0 d); simpl; try (intuition (done || lia)).
  destruct (ml_completeness m) as [x|]; simpl; [|naive_solver].
  repeat case_bool_decide; simplify_eq; simpl; naive_solver (done || lia).
Qed.

(** C7: no false all-clear. A blanket "all clear" is allowed exactly when a snapshot was
    received, it declares itself complete or empty, no data source is partial, stale or
    unavailable (by the tally over all sources, or by the preview when there is no tally),
    and nothing needs attention; anything less is incomplete knowledge. *)
Theorem allClear_honest (meta : option MetaLike) (attention : Z) :
  allClearAllowed (snapshotKnowledge meta) attention = true <->
  (exists m, meta = Some m /\ fully_known m) /\ attention <= 0.
Proof.
  unfold allClearAllowed. rewrite andb_true_iff, negb_true_iff, Z.leb_le. by rewrite knowledge_complete.
Qed.

(** Every screen of a view tells the truth about what is known. Data on hand is shown
    whatever a refresh is doing or however it failed, both being reported with it; "the
    fleet is empty" is said only when nothing is loading, nothing failed, no filter is on
    and knowledge is complete; and a failure screen is shown only for that failure. *)
Theorem decideViewState_honest (i : ViewStateInput) :
  (0 < vi_itemCount i <->
     decideViewState i = VsReady (nullish (vi_knowledge i) (snapshotKnowledge None)) (vi_loading i) (vi_error i)) /\
  (decideViewState i = VsEmptyFleet <->
     vi_itemCount i <= 0 /\ vi_loading i = false /\ vi_error i = None /\ nullish (vi_filtered i) false = false /\
     exists k, vi_knowledge i = Some k /\ incomplete k = false) /\
  (forall msg, decideViewState i = VsNotFound msg ->
     vi_itemCount i <= 0 /\ vi_loading i = false /\ vi_error i = Some (ApiError 404 msg)) /\
  (decideViewState i = VsLoading <-> vi_itemCount i <= 0 /\ vi_loading i = true).
Proof.
  destruct i as [loading err n filtered k]. unfold decideViewState. simpl.
  destruct (Z.ltb_spec 0 n) as [Hn|Hn].
  { split_and!; [done|split; [done|intros (? & _); lia]|done|split; [done|intros (? & _); lia]]. }
  assert (forall P : Prop, ~ P -> (0 < n <-> P)) as Hiff by (intros; split; [lia|done]).
  destruct loading; simpl.
  { split_and!; [by apply Hiff|split; [done|by intros (_ & ? & _)]|done|done]. }
  destruct err as [e|]; simpl.
  { split_and!; [apply Hiff| |intros msg|split; [|by intros [_ ?]]]; try (by destruct (classifyError e)).
    - split; [by destruct (classifyError e)|]. by intros (_ & _ & ? & _).
    - destruct e; simpl; try done. destruct (Z.eqb_spec status 404); [|done].
      intros [= ->]. by subst. }
  destruct (nullish filtered false); simpl.
  { split_and!; [by apply Hiff|split; [done|by intros (_ & _ & _ & ? & _)]|done|split; [done|by intros [_ ?]]]. }
  destruct k as [k|]; simpl.
  2:{ split_and!; [by apply Hiff|split; [done|by intros (_ & _ & _ & _ & k & ? & _)]|done|split; [done|by intros [_ ?]]]. }
  destruct (incomplete k) eqn:E; simpl;
    (split_and!; [by apply Hiff| |done|split; [done|by intros [_ ?]]]).
  - split; [done|]. intros (_ & _ & _ & _ & k' & [= <-] & ?). congruence.
  - split; [|done]. intros _. split_and!; try done. by exists k.
Qed.
