(* ===== verification/Loader.v ===== *)
(** * The product-list loader: [src/pkg/dashboard/frontend/src/lib/productLoader.svelte.ts]

    Requests overlap and settle in any order; a generation token keeps the response of an
    abandoned request from touching the state. The loader is a record, each of its methods
    and each promise reaction ([then], [catch], [finally]) a function on it, and a system
    of one loader with its requests in flight is stepped by the caller, the network and the
    microtask queue in any interleaving. *)

From stdpp Require Import base list gmap.
From Stdlib Require Import Init.Byte ZArith NArith Lia.
From Stdlib Require Import Relations.Relation_Operators.
From S2P Require Import Prelude Knowledge.

(** A question is asked under a tag and a family, each absent when [undefined]. *)
Section Loader.
Context {T Tag : Type} `{EqDecision Tag}.

Record Loader := {
  data : option T; loading : bool; error : option thrown; dataTag : option Tag;
  dataFamily : option Tag; generation : nat; lastKey : option str; lastTag : option Tag;
  lastFamily : option Tag }.

Definition createProductLoader : Loader :=
  {| data := None; loading := true; error := None; dataTag := None; dataFamily := None;
     generation := 0; lastKey := None; lastTag := None; lastFamily := None |}.

(** A request in flight, and how far its promise chain has come. *)
Inductive stage := Waiting | Fulfilled (r : T) | Rejected (e : thrown) | Finalizing.

Record Request := { rq_gen : nat; rq_tag : option Tag; rq_family : option Tag; rq_stage : stage }.

(** The loader's side of [run]: a new generation, loading, no error. *)
Definition run (l : Loader) : Loader :=
  {| data := data l; loading := true; error := None; dataTag := dataTag l; dataFamily := dataFamily l;
     generation := S (generation l); lastKey := lastKey l; lastTag := lastTag l;
     lastFamily := lastFamily l |}.

Definition remember (l : Loader) (key : str) (tag family : option Tag) : Loader :=
  {| data := data l; loading := loading l; error := error l; dataTag := dataTag l;
     dataFamily := dataFamily l; generation := generation l; lastKey := Some key; lastTag := tag;
     lastFamily := family |}.

(** The new request [sync] issues, if it issues one. *)
Definition sync (l : Loader) (key : str) (tag family : option Tag) : Loader * option Request :=
  if lastKey l === Some key then (l, None)
  else
    let l' := run (remember l key tag family) in
    (l', Some {| rq_gen := generation l'; rq_tag := tag; rq_family := family; rq_stage := Waiting |}).

Definition refresh (l : Loader) : Loader * option Request :=
  let l' := run l in
  (l', Some {| rq_gen := generation l'; rq_tag := lastTag l; rq_family := lastFamily l; rq_stage := Waiting |}).

Definition destroy (l : Loader) : Loader :=
  {| data := data l; loading := loading l; error := error l; dataTag := dataTag l;
     dataFamily := dataFamily l; generation := S (generation l); lastKey := lastKey l;
     lastTag := lastTag l; lastFamily := lastFamily l |}.

Definition on_then (l : Loader) (rq : Request) (res : T) : Loader :=
  if (rq_gen rq =? generation l)%nat then
    {| data := Some res; loading := loading l; error := error l; dataTag := rq_tag rq;
       dataFamily := rq_family rq; generation := generation l; lastKey := lastKey l;
       lastTag := lastTag l; lastFamily := lastFamily l |}
  else l.

Definition on_catch (l : Loader) (rq : Request) (e : thrown) : Loader :=
  if (rq_gen rq =? generation l)%nat then
    {| data := data l; loading := loading l; error := Some e; dataTag := dataTag l;
       dataFamily := dataFamily l; generation := generation l; lastKey := lastKey l;
       lastTag := lastTag l; lastFamily := lastFamily l |}
  else l.

Definition on_finally (l : Loader) (rq : Request) : Loader :=
  if (rq_gen rq =? generation l)%nat then
    {| data := data l; loading := false; error := error l; dataTag := dataTag l;
       dataFamily := dataFamily l; generation := generation l; lastKey := lastKey l;
       lastTag := lastTag l; lastFamily := lastFamily l |}
  else l.

(** The data to draw for a question, and whether it is the page on screen. *)
Definition answer (l : Loader) (tag family : option Tag) : option T * bool :=
  if dataTag l === tag then (data l, false)
  else
    let paging := bool_decide (is_Some (data l)) && bool_decide (family <> None) &&
                  (dataFamily l === family) && bool_decide (error l = None) in
    (if paging then data l else None, paging).

(** ** The list view over a loader *)
Section ListState.
Context (meta : T -> option MetaLike) (rows : T -> option nat).

Record Query := { q_tag : option Tag; q_family : option Tag; q_filtered : bool; q_pageLimit : nat }.

(** Rows in an answer; [rows] gives their number, if the answer has rows. *)
Definition count_of_rows (d : option T) : nat := match d ≫= rows with Some n => n | None => 0 end.

Record ProductListState := {
  pl_data : option T; pl_paging : bool; pl_knowledge : SnapshotKnowledge; pl_count : nat;
  pl_state : ViewState; pl_refreshError : option thrown; pl_revalidating : bool; pl_skeletonRows : nat }.

Definition productListState (l : Loader) (q : Query) : ProductListState :=
  let '(d, paging) := answer l (q_tag q) (q_family q) in
  let knowledge := snapshotKnowledge (d ≫= meta) in
  let count := count_of_rows d in
  let state := decideViewState {| vi_loading := loading l; vi_error := error l; vi_itemCount := Z.of_nat count;
                                  vi_filtered := Some (q_filtered q); vi_knowledge := Some knowledge |} in
  {| pl_data := d; pl_paging := paging; pl_knowledge := knowledge; pl_count := count; pl_state := state;
     pl_refreshError := match state with VsReady _ _ e => e | _ => None end;
     pl_revalidating := match state with VsReady _ r _ => r | _ => false end;
     pl_skeletonRows := match count_of_rows (data l) with O => q_pageLimit q | n => n end |}.
End ListState.

(** ** The system: the loader, the requests in flight, and the history of what was asked
    and what the network answered *)
Record Sys := {
  ld : Loader; inflight : list Request; asked : list (nat * option Tag * option Tag);
  answered : list (nat * (T + thrown)) }.

Definition init : Sys := {| ld := createProductLoader; inflight := []; asked := []; answered := [] |}.

(** Put the request a call issued in flight. *)
Definition issue (s : Sys) (r : Loader * option Request) : Sys :=
  match r with
  | (l, None) => {| ld := l; inflight := inflight s; asked := asked s; answered := answered s |}
  | (l, Some rq) =>
      {| ld := l; inflight := rq :: inflight s; asked := (rq_gen rq, rq_tag rq, rq_family rq) :: asked s;
         answered := answered s |}
  end.

Definition at_stage (rq : Request) (st : stage) : Request :=
  {| rq_gen := rq_gen rq; rq_tag := rq_tag rq; rq_family := rq_family rq; rq_stage := st |}.

Inductive step : Sys -> Sys -> Prop :=
  | StepSync s key tag family : step s (issue s (sync (ld s) key tag family))
  | StepRefresh s : step s (issue s (refresh (ld s)))
  | StepDestroy s :
      step s {| ld := destroy (ld s); inflight := inflight s; asked := asked s; answered := answered s |}
  | StepSettle s a rq b (o : T + thrown) :
      inflight s = a ++ rq :: b -> rq_stage rq = Waiting ->
      step s {| ld := ld s;
                inflight := a ++ at_stage rq (match o with inl r => Fulfilled r | inr e => Rejected e end) :: b;
                asked := asked s; answered := (rq_gen rq, o) :: answered s |}
  | StepThen s a rq b r :
      inflight s = a ++ rq :: b -> rq_stage rq = Fulfilled r ->
      step s {| ld := on_then (ld s) rq r; inflight := a ++ at_stage rq Finalizing :: b;
                asked := asked s; answered := answered s |}
  | StepCatch s a rq b e :
      inflight s = a ++ rq :: b -> rq_stage rq = Rejected e ->
      step s {| ld := on_catch (ld s) rq e; inflight := a ++ at_stage rq Finalizing :: b;
                asked := asked s; answered := answered s |}
  | StepFinally s a rq b :
      inflight s = a ++ rq :: b -> rq_stage rq = Finalizing ->
      step s {| ld := on_finally (ld s) rq; inflight := a ++ b; asked := asked s; answered := answered s |}.

Definition steps : Sys -> Sys -> Prop := clos_refl_trans_1n Sys step.
Definition reachable (s : Sys) : Prop := steps init s.

(** ** The invariant *)

(** The outcome of the newest request is what the loader shows. *)
Definition shows (l : Loader) (s : Sys) (g : nat) : Prop :=
  (exists r, (g, inl r) ∈ answered s /\ data l = Some r /\ error l = None /\
     (g, dataTag l, dataFamily l) ∈ asked s) \/
  (exists e, (g, inr e) ∈ answered s /\ error l = Some e).

Definition stage_ok (s : Sys) (rq : Request) : Prop :=
  match rq_stage rq with
  | Waiting => rq_gen rq ∉ (answered s).*1
  | Fulfilled r => (rq_gen rq, inl r) ∈ answered s
  | Rejected e => (rq_gen rq, inr e) ∈ answered s
  | Finalizing => rq_gen rq = generation (ld s) -> shows (ld s) s (rq_gen rq)
  end.

Record inv (s : Sys) : Prop := {
  inv_asked : forall g t f, (g, t, f) ∈ asked s -> (g <= generation (ld s))%nat;
  inv_unique : NoDup (asked s).*1.*1;
  inv_answers : NoDup (answered s).*1;
  inv_answered : forall g o, (g, o) ∈ answered s -> g ∈ (asked s).*1.*1;
  inv_gens : NoDup (rq_gen <$> inflight s);
  inv_rqs : forall rq, rq ∈ inflight s ->
    (rq_gen rq, rq_tag rq, rq_family rq) ∈ asked s /\ stage_ok s rq;
  inv_data : forall d, data (ld s) = Some d ->
    exists g, (g, dataTag (ld s), dataFamily (ld s)) ∈ asked s /\ (g, inl d) ∈ answered s;
  inv_pending : forall rq, rq ∈ inflight s -> rq_gen rq = generation (ld s) ->
    loading (ld s) = true /\ (rq_stage rq <> Finalizing -> error (ld s) = None);
  inv_settled : generation (ld s) ∈ (asked s).*1.*1 -> generation (ld s) ∉ (rq_gen <$> inflight s) ->
    loading (ld s) = false /\ shows (ld s) s (generation (ld s)) }.

Lemma inv_init : inv init.
Proof. split; simpl; try set_solver; try constructor; naive_solver set_solver. Qed.

Lemma gen_asked s g : inv s -> g ∈ (asked s).*1.*1 -> (g <= generation (ld s))%nat.
Proof.
  intros Hi [[g' t] [-> Hg]]%list_elem_of_fmap. apply list_elem_of_fmap in Hg as ([[g1 t1] f1] & E & Hg).
  simpl in *. simplify_eq. by eapply (inv_asked _ Hi).
Qed.

Lemma asked_gen s g t f : (g, t, f) ∈ asked s -> g ∈ (asked s).*1.*1.
Proof.
  intros H. apply list_elem_of_fmap. exists (g, t). split; [done|].
  apply list_elem_of_fmap. by exists (g, t, f).
Qed.

Lemma shows_mono l s s' g :
  (forall x, x ∈ asked s -> x ∈ asked s') -> (forall x, x ∈ answered s -> x ∈ answered s') ->
  shows l s g -> shows l s' g.
Proof. intros Ha Hb [(r & H)|(e & H)]; [left; exists r|right; exists e]; naive_solver. Qed.

(** A call that issues a request keeps the invariant: the request is the newest, and the
    loader is loading with no error. *)
Lemma inv_issue s l' tag family :
  inv s -> generation l' = S (generation (ld s)) -> loading l' = true -> error l' = None ->
  data l' = data (ld s) -> dataTag l' = dataTag (ld s) -> dataFamily l' = dataFamily (ld s) ->
  inv (issue s (l', Some {| rq_gen := generation l'; rq_tag := tag; rq_family := family; rq_stage := Waiting |})).
Proof.
  intros Hi Hg Hl He Hd Ht Hf.
  assert (generation l' ∉ (asked s).*1.*1) as Hfresh by (intros H%(gen_asked _ _ Hi); lia).
  split; simpl.
  - intros g t f [E|H]%elem_of_cons; [simplify_eq; lia|]. apply (inv_asked _ Hi) in H. lia.
  - apply NoDup_cons. split; [done|apply (inv_unique _ Hi)].
  - apply (inv_answers _ Hi).
  - intros g o H. right. by eapply (inv_answered _ Hi).
  - apply NoDup_cons. split; [|apply (inv_gens _ Hi)].
    intros (rq & Hgen & Hrq)%list_elem_of_fmap. apply (inv_rqs _ Hi) in Hrq as [Hrq _].
    apply Hfresh. rewrite Hgen. by eapply asked_gen.
  - intros rq [->|Hrq]%elem_of_cons.
    + split; [by left|]. simpl. intros ([g o] & Hgen & Ho)%list_elem_of_fmap. simpl in Hgen. subst g.
      by apply (inv_answered _ Hi) in Ho.
    + pose proof (inv_rqs _ Hi _ Hrq) as [Ha Hst]. split; [by right|].
      unfold stage_ok in *. simpl. destruct (rq_stage rq); try done.
      intros E. rewrite <- E in Hfresh. destruct Hfresh. by eapply asked_gen.
  - rewrite Hd, Ht, Hf. intros d H. destruct (inv_data _ Hi _ H) as (g & ? & ?). exists g. split; [by right|done].
  - done.
  - intros _ Hn. destruct Hn. by left.
Qed.

Lemma inv_destroy s :
  inv s -> inv {| ld := destroy (ld s); inflight := inflight s; asked := asked s; answered := answered s |}.
Proof.
  intros Hi.
  assert (forall rq, rq ∈ inflight s -> rq_gen rq <> S (generation (ld s))) as Hne.
  { intros rq Hrq. apply (inv_rqs _ Hi) in Hrq as [Hrq _]. apply (inv_asked _ Hi) in Hrq. lia. }
  destruct Hi as [H1 H2 H3 H4 H5 H6 H7 H8 H9]. split; simpl; try done.
  - intros g t f H. apply H1 in H. lia.
  - intros rq Hrq. destruct (H6 rq Hrq) as [? Hst]. split; [done|]. unfold stage_ok in *. simpl.
    destruct (rq_stage rq); try done. intros E. by destruct (Hne rq Hrq).
  - intros rq Hrq E. by destruct (Hne rq Hrq).
  - intros (t & Hgen & Ht)%list_elem_of_fmap. apply list_elem_of_fmap in Ht as ([[g t'] f] & -> & H).
    simpl in *. apply H1 in H. lia.
Qed.

(** The requests around one that moves: each is another request of another generation. *)
Lemma others_gen s a rq b rq' :
  inv s -> inflight s = a ++ rq :: b -> rq' ∈ a ++ b -> rq' ∈ inflight s /\ rq_gen rq' <> rq_gen rq.
Proof.
  intros Hi E Hr. rewrite E. split; [set_solver|]. pose proof (inv_gens _ Hi) as Hn. rewrite E in Hn.
  rewrite fmap_app, fmap_cons in Hn.
  assert (rq_gen rq' ∈ (rq_gen <$> a) ++ (rq_gen <$> b)) as Hr'
    by (rewrite <- fmap_app; by apply list_elem_of_fmap_2).
  intros Eq. rewrite <- Permutation_middle in Hn. apply NoDup_cons in Hn as [Hn _]. rewrite Eq in Hr'. done.
Qed.

Lemma moved_gens s a rq b st :
  inflight s = a ++ rq :: b -> rq_gen <$> (a ++ at_stage rq st :: b) = rq_gen <$> inflight s.
Proof. intros ->. by rewrite !fmap_app, !fmap_cons. Qed.

Lemma inv_settle s a rq b (o : T + thrown) :
  inv s -> inflight s = a ++ rq :: b -> rq_stage rq = Waiting ->
  inv {| ld := ld s;
         inflight := a ++ at_stage rq (match o with inl r => Fulfilled r | inr e => Rejected e end) :: b;
         asked := asked s; answered := (rq_gen rq, o) :: answered s |}.
Proof.
  intros Hi E Hw. assert (rq ∈ inflight s) as Hrq by (rewrite E; set_solver).
  destruct (inv_rqs _ Hi _ Hrq) as [Hask Hst]. unfold stage_ok in Hst. rewrite Hw in Hst.
  set (s' := {| ld := ld s; inflight := _; asked := _; answered := _ |}).
  assert (forall x, x ∈ answered s -> x ∈ answered s') as Hsub by (intros x Hx; by right).
  split; simpl.
  - apply (inv_asked _ Hi).
  - apply (inv_unique _ Hi).
  - apply NoDup_cons. split; [done|apply (inv_answers _ Hi)].
  - intros g o' [E'|H]%elem_of_cons; [simplify_eq; by eapply asked_gen|by eapply (inv_answered _ Hi)].
  - rewrite (moved_gens _ _ _ _ _ E). apply (inv_gens _ Hi).
  - intros rq' [Hr|[->|Hr]%elem_of_cons]%elem_of_app.
    2:{ split; [done|]. unfold stage_ok. simpl. destruct o; by left. }
    all: destruct (others_gen s a rq b rq' Hi E) as [Hin Hne]; [set_solver|];
      destruct (inv_rqs _ Hi _ Hin) as [Ha Hs']; split; [done|]; unfold stage_ok in *; simpl;
      destruct (rq_stage rq'); [set_solver|set_solver|set_solver|];
      intros Eg; eapply shows_mono; [| |by apply Hs']; [done|exact Hsub].
  - intros d Hd. destruct (inv_data _ Hi d Hd) as (g & ? & ?). exists g. split; [done|by right].
  - intros rq' [Hr|[->|Hr]%elem_of_cons]%elem_of_app; simpl.
    2:{ intros Eg. destruct (inv_pending _ Hi _ Hrq Eg) as [? He]. split; [done|].
        intros _. apply He. by rewrite Hw. }
    all: apply (inv_pending _ Hi); rewrite E; set_solver.
  - rewrite (moved_gens _ _ _ _ _ E). intros H1 H2. destruct (inv_settled _ Hi H1 H2) as [? Hsh].
    split; [done|]. eapply shows_mono; [| |exact Hsh]; [done|exact Hsub].
Qed.

(** [then] and [catch]: a stale request changes nothing, the newest shows its outcome. *)
Lemma inv_react s a rq b l' :
  inv s -> inflight s = a ++ rq :: b -> rq_stage rq <> Finalizing -> generation l' = generation (ld s) ->
  (rq_gen rq <> generation (ld s) -> l' = ld s) ->
  (rq_gen rq = generation (ld s) -> loading l' = loading (ld s) /\ shows l' s (rq_gen rq) /\
     (forall d, data l' = Some d -> data (ld s) = Some d /\ dataTag l' = dataTag (ld s) /\
        dataFamily l' = dataFamily (ld s) \/
        (rq_gen rq, dataTag l', dataFamily l') ∈ asked s /\ (rq_gen rq, inl d) ∈ answered s)) ->
  inv {| ld := l'; inflight := a ++ at_stage rq Finalizing :: b; asked := asked s; answered := answered s |}.
Proof.
  intros Hi E Hst Hg Hstale Hnew. assert (rq ∈ inflight s) as Hrq by (rewrite E; set_solver).
  destruct (inv_rqs _ Hi _ Hrq) as [Hask _].
  split; simpl; rewrite ?Hg.
  - apply (inv_asked _ Hi).
  - apply (inv_unique _ Hi).
  - apply (inv_answers _ Hi).
  - apply (inv_answered _ Hi).
  - rewrite (moved_gens _ _ _ _ _ E). apply (inv_gens _ Hi).
  - intros rq' [Hr|[->|Hr]%elem_of_cons]%elem_of_app.
    2:{ split; [done|]. unfold stage_ok. simpl. rewrite Hg. intros Eg. by apply Hnew. }
    all: destruct (others_gen s a rq b rq' Hi E) as [Hin Hne]; [set_solver|];
      destruct (inv_rqs _ Hi _ Hin) as [Ha Hs']; split; [done|]; unfold stage_ok in *; simpl;
      destruct (rq_stage rq'); try done; rewrite Hg; intros Eg; rewrite Hstale by congruence; by apply Hs'.
  - intros d Hd. destruct (decide (rq_gen rq = generation (ld s))) as [Eg|Eg].
    + destruct (Hnew Eg) as (_ & _ & Hd'). destruct (Hd' d Hd) as [(H1 & -> & ->)|[H1 H2]]; [|by eauto].
      by apply (inv_data _ Hi).
    + rewrite Hstale in * by done. by apply (inv_data _ Hi).
  - intros rq' [Hr|[->|Hr]%elem_of_cons]%elem_of_app Eg; simpl.
    2:{ simpl in Eg. destruct (Hnew Eg) as (-> & _). split; [by apply (inv_pending _ Hi _ Hrq)|done]. }
    all: destruct (others_gen s a rq b rq' Hi E) as [Hin Hne]; [set_solver|];
      rewrite Hstale by congruence; by apply (inv_pending _ Hi _ Hin).
  - rewrite (moved_gens _ _ _ _ _ E). intros H1 H2.
    assert (rq_gen rq <> generation (ld s)) as Eg.
    { intros Eg. apply H2. rewrite <- Eg. by apply list_elem_of_fmap_2. }
    rewrite Hstale by done. by apply (inv_settled _ Hi).
Qed.

Lemma inv_finally s a rq b :
  inv s -> inflight s = a ++ rq :: b -> rq_stage rq = Finalizing ->
  inv {| ld := on_finally (ld s) rq; inflight := a ++ b; asked := asked s; answered := answered s |}.
Proof.
  intros Hi E Hst. assert (rq ∈ inflight s) as Hrq by (rewrite E; set_solver).
  destruct (inv_rqs _ Hi _ Hrq) as [Hask Hs]. unfold stage_ok in Hs. rewrite Hst in Hs.
  assert (generation (on_finally (ld s) rq) = generation (ld s)) as Hg by (unfold on_finally; by case_match).
  assert (forall g, shows (on_finally (ld s) rq) s g <-> shows (ld s) s g) as Hsh
    by (intros; unfold shows, on_finally; by case_match).
  assert (rq_gen rq <> generation (ld s) -> on_finally (ld s) rq = ld s) as Hstale.
  { intros Hne. unfold on_finally. by rewrite (proj2 (Nat.eqb_neq _ _)). }
  split; simpl; rewrite ?Hg.
  - apply (inv_asked _ Hi).
  - apply (inv_unique _ Hi).
  - apply (inv_answers _ Hi).
  - apply (inv_answered _ Hi).
  - pose proof (inv_gens _ Hi) as Hn. rewrite E, <- Permutation_middle in Hn. rewrite fmap_app.
    rewrite fmap_cons, fmap_app in Hn. by apply NoDup_cons in Hn as [_ Hn].
  - intros rq' Hr. destruct (others_gen s a rq b rq' Hi E Hr) as [Hin Hne].
    destruct (inv_rqs _ Hi _ Hin) as [Ha Hs']. split; [done|]. unfold stage_ok in *; simpl.
    destruct (rq_stage rq'); try done. rewrite Hg. intros Eg. apply Hsh. by apply Hs'.
  - intros d. assert (data (on_finally (ld s) rq) = data (ld s) /\ dataTag (on_finally (ld s) rq) = dataTag (ld s)
      /\ dataFamily (on_finally (ld s) rq) = dataFamily (ld s)) as (-> & -> & ->)
      by (unfold on_finally; by case_match). apply (inv_data _ Hi).
  - intros rq' Hr Eg. destruct (others_gen s a rq b rq' Hi E Hr) as [Hin Hne].
    rewrite Hstale by congruence. by apply (inv_pending _ Hi _ Hin).
  - intros H1 H2. destruct (decide (rq_gen rq = generation (ld s))) as [Eg|Eg].
    + split; [unfold on_finally; by rewrite Eg, Nat.eqb_refl|]. apply Hsh. rewrite <- Eg. by apply Hs.
    + rewrite Hstale by done. apply (inv_settled _ Hi H1). rewrite E, fmap_app, fmap_cons.
      rewrite fmap_app in H2. set_solver.
Qed.

Lemma inv_step s s' : inv s -> step s s' -> inv s'.
Proof.
  intros Hi Hs. destruct Hs as [s key tag family|s|s|s a rq b o E Hw|s a rq b r E Hf|s a rq b e E Hr|s a rq b E Hf].
  - unfold sync. case_bool_decide; [by destruct s|]. by apply inv_issue.
  - by apply inv_issue.
  - by apply inv_destroy.
  - by eapply inv_settle.
  - assert (rq ∈ inflight s) as Hrq by (rewrite E; set_solver).
    destruct (inv_rqs _ Hi _ Hrq) as [Hask Hst]. unfold stage_ok in Hst. rewrite Hf in Hst.
    unfold on_then. destruct (Nat.eqb_spec (rq_gen rq) (generation (ld s))) as [Eg|Eg].
    + apply inv_react; try done; [congruence|]. intros _. simpl. split_and!; [done| |].
      * left. exists r. simpl. split_and!; try done. apply (inv_pending _ Hi _ Hrq Eg). congruence.
      * intros d [= <-]. by right.
    + apply inv_react; try done. congruence.
  - assert (rq ∈ inflight s) as Hrq by (rewrite E; set_solver).
    destruct (inv_rqs _ Hi _ Hrq) as [Hask Hst]. unfold stage_ok in Hst. rewrite Hr in Hst.
    unfold on_catch. destruct (Nat.eqb_spec (rq_gen rq) (generation (ld s))) as [Eg|Eg].
    + apply inv_react; try done; [congruence|]. intros _. simpl. split_and!; [done| |].
      * right. exists e. done.
      * intros d Hd. left. done.
    + apply inv_react; try done. congruence.
  - by eapply inv_finally.
Qed.

Lemma inv_reachable s : reachable s -> inv s.
Proof.
  assert (forall s s', steps s s' -> inv s -> inv s') as H.
  { intros s1 s2. induction 1 as [|s1 s2 s3 Hs _ IH]; [done|]. intros Hi. apply IH. by eapply inv_step. }
  intros Hr. apply (H init s Hr). apply inv_init.
Qed.

Lemma asked_unique s g t f t' f' :
  inv s -> (g, t, f) ∈ asked s -> (g, t', f') ∈ asked s -> t = t' /\ f = f'.
Proof.
  intros Hi H1 H2. pose proof (inv_unique _ Hi) as Hn. revert Hn H1 H2. generalize (asked s) as l.
  induction l as [|[[g1 t1] f1] l IH]; [set_solver|]. rewrite !fmap_cons. intros [Hn Hl]%NoDup_cons.
  assert (forall t f, (g1, t, f) ∉ l) as Hx.
  { intros t0 f0 H. apply Hn. simpl. apply list_elem_of_fmap. exists (g1, t0). split; [done|].
    apply list_elem_of_fmap. by exists (g1, t0, f0). }
  intros [E1|H1]%elem_of_cons [E2|H2]%elem_of_cons; simplify_eq; try done.
  - by destruct (Hx _ _ H2).
  - by destruct (Hx _ _ H1).
  - by apply IH.
Qed.

(** A loader whose newest generation has no request in flight does not change until a
    call advances the generation. *)
Lemma quiet_step s s' :
  inv s -> generation (ld s) ∉ (rq_gen <$> inflight s) -> step s s' ->
  generation (ld s') = generation (ld s) ->
  ld s' = ld s /\ generation (ld s') ∉ (rq_gen <$> inflight s').
Proof.
  intros Hi Hq Hs. destruct Hs as [s key tag family|s|s|s a rq b o E Hw|s a rq b r E Hf|s a rq b e E Hr|s a rq b E Hf];
    simpl.
  - unfold sync. case_bool_decide; simpl; [done|lia].
  - lia.
  - lia.
  - intros _. by rewrite (moved_gens _ _ _ _ _ E).
  - intros _. rewrite (moved_gens _ _ _ _ _ E). rewrite E, fmap_app, fmap_cons in Hq.
    unfold on_then. destruct (Nat.eqb_spec (rq_gen rq) (generation (ld s))); [set_solver|].
    split; [done|]. by rewrite E, fmap_app, fmap_cons.
  - intros _. rewrite (moved_gens _ _ _ _ _ E). rewrite E, fmap_app, fmap_cons in Hq.
    unfold on_catch. destruct (Nat.eqb_spec (rq_gen rq) (generation (ld s))); [set_solver|].
    split; [done|]. by rewrite E, fmap_app, fmap_cons.
  - intros _. rewrite E, fmap_app, fmap_cons in Hq. rewrite fmap_app.
    unfold on_finally. destruct (Nat.eqb_spec (rq_gen rq) (generation (ld s))); set_solver.
Qed.

Lemma generation_mono s s' : steps s s' -> (generation (ld s) <= generation (ld s'))%nat.
Proof.
  induction 1 as [|s1 s2 s3 Hs _ IH]; [done|]. etransitivity; [|exact IH].
  destruct Hs; simpl; unfold sync, on_then, on_catch, on_finally; repeat case_match; simpl; lia.
Qed.

Lemma quiet_steps s s' :
  steps s s' -> inv s -> generation (ld s) ∉ (rq_gen <$> inflight s) ->
  generation (ld s') = generation (ld s) -> ld s' = ld s.
Proof.
  induction 1 as [|s1 s2 s3 Hs Hss IH]; intros Hi Hq Hg; [done|].
  assert (generation (ld s2) = generation (ld s1)) as Hg2.
  { pose proof (generation_mono _ _ Hss). assert (steps s1 s2) as H12 by (econstructor; [exact Hs|constructor]).
    pose proof (generation_mono _ _ H12). lia. }
  destruct (quiet_step _ _ Hi Hq Hs Hg2) as [E Hq2]. rewrite IH; [done|by eapply inv_step|done|congruence].
Qed.

End Loader.

Arguments Loader : clear implicits.
Arguments Sys : clear implicits.

(** What a view that says the fleet is empty knows. *)
Lemma empty_fleet_inv (i : ViewStateInput) :
  decideViewState i = VsEmptyFleet ->
  (vi_itemCount i <= 0)%Z /\ vi_loading i = false /\ vi_error i = None /\ nullish (vi_filtered i) false = false /\
  incomplete (nullish (vi_knowledge i) (snapshotKnowledge None)) = false.
Proof.
  unfold decideViewState. destruct (Z.ltb_spec 0 (vi_itemCount i)); [done|].
  destruct (vi_loading i); [done|]. destruct (vi_error i) as [e|]; [by destruct (classifyError e)|].
  destruct (nullish (vi_filtered i) false); [done|]. by destruct (incomplete _) eqn:E.
Qed.

(** C2: the newest question wins. In every interleaving of calls and responses, once no
    request is in flight the loader is not loading, and what it shows is the outcome of the
    newest request: its answer under its own tag and family with no error, or its error.
    No older response, however late, is left on screen as the answer to it. *)
Theorem loader_newest_wins {T Tag : Type} `{EqDecision Tag} (s : Sys T Tag) (tag family : option Tag) :
  reachable s -> inflight s = [] -> (generation (ld s), tag, family) ∈ asked s ->
  loading (ld s) = false /\
  ((exists r, (generation (ld s), inl r) ∈ answered s /\ data (ld s) = Some r /\ dataTag (ld s) = tag /\
      dataFamily (ld s) = family /\ error (ld s) = None) \/
   (exists e, (generation (ld s), inr e) ∈ answered s /\ error (ld s) = Some e)).
Proof.
  intros Hr Hq Ha. pose proof (inv_reachable _ Hr) as Hi.
  destruct (inv_settled _ Hi) as [Hl [(r & H1 & H2 & H3 & H4)|He]].
  - by eapply asked_gen.
  - rewrite Hq. set_solver.
  - split; [done|]. left. exists r. destruct (asked_unique _ _ _ _ _ _ Hi H4 Ha) as [-> ->]. done.
  - split; [done|]. by right.
Qed.

(** A question is never answered with another question's data. Whatever the
    interleaving, the data [answer] gives for a tag was the response to a request made
    under that tag; while only the page changed, it was the response to a request of the
    same family, and no refresh has failed over it. *)
Theorem answer_is_asked {T Tag : Type} `{EqDecision Tag} (s : Sys T Tag) (tag family : option Tag) (d : T) (paging : bool) :
  reachable s -> answer (ld s) tag family = (Some d, paging) ->
  exists g t f, (g, t, f) ∈ asked s /\ (g, inl d) ∈ answered s /\
    if paging then f = family /\ family <> None /\ error (ld s) = None else t = tag.
Proof.
  intros Hr. pose proof (inv_reachable _ Hr) as Hi. unfold answer. case_bool_decide as Ht.
  - intros [= Hd <-]. destruct (inv_data _ Hi d Hd) as (g & Hg & Ho). exists g, (dataTag (ld s)), (dataFamily (ld s)). done.
  - destruct (_ && _) eqn:E; [|done]. intros [= Hd <-]. split_bools.
    destruct (inv_data _ Hi d Hd) as (g & Hg & Ho). exists g, (dataTag (ld s)), (dataFamily (ld s)). done.
Qed.

(** A torn-down loader stays as it was. After [destroy], whatever responses still
    arrive, the loader's state does not change until a call starts a new request. *)
Theorem destroy_freezes {T Tag : Type} `{EqDecision Tag} (s s' : Sys T Tag) :
  reachable s ->
  steps {| ld := destroy (ld s); inflight := inflight s; asked := asked s; answered := answered s |} s' ->
  generation (ld s') = S (generation (ld s)) -> ld s' = destroy (ld s).
Proof.
  intros Hr Hs Hg. pose proof (inv_reachable _ Hr) as Hi.
  change (destroy (ld s)) with (ld {| ld := destroy (ld s); inflight := inflight s; asked := asked s; answered := answered s |}).
  apply quiet_steps; [done|by apply inv_destroy| |done]. simpl.
  intros (rq & E & Hrq)%list_elem_of_fmap. apply (inv_rqs _ Hi) in Hrq as [Hrq _]. apply (inv_asked _ Hi) in Hrq. lia.
Qed.

(** C8: a list claims an empty fleet only from a complete answer. If the list view of a
    reachable loader says the fleet is empty, nothing is loading, nothing failed, no filter
    is on, and the answer on hand came with fully known metadata and no rows; it was the
    response to a request of the same tag or, where the list names a family, of the same
    family, whose pages differ in nothing but the page asked for. *)
Theorem list_empty_honest {T Tag : Type} `{EqDecision Tag} (meta : T -> option MetaLike) (rows : T -> option nat)
    (s : Sys T Tag) (q : Query) :
  reachable s -> pl_state (productListState meta rows (ld s) q) = VsEmptyFleet ->
  loading (ld s) = false /\ error (ld s) = None /\ q_filtered q = false /\
  exists d m g t f, (g, t, f) ∈ asked s /\ (g, inl d) ∈ answered s /\
    (t = q_tag q \/ f = q_family q /\ q_family q <> None) /\ meta d = Some m /\ fully_known m /\ count_of_rows rows (Some d) = 0.
Proof.
  intros Hr Hp. unfold productListState in Hp.
  destruct (answer (ld s) (q_tag q) (q_family q)) as [d paging] eqn:Ea. simpl in Hp.
  destruct (empty_fleet_inv _ Hp) as (Hn & Hl & He & Hf & Hk). simpl in *.
  split_and!; try done. apply knowledge_complete in Hk as (m & Hm & Hfull).
  destruct d as [d|]; [|done]. simpl in Hm.
  destruct (answer_is_asked s (q_tag q) (q_family q) d paging Hr Ea) as (g & t & f & Hg & Ho & Htf).
  exists d, m, g, t, f. split_and!; try done; [|lia]. destruct paging; [right; tauto|by left].
Qed.


(** ** A run: two questions, the second answered before the first *)
Definition demo_start : Sys nat nat :=
  let s := issue init (sync createProductLoader "services?page=1" (Some 1) (Some 7)) in
  issue s (sync (ld s) "services?page=2" (Some 2) (Some 7)).

Definition demo_newest : Sys nat nat :=
  {| ld := {| data := Some 20; loading := false; error := None; dataTag := Some 2; dataFamily := Some 7;
              generation := 2; lastKey := Some "services?page=2"; lastTag := Some 2; lastFamily := Some 7 |};
     inflight := [{| rq_gen := 1; rq_tag := Some 1; rq_family := Some 7; rq_stage := Waiting |}];
     asked := asked demo_start; answered := [(2, inl 20)] |}.

Definition demo_end : Sys nat nat :=
  {| ld := ld demo_newest; inflight := []; asked := asked demo_start; answered := [(1, inl 10); (2, inl 20)] |}.

Lemma demo_newest_reachable : reachable demo_newest.
Proof.
  unfold reachable, steps.
  eapply rt1n_trans; [apply (StepSync init "services?page=1" (Some 1) (Some 7))|].
  eapply rt1n_trans; [apply (StepSync _ "services?page=2" (Some 2) (Some 7))|]. cbn.
  eapply rt1n_trans; [eapply (StepSettle _ [] _ _ (inl 20)); reflexivity|]. cbn.
  eapply rt1n_trans; [eapply (StepThen _ [] _ _ 20); reflexivity|]. cbn.
  eapply rt1n_trans; [eapply (StepFinally _ []); reflexivity|]. apply rt1n_refl.
Qed.

Lemma demo_end_reachable : reachable demo_end.
Proof.
  assert (forall a b c : Sys nat nat, steps a b -> steps b c -> steps a c) as Htr.
  { intros a b c Hab. induction Hab as [|x y z Hxy _ IH]; [done|]. intros Hc.
    eapply rt1n_trans; [exact Hxy|]. by apply IH. }
  apply (Htr _ demo_newest); [apply demo_newest_reachable|]. unfold steps.
  eapply rt1n_trans; [eapply (StepSettle demo_newest [] _ _ (inl 10)); reflexivity|]. cbn.
  eapply rt1n_trans; [eapply (StepThen _ [] _ _ 10); reflexivity|]. cbn.
  eapply rt1n_trans; [eapply (StepFinally _ []); reflexivity|]. apply rt1n_refl.
Qed.

Lemma loader_newest_wins_witness :
  loading (ld demo_end) = false /\
  ((exists r, (2, inl r) ∈ answered demo_end /\ data (ld demo_end) = Some r /\ dataTag (ld demo_end) = Some 2 /\
      dataFamily (ld demo_end) = Some 7 /\ error (ld demo_end) = None) \/
   (exists e, (2, inr e) ∈ answered demo_end /\ error (ld demo_end) = Some e)).
Proof. apply (loader_newest_wins demo_end (Some 2) (Some 7)); [apply demo_end_reachable|done|by_decide]. Defined.

Lemma answer_is_asked_witness :
  exists g t f, (g, t, f) ∈ asked demo_newest /\ (g, inl 20) ∈ answered demo_newest /\
    f = Some 7 /\ Some 7 <> None /\ error (ld demo_newest) = None.
Proof. apply (answer_is_asked demo_newest (Some 3) (Some 7) 20 true); [apply demo_newest_reachable|reflexivity]. Defined.

Definition demo_late : Sys nat nat :=
  {| ld := destroy (ld demo_newest);
     inflight := [{| rq_gen := 1; rq_tag := Some 1; rq_family := Some 7; rq_stage := Finalizing |}];
     asked := asked demo_start; answered := [(1, inl 10); (2, inl 20)] |}.

Lemma demo_late_steps :
  steps {| ld := destroy (ld demo_newest); inflight := inflight demo_newest; asked := asked demo_newest;
           answered := answered demo_newest |} demo_late.
Proof.
  eapply rt1n_trans; [eapply (StepSettle _ [] _ _ (inl 10)); reflexivity|]. cbn.
  eapply rt1n_trans; [eapply (StepThen _ [] _ _ 10); reflexivity|]. cbn. apply rt1n_refl.
Qed.

Lemma destroy_freezes_witness : ld demo_late = destroy (ld demo_newest).
Proof.
  apply (destroy_freezes demo_newest demo_late);
    [apply demo_newest_reachable|apply demo_late_steps|reflexivity].
Defined.

Definition complete_meta : MetaLike :=
  {| ml_completeness := Some "complete"; ml_sources := Some [Some "available"]; ml_sourcesTruncated := None;
     ml_sourceCounts := None |}.

Lemma list_empty_honest_witness :
  let q := {| q_tag := Some 2; q_family := Some 7; q_filtered := false; q_pageLimit := 25 |} in
  exists d m g t f, (g, t, f) ∈ asked demo_end /\ (g, inl d) ∈ answered demo_end /\
    (t = q_tag q \/ f = q_family q /\ q_family q <> None) /\ Some complete_meta = Some m /\ fully_known m /\
    count_of_rows (fun _ : nat => Some 0) (Some d) = 0.
Proof.
  intros q. apply (list_empty_honest (fun _ => Some complete_meta) (fun _ => Some 0) demo_end q);
    [apply demo_end_reachable|reflexivity].
Defined.
