(* ===== verification/Canonical.v ===== *)
(** * The canonical JSON behind every release hash: [src/release/orchestrator/canonical.mjs]

    The hash itself is Node's SHA-256, a parameter here; what the repository decides is the
    text it is taken of. *)

From stdpp Require Import base list gmap sorting.
From Stdlib Require Import Init.Byte ZArith NArith Lia.
From S2P Require Import Prelude.

(** A JSON value; the numbers of the release files are integers, and no key of theirs is an
    array index, so an object keeps its keys in insertion order. *)
Inductive json :=
  | JNull
  | JBool (b : bool)
  | JNumber (z : Z)
  | JString (s : str)
  | JArray (l : list json)
  | JObject (o : list (str * json)).

(** Entries in the order of their keys. *)
Definition cmp_key {A} (a b : str * A) : Z := str_cmp a.1 b.1.

Fixpoint stable (v : json) : json :=
  match v with
  | JArray l => JArray (map stable l)
  | JObject o => JObject (sort_by cmp_key (map (fun p => let '(k, w) := p in (k, stable w)) o))
  | _ => v
  end.

(** ** [JSON.stringify] *)
Definition hex_lower (n : N) : byte := nth (N.to_nat n) "0123456789abcdef" x30.

Definition quote_byte (b : byte) : str :=
  match b with
  | x22 => [x5c; x22]
  | x5c => [x5c; x5c]
  | x08 => "\b" | x0c => "\f" | x0a => "\n" | x0d => "\r" | x09 => "\t"
  | _ => if (code b <? 32)%N then "\u00" ++ [hex_lower (code b / 16); hex_lower (code b mod 16)] else [b]
  end.

Definition quote (s : str) : str := [x22] ++ (s ≫= quote_byte) ++ [x22].

Fixpoint stringify (v : json) : str :=
  match v with
  | JNull => "null"
  | JBool b => if b then "true" else "false"
  | JNumber z => show_Z z
  | JString s => quote s
  | JArray l => "[" ++ join "," (map stringify l) ++ "]"
  | JObject o => "{" ++ join "," (map (fun p => let '(k, w) := p in quote k ++ ":" ++ stringify w) o) ++ "}"
  end.

(** ** The hash *)
Class Sha256 := sha256_hex : str -> str.

Definition sha256Stable `{Sha256} (obj : json) : str := sha256_hex (stringify (stable obj)).

(** A map of units to versions, as an object. *)
Definition versions_json (versions : list (str * str)) : json :=
  JObject ((fun p => (p.1, JString p.2)) <$> versions).

Definition manifestSha `{Sha256} (versions : list (str * str)) : str := sha256Stable (versions_json versions).

(** ** Lemmas *)
Section JsonInd.
Context (P : json -> Prop) (Hnull : P JNull) (Hbool : forall b, P (JBool b)) (Hnum : forall z, P (JNumber z))
  (Hstr : forall s, P (JString s)) (Harr : forall l, Forall P l -> P (JArray l))
  (Hobj : forall o, Forall (fun p => P p.2) o -> P (JObject o)).

Fixpoint json_strong_ind (v : json) : P v :=
  match v with
  | JNull => Hnull
  | JBool b => Hbool b
  | JNumber z => Hnum z
  | JString s => Hstr s
  | JArray l => Harr l ((fix go (l : list json) : Forall P l :=
      match l with [] => Forall_nil_2 _ | x :: l' => Forall_cons_2 _ _ _ (json_strong_ind x) (go l') end) l)
  | JObject o => Hobj o ((fix go (o : list (str * json)) : Forall (fun p => P p.2) o :=
      match o with
      | [] => Forall_nil_2 _
      | p :: o' => Forall_cons_2 (fun p => P p.2) p o' (let '(k, w) as p := p return P p.2 in json_strong_ind w) (go o')
      end) o)
  end.
End JsonInd.

Lemma cmp_key_total {A} (a b : str * A) : (0 < cmp_key a b)%Z -> le_by cmp_key b a.
Proof. apply str_cmp_total. Qed.
Lemma cmp_key_trans {A} (a b c : str * A) : le_by cmp_key a b -> le_by cmp_key b c -> le_by cmp_key a c.
Proof. apply str_cmp_trans. Qed.

Lemma sort_sorted {A} (cmp : A -> A -> Z) l : StronglySorted (le_by cmp) l -> sort_by cmp l = l.
Proof.
  induction 1 as [|x l _ IH Hx]; [done|]. simpl. rewrite IH. destruct l as [|y l]; [done|].
  simpl. apply Forall_cons in Hx as [Hx _]. unfold le_by in Hx. by rewrite (proj2 (Z.leb_le _ _)).
Qed.

(** Entries with distinct keys have one order. *)
Lemma sorted_entries_unique {A} (l1 l2 : list (str * A)) :
  StronglySorted (le_by cmp_key) l1 -> StronglySorted (le_by cmp_key) l2 ->
  NoDup (keys l1) -> l1 ≡ₚ l2 -> l1 = l2.
Proof.
  intros H1. revert l2. induction H1 as [|a l1 Hs1 IH Ha]; intros l2 H2 Hn Hp.
  { by apply Permutation_nil_l in Hp as ->. }
  destruct H2 as [|b l2 Hs2 Hb]; [symmetry in Hp; by apply Permutation_nil_l in Hp|].
  assert (a = b) as ->.
  { destruct (decide (a.1 = b.1)) as [E|Hne].
    - assert (b ∈ a :: l1) as Hin by (rewrite Hp; set_solver). apply elem_of_cons in Hin as [->|Hin]; [done|].
      unfold keys in Hn. rewrite fmap_cons in Hn. apply NoDup_cons in Hn as [Hn _]. destruct Hn.
      rewrite E. by apply list_elem_of_fmap_2.
    - assert (b ∈ l1) as Hb1.
      { assert (b ∈ a :: l1) as Hin by (rewrite Hp; set_solver). apply elem_of_cons in Hin as [->|]; done. }
      assert (a ∈ l2) as Ha2.
      { assert (a ∈ b :: l2) as Hin by (rewrite <- Hp; set_solver). apply elem_of_cons in Hin as [->|]; done. }
      rewrite Forall_forall in Ha, Hb. specialize (Ha b Hb1). specialize (Hb a Ha2).
      unfold le_by, cmp_key in *. destruct Hne. apply str_cmp_eq.
      pose proof (str_cmp_antisym a.1 b.1). lia. }
  f_equal. apply IH; [done| |by eapply Permutation_cons_inv].
  unfold keys in Hn. rewrite fmap_cons in Hn. by apply NoDup_cons in Hn as [_ Hn].
Qed.

Lemma sort_entries_perm {A} (l1 l2 : list (str * A)) :
  NoDup (keys l1) -> l1 ≡ₚ l2 -> sort_by cmp_key l1 = sort_by cmp_key l2.
Proof.
  intros Hn Hp. apply sorted_entries_unique.
  - apply sort_by_Sorted; [apply cmp_key_total|apply cmp_key_trans].
  - apply sort_by_Sorted; [apply cmp_key_total|apply cmp_key_trans].
  - unfold keys. by rewrite (sort_by_Permutation cmp_key l1).
  - by rewrite !sort_by_Permutation.
Qed.

(** The entries of an object, each value canonical. *)
Definition stable_entry (p : str * json) : str * json := (p.1, stable p.2).

Lemma stable_object o : stable (JObject o) = JObject (sort_by cmp_key (stable_entry <$> o)).
Proof.
  simpl. do 2 f_equal. induction o as [|[k w] o IH]; [done|]. rewrite fmap_cons. simpl. by f_equal.
Qed.

Lemma keys_stable o : keys (stable_entry <$> o) = keys o.
Proof. unfold keys. rewrite <- list_fmap_compose. done. Qed.

(** The canonical form does not depend on how an object was built. Canonicalizing
    twice changes nothing, and two objects with the same entries in any order have the
    same canonical form, so the same text and the same hash. *)
Theorem stable_canonical (v : json) (o1 o2 : list (str * json)) :
  stable (stable v) = stable v /\
  (NoDup (keys o1) -> o1 ≡ₚ o2 -> stable (JObject o1) = stable (JObject o2)).
Proof.
  split.
  - induction v as [| | | |l Hl|o Ho] using json_strong_ind; try done.
    + simpl. f_equal. rewrite map_map. induction Hl as [|x l Hx _ IH]; simpl; [done|]. by rewrite Hx, IH.
    + rewrite stable_object, stable_object. f_equal.
      assert (stable_entry <$> sort_by cmp_key (stable_entry <$> o) = sort_by cmp_key (stable_entry <$> o)) as ->.
      { rewrite <- (list_fmap_id (sort_by _ _)) at 2. apply list_fmap_ext. intros i p Hp.
        apply list_elem_of_lookup_2 in Hp. rewrite elem_of_sort_by in Hp.
        apply list_elem_of_fmap in Hp as (q & -> & Hq). rewrite Forall_forall in Ho. unfold stable_entry. simpl.
        by rewrite (Ho q Hq). }
      apply sort_sorted. apply sort_by_Sorted; [apply cmp_key_total|apply cmp_key_trans].
  - intros Hn Hp. rewrite !stable_object. f_equal. apply sort_entries_perm; [by rewrite keys_stable|by rewrite Hp].
Qed.

(** The hash of a version map is that of any map with the same entries. *)
Lemma manifestSha_perm `{Sha256} (v1 v2 : list (str * str)) :
  NoDup (keys v1) -> v1 ≡ₚ v2 -> manifestSha v1 = manifestSha v2.
Proof.
  intros Hn Hp. unfold manifestSha, sha256Stable, versions_json. do 2 f_equal. rewrite !stable_object. f_equal.
  apply sort_entries_perm; [|by rewrite Hp]. rewrite keys_stable. unfold keys in *.
  by rewrite <- list_fmap_compose.
Qed.
