(* ===== verification/Release.v ===== *)
(** * Release planning and release decisions: [src/release]

    [build-release-plan.mjs] turns the release-unit versions into a plan and a transaction,
    [apply-release-plan.mjs] writes the manifest of what the plan releases, and
    [detect.mjs] decides, from the transactions of a commit and of the one before it, what
    a push or a recovery publishes. Reading and writing the files, git and the go tool are
    outside; a thrown error or a failed assertion is [None]. *)

From stdpp Require Import base list gmap sorting.
From Stdlib Require Import Init.Byte ZArith NArith Lia.
From S2P Require Import Prelude Uri Paging Canonical.

(** ** Majors *)

(** The digits at the end of [s], and what precedes them, reversed. *)
Definition digits_suffix (s : str) : str * str :=
  let fix go (r acc : str) := match r with
                              | b :: r' => if is_digit b then go r' (b :: acc) else (acc, r)
                              | [] => (acc, [])
                              end in
  go (rev s) [].

(** The [N] of a path that ends in [/vN]. *)
Definition path_suffix (coordinate : str) : option str :=
  match digits_suffix coordinate with
  | (d, x76 :: x2f :: _) => if truthy d then Some d else None
  | _ => None
  end.

(** [Number] of a version component, an integer literal. *)
Definition pathMajorOf (coordinate : str) : jsnum :=
  match path_suffix coordinate with Some d => number_trunc d | None => JNum 1 end.

Definition first_component (v : str) : str := (cut x2e v).1.

Definition num_text (n : jsnum) : str :=
  match n with JNum z => show_Z z | JInf neg => if neg then "-Infinity" else "Infinity" | JNaN => "NaN" end.

(** Comparisons of numbers; [NaN] compares false. *)
Definition num_ge (a : jsnum) (k : Z) : bool :=
  match a with JNum z => (k <=? z)%Z | JInf neg => negb neg | JNaN => false end.
Definition num_le (a : jsnum) (k : Z) : bool :=
  match a with JNum z => (z <=? k)%Z | JInf neg => neg | JNaN => false end.
Definition num_eq (a b : jsnum) : bool :=
  match a, b with JNaN, _ | _, JNaN => false | _, _ => a === b end.
Definition num_gt (a b : jsnum) : bool :=
  match a, b with
  | JNaN, _ | _, JNaN => false
  | JInf false, JInf false | JInf true, _ => false
  | JInf false, _ => true
  | _, JInf neg => neg
  | JNum x, JNum y => (y <? x)%Z
  end.
Definition num_max (a b : jsnum) : jsnum :=
  match a, b with JNaN, _ | _, JNaN => JNaN | _, _ => if num_gt b a then b else a end.

(** Whether a module path can carry a version: the condition of [assertVersionFitsPath]. *)
Definition fitsPath (coordinate version : str) : bool :=
  let pathMajor := pathMajorOf coordinate in
  let verMajor := number_trunc (first_component (strip_prefix "v" version)) in
  if num_ge pathMajor 2 then num_eq verMajor pathMajor else num_le verMajor 1.

Definition assertVersionFitsPath (coordinate version : str) : option unit :=
  if fitsPath coordinate version then Some tt else None.

(** ** Units and plans *)
Record Unit_ := { u_version : str; u_kind : str; u_coordinate : str }.

(** The package of a unit directory: its id, and the three fields read from it. *)
Record Package := { pj_releaseUnit : str; pj_version : str; pj_kind : str; pj_coordinate : str }.

(** [readUnits] of the packages in the order of their directories. *)
Definition readUnits (packages : list Package) : list (str * Unit_) :=
  fold_left (fun out p => map_set (pj_releaseUnit p)
    {| u_version := pj_version p; u_kind := pj_kind p; u_coordinate := pj_coordinate p |} out) packages [].

Record Artifact := {
  a_unit : str; a_kind : str; a_coordinate : option str; a_tag : option str; a_release : option str;
  a_chartVersion : option str; a_appVersion : option str; a_defaultImageTag : option str;
  a_version : option str }.

Definition artifact (unit kind : str) : Artifact :=
  {| a_unit := unit; a_kind := kind; a_coordinate := None; a_tag := None; a_release := None;
     a_chartVersion := None; a_appVersion := None; a_defaultImageTag := None; a_version := None |}.

(** An artifact with a coordinate and a tag. *)
Definition tagged (unit kind coordinate tag : str) : Artifact :=
  {| a_unit := unit; a_kind := kind; a_coordinate := Some coordinate; a_tag := Some tag; a_release := None;
     a_chartVersion := None; a_appVersion := None; a_defaultImageTag := None; a_version := None |}.

Record Group := { g_version : str; g_tags : list str; g_artifacts : list Artifact }.

Record Plan := {
  p_core : Group; p_kubernetes : Group; p_pinModule : str; p_pinVersion : str; p_assertNoReplace : bool;
  p_pactoCore : str; p_publishOrder : list str }.

(** [Object.entries(plan.groups)] *)
Definition groups (p : Plan) : list (str * Group) := [("core", p_core p); ("kubernetes", p_kubernetes p)].

Definition publish_order : list str :=
  [ "core:go-module"; "core:dashboard-image"; "core:dashboard-contract-bundle"; "core:cli";
    "core:demo-bundles"; "core:demo-compose"; "kubernetes:go-mod-pin"; "kubernetes:go-module";
    "kubernetes:operator-image"; "kubernetes:operator-chart"; "kubernetes:delivery-image";
    "kubernetes:docs" ].

Definition buildPlan (u : list (str * Unit_)) : option Plan :=
  uc ← assoc "core" u; uk ← assoc "k8s-module" u;
  let core := u_version uc in
  let k8s := u_version uk in
  let pathMajor := pathMajorOf (u_coordinate uc) in
  let coreMajor := number_trunc (first_component core) in
  let pinVersion := if num_gt pathMajor coreMajor then "v" ++ num_text pathMajor ++ ".0.0" else "v" ++ core in
  let compatMajor := num_max pathMajor coreMajor in
  _ ← assertVersionFitsPath (u_coordinate uc) pinVersion;
  let k8sPathMajor := pathMajorOf (u_coordinate uk) in
  let k8sMajor := number_trunc (first_component k8s) in
  let k8sModuleVersion := if num_gt k8sPathMajor k8sMajor then num_text k8sPathMajor ++ ".0.0" else k8s in
  let k8sModuleTag := "integrations/kubernetes/v" ++ k8sModuleVersion in
  _ ← assertVersionFitsPath (u_coordinate uk) k8sModuleVersion;
  di ← assoc "dashboard-image" u; dc ← assoc "dashboard-contract-bundle" u;
  db ← assoc "demo-bundles" u; dm ← assoc "demo-compose" u;
  oi ← assoc "operator-image" u; oc ← assoc "operator-chart" u; dl ← assoc "delivery-image" u;
  Some {|
    p_core := {|
      g_version := core; g_tags := ["v" ++ core];
      g_artifacts := [
        tagged "core" "go-module" (u_coordinate uc) ("v" ++ core);
        {| a_unit := "cli"; a_kind := "binaries"; a_coordinate := None; a_tag := None;
           a_release := Some ("v" ++ core); a_chartVersion := None; a_appVersion := None;
           a_defaultImageTag := None; a_version := None |};
        tagged "dashboard-image" "oci-image" (u_coordinate di) core;
        tagged "dashboard-contract-bundle" "oci-image" (u_coordinate dc) core;
        tagged "demo-bundles" "oci-image" (u_coordinate db) core;
        tagged "demo-compose" "oci-image" (u_coordinate dm) core ] |};
    p_kubernetes := {|
      g_version := k8s; g_tags := [k8sModuleTag];
      g_artifacts := [
        tagged "k8s-module" "go-module" (u_coordinate uk) k8sModuleTag;
        tagged "operator-image" "oci-image" (u_coordinate oi) k8s;
        {| a_unit := "operator-chart"; a_kind := "helm-chart"; a_coordinate := Some (u_coordinate oc);
           a_tag := None; a_release := None; a_chartVersion := Some k8s; a_appVersion := Some k8s;
           a_defaultImageTag := Some k8s; a_version := None |};
        tagged "delivery-image" "oci-image" (u_coordinate dl) k8s;
        {| a_unit := "k8s-docs"; a_kind := "docs"; a_coordinate := None; a_tag := None; a_release := None;
           a_chartVersion := None; a_appVersion := None; a_defaultImageTag := None; a_version := Some k8s |} ] |};
    p_pinModule := u_coordinate uc; p_pinVersion := pinVersion; p_assertNoReplace := true;
    p_pactoCore := ">=" ++ num_text compatMajor ++ ".0.0"; p_publishOrder := publish_order |}.

(** ** The transaction *)
Record Transaction := {
  t_schema : str; t_ready : bool; t_transactionId : str; t_sourceSha : str; t_manifestSha : str;
  t_changedGroups : list str; t_changedUnits : list str; t_previousVersions : list (str * option str);
  t_newVersions : list (str * str); t_expectedTags : list (str * str);
  t_expectedCoordinates : list (str * option str); t_dependencyOrder : list str;
  t_units : list (str * str) }.

Definition SCHEMA : str := "pacto-release-transaction/v1".

(** [a.tag ?? a.release ?? a.chartVersion ?? (a.version or the group's)] *)
Definition artifact_tag (g : Group) (a : Artifact) : str :=
  match a_tag a, a_release a, a_chartVersion a, a_version a with
  | Some t, _, _, _ => t
  | None, Some r, _, _ => r
  | None, None, Some c, _ => c
  | None, None, None, Some v => v
  | None, None, None, None => g_version g
  end.

(** Every artifact of the plan with its group, in the order the two loops visit them. *)
Definition plan_artifacts (p : Plan) : list (str * Group * Artifact) :=
  concat ((fun g => (fun a => (g.1, g.2, a)) <$> g_artifacts g.2) <$> groups p).

(** An object filled by the loop: [o[a.unit] = f(group, a)]. *)
Definition fill {B} (f : str * Group * Artifact -> B) (p : Plan) : list (str * B) :=
  fold_left (fun o x => map_set (a_unit x.2) (f x) o) (plan_artifacts p) [].

Section Transaction.
Context `{Sha256}.

Definition sha16 (obj : json) : str := take 16 (sha256Stable obj).

Definition opt_json (o : option str) : json := match o with Some s => JString s | None => JNull end.

Definition buildTransaction (p : Plan) (units : list (str * Unit_)) (prev : list (str * str)) : Transaction :=
  let newVersions := fill (fun x => g_version x.1.2) p in
  let expectedTags := fill (fun x => artifact_tag x.1.2 x.2) p in
  let expectedCoordinates := fill (fun x => match a_coordinate x.2 with
                                            | Some c => Some c
                                            | None => u_coordinate <$> assoc (a_unit x.2) units
                                            end) p in
  let unitGroup := fill (fun x => x.1.1) p in
  let changedUnits := sort_str (List.filter (fun u => assoc u prev !== assoc u newVersions) (keys newVersions)) in
  let changedGroups := sort_str (dedupe (omap (fun u => assoc u unitGroup) changedUnits)) in
  let previousVersions := (fun u => (u, assoc u prev)) <$> keys newVersions in
  {| t_schema := SCHEMA; t_ready := negb (length changedUnits =? 0)%nat;
     t_transactionId := if (length changedUnits =? 0)%nat then []
                        else sha16 (JObject [
                          ("changedUnits", JArray (JString <$> changedUnits));
                          ("newVersions", versions_json newVersions);
                          ("previousVersions", JObject ((fun x => (x.1, opt_json x.2)) <$> previousVersions))]);
     t_sourceSha := []; t_manifestSha := manifestSha newVersions; t_changedGroups := changedGroups;
     t_changedUnits := changedUnits; t_previousVersions := sort_by cmp_key previousVersions;
     t_newVersions := sort_by cmp_key newVersions; t_expectedTags := sort_by cmp_key expectedTags;
     t_expectedCoordinates := sort_by cmp_key expectedCoordinates; t_dependencyOrder := p_publishOrder p;
     t_units := sort_by cmp_key ((fun u => (u, "pending" : str)) <$> changedUnits) |}.

(** ** The manifest *)
Record ManifestUnit := { mu_version : str; mu_coordinate : option str; mu_tag : str; mu_artifactKind : str }.

(** Section 7 of [apply-release-plan.mjs], with the coordinate of each unit's package. *)
Definition releaseManifest (p : Plan) (unitCoord : list (str * str)) : list (str * ManifestUnit) :=
  sort_by cmp_key (fill (fun x => {|
    mu_version := g_version x.1.2;
    mu_coordinate := match a_coordinate x.2 with Some c => Some c | None => assoc (a_unit x.2) unitCoord end;
    mu_tag := artifact_tag x.1.2 x.2; mu_artifactKind := a_kind x.2 |}) p).

(** [readPrevVersions] and [readManifestVersions]: the versions of a manifest that was read. *)
Definition manifestVersions (m : list (str * ManifestUnit)) : list (str * str) :=
  (fun x => (x.1, mu_version x.2)) <$> m.

(** ** Decisions *)

(** A transaction file as read: any JSON, by the fields the decisions look at; [changedUnits]
    is [None] when it is no array, and the other fields when they are absent or empty. *)
Record Txn := {
  x_schema : option str; x_ready : bool; x_transactionId : option str; x_sourceSha : option str;
  x_manifestSha : option str; x_changedGroups : option (list str); x_changedUnits : option (list str);
  x_dependencyOrder : option (list str) }.

(** The file [buildTransaction] writes, as it is read back. *)
Definition read_back (t : Transaction) : Txn :=
  {| x_schema := Some (t_schema t); x_ready := t_ready t; x_transactionId := Some (t_transactionId t);
     x_sourceSha := Some (t_sourceSha t); x_manifestSha := Some (t_manifestSha t);
     x_changedGroups := Some (t_changedGroups t); x_changedUnits := Some (t_changedUnits t);
     x_dependencyOrder := Some (t_dependencyOrder t) |}.

(** The valid transaction's units, if it is one. *)
Definition valid (txn : option Txn) : option (Txn * list str) :=
  t ← txn; if x_schema t === Some SCHEMA then us ← x_changedUnits t; Some (t, us) else None.

Record Release := {
  r_transactionId : option str; r_changedGroups : option (list str); r_changedUnits : list str;
  r_dependencyOrder : option (list str) }.

(** A decision, or the reason nothing is done. *)
Definition decideRelease (txn prevTxn : option Txn) : str + Release :=
  match valid txn with
  | None => inl ("no valid release transaction" : str)
  | Some (t, us) =>
      if negb (x_ready t) || (length us =? 0)%nat then inl ("transaction not ready / no changed units" : str)
      else
        let same := match valid prevTxn with
                    | Some (p, _) => x_ready p && (x_transactionId p === x_transactionId t)
                    | None => false
                    end in
        if same then inl ("transaction unchanged since previous commit" : str)
        else inr {| r_transactionId := x_transactionId t; r_changedGroups := x_changedGroups t;
                    r_changedUnits := us; r_dependencyOrder := x_dependencyOrder t |}
  end.

Record RecoveryInput := { i_transactionId : option str; i_sourceSha : option str; i_units : option (list str) }.

Definition or_empty (o : option str) : str := nullish o "undefined".

Definition decideRecovery (txn : option Txn) (input : option RecoveryInput)
    (versions : option (list (str * str))) : str + (option str * list str) :=
  match valid txn with
  | None => inl ("no valid release transaction" : str)
  | Some (t, us) =>
      if negb (x_ready t) || (length us =? 0)%nat then inl ("transaction is not a ready release" : str)
      else match input with
      | None => inl ("workflow_dispatch requires a transactionId input" : str)
      | Some i =>
          if negb (otruthy (i_transactionId i)) then inl ("workflow_dispatch requires a transactionId input" : str)
          else if i_transactionId i !== x_transactionId t then
            inl ("transactionId mismatch: input " ++ or_empty (i_transactionId i) ++ " != " ++
                 or_empty (x_transactionId t))
          else if negb (otruthy (i_sourceSha i)) then inl ("workflow_dispatch requires a sourceSha input" : str)
          else if otruthy (x_sourceSha t) && (i_sourceSha i !== x_sourceSha t) then
            inl ("sourceSha mismatch: input " ++ or_empty (i_sourceSha i) ++ " != " ++ or_empty (x_sourceSha t))
          else if match versions with
                  | Some v => Some (manifestSha v) !== x_manifestSha t
                  | None => false
                  end
          then inl ("manifestSha mismatch: manifest does not match the transaction" : str)
          else
            let asked := nullish (i_units i) [] in
            let foreign := List.filter (fun u => negb (bool_decide (u ∈ us))) asked in
            if negb (length asked =? 0)%nat && negb (length foreign =? 0)%nat then
              inl ("units not in the transaction plan: " ++ join "," foreign ++
                   " (recovery may narrow the plan, never add units)")
            else
              let units := if negb (length asked =? 0)%nat then asked else us in
              if (length units =? 0)%nat then inl ("no units to recover" : str)
              else inr (x_transactionId t, units)
      end
  end.

(** The units a dispatch asks for. *)
Definition input_units (s : option str) : list str :=
  List.filter truthy (trim <$> split_on x2c (or_str s [])).

Definition bool_str (b : bool) : str := if b then "true" else "false".

(** The lines of the job's output. *)
Definition emit (release recover : bool) (units groups : list str) (transaction_id source_sha : str) : str :=
  join [x0a] [ "release=" ++ bool_str release; "recover=" ++ bool_str recover; "units=" ++ join "," units;
    "units_json=" ++ stringify (JArray (JString <$> units)); "groups=" ++ join "," groups;
    "transaction_id=" ++ transaction_id; "source_sha=" ++ source_sha ] ++ [x0a].

(** The environment of the detect job. *)
Record Env := {
  e_event : option str; e_transactionId : option str; e_sourceSha : option str; e_units : option str;
  e_githubSha : option str }.

(** The output and the exit code. *)
Definition main (e : Env) (head parent : option Txn) (versions : option (list (str * str))) : str * nat :=
  if or_str (e_event e) "push" === "workflow_dispatch" then
    let input := {| i_transactionId := e_transactionId e; i_sourceSha := e_sourceSha e;
                    i_units := Some (input_units (e_units e)) |} in
    match decideRecovery head (Some input) versions with
    | inl _ => (emit false false [] [] [] [], 1)
    | inr (id, us) => (emit true true us [] (or_str id []) (or_str (e_sourceSha e) []), 0)
    end
  else match decideRelease head parent with
  | inl _ => (emit false false [] [] [] (or_str (e_githubSha e) []), 0)
  | inr r => (emit true false (r_changedUnits r) (nullish (r_changedGroups r) [])
                (or_str (r_transactionId r) []) (or_str (e_githubSha e) []), 0)
  end.

End Transaction.

(** ** Properties *)

(** *** Plans *)

(** A release plan never names a version its module path cannot carry. Whenever a plan
    is emitted, the core pin of the operator's go.mod and the tag of the Kubernetes module
    are on the major of their module paths; so is the core tag, unless the path was renamed
    ahead of the core version. *)
Theorem buildPlan_fits (u : list (str * Unit_)) (p : Plan) :
  buildPlan u = Some p ->
  exists uc uk v, assoc "core" u = Some uc /\ assoc "k8s-module" u = Some uk /\
    p_pinModule p = u_coordinate uc /\ fitsPath (p_pinModule p) (p_pinVersion p) = true /\
    g_tags (p_kubernetes p) = ["integrations/kubernetes/v" ++ v] /\ fitsPath (u_coordinate uk) v = true /\
    (num_gt (pathMajorOf (u_coordinate uc)) (number_trunc (first_component (u_version uc))) = false ->
     g_tags (p_core p) = [p_pinVersion p] /\ fitsPath (u_coordinate uc) ("v" ++ u_version uc) = true).
Proof.
  unfold buildPlan. destruct (assoc "core" u) as [uc|]; [|done]. destruct (assoc "k8s-module" u) as [uk|]; [|done].
  cbn [mbind option_bind]. unfold assertVersionFitsPath.
  set (pin := if num_gt _ _ then _ else "v" ++ u_version uc).
  destruct (fitsPath (u_coordinate uc) pin) eqn:Hc; [|done]. cbn [mbind option_bind].
  set (kv := if num_gt _ _ then _ else u_version uk).
  destruct (fitsPath (u_coordinate uk) kv) eqn:Hk; [|done]. cbn [mbind option_bind].
  do 7 (match goal with |- context [assoc ?k u] => destruct (assoc k u) as [?|]; [|done] end; cbn [mbind option_bind]).
  intros E. injection E as <-. exists uc, uk, kv. cbn [p_pinModule p_pinVersion p_kubernetes p_core g_tags].
  split_and!; try done. intros Hg. unfold pin in *. rewrite Hg in *. done.
Qed.

(** The packages of the repository, with the version and coordinate of the core line and
    the version of the Kubernetes line left open. *)
Definition repo_packages (core_path core k8s : str) : list Package := [
  {| pj_releaseUnit := "dashboard-contract-bundle"; pj_version := core; pj_kind := "oci-image"; pj_coordinate := "ghcr.io/trianalab/pacto/dashboard-contract" |};
  {| pj_releaseUnit := "delivery-image"; pj_version := k8s; pj_kind := "oci-image"; pj_coordinate := "ghcr.io/trianalab/pacto/delivery" |};
  {| pj_releaseUnit := "demo-bundles"; pj_version := core; pj_kind := "oci-image"; pj_coordinate := "ghcr.io/trianalab/pacto" |};
  {| pj_releaseUnit := "demo-compose"; pj_version := core; pj_kind := "oci-image"; pj_coordinate := "ghcr.io/trianalab/pacto/demo" |};
  {| pj_releaseUnit := "k8s-docs"; pj_version := k8s; pj_kind := "docs"; pj_coordinate := "mkdocs:integrations/kubernetes" |};
  {| pj_releaseUnit := "k8s-module"; pj_version := k8s; pj_kind := "go-module"; pj_coordinate := "github.com/trianalab/pacto/integrations/kubernetes/v6" |};
  {| pj_releaseUnit := "operator-chart"; pj_version := k8s; pj_kind := "helm-chart"; pj_coordinate := "ghcr.io/trianalab/pacto/charts/pacto-operator" |};
  {| pj_releaseUnit := "operator-image"; pj_version := k8s; pj_kind := "oci-image"; pj_coordinate := "ghcr.io/trianalab/pacto/operator" |};
  {| pj_releaseUnit := "cli"; pj_version := core; pj_kind := "binaries"; pj_coordinate := "github.com/trianalab/pacto releases" |};
  {| pj_releaseUnit := "core"; pj_version := core; pj_kind := "go-module"; pj_coordinate := core_path |};
  {| pj_releaseUnit := "dashboard-image"; pj_version := core; pj_kind := "oci-image"; pj_coordinate := "ghcr.io/trianalab/pacto/dashboard" |} ].

Lemma buildPlan_fits_witness :
  let u := readUnits (repo_packages "github.com/trianalab/pacto/v4" "4.4.2" "6.4.1") in
  exists p, buildPlan u = Some p /\
  exists uc uk v, assoc "core" u = Some uc /\ assoc "k8s-module" u = Some uk /\
    p_pinModule p = u_coordinate uc /\ fitsPath (p_pinModule p) (p_pinVersion p) = true /\
    g_tags (p_kubernetes p) = ["integrations/kubernetes/v" ++ v] /\ fitsPath (u_coordinate uk) v = true /\
    (num_gt (pathMajorOf (u_coordinate uc)) (number_trunc (first_component (u_version uc))) = false ->
     g_tags (p_core p) = [p_pinVersion p] /\ fitsPath (u_coordinate uc) ("v" ++ u_version uc) = true).
Proof. intros u. eexists. split; [vm_compute; reflexivity|]. apply buildPlan_fits. vm_compute. reflexivity. Defined.

(** The gap the plan leaves open. With the core module path already renamed to its next
    major and the core version not yet bumped, a plan is emitted whose pin fits the new
    path while its core artifact still names a version that path cannot carry. *)
Theorem buildPlan_core_tag_gap :
  exists p c, buildPlan (readUnits (repo_packages "github.com/trianalab/pacto/v5" "4.4.3" "6.4.1")) = Some p /\
    head (g_artifacts (p_core p)) = Some (tagged "core" "go-module" c "v4.4.3") /\
    p_pinVersion p = "v5.0.0" /\ fitsPath c (p_pinVersion p) = true /\ fitsPath c "v4.4.3" = false.
Proof.
  eexists _, "github.com/trianalab/pacto/v5". split; [vm_compute; reflexivity|]. vm_compute. done.
Qed.

(** *** Objects filled from the plan *)
Section Fill.
Context {B C : Type}.

Lemma map_set_fmap_values (g : B -> C) (k : str) (b : B) (m : list (str * B)) :
  (fun x => (x.1, g x.2)) <$> map_set k b m = map_set k (g b) ((fun x => (x.1, g x.2)) <$> m).
Proof.
  induction m as [|[k1 b1] m IH]; [done|]. rewrite fmap_cons. cbn [map_set]. simpl.
  destruct (bool_decide (k = k1)); [done|]. rewrite fmap_cons. simpl. by f_equal.
Qed.

Lemma fill_fmap (f : str * Group * Artifact -> B) (g : B -> C) (p : Plan) :
  (fun x => (x.1, g x.2)) <$> fill f p = fill (fun x => g (f x)) p.
Proof.
  unfold fill. generalize (plan_artifacts p) as l. intros l.
  assert (forall m : list (str * B), (fun x => (x.1, g x.2)) <$> fold_left (fun o x => map_set (a_unit x.2) (f x) o) l m =
    fold_left (fun o x => map_set (a_unit x.2) (g (f x)) o) l ((fun x => (x.1, g x.2)) <$> m)) as H; [|apply (H [])].
  induction l as [|x l IH]; intros m; [done|]. cbn [fold_left]. by rewrite IH, map_set_fmap_values.
Qed.

Lemma fill_NoDup (f : str * Group * Artifact -> B) (p : Plan) : NoDup (keys (fill f p)).
Proof.
  unfold fill. generalize (plan_artifacts p) as l. intros l.
  assert (forall m : list (str * B), NoDup (keys m) -> NoDup (keys (fold_left (fun o x => map_set (a_unit x.2) (f x) o) l m)))
    as H; [|apply H; constructor].
  induction l as [|x l IH]; intros m Hm; [done|]. cbn [fold_left]. apply IH. by apply NoDup_map_set.
Qed.
End Fill.

(** The versions a plan releases. *)
Definition plan_versions (p : Plan) : list (str * str) := fill (fun x => g_version x.1.2) p.

(** The versions of the manifest written for a plan are those the plan releases. *)
Lemma manifest_versions_perm (p : Plan) (unitCoord : list (str * str)) :
  manifestVersions (releaseManifest p unitCoord) ≡ₚ plan_versions p.
Proof.
  unfold manifestVersions, releaseManifest, plan_versions. rewrite sort_by_Permutation.
  by rewrite (fill_fmap _ mu_version).
Qed.

Lemma assoc_perm {A} (k : str) (l1 l2 : list (str * A)) : NoDup (keys l1) -> l1 ≡ₚ l2 -> assoc k l1 = assoc k l2.
Proof.
  intros Hn Hp. assert (NoDup (keys l2)) as Hn2 by (unfold keys in *; by rewrite <- Hp).
  destruct (assoc k l1) as [a|] eqn:E.
  - symmetry. apply assoc_unique; [done|]. rewrite <- Hp. by apply assoc_elem.
  - symmetry. apply assoc_None. apply assoc_None in E. unfold keys in *. by rewrite <- Hp.
Qed.

(** *** Transactions *)
Lemma changed_units_spec `{Sha256} p units prev u :
  u ∈ t_changedUnits (buildTransaction p units prev) <->
  u ∈ keys (plan_versions p) /\ assoc u prev <> assoc u (plan_versions p).
Proof.
  unfold buildTransaction. simpl. unfold sort_str. rewrite elem_of_sort_by, list_elem_of_In, filter_In, <- list_elem_of_In.
  fold (plan_versions p). by rewrite negb_true_iff, bool_decide_eq_false.
Qed.

(** A transaction that was built and read back is valid. *)
Lemma valid_read_back `{Sha256} p units prev :
  let t := buildTransaction p units prev in valid (Some (read_back t)) = Some (read_back t, t_changedUnits t).
Proof. reflexivity. Qed.

(** C14: a transaction releases exactly what moved. Its changed units are the plan's units
    whose version differs from the previous manifest's (or is new), sorted and without
    repetition; it is ready exactly when there is one; and when there is none it has no
    identity and a push with it releases nothing, whatever came before. *)
Theorem buildTransaction_exact `{Sha256} (p : Plan) (units : list (str * Unit_)) (prev : list (str * str))
    (before : option Txn) :
  let t := buildTransaction p units prev in
  (forall u, u ∈ t_changedUnits t <->
     u ∈ keys (plan_versions p) /\ assoc u prev <> assoc u (plan_versions p)) /\
  NoDup (t_changedUnits t) /\ StronglySorted (le_by str_cmp) (t_changedUnits t) /\
  (t_ready t = true <-> exists u, u ∈ t_changedUnits t) /\
  (t_ready t = false -> t_transactionId t = [] /\
     decideRelease (Some (read_back t)) before = inl ("transaction not ready / no changed units" : str)).
Proof.
  cbv zeta. split_and!.
  - apply changed_units_spec.
  - unfold buildTransaction. simpl. unfold sort_str. rewrite sort_by_Permutation.
    apply NoDup_ListNoDup, List.NoDup_filter, NoDup_ListNoDup. apply fill_NoDup.
  - apply sort_str_Sorted.
  - unfold buildTransaction. simpl. set (l := sort_str _). clearbody l. rewrite negb_true_iff, Nat.eqb_neq.
    destruct l as [|u l]; simpl; split; [lia|set_solver| |lia]. intros _. exists u. set_solver.
  - unfold buildTransaction. simpl. set (l := sort_str _). clearbody l.
    destruct l; [|done]. intros _. by split.
Qed.

(** C4: planning again after a release changes nothing. Against the manifest that applying
    a plan wrote, the same plan has no changed units, so its transaction is not ready and a
    push with it releases nothing. *)
Theorem replan_is_idle `{Sha256} (p : Plan) (units : list (str * Unit_)) (unitCoord : list (str * str))
    (before : option Txn) :
  let t := buildTransaction p units (manifestVersions (releaseManifest p unitCoord)) in
  t_changedUnits t = [] /\ t_ready t = false /\
  decideRelease (Some (read_back t)) before = inl ("transaction not ready / no changed units" : str).
Proof.
  cbv zeta. set (t := buildTransaction _ _ _).
  assert (t_changedUnits t = []) as E.
  { apply elem_of_nil_inv. intros u Hu. apply changed_units_spec in Hu as [_ Hne]. destruct Hne.
    symmetry. apply assoc_perm; [apply fill_NoDup|]. symmetry. apply manifest_versions_perm. }
  assert (t_ready t = false) as Er.
  { change (t_ready t) with (negb (length (t_changedUnits t) =? 0)%nat). by rewrite E. }
  split_and!; [done|done|]. unfold decideRelease, t. rewrite valid_read_back. fold t.
  change (x_ready (read_back t)) with (t_ready t). by rewrite Er.
Qed.

(** *** A history of commits *)

(** The commits of a branch that release, each decided against the commit before it. *)
Fixpoint releases (before : option Txn) (commits : list (option Txn)) : list Release :=
  match commits with
  | [] => []
  | c :: cs => (match decideRelease c before with inr r => [r] | inl _ => [] end) ++ releases c cs
  end.

(** A transaction that a push would release. *)
Definition releasable (t : Txn) (us : list str) : Prop :=
  x_schema t = Some SCHEMA /\ x_changedUnits t = Some us /\ us <> [] /\ x_ready t = true.

Lemma releasable_valid t us : releasable t us -> valid (Some t) = Some (t, us).
Proof. intros (Hs & Hu & _ & _). unfold valid. simpl. rewrite Hs, eqb_refl, Hu. done. Qed.

Lemma decideRelease_unchanged t t' us us' :
  releasable t us -> releasable t' us' -> x_transactionId t' = x_transactionId t ->
  decideRelease (Some t) (Some t') = inl ("transaction unchanged since previous commit" : str).
Proof.
  intros Ht Ht' E. unfold decideRelease. rewrite (releasable_valid _ _ Ht), (releasable_valid _ _ Ht').
  destruct Ht as (_ & _ & Hne & ->), Ht' as (_ & _ & _ & ->). destruct us; [done|]. simpl. by rewrite E, eqb_refl.
Qed.

(** C3: one release per transaction. After a commit that does not already carry it, a
    releasable transaction carried unchanged by any run of commits is released exactly
    once, by the first of them, with exactly its own units. *)
Theorem release_once (before : option Txn) (t : Txn) (us : list str) (more : list (option Txn)) :
  releasable t us ->
  (forall p us', valid before = Some (p, us') -> x_ready p = true -> x_transactionId p <> x_transactionId t) ->
  Forall (fun c => exists t' us', c = Some t' /\ releasable t' us' /\ x_transactionId t' = x_transactionId t) more ->
  releases before (Some t :: more) =
    [{| r_transactionId := x_transactionId t; r_changedGroups := x_changedGroups t; r_changedUnits := us;
        r_dependencyOrder := x_dependencyOrder t |}].
Proof.
  intros Ht Hb Hm. cbn [releases].
  assert (releases (Some t) more = []) as ->.
  { clear Hb. revert t us Ht Hm. induction more as [|c more IH]; intros t us Ht Hm; [done|].
    apply Forall_cons in Hm as [(t' & us' & -> & Ht' & E) Hm]. cbn [releases].
    rewrite (decideRelease_unchanged _ _ _ _ Ht' Ht) by done. simpl.
    apply (IH t' us'); [done|]. eapply Forall_impl; [exact Hm|]. intros c (t2 & us2 & ? & ? & ?).
    exists t2, us2. split_and!; try done. congruence. }
  rewrite app_nil_r. unfold decideRelease. rewrite (releasable_valid _ _ Ht).
  destruct Ht as (_ & _ & Hne & ->). destruct us as [|u us]; [done|]. simpl.
  destruct (valid before) as [[p us']|] eqn:Ep; [|done].
  destruct (x_ready p) eqn:Er; [|done]. rewrite bool_decide_eq_false_2; [done|]. by eapply Hb.
Qed.

Definition demo_txn (id : str) : Txn :=
  {| x_schema := Some SCHEMA; x_ready := true; x_transactionId := Some id; x_sourceSha := Some [];
     x_manifestSha := Some "m"; x_changedGroups := Some ["core"]; x_changedUnits := Some ["cli"; "core"];
     x_dependencyOrder := Some publish_order |}.

Lemma release_once_witness :
  releases (Some (demo_txn "aaa")) [Some (demo_txn "bbb"); Some (demo_txn "bbb"); Some (demo_txn "bbb")] =
    [{| r_transactionId := Some "bbb"; r_changedGroups := Some ["core"]; r_changedUnits := ["cli"; "core"];
        r_dependencyOrder := Some publish_order |}].
Proof.
  apply (release_once (Some (demo_txn "aaa")) (demo_txn "bbb") ["cli"; "core"]).
  - by split_and!.
  - intros p us' [= <- <-] _. done.
  - repeat (apply Forall_cons; split; [exists (demo_txn "bbb"), ["cli"; "core"]; by split_and!|]). constructor.
Defined.

(** *** Recovery *)

(** Recovery only repeats a release. It is granted only for a valid, ready transaction
    named by its id, from the commit the transaction records (when it records one), with a
    manifest that hashes to the recorded one; and the units it publishes are a non-empty
    part of the transaction's, the part asked for or all of them. *)
Theorem decideRecovery_narrows `{Sha256} (txn : option Txn) (i : RecoveryInput) (versions : option (list (str * str)))
    (id : option str) (units : list str) :
  decideRecovery txn (Some i) versions = inr (id, units) ->
  exists t us, valid txn = Some (t, us) /\ x_ready t = true /\ units <> [] /\ (forall u, u ∈ units -> u ∈ us) /\
    (units = us \/ i_units i = Some units) /\
    otruthy (i_transactionId i) = true /\ id = i_transactionId i /\ id = x_transactionId t /\
    otruthy (i_sourceSha i) = true /\ (otruthy (x_sourceSha t) = true -> i_sourceSha i = x_sourceSha t) /\
    (forall v, versions = Some v -> x_manifestSha t = Some (manifestSha v)).
Proof.
  unfold decideRecovery. destruct (valid txn) as [[t us]|]; [|done].
  destruct (x_ready t) eqn:Hr; [|done]. cbn [negb orb].
  destruct (Nat.eqb_spec (length us) 0) as [|Hus]; [done|].
  destruct (otruthy (i_transactionId i)) eqn:Hid; [|done]. cbn [negb].
  case_bool_decide as Eid; [|done]. cbn [negb].
  destruct (otruthy (i_sourceSha i)) eqn:Hsha; [|done]. cbn [negb].
  destruct (otruthy (x_sourceSha t) && _) eqn:Es; [done|].
  destruct (match versions with Some _ => _ | None => _ end) eqn:Em; [done|].
  remember (nullish (i_units i) []) as asked eqn:Ea.
  destruct (negb (length asked =? 0)%nat && _) eqn:Ef; [done|].
  remember (if negb (length asked =? 0)%nat then asked else us) as units' eqn:Eu.
  destruct (Nat.eqb_spec (length units') 0) as [|Hlen]; [done|].
  intros [= <- <-]. exists t, us.
  assert ((forall u, u ∈ units' -> u ∈ us) /\ (units' = us \/ i_units i = Some units')) as [Hsub Hor].
  { destruct (negb (length asked =? 0)%nat) eqn:En; subst units'; [|auto]. split.
    - cbn [andb] in Ef. apply negb_false_iff, Nat.eqb_eq, nil_length_inv in Ef.
      intros u Hu. destruct (decide (u ∈ us)) as [|Hn]; [done|]. exfalso.
      assert (u ∈ List.filter (fun u => negb (bool_decide (u ∈ us))) asked) as Hf.
      { apply list_elem_of_In, filter_In. rewrite <- list_elem_of_In. split; [done|].
        apply negb_true_iff. by apply bool_decide_eq_false. }
      rewrite Ef in Hf. set_solver.
    - right. subst asked. by destruct (i_units i). }
  split_and!; try done.
  - by destruct units'.
  - intros Ht. rewrite Ht in Es. simpl in Es. by apply negb_false_iff, bool_decide_eq_true in Es.
  - intros v ->. by apply negb_false_iff, bool_decide_eq_true in Em.
Qed.

Definition demo_sha : Sha256 := fun s => s.

Lemma decideRecovery_narrows_witness :
  let v := [("core", "4.4.2"); ("cli", "4.4.2")] in
  let t := {| x_schema := Some SCHEMA; x_ready := true; x_transactionId := Some "bbb"; x_sourceSha := Some [];
              x_manifestSha := Some (@manifestSha demo_sha v); x_changedGroups := Some ["core"];
              x_changedUnits := Some ["cli"; "core"]; x_dependencyOrder := Some publish_order |} in
  let i := {| i_transactionId := Some "bbb"; i_sourceSha := Some "abc"; i_units := Some ["cli"] |} in
  exists t' us, valid (Some t) = Some (t', us) /\ x_ready t' = true /\ ["cli"] <> ([] : list str) /\
    (forall u, u ∈ ["cli"] -> u ∈ us) /\ (["cli"] = us \/ i_units i = Some ["cli"]) /\
    otruthy (i_transactionId i) = true /\ Some "bbb" = i_transactionId i /\ Some "bbb" = x_transactionId t' /\
    otruthy (i_sourceSha i) = true /\ (otruthy (x_sourceSha t') = true -> i_sourceSha i = x_sourceSha t') /\
    (forall v', Some v = Some v' -> x_manifestSha t' = Some (@manifestSha demo_sha v')).
Proof. intros v t i. apply (@decideRecovery_narrows demo_sha (Some t) i (Some v) (Some "bbb") ["cli"]). solve_compute. Defined.

(** A release that broke off can be recovered. For a transaction built against the
    previous manifest, and the manifest written for the same plan, a dispatch that names
    the transaction and a commit is granted all its units: the hash recorded when planning
    is the hash of the manifest read back, though their keys come in different orders. *)
Theorem recovery_accepts `{Sha256} (p : Plan) (units : list (str * Unit_)) (prev : list (str * str))
    (unitCoord : list (str * str)) (sha : str) :
  let t := buildTransaction p units prev in
  t_ready t = true -> t_transactionId t <> [] -> sha <> [] ->
  decideRecovery (Some (read_back t))
    (Some {| i_transactionId := Some (t_transactionId t); i_sourceSha := Some sha; i_units := Some [] |})
    (Some (manifestVersions (releaseManifest p unitCoord))) = inr (Some (t_transactionId t), t_changedUnits t).
Proof.
  intros t Hr Hid Hs. unfold decideRecovery, t. rewrite valid_read_back. fold t.
  change (x_ready (read_back t)) with (t_ready t). rewrite Hr. cbn [negb orb].
  assert ((length (t_changedUnits t) =? 0)%nat = false) as El.
  { change (t_ready t) with (negb (length (t_changedUnits t) =? 0)%nat) in Hr. by apply negb_true_iff in Hr. }
  rewrite El. cbn [i_transactionId i_sourceSha i_units otruthy nullish length Nat.eqb negb andb].
  rewrite (proj2 (truthy_nonempty _) Hid), (proj2 (truthy_nonempty _) Hs). cbn [negb].
  change (x_transactionId (read_back t)) with (Some (t_transactionId t)). rewrite eqb_refl. cbn [negb].
  change (x_sourceSha (read_back t)) with (Some ([] : str)). cbn [otruthy truthy andb].
  change (x_manifestSha (read_back t)) with (Some (manifestSha (plan_versions p))).
  rewrite (manifestSha_perm (manifestVersions (releaseManifest p unitCoord)) (plan_versions p)).
  - rewrite eqb_refl. cbn [negb]. by rewrite El.
  - unfold keys. rewrite (manifest_versions_perm p unitCoord). apply fill_NoDup.
  - apply manifest_versions_perm.
Qed.

Lemma recovery_accepts_witness :
  exists p, buildPlan (readUnits (repo_packages "github.com/trianalab/pacto/v4" "4.4.2" "6.4.1")) = Some p /\
  let t := @buildTransaction demo_sha p [] [("core", "4.4.1"); ("k8s-docs", "6.4.1")] in
  @decideRecovery demo_sha (Some (read_back t))
    (Some {| i_transactionId := Some (t_transactionId t); i_sourceSha := Some "abc"; i_units := Some [] |})
    (Some (manifestVersions (releaseManifest p []))) = inr (Some (t_transactionId t), t_changedUnits t).
Proof.
  eexists. split; [vm_compute; reflexivity|]. cbv zeta.
  apply (@recovery_accepts demo_sha); [vm_compute; reflexivity|vm_compute; discriminate|done].
Defined.
