(* ===== verification/Regex.v ===== *)
(** * Regular expressions

    What the release scripts use of JavaScript's [RegExp] and [String.prototype.replace]: a
    backtracking matcher in continuation-passing style that tries alternatives in the order
    of the language, [exec], [replace] with and without the [g] flag, [matchAll], and the
    expansion of a replacement template ([$1], [$&], [$$], ...). Texts are UTF-8, so a
    character class here ranges over the ASCII characters it names; [\s], [.] and the line
    anchors know the longer white space and line terminators too. *)

From stdpp Require Import base list.
From Stdlib Require Import Init.Byte ZArith Lia.
From S2P Require Import Prelude.

Inductive re :=
  | Chr (p : byte -> bool)      (** one character of a class *)
  | Plus (p : byte -> bool)     (** [class+], greedy *)
  | Star (p : byte -> bool)     (** [class*], greedy *)
  | Seq (a b : re)
  | Or (a b : re)               (** [a|b] *)
  | Opt (a : re)                (** [(?:a)?], greedy *)
  | Capture (a : re)              (** [(a)] *)
  | Bol | Eol                   (** [^] and [$] with the [m] flag *)
  | Line                        (** [.*] *)
  | Space                       (** [\s] *)
  | Spaces                      (** [\s*], greedy *)
  | NotBehind (w : str)         (** [(?<!w)] *)
  | Empty.

Definition Lit (w : str) : re := foldr (fun c r => Seq (Chr (fun b => b === c)) r) Empty w.

(** The line terminators: LF, CR, U+2028 and U+2029. *)
Definition terminators : list str := [[x0a]; [x0d]; [xe2; x80; xa8]; [xe2; x80; xa9]].

Definition at_eol (s : str) : bool := (s === []) || existsb (fun t => starts_with t s) terminators.
Definition at_bol (before : str) : bool :=
  (before === []) || existsb (fun t => starts_with (rev t) before) terminators.

(** The white space character the text starts with. *)
Definition space_at (s : str) : option str := List.find (fun w => starts_with w s) js_whitespace.

Section Match.
Context {A : Type}.

(** A continuation is given the captures so far, what precedes (reversed) and what follows. *)
Abbreviation cont := (list str -> str -> str -> option A).

Definition orelse (x y : option A) : option A := match x with Some a => Some a | None => y end.

Fixpoint star (p : byte -> bool) (caps : list str) (b s : str) (k : cont) : option A :=
  match s with
  | c :: s' => if p c then orelse (star p caps (c :: b) s' k) (k caps b s) else k caps b s
  | [] => k caps b s
  end.

Fixpoint line (caps : list str) (b s : str) (k : cont) : option A :=
  if at_eol s then k caps b s
  else match s with
       | c :: s' => orelse (line caps (c :: b) s' k) (k caps b s)
       | [] => k caps b s
       end.

Fixpoint spaces (fuel : nat) (caps : list str) (b s : str) (k : cont) : option A :=
  match fuel with
  | O => k caps b s
  | S f => match space_at s with
           | Some w => orelse (spaces f caps (rev w ++ b) (drop (length w) s) k) (k caps b s)
           | None => k caps b s
           end
  end.

Fixpoint m (r : re) (caps : list str) (b s : str) (k : cont) : option A :=
  match r with
  | Chr p => match s with c :: s' => if p c then k caps (c :: b) s' else None | [] => None end
  | Plus p => match s with c :: s' => if p c then star p caps (c :: b) s' k else None | [] => None end
  | Star p => star p caps b s k
  | Seq r1 r2 => m r1 caps b s (fun caps b s => m r2 caps b s k)
  | Or r1 r2 => orelse (m r1 caps b s k) (m r2 caps b s k)
  | Opt r1 => orelse (m r1 caps b s k) (k caps b s)
  | Capture r1 => m r1 caps b s (fun caps' b' s' => k (caps' ++ [take (length s - length s') s]) b' s')
  | Bol => if at_bol b then k caps b s else None
  | Eol => if at_eol s then k caps b s else None
  | Line => line caps b s k
  | Space => match space_at s with Some w => k caps (rev w ++ b) (drop (length w) s) | None => None end
  | Spaces => spaces (length s) caps b s k
  | NotBehind w => if starts_with (rev w) b then None else k caps b s
  | Empty => k caps b s
  end.
End Match.

Record Hit := { h_caps : list str; h_text : str; h_rest : str }.

(** A match that starts here. *)
Definition exec (r : re) (b s : str) : option Hit :=
  m r [] b s (fun caps _ s' => Some {| h_caps := caps; h_text := take (length s - length s') s; h_rest := s' |}).

(** [re.test(s)] *)
Fixpoint test_from (r : re) (b s : str) : bool :=
  match exec r b s with
  | Some _ => true
  | None => match s with c :: s' => test_from r (c :: b) s' | [] => false end
  end.
Definition test (r : re) (s : str) : bool := test_from r [] s.

(** *** Replacement templates *)

Definition digit_val (b : byte) : nat := N.to_nat (code b - 48).

(** [$d] or [$dd], as [GetSubstitution] reads it: two digits when they name a capture. *)
Definition capture (caps : list str) (ref : str) (i : nat) : str :=
  match i with O => ref | S j => nullish (caps !! j) ref end.

Fixpoint expand (caps : list str) (hit before rest : str) (tpl : str) : str :=
  match tpl with
  | [] => []
  | c :: t =>
      if c === x24 then
        match t with
        | [] => [c]
        | d :: t' =>
            if d === x24 then x24 :: expand caps hit before rest t'
            else if d === x26 then hit ++ expand caps hit before rest t'
            else if d === x60 then rev before ++ expand caps hit before rest t'
            else if d === x27 then rest ++ expand caps hit before rest t'
            else if is_digit d then
              match t' with
              | d2 :: t'' =>
                  if is_digit d2 && (10 * digit_val d + digit_val d2 <=? length caps)
                  then capture caps [c; d; d2] (10 * digit_val d + digit_val d2) ++ expand caps hit before rest t''
                  else capture caps [c; d] (digit_val d) ++ expand caps hit before rest t'
              | [] => capture caps [c; d] (digit_val d)
              end
            else c :: expand caps hit before rest t
        end
      else c :: expand caps hit before rest t
  end.

(** [s.replace(r, tpl)] *)
Fixpoint replace_from (r : re) (tpl : str) (b s : str) : str :=
  match exec r b s with
  | Some h => expand (h_caps h) (h_text h) b (h_rest h) tpl ++ h_rest h
  | None => match s with c :: s' => c :: replace_from r tpl (c :: b) s' | [] => [] end
  end.
Definition replace (r : re) (tpl : str) (s : str) : str := replace_from r tpl [] s.

(** [s.replace(r, tpl)] with the [g] flag, for patterns that consume something: [n] bytes
    of the last match are still to be passed over. *)
Fixpoint replaceAll_from (r : re) (tpl : str) (b s : str) (n : nat) : str :=
  match s with
  | [] => []
  | c :: s' =>
      match n with
      | S n' => replaceAll_from r tpl (c :: b) s' n'
      | O => match exec r b s with
             | Some h => expand (h_caps h) (h_text h) b (h_rest h) tpl
                           ++ replaceAll_from r tpl (c :: b) s' (length (h_text h) - 1)
             | None => c :: replaceAll_from r tpl (c :: b) s' O
             end
      end
  end.
Definition replaceAll (r : re) (tpl : str) (s : str) : str := replaceAll_from r tpl [] s O.

(** The texts [s.matchAll(r)] finds. *)
Fixpoint matchAll_from (r : re) (b s : str) (n : nat) : list str :=
  match s with
  | [] => []
  | c :: s' =>
      match n with
      | S n' => matchAll_from r (c :: b) s' n'
      | O => match exec r b s with
             | Some h => h_text h :: matchAll_from r (c :: b) s' (length (h_text h) - 1)
             | None => matchAll_from r (c :: b) s' O
             end
      end
  end.
Definition matchAll (r : re) (s : str) : list str := matchAll_from r [] s O.

(** ** What a match is *)

Create HintDb regex.

Section Sound.
Context {A : Type}.
Abbreviation cont := (list str -> str -> str -> option A).

(** Whatever a matcher passes on is a later position of the same text. *)
Definition later (b s : str) (k : cont) (x : A) : Prop :=
  exists caps' w s', s = w ++ s' /\ k caps' (rev w ++ b) s' = Some x.

Lemma orelse_Some (x y : option A) a : orelse x y = Some a -> x = Some a \/ y = Some a.
Proof. destruct x; simpl; auto. Qed.

Lemma later_here caps b s k x : k caps b s = Some x -> later b s k x.
Proof. intros H. exists caps, [], s. done. Qed.

Lemma later_app w b s k x : later (rev w ++ b) s k x -> later b (w ++ s) k x.
Proof.
  intros (caps & w' & s' & -> & H). exists caps, (w ++ w'), s'.
  rewrite rev_app_distr, <-!app_assoc. done.
Qed.

Lemma later_cons c b s k x : later (c :: b) s k x -> later b (c :: s) k x.
Proof. apply (later_app [c]). Qed.

#[local] Hint Resolve later_here later_cons : regex.

Lemma star_later p caps b s (k : cont) x : star p caps b s k = Some x -> later b s k x.
Proof.
  revert b. induction s as [|c s IH]; intros b; simpl; [eauto with regex|].
  destruct (p c); [|eauto with regex]. intros [H | H]%orelse_Some; eauto with regex.
Qed.

Lemma line_later caps b s (k : cont) x : line caps b s k = Some x -> later b s k x.
Proof.
  revert b. induction s as [|c s IH]; intros b; cbn [line]; destruct (at_eol _); eauto with regex.
  intros [H | H]%orelse_Some; eauto with regex.
Qed.

Lemma space_at_app s w : space_at s = Some w -> s = w ++ drop (length w) s.
Proof.
  intros [_ [t ->]%starts_with_spec]%List.find_some. by rewrite drop_app_length.
Qed.

Lemma spaces_later f caps b s (k : cont) x : spaces f caps b s k = Some x -> later b s k x.
Proof.
  revert b s. induction f as [|f IH]; intros b s; simpl; [eauto with regex|].
  destruct (space_at s) as [w|] eqn:E; [|eauto with regex].
  intros [H | H]%orelse_Some; [|eauto with regex].
  rewrite (space_at_app _ _ E). by apply later_app, IH.
Qed.

Lemma m_later r caps b s (k : cont) x : m r caps b s k = Some x -> later b s k x.
Proof.
  revert caps b s k.
  induction r as [p|p|p|r1 IH1 r2 IH2|r1 IH1 r2 IH2|r1 IH1|r1 IH1| | | | | |w|]; intros caps b s k; simpl.
  - destruct s; [done|]. destruct (p _); [|done]. eauto with regex.
  - destruct s; [done|]. destruct (p _); [|done]. intros H. by eapply later_cons, star_later.
  - apply star_later.
  - intros (caps' & w & s' & -> & H)%IH1. by eapply later_app, IH2.
  - intros [H | H]%orelse_Some; eauto.
  - intros [H | H]%orelse_Some; eauto with regex.
  - intros (caps' & w & s' & -> & H)%IH1. eapply later_app, later_here, H.
  - destruct (at_bol _); [|done]. eauto with regex.
  - destruct (at_eol _); [|done]. eauto with regex.
  - apply line_later.
  - destruct (space_at s) as [w|] eqn:E; [|done]. intros H.
    rewrite (space_at_app _ _ E). by eapply later_app, later_here.
  - apply spaces_later.
  - destruct (starts_with _ _); [done|]. eauto with regex.
  - eauto with regex.
Qed.
End Sound.

Lemma exec_splits r b s h : exec r b s = Some h -> s = h_text h ++ h_rest h.
Proof.
  intros (caps & w & s' & -> & [= <-])%m_later. simpl.
  rewrite length_app, Nat.add_sub, take_app_length. done.
Qed.

(** ** [replace] and [matchAll] along the text *)

Lemma replaceAll_from_skip r tpl b s n : n <= length s ->
  replaceAll_from r tpl b s n = replaceAll_from r tpl (rev (take n s) ++ b) (drop n s) 0.
Proof.
  revert b n. induction s as [|c s IH]; intros b [|n] H; simpl in *; try lia; [done..|].
  rewrite IH by lia. by rewrite <-app_assoc.
Qed.

Lemma matchAll_from_skip r b s n : n <= length s ->
  matchAll_from r b s n = matchAll_from r (rev (take n s) ++ b) (drop n s) 0.
Proof.
  revert b n. induction s as [|c s IH]; intros b [|n] H; simpl in *; try lia; [done..|].
  rewrite IH by lia. by rewrite <-app_assoc.
Qed.

Section Along.
Context (r : re) (tpl : str).

Lemma replaceAll_hit b s h : exec r b s = Some h -> h_text h <> [] ->
  replaceAll_from r tpl b s 0
  = expand (h_caps h) (h_text h) b (h_rest h) tpl ++ replaceAll_from r tpl (rev (h_text h) ++ b) (h_rest h) 0.
Proof.
  intros E Hne. pose proof (exec_splits _ _ _ _ E) as Hs. destruct (h_text h) as [|c t] eqn:Et; [done|].
  rewrite Hs in E |- *. simpl in *. rewrite E, Et. simpl. f_equal.
  rewrite replaceAll_from_skip by (rewrite length_app; lia). rewrite Nat.sub_0_r.
  by rewrite take_app_length, drop_app_length, <-app_assoc.
Qed.

Lemma matchAll_hit b s h : exec r b s = Some h -> h_text h <> [] ->
  matchAll_from r b s 0 = h_text h :: matchAll_from r (rev (h_text h) ++ b) (h_rest h) 0.
Proof.
  intros E Hne. pose proof (exec_splits _ _ _ _ E) as Hs. destruct (h_text h) as [|c t] eqn:Et; [done|].
  rewrite Hs in E |- *. simpl in *. rewrite E, Et. simpl. f_equal.
  rewrite matchAll_from_skip by (rewrite length_app; lia). rewrite Nat.sub_0_r.
  by rewrite take_app_length, drop_app_length, <-app_assoc.
Qed.

Lemma replaceAll_miss b c s : exec r b (c :: s) = None ->
  replaceAll_from r tpl b (c :: s) 0 = c :: replaceAll_from r tpl (c :: b) s 0.
Proof. simpl. by intros ->. Qed.

Lemma matchAll_miss b c s : exec r b (c :: s) = None ->
  matchAll_from r b (c :: s) 0 = matchAll_from r (c :: b) s 0.
Proof. simpl. by intros ->. Qed.
End Along.

(** A text is walked hit by hit: the induction the theorems on [replaceAll] use. *)
Lemma walk_ind (r : re) (Hne : forall b s h, exec r b s = Some h -> h_text h <> []) (P : str -> str -> Prop) :
  (forall b, P b []) ->
  (forall b s h, exec r b s = Some h -> P (rev (h_text h) ++ b) (h_rest h) -> P b s) ->
  (forall b c s, exec r b (c :: s) = None -> P (c :: b) s -> P b (c :: s)) ->
  forall b s, P b s.
Proof.
  intros H0 Hhit Hmiss b s. remember (length s) as n eqn:Hn. revert b s Hn.
  induction n as [n IH] using (well_founded_induction Wf_nat.lt_wf). intros b [|c s] ->; [apply H0|].
  destruct (exec r b (c :: s)) as [h|] eqn:E.
  - eapply Hhit; [done|]. pose proof (exec_splits _ _ _ _ E) as Hs. pose proof (Hne _ _ _ E).
    eapply IH; [|reflexivity]. rewrite Hs, length_app. destruct (h_text h); [done|]. simpl. lia.
  - apply Hmiss; [done|]. eapply IH; [|reflexivity]. simpl. lia.
Qed.

(** When the replacement of every match found is the match itself, nothing changes. *)
Lemma replaceAll_fixed (r : re) (tpl w : str) (s : str) :
  (forall b s h, exec r b s = Some h -> h_text h <> []) ->
  (forall b s h, exec r b s = Some h -> h_text h = w -> expand (h_caps h) (h_text h) b (h_rest h) tpl = w) ->
  Forall (eq w) (matchAll r s) -> replaceAll r tpl s = s.
Proof.
  intros Hne Hw. unfold matchAll, replaceAll. generalize (@nil byte) as b. intros b. revert b s.
  refine (walk_ind r Hne (fun b s => Forall (eq w) (matchAll_from r b s 0) -> replaceAll_from r tpl b s 0 = s) _ _ _); [done| |].
  - intros b s h E IH. rewrite (matchAll_hit _ _ _ _ E), (replaceAll_hit _ _ _ _ _ E) by exact (Hne _ _ _ E).
    intros [Hh Hr]%Forall_cons. rewrite (Hw _ _ _ E), IH by done.
    rewrite Hh. symmetry. by eapply exec_splits.
  - intros b c s E IH. rewrite matchAll_miss, replaceAll_miss by done. intros H. by rewrite IH.
Qed.

(** ** Classes and literals *)

Fixpoint span (p : byte -> bool) (s : str) : str * str :=
  match s with
  | c :: s' => if p c then let '(a, r) := span p s' in (c :: a, r) else ([], s)
  | [] => ([], [])
  end.

Definition headed (p : byte -> bool) (s : str) : bool := match s with c :: _ => p c | [] => false end.

Lemma span_split p s a r : span p s = (a, r) -> s = a ++ r /\ Forall (fun c => p c = true) a /\ headed p r = false.
Proof.
  revert a r. induction s as [|c s IH]; intros a r; simpl; [by intros [= <- <-]|].
  destruct (p c) eqn:E; [|intros [= <- <-]; done].
  destruct (span p s) as [a' r'] eqn:Es. intros [= <- <-]. destruct (IH _ _ eq_refl) as (-> & Ha & Hr). auto.
Qed.

Lemma span_over p a r : Forall (fun c => p c = true) a -> headed p r = false -> span p (a ++ r) = (a, r).
Proof.
  intros Ha Hr. induction Ha as [|c a Hc Ha IH]; simpl.
  - destruct r as [|c r]; [done|]. simpl in *. by rewrite Hr.
  - by rewrite Hc, IH.
Qed.

(** A run of a class ends before a character outside it, whatever follows. *)
Lemma span_local p h e z : p e = false -> span p (h ++ e :: z) = ((span p h).1, (span p h).2 ++ e :: z).
Proof.
  intros He. induction h as [|c h IH]; simpl; [by rewrite He|].
  destruct (p c); [|done]. rewrite IH. by destruct (span p h).
Qed.

Lemma m_Lit {A} w caps b s (k : list str -> str -> str -> option A) :
  m (Lit w) caps b s k = if starts_with w s then k caps (rev w ++ b) (drop (length w) s) else None.
Proof.
  revert b s. induction w as [|c w IH]; intros b [|d s]; try done.
  simpl. fold (Lit w). rewrite IH. rewrite (bool_decide_ext (d = c) (c = d)) by naive_solver.
  rewrite <-app_assoc. case_bool_decide; [by subst|done].
Qed.

Lemma m_Seq {A} r1 r2 caps b s (k : list str -> str -> str -> option A) :
  m (Seq r1 r2) caps b s k = m r1 caps b s (fun caps b s => m r2 caps b s k).
Proof. done. Qed.

Lemma m_Opt {A} r1 caps b s (k : list str -> str -> str -> option A) :
  m (Opt r1) caps b s k = orelse (m r1 caps b s k) (k caps b s).
Proof. done. Qed.

Lemma m_Capture {A} r1 caps b s (k : list str -> str -> str -> option A) :
  m (Capture r1) caps b s k = m r1 caps b s (fun caps' b' s' => k (caps' ++ [take (length s - length s') s]) b' s').
Proof. done. Qed.

(** A greedy run, when what follows either accepts its end or refuses every earlier one. *)
Lemma star_run {A} p caps b s (k : list str -> str -> str -> option A) a r :
  span p s = (a, r) ->
  (k caps (rev a ++ b) r = None -> forall b' c z, p c = true -> k caps b' (c :: z) = None) ->
  star p caps b s k = k caps (rev a ++ b) r.
Proof.
  revert b a r. induction s as [|c s IH]; intros b a r; simpl; [by intros [= <- <-]|].
  destruct (p c) eqn:E; [|by intros [= <- <-]].
  destruct (span p s) as [a' r'] eqn:Es. intros [= <- <-] Hk. simpl in *. rewrite <-app_assoc in *. simpl in *.
  rewrite (IH _ _ _ eq_refl Hk). destruct (k caps _ r') eqn:Ek; [done|]. simpl. by apply Hk.
Qed.

Lemma plus_run {A} p caps b s (k : list str -> str -> str -> option A) a r :
  span p s = (a, r) ->
  (k caps (rev a ++ b) r = None -> forall b' c z, p c = true -> k caps b' (c :: z) = None) ->
  m (Plus p) caps b s k = if a === [] then None else k caps (rev a ++ b) r.
Proof.
  destruct s as [|c s]; simpl; [by intros [= <- <-]|].
  destruct (p c) eqn:E; [|by intros [= <- <-]].
  destruct (span p s) as [a' r'] eqn:Es. intros [= <- <-] Hk. simpl in *. rewrite <-app_assoc in *. simpl in *.
  rewrite (star_run _ _ _ _ _ _ _ Es Hk). done.
Qed.

(** ** Replacing twice

    A replacement of the first match is made once and for all when the replacement is read
    as itself, and makes no earlier match. *)
Section Twice.
Context (r : re) (tpl : str).

Definition replacement (b : str) (h : Hit) : str := expand (h_caps h) (h_text h) b (h_rest h) tpl.

Lemma replace_shape b s :
  replace_from r tpl b s = s \/
  exists g s' h, s = g ++ s' /\ exec r (rev g ++ b) s' = Some h /\
    replace_from r tpl b s = g ++ replacement (rev g ++ b) h ++ h_rest h.
Proof.
  revert b. induction s as [|c s IH]; intros b; cbn [replace_from]; destruct (exec r b _) as [h|] eqn:E.
  - right. by exists [], [], h.
  - by left.
  - right. by exists [], (c :: s), h.
  - destruct (IH (c :: b)) as [-> | (g & s' & h & -> & Hh & ->)]; [by left|]. right. exists (c :: g), s', h.
    simpl. rewrite <-app_assoc. done.
Qed.

Lemma replace_twice b s :
  (forall b s h, exec r b s = Some h ->
     replace_from r tpl b (replacement b h ++ h_rest h) = replacement b h ++ h_rest h) ->
  (forall g b s h, g <> [] -> exec r (rev g ++ b) s = Some h -> exec r b (g ++ s) = None ->
     exec r b (g ++ replacement (rev g ++ b) h ++ h_rest h) = None) ->
  replace_from r tpl b (replace_from r tpl b s) = replace_from r tpl b s.
Proof.
  intros Hi Hl. revert b. induction s as [|c s IH]; intros b.
  - cbn [replace_from]. destruct (exec r b []) as [h|] eqn:E; [by apply Hi in E|]. simpl. by rewrite E.
  - cbn [replace_from]. destruct (exec r b (c :: s)) as [h|] eqn:E; [by apply Hi in E|].
    cbn [replace_from]. replace (exec r b (c :: replace_from r tpl (c :: b) s)) with (@None Hit); [by rewrite IH|].
    destruct (replace_shape (c :: b) s) as [-> | (g & s' & h & -> & Hh & ->)]; [done|].
    assert (rev g ++ c :: b = rev (c :: g) ++ b) as Eb by (simpl; by rewrite <-app_assoc).
    rewrite Eb in *. symmetry. exact (Hl (c :: g) b s' h ltac:(done) Hh E).
Qed.
End Twice.

(** *** Patterns that are a literal and something read after it *)
Section Reads.
Context (r : re) (tpl l0 : str) (e : byte) (read : str -> option (str * str)) (caps : str -> list str) (new : str -> str).
Abbreviation lit := (l0 ++ [e]).
Context (Hreads : forall b s, exec r b s =
  if starts_with lit s
  then match read (drop (length lit) s) with
       | Some (x, rest) => Some {| h_caps := caps x; h_text := lit ++ x; h_rest := rest |}
       | None => None
       end
  else None).
Context (Hsplit : forall z x rest, read z = Some (x, rest) -> z = x ++ rest).
Context (Hnew : forall z x rest, read z = Some (x, rest) -> read (new x ++ rest) = Some (new x, rest)).
Context (Hexpand : forall z x rest hit b, read z = Some (x, rest) -> expand (caps x) hit b rest tpl = lit ++ new x).
Context (Hsettles : forall z x rest, read z = Some (x, rest) -> new (new x) = new x).
(** Whether something is read in a text that runs into the literal does not depend on what
    is read after the literal. *)
Context (Hlocal : forall h z z', is_Some (read z) -> is_Some (read z') ->
  is_Some (read (h ++ e :: z')) -> is_Some (read (h ++ e :: z))).

Lemma reads_lit b z : exec r b (lit ++ z) =
  match read z with
  | Some (x, rest) => Some {| h_caps := caps x; h_text := lit ++ x; h_rest := rest |}
  | None => None
  end.
Proof. by rewrite Hreads, starts_with_app, drop_app_length. Qed.

Lemma overlap g z : g <> [] -> starts_with lit (g ++ lit ++ z) = true -> exists h, g ++ lit = lit ++ h ++ [e].
Proof.
  intros Hg [t Ht]%starts_with_spec. rewrite app_assoc in Ht.
  apply (f_equal (take (length (g ++ lit)))) in Ht. rewrite take_app_length in Ht.
  rewrite take_app_ge in Ht by (rewrite !length_app; simpl; lia).
  generalize dependent (take (length (g ++ lit) - length lit) t). intros h.
  destruct h as [|c h _] using rev_ind; intros Ht.
  - exfalso. apply (f_equal length) in Ht. rewrite !length_app in Ht. destruct g; [done|]. simpl in *. lia.
  - exists h. rewrite Ht. do 2 f_equal. rewrite !app_assoc in Ht. by apply app_inj_tail in Ht as [_ <-].
Qed.

Theorem reads_twice b s : replace_from r tpl b (replace_from r tpl b s) = replace_from r tpl b s.
Proof.
  apply replace_twice.
  - clear b s. intros b s h H. rewrite Hreads in H. destruct (starts_with lit s) eqn:Es; [|done].
    destruct (read (drop (length lit) s)) as [[x rest]|] eqn:Er; [|done]. injection H as <-.
    unfold replacement. simpl. rewrite (Hexpand _ _ _ _ _ Er), <-app_assoc. pose proof (Hnew _ _ _ Er) as Er'.
    assert (exists c y, lit ++ new x ++ rest = c :: y) as (c & y & Ey) by (destruct l0; simpl; eauto).
    rewrite Ey. cbn [replace_from]. rewrite <- Ey, reads_lit, Er'. simpl.
    by rewrite (Hexpand _ _ _ _ _ Er'), (Hsettles _ _ _ Er), <-app_assoc.
  - clear b s. intros g b s h Hg Hh Hn. rewrite Hreads in Hh. destruct (starts_with lit s) eqn:Es; [|done].
    apply starts_with_spec in Es as [z ->]. rewrite drop_app_length in Hh.
    destruct (read z) as [[x rest]|] eqn:Er; [|done]. injection Hh as <-. unfold replacement. simpl.
    rewrite (Hexpand _ _ _ _ _ Er). rewrite <-(app_assoc _ (new x) rest). rewrite Hreads in Hn |- *.
    destruct (starts_with lit (g ++ lit ++ new x ++ rest)) eqn:Es; [|done].
    destruct (overlap g _ Hg Es) as [h Eh]. rewrite (app_assoc g lit), Eh, <-!app_assoc, (app_assoc l0 [e]) in Hn |- *.
    rewrite starts_with_app, drop_app_length in Hn. rewrite drop_app_length. simpl in Hn |- *.
    destruct (read (h ++ e :: new x ++ rest)) as [[y q]|] eqn:Ey; [|done]. exfalso.
    destruct (Hlocal h z (new x ++ rest)) as [[y' q'] Hy']; [by eauto..|by rewrite (Hnew _ _ _ Er)|by eauto|].
    rewrite Hy' in Hn. done.
Qed.
End Reads.

(** ** Templates *)
Lemma expand_plain_app caps hit b rest v t : x24 ∉ v -> expand caps hit b rest (v ++ t) = v ++ expand caps hit b rest t.
Proof.
  induction v as [|c v IH]; [done|]. intros [Hc Hv]%not_elem_of_cons. simpl.
  rewrite bool_decide_false by done. by rewrite IH.
Qed.

Lemma expand_plain caps hit b rest v : x24 ∉ v -> expand caps hit b rest v = v.
Proof. intros H. rewrite <- (app_nil_r v) at 1. rewrite expand_plain_app by done. simpl. apply app_nil_r. Qed.

Lemma is_digit_val c : is_digit c = true -> digit_val c <= 9.
Proof. unfold is_digit, in_range, digit_val. intros [H1 H2]%andb_true_iff. apply N.leb_le in H1, H2. lia. Qed.

(** [$1] and [$2] name a capture whatever digit comes after them, with fewer than ten. *)
Lemma expand_ref caps hit b rest (d : byte) (i : nat) c t :
  is_digit d = true -> digit_val d = S i -> caps !! i = Some c -> length caps < 10 ->
  expand caps hit b rest ([x24; d] ++ t) = c ++ expand caps hit b rest t.
Proof.
  intros Hd Hi Hc Hl. cbn [expand app].
  rewrite (bool_decide_true (x24 = x24)), !bool_decide_false by (done || by intros ->). rewrite Hd, Hi.
  destruct t as [|d2 t]; cbn [capture].
  - by rewrite Hc, app_nil_r.
  - rewrite (proj2 (Nat.leb_gt _ (length caps))) by lia. rewrite andb_false_r. by rewrite Hc.
Qed.

Lemma taken (a r : str) : take (length (a ++ r) - length r) (a ++ r) = a.
Proof. by rewrite length_app, Nat.add_sub, take_app_length. Qed.

(** ** Literal prefixes *)
Lemma m_Lit_app {A} w1 w2 caps b s (k : list str -> str -> str -> option A) :
  m (Lit w1) caps b s (fun caps b s => m (Lit w2) caps b s k) = m (Lit (w1 ++ w2)) caps b s k.
Proof.
  rewrite !m_Lit. destruct (starts_with w1 s) eqn:E.
  - apply starts_with_spec in E as [t ->]. rewrite drop_app_length.
    destruct (starts_with w2 t) eqn:E2.
    + apply starts_with_spec in E2 as [z ->].
      rewrite drop_app_length, (app_assoc w1), starts_with_app, drop_app_length, rev_app_distr, <-app_assoc. done.
    + destruct (starts_with (w1 ++ w2) (w1 ++ t)) eqn:E3; [|done].
      apply starts_with_spec in E3 as [z Hz]. rewrite <-app_assoc in Hz. apply app_inv_head in Hz as ->.
      by rewrite starts_with_app in E2.
  - destruct (starts_with (w1 ++ w2) s) eqn:E2; [|done]. apply starts_with_spec in E2 as [t ->].
    by rewrite <-app_assoc, starts_with_app in E.
Qed.

Lemma m_Lit_ext {A} w caps b s (k k' : list str -> str -> str -> option A) :
  (forall b s, k caps b s = k' caps b s) -> m (Lit w) caps b s k = m (Lit w) caps b s k'.
Proof. intros H. rewrite !m_Lit. by destruct (starts_with w s). Qed.

(** A capture of a literal captures it. *)
Lemma m_Capture_Lit {A} r w caps b s (k : list str -> str -> str -> option A) :
  (forall (k : list str -> str -> str -> option A), m r caps b s k = m (Lit w) caps b s k) ->
  m (Capture r) caps b s k = m (Lit w) caps b s (fun caps b s => k (caps ++ [w]) b s).
Proof.
  intros H. cbn [m]. rewrite H, !m_Lit. destruct (starts_with w s) eqn:E; [|done].
  apply starts_with_spec in E as [t ->]. by rewrite drop_app_length, taken.
Qed.

Lemma exec_reads (r body : re) (lit : str) (caps0 : list str) (caps : str -> list str) (read : str -> option (str * str)) :
  (forall b s (k : list str -> str -> str -> option Hit),
     m r [] b s k = m (Lit lit) [] b s (fun _ b s => m body caps0 b s k)) ->
  (forall b s (k : list str -> str -> str -> option Hit), (forall caps b s, k caps b s <> None) ->
     m body caps0 b s k = match read s with Some (x, rest) => k (caps x) (rev x ++ b) rest | None => None end) ->
  (forall z x rest, read z = Some (x, rest) -> z = x ++ rest) ->
  forall b s, exec r b s =
    if starts_with lit s
    then match read (drop (length lit) s) with
         | Some (x, rest) => Some {| h_caps := caps x; h_text := lit ++ x; h_rest := rest |}
         | None => None
         end
    else None.
Proof.
  intros Hr Hb Hs b s. unfold exec. rewrite Hr, m_Lit. destruct (starts_with lit s) eqn:E; [|done].
  apply starts_with_spec in E as [z ->]. rewrite drop_app_length, Hb by done.
  destruct (read z) as [[x rest]|] eqn:Ex; [|done]. apply Hs in Ex as ->. by rewrite app_assoc, taken.
Qed.
