(* ===== verification/ApplyPlan.v ===== *)
(** * Applying a release plan: [src/release/scripts/apply-release-plan.mjs]

    The script moves the working tree to the state a plan describes: it pins versions in the
    module, workspace, chart and documentation files, writes the manifest, and completes the
    checksums. A run is a computation over the files; a failed assertion or a thrown error
    stops it with the files as they are by then. The go tool and git are parameters. *)

From stdpp Require Import base list.
From Stdlib Require Import Init.Byte ZArith NArith Lia.
From S2P Require Import Prelude Uri Paging Canonical Regex Release.

(** ** The tree and runs over it *)
Record Tree := { files : list (str * str); changed : list str }.

Inductive outcome (A : Type) := Done (a : A) | Fail (msg : str).
Arguments Done {A} a.
Arguments Fail {A} msg.

Definition Run (A : Type) : Type := Tree -> Tree * outcome A.

Definition ret {A} (a : A) : Run A := fun t => (t, Done a).
Definition bind {A B} (x : Run A) (f : A -> Run B) : Run B :=
  fun t => match x t with (t', Done a) => f a t' | (t', Fail msg) => (t', Fail msg) end.

Notation "'let!' x := a 'in' b" := (bind a (fun x => b)) (at level 200, x pattern, right associativity) : js_scope.
Notation "'do!' a 'then' b" := (bind a (fun _ => b)) (at level 200, right associativity) : js_scope.

Definition fail {A} (msg : str) : Run A := fun t => (t, Fail msg).
Definition of_option {A} (o : option A) : Run A := match o with Some a => ret a | None => fail "TypeError" end.

Definition assert (cond : bool) (msg : str) : Run unit := if cond then ret tt else fail msg.

Definition readFile (rel : str) : Run str :=
  fun t => match assoc rel (files t) with Some s => (t, Done s) | None => (t, Fail ("ENOENT " ++ rel)) end.
Definition writeFile (rel text : str) : Run unit :=
  fun t => ({| files := map_set rel text (files t); changed := changed t |}, Done tt).
Definition push_changed (rel : str) : Run unit :=
  fun t => ({| files := files t; changed := changed t ++ [rel] |}, Done tt).

Definition edit (rel : str) (fn : str -> str) : Run str :=
  let! before := readFile rel in
  let after := fn before in
  do! (if after !== before then do! writeFile rel after then push_changed rel else ret tt) then
  ret after.

(** A loop over a list. *)
Fixpoint each {A} (f : A -> Run unit) (l : list A) : Run unit :=
  match l with [] => ret tt | a :: l' => do! f a then each f l' end.

(** ** Patterns *)

(** [esc]: the characters [RegExp] gives a meaning, escaped. *)
Definition specials : str := ".*+?^${}()|[]\".
Definition esc (s : str) : str := s ≫= (fun c => if existsb (fun d => c === d) specials then [x5c; c] else [c]).

(** How [RegExp] reads a pattern that has only escapes and plain characters. *)
Fixpoint literal (p : str) : option str :=
  match p with
  | [] => Some []
  | c :: p' =>
      if c === x5c then
        match p' with d :: p'' => if existsb (fun e => d === e) specials then cons d <$> literal p'' else None
                    | [] => None end
      else if existsb (fun d => c === d) specials then None
      else cons c <$> literal p'
  end.

(** An interpolated [esc(s)]: the text [s] itself, as [literal_esc] below shows. *)
Definition Esc (s : str) : re := Lit s.

Definition sfx (b : byte) : bool := is_digit b || is_upper b || is_lower b || (b === x2e) || (b === x2d).

Definition SEMVER : re :=
  Seq (Plus is_digit) (Seq (Lit ".") (Seq (Plus is_digit) (Seq (Lit ".") (Seq (Plus is_digit)
    (Opt (Seq (Lit "-") (Plus sfx))))))).

Definition optional_v : re := Opt (Lit "v").

(** ** The sections *)

Definition majorOf (v : str) : jsnum :=
  match exec (Seq (Lit "v") (Seq (Capture (Plus is_digit)) (Lit "."))) [] v with
  | Some h => match h_caps h with d :: _ => number_trunc d | [] => JNaN end
  | None => JNaN
  end.

Definition pinFits (p : Plan) : bool :=
  let pathMajor := pathMajorOf (p_pinModule p) in
  if num_ge pathMajor 2 then num_eq (majorOf (p_pinVersion p)) pathMajor else num_le (majorOf (p_pinVersion p)) 1.

Definition GO_MOD : str := "integrations/kubernetes/go.mod".
Definition GO_WORK : str := "go.work".
Definition CHART : str := "integrations/kubernetes/charts/pacto-operator/Chart.yaml".
Definition HUB : str := "integrations/kubernetes/artifacthub-repo.yml".
Definition INTEGRATION : str := "integrations/kubernetes/integration.yaml".
Definition README : str := "integrations/kubernetes/charts/pacto-operator/README.md".
Definition MANIFEST : str := "release/release-manifest.json".
Definition GO_SUM : str := "integrations/kubernetes/go.sum".

(** 1. The pin of the core module. *)
Definition modPattern (p : Plan) : re := Seq (Esc (p_pinModule p)) (Seq (Lit " v") SEMVER).
Definition pinned (p : Plan) : str := p_pinModule p ++ " " ++ p_pinVersion p.

Definition replaceDirective : re :=
  Seq Bol (Seq Spaces (Seq (Lit "replace") (Capture (Or Space (Lit "("))))).

Definition pinGoMod (p : Plan) : Run unit :=
  let! after := edit GO_MOD (replace (modPattern p) (pinned p)) in
  do! assert (includes (pinned p) after) (GO_MOD ++ ": core require not pinned to " ++ p_pinVersion p) then
  if p_assertNoReplace p
  then assert (negb (test replaceDirective after))
         (GO_MOD ++ ": a replace directive is present — release state must have none")
  else ret tt.

(** 1a. The workspace. *)
Definition workPattern (p : Plan) : re :=
  Seq (Capture (Seq (Lit "replace ") (Seq (Esc (p_pinModule p)) (Lit " "))))
    (Seq (Lit "v") (Seq SEMVER (Capture (Lit " => .")))).

Definition pinGoWork (p : Plan) : Run unit :=
  let! after := edit GO_WORK (replace (workPattern p) ("$1" ++ p_pinVersion p ++ "$2")) in
  assert (includes ("replace " ++ pinned p ++ " => .") after)
    (GO_WORK ++ ": versioned core replace not pinned to " ++ p_pinVersion p).

(** 2. The chart. *)
Definition field (name : str) : re := Seq Bol (Seq (Lit name) (Seq Line Eol)).
Definition fieldIs (name value : str) : re := Seq Bol (Seq (Lit name) (Seq (Esc value) Eol)).
Definition imagePattern (coordinate : str) : re :=
  Seq (Capture (Seq (Esc coordinate) (Lit ":"))) (Seq optional_v SEMVER).

Definition quoted (s : str) : str := [x22] ++ s ++ [x22].

Definition chartText (opCoord dlCoord chartVersion appVersion : str) (s : str) : str :=
  let s := replace (field "version:") ("version: " ++ chartVersion) s in
  let s := replace (field "appVersion:") ("appVersion: " ++ quoted appVersion) s in
  let s :=
    if negb (includes "artifacthub.io/images" s) then
      let s := if negb (ends_with [x0a] s) then s ++ [x0a] else s in
      let s := if negb (test (Seq Bol (Lit "annotations:")) s) then s ++ "annotations:" ++ [x0a] else s in
      s ++ "  artifacthub.io/images: |" ++ [x0a] ++ "    - name: pacto-controller" ++ [x0a]
        ++ "      image: " ++ opCoord ++ ":" ++ appVersion ++ [x0a]
    else s in
  let s := replace (imagePattern opCoord) ("$1" ++ appVersion) s in
  replace (imagePattern dlCoord) ("$1" ++ appVersion) s.

Definition pinChart (opCoord dlCoord chartVersion appVersion : str) : Run unit :=
  let! after := edit CHART (chartText opCoord dlCoord chartVersion appVersion) in
  do! assert (test (fieldIs "version: " chartVersion) after) (CHART ++ ": version != " ++ chartVersion) then
  do! assert (test (fieldIs "appVersion: " (quoted appVersion)) after) (CHART ++ ": appVersion != " ++ appVersion) then
  do! assert (includes (opCoord ++ ":" ++ appVersion) after) (CHART ++ ": artifacthub image tag != " ++ appVersion) then
  assert (includes (dlCoord ++ ":" ++ appVersion) after) (CHART ++ ": artifacthub delivery image tag != " ++ appVersion).

(** 4. The repository's metadata. *)
Definition checkHub : Run unit :=
  fun t => match assoc HUB (files t) with
           | Some s => assert (includes "repositoryID:" s) (HUB ++ ": missing or lacks repositoryID") t
           | None => fail (HUB ++ ": missing or lacks repositoryID") t
           end.

(** 5. Compatibility. *)
Definition not_quote (b : byte) : bool := negb (b === x22).
Definition compatPattern : re :=
  Seq (Capture (Seq (Lit "pactoCore:") Spaces)) (Seq (Lit [x22]) (Seq (Star not_quote) (Lit [x22]))).

Definition pinCompat (p : Plan) : Run unit :=
  let! after := edit INTEGRATION (replace compatPattern ("$1" ++ quoted (p_pactoCore p))) in
  assert (includes ("pactoCore: " ++ quoted (p_pactoCore p)) after) (INTEGRATION ++ ": pactoCore != " ++ p_pactoCore p).

(** 6. The chart's README. *)
Definition installPattern : re := Seq (Capture (Lit "--version ")) (Seq optional_v SEMVER).
Definition versionPattern : re := Seq (NotBehind "App") (Seq (Lit "Version: ") SEMVER).
Definition badgePattern : re := Seq (NotBehind "App") (Seq (Lit "Version-") (Seq SEMVER (Lit "-informational"))).
Definition appVersionPattern : re := Seq (Lit "AppVersion: ") SEMVER.
Definition appBadgePattern : re := Seq (Lit "AppVersion-") (Seq SEMVER (Lit "-informational")).

Definition readmeText (chartVersion appVersion : str) (s : str) : str :=
  let s := replaceAll installPattern ("$1" ++ chartVersion) s in
  let s := replaceAll versionPattern ("Version: " ++ chartVersion) s in
  let s := replaceAll badgePattern ("Version-" ++ chartVersion ++ "-informational") s in
  let s := replaceAll appVersionPattern ("AppVersion: " ++ appVersion) s in
  replaceAll appBadgePattern ("AppVersion-" ++ appVersion ++ "-informational") s.

Definition pinReadme (chartVersion appVersion : str) : Run unit :=
  let! after := edit README (readmeText chartVersion appVersion) in
  assert (includes ("--version " ++ chartVersion) after) (README ++ ": install snippet not pinned to " ++ chartVersion).

(** 6b. The images the documentation names; an absent tag prints as [undefined]. *)
Definition images (p : Plan) : list (str * str) :=
  omap (fun a => match a_coordinate a with
                 | Some c => if (a_kind a === "oci-image") && truthy c then Some (c, nullish (a_tag a) "undefined") else None
                 | None => None
                 end) (groups p ≫= (fun g => g_artifacts g.2)).

Definition pages : list str :=
  [ "docs/examples/compose-demo.md"; "docs/dashboard-docker.md"; "integrations/kubernetes/docs/installation.md" ].

Definition foundPattern (coordinate : str) : re := Seq (Esc coordinate) (Seq (Lit ":") (Seq optional_v SEMVER)).

Definition pageText (imgs : list (str * str)) (s : str) : str :=
  fold_left (fun s a => replaceAll (imagePattern a.1) ("$1" ++ a.2) s) imgs s.

Definition pinPage (imgs : list (str * str)) (rel : str) : Run unit :=
  let! after := edit rel (pageText imgs) in
  each (fun a => each (fun found => assert (found === a.1 ++ ":" ++ a.2)
                                      (rel ++ ": " ++ found ++ " != " ++ a.1 ++ ":" ++ a.2))
                      (matchAll (foundPattern a.1) after)) imgs.

(** 7. The manifest: [JSON.stringify(_, null, 2)] of the table Release.v computes. *)
Definition newline_at (depth : nat) : str := [x0a] ++ concat (replicate depth "  ").

Fixpoint pretty (depth : nat) (v : json) : str :=
  match v with
  | JArray [] => "[]"
  | JObject [] => "{}"
  | JArray l => "[" ++ newline_at (S depth) ++ join ("," ++ newline_at (S depth)) (map (pretty (S depth)) l)
                  ++ newline_at depth ++ "]"
  | JObject o => "{" ++ newline_at (S depth)
                   ++ join ("," ++ newline_at (S depth))
                        (map (fun p => let '(k, w) := p in quote k ++ ": " ++ pretty (S depth) w) o)
                   ++ newline_at depth ++ "}"
  | _ => stringify v
  end.

Definition manifestUnit_json (u : ManifestUnit) : json :=
  JObject [ ("version", JString (mu_version u)); ("coordinate", opt_json (mu_coordinate u));
            ("tag", JString (mu_tag u)); ("artifactKind", JString (mu_artifactKind u)) ].

Definition manifestText (p : Plan) (unitCoord : list (str * str)) : str :=
  pretty 0 (stable (JObject [ ("schema", JString "pacto-release-manifest/v1");
    ("units", JObject ((fun x => (x.1, manifestUnit_json x.2)) <$> releaseManifest p unitCoord)) ])) ++ [x0a].

Definition writeManifest (p : Plan) (unitCoord : list (str * str)) : Run unit :=
  fun t => let text := manifestText p unitCoord in
    if assoc MANIFEST (files t) === Some text then ret tt t
    else (do! writeFile MANIFEST text then push_changed MANIFEST) t.

(** 8. The checksums. The go tool is asked twice at most: for the published module, and for
    one staged from the tree; it may rewrite the two files of its module, or throw. *)
Class GoTool := {
  download_published : list (str * str) -> option (str * str);
  download_staged : list (str * str) -> option (str * str) }.

Definition renamePending (p : Plan) : bool :=
  num_gt (pathMajorOf (p_pinModule p)) (majorOf ("v" ++ g_version (p_core p))).

(** What a download leaves in [go.mod] and [go.sum]. *)
Definition download `{GoTool} : Run unit :=
  fun t => match match download_published (files t) with Some r => Some r | None => download_staged (files t) end with
           | Some (gomod, gosum) =>
               ({| files := map_set GO_SUM gosum (map_set GO_MOD gomod (files t)); changed := changed t |}, Done tt)
           | None => (t, Fail "go mod download")
           end.

Definition completeSums `{GoTool} (p : Plan) : Run unit :=
  let! before := readFile GO_SUM in
  if negb (renamePending p) && negb (includes (pinned p ++ " h1:") before) then
    let! goModBefore := readFile GO_MOD in
    do! download then
    let! goMod := readFile GO_MOD in
    do! assert (goMod === goModBefore) (GO_MOD ++ ": rewritten by `go mod download`; only its go.sum may move here") then
    let! after := readFile GO_SUM in
    do! assert (includes (pinned p ++ " h1:") after)
          (GO_SUM ++ ": no checksum for " ++ pinned p ++ " after go mod download") then
    do! assert (includes (pinned p ++ "/go.mod h1:") after)
          (GO_SUM ++ ": no go.mod checksum for " ++ pinned p ++ " after go mod download") then
    (if after !== before then push_changed GO_SUM else ret tt)
  else ret tt.

(** The whole script, for a plan that was read and the packages of the unit directories. *)
Definition artifact_of (p : Plan) (unit : str) : option Artifact :=
  List.find (fun a => a_unit a === unit) (g_artifacts (p_kubernetes p)).

Definition unitCoordOf (packages : list Package) : list (str * str) :=
  fold_left (fun m pj => map_set (pj_releaseUnit pj) (pj_coordinate pj) m) packages [].

Definition apply `{GoTool} (p : Plan) (packages : list Package) : Run unit :=
  let! chart := of_option (artifact_of p "operator-chart") in
  let! opImage := of_option (artifact_of p "operator-image") in
  let chartVersion := or_empty (a_chartVersion chart) in
  let appVersion := or_empty (a_appVersion chart) in
  do! assert (pinFits p) ("release plan pins " ++ p_pinModule p ++ " at " ++ p_pinVersion p
         ++ ", which that module path cannot carry") then
  do! pinGoMod p then
  do! pinGoWork p then
  let! opCoord := of_option (a_coordinate opImage) in
  let! dlCoord := of_option (artifact_of p "delivery-image" ≫= a_coordinate) in
  do! pinChart opCoord dlCoord chartVersion appVersion then
  do! checkHub then
  do! pinCompat p then
  do! pinReadme chartVersion appVersion then
  do! each (pinPage (images p)) pages then
  do! writeManifest p (unitCoordOf packages) then
  completeSums p.
