(* ===== verification/SemverText.v ===== *)
(** * Versions in text: the [SEMVER] pattern of [apply-release-plan.mjs]

    What the pattern matches, as a function that reads the version a text starts with, and
    how a text keeps matching when a version in it is replaced by a stable one. *)

From stdpp Require Import base list sets.
From Stdlib Require Import Init.Byte ZArith Lia.
From S2P Require Import Prelude Regex Release ApplyPlan.

(** ** Reading a version *)
Definition digits_at (s : str) : option (str * str) :=
  match span is_digit s with ([], _) => None | (d, r) => Some (d, r) end.

Definition dot_at (s : str) : option str := match s with x2e :: r => Some r | _ => None end.

(** [\d+\.\d+\.\d+] *)
Definition core_at (s : str) : option (str * str) :=
  '(a, s1) ← digits_at s; s2 ← dot_at s1;
  '(b, s3) ← digits_at s2; s4 ← dot_at s3;
  '(c, s5) ← digits_at s4; Some (a ++ "." ++ b ++ "." ++ c, s5).

(** [(?:-[0-9A-Za-z.-]+)?] *)
Definition suffix_at (s : str) : str * str :=
  match s with
  | x2d :: s' => match span sfx s' with ([], _) => ([], s) | (t, r) => (x2d :: t, r) end
  | _ => ([], s)
  end.

Definition semver_at (s : str) : option (str * str) :=
  '(c, r) ← core_at s; let '(t, r') := suffix_at r in Some (c ++ t, r').

(** [v?] before it *)
Definition v_semver_at (s : str) : option (str * str) :=
  match s with x76 :: s' => '(x, r) ← semver_at s'; Some (x76 :: x, r) | _ => semver_at s end.

(** ** The pattern reads it *)
Lemma digit_sfx c : is_digit c = true -> sfx c = true.
Proof. unfold sfx. by intros ->. Qed.

(** A continuation that accepts everything, or refuses to go on inside a version. *)
Definition settled {A} (caps : list str) (k : list str -> str -> str -> option A) : Prop :=
  (forall b s, k caps b s <> None) \/ (forall b c z, sfx c = true -> k caps b (c :: z) = None).

Section Pattern.
Context {A : Type} (caps : list str) (k : list str -> str -> str -> option A) (Hk : settled caps k).

Lemma settled_digits b s : k caps b s = None -> forall b' c z, is_digit c = true -> k caps b' (c :: z) = None.
Proof. intros H. destruct Hk as [Ht | Hr]; [by destruct (Ht b s)|]. intros. by apply Hr, digit_sfx. Qed.

Lemma m_suffix b s :
  m (Opt (Seq (Lit "-") (Plus sfx))) caps b s k = let '(t, r) := suffix_at s in k caps (rev t ++ b) r.
Proof.
  rewrite m_Opt, m_Seq, m_Lit. unfold suffix_at. destruct s as [|c s]; [done|]. cbn [starts_with].
  destruct (decide (x2d = c)) as [<-|Hne].
  2: { rewrite bool_decide_false by done. simpl. destruct c; done. }
  rewrite bool_decide_true by done. cbn [andb rev app length drop].
  destruct (span sfx s) as [t r] eqn:E. rewrite (plus_run _ _ _ _ _ _ _ E).
  - destruct t as [|c t]; [done|]. simpl. rewrite <-!app_assoc. simpl.
    destruct (k caps _ r) eqn:Ek; [done|]. simpl. destruct Hk as [Ht | Hr]; [by destruct (Ht (rev t ++ [c; x2d] ++ b) r)|].
    by rewrite Hr.
  - intros H. destruct Hk as [Ht | Hr]; [by destruct (Ht (rev t ++ x2d :: b) r)|]. intros. by apply Hr.
Qed.

Lemma m_digits b s (k' : list str -> str -> str -> option A) :
  (forall b s, k' caps b s = None -> forall b' c z, is_digit c = true -> k' caps b' (c :: z) = None) ->
  m (Plus is_digit) caps b s k' = match digits_at s with Some (d, r) => k' caps (rev d ++ b) r | None => None end.
Proof.
  intros H. unfold digits_at. destruct (span is_digit s) as [d r] eqn:E.
  rewrite (plus_run _ _ _ _ _ _ _ E) by eauto. by destruct d.
Qed.

Lemma m_dot b s (k' : list str -> str -> str -> option A) :
  m (Lit ".") caps b s k' = match dot_at s with Some r => k' caps (x2e :: b) r | None => None end.
Proof.
  rewrite m_Lit. unfold dot_at. destruct s as [|c s]; [done|]. cbn [starts_with].
  destruct (decide (x2e = c)) as [<-|Hne]; [by rewrite bool_decide_true|].
  rewrite bool_decide_false by done. destruct c; done.
Qed.

Lemma m_semver b s :
  m SEMVER caps b s k = match semver_at s with Some (x, r) => k caps (rev x ++ b) r | None => None end.
Proof.
  unfold SEMVER. rewrite m_Seq, m_digits; [unfold semver_at, core_at|].
  2: { intros ??? b' c z Hc. cbv beta. rewrite m_Seq, m_dot. unfold dot_at. by destruct c. }
  destruct (digits_at s) as [[d1 s1]|]; [|done]. rewrite m_Seq, m_dot. cbn [mbind option_bind].
  destruct (dot_at s1) as [s2|]; [|done]. rewrite m_Seq, m_digits; cbn [mbind option_bind].
  2: { intros ??? b' c z Hc. cbv beta. rewrite m_Seq, m_dot. unfold dot_at. by destruct c. }
  destruct (digits_at s2) as [[d2 s3]|]; [|done]. rewrite m_Seq, m_dot. cbn [mbind option_bind].
  destruct (dot_at s3) as [s4|]; [|done]. rewrite m_Seq, m_digits; cbn [mbind option_bind].
  2: { intros b' s' H b'' c z Hc. cbv beta in *. rewrite m_suffix in *. destruct (suffix_at s') as [t' r'].
       replace (suffix_at (c :: z)) with (@nil byte, c :: z) by (by destruct c). by eapply settled_digits. }
  destruct (digits_at s4) as [[d3 s5]|]; [|done]. rewrite m_suffix. simpl.
  destruct (suffix_at s5) as [t r]. f_equal. repeat (rewrite rev_app_distr || rewrite <-app_assoc || simpl). done.
Qed.
End Pattern.

Lemma v_not_digit s : headed is_digit s = false -> semver_at s = None.
Proof.
  intros H. unfold semver_at, core_at, digits_at. destruct s as [|c s]; [done|]. simpl in *. by rewrite H.
Qed.

Lemma m_v_semver {A} caps (k : list str -> str -> str -> option A) (Hk : settled caps k) b s :
  m (Seq optional_v SEMVER) caps b s k
  = match v_semver_at s with Some (x, r) => k caps (rev x ++ b) r | None => None end.
Proof.
  unfold optional_v. rewrite m_Seq, m_Opt, m_Lit, !m_semver by done. unfold v_semver_at.
  destruct s as [|c s]; [done|]. cbn [starts_with].
  destruct (decide (x76 = c)) as [<-|Hne].
  - rewrite bool_decide_true, (v_not_digit (x76 :: s)) by done. cbn [andb length drop]. rewrite drop_0.
    destruct (semver_at s) as [[x r]|]; simpl; [|done].
    rewrite <-app_assoc. by destruct (k caps _ r).
  - rewrite bool_decide_false by done. simpl. by destruct c.
Qed.

(** ** Reading around a version *)

(** Nothing that follows can be taken into a version without a suffix. *)
Definition closed (r : str) : bool := negb (headed is_digit r) && ((suffix_at r).1 === []).

Definition stable_version (v : str) : Prop := core_at v = Some (v, []).

Definition digit_or_dot (b : byte) : bool := is_digit b || (b === x2e).

Lemma digits_at_spec s d r : digits_at s = Some (d, r) <->
  s = d ++ r /\ d <> [] /\ Forall (fun c => is_digit c = true) d /\ headed is_digit r = false.
Proof.
  unfold digits_at. split.
  - destruct (span is_digit s) as [d' r'] eqn:E. apply span_split in E as (-> & Hd & Hr).
    destruct d'; [done|]. by intros [= <- <-].
  - intros (-> & Hne & Hd & Hr). rewrite span_over by done. by destruct d.
Qed.

Lemma digits_run d r : d <> [] -> Forall (fun c => is_digit c = true) d -> headed is_digit r = false ->
  digits_at (d ++ r) = Some (d, r).
Proof. intros. by apply digits_at_spec. Qed.

Lemma dot_at_spec s r : dot_at s = Some r <-> s = x2e :: r.
Proof. unfold dot_at. split; [destruct s as [|[] ?]; naive_solver|by intros ->]. Qed.

Lemma core_at_spec s x r : core_at s = Some (x, r) <->
  exists a b c, x = a ++ "." ++ b ++ "." ++ c /\ s = x ++ r /\ headed is_digit r = false /\
    Forall (fun d => d <> [] /\ Forall (fun c => is_digit c = true) d) [a; b; c].
Proof.
  unfold core_at. split.
  - destruct (digits_at s) as [[a s1]|] eqn:E1; [|done]. apply digits_at_spec in E1 as (-> & Ha & Fa & H1). simpl.
    destruct (dot_at s1) as [s2|] eqn:E2; [|done]. apply dot_at_spec in E2 as ->. simpl.
    destruct (digits_at s2) as [[b s3]|] eqn:E3; [|done]. apply digits_at_spec in E3 as (-> & Hb & Fb & H3). simpl.
    destruct (dot_at s3) as [s4|] eqn:E4; [|done]. apply dot_at_spec in E4 as ->. simpl.
    destruct (digits_at s4) as [[c s5]|] eqn:E5; [|done]. apply digits_at_spec in E5 as (-> & Hc & Fc & H5). simpl.
    intros [= <- <-]. exists a, b, c. split; [done|]. rewrite <-!app_assoc. simpl. rewrite <-!app_assoc. simpl. auto 10.
  - intros (a & b & c & -> & -> & Hr & F). rewrite !Forall_cons in F. destruct F as ([Ha Fa] & [Hb Fb] & [Hc Fc] & _).
    rewrite <-!app_assoc. simpl. rewrite digits_run by done. simpl.
    rewrite digits_run by done. simpl.
    by rewrite digits_run.
Qed.

Lemma core_chars x : stable_version x -> Forall (fun c => digit_or_dot c = true) x.
Proof.
  intros (a & b & c & -> & _ & _ & F)%core_at_spec. rewrite !Forall_cons in F.
  destruct F as ([_ Fa] & [_ Fb] & [_ Fc] & _). unfold digit_or_dot.
  assert (forall d, Forall (fun c => is_digit c = true) d -> Forall (fun c => is_digit c || (c === x2e) = true) d) as G
    by (intros d H; apply (Forall_impl _ _ _ H); by intros ? ->).
  repeat apply Forall_app_2; auto.
Qed.

Lemma core_at_split s x r : core_at s = Some (x, r) -> s = x ++ r /\ stable_version x /\ headed is_digit r = false.
Proof.
  intros (a & b & c & -> & -> & Hr & F)%core_at_spec. split; [done|]. split; [|done].
  apply core_at_spec. exists a, b, c. by rewrite app_nil_r.
Qed.

Lemma stable_app v r : stable_version v -> headed is_digit r = false -> core_at (v ++ r) = Some (v, r).
Proof.
  intros (a & b & c & Hv & _ & _ & F)%core_at_spec Hr. apply core_at_spec. exists a, b, c. auto.
Qed.

Lemma stable_nonempty v : stable_version v -> exists c v', v = c :: v' /\ is_digit c = true.
Proof.
  intros (a & b & c & -> & _ & _ & F)%core_at_spec. apply Forall_cons in F as [[Ha Fa] _].
  destruct a as [|d a]; [done|]. apply Forall_cons in Fa as [Hd _]. simpl. eauto.
Qed.

(** *** A core ends before the first character that is neither a digit nor a dot *)
Lemma core_local h e z : digit_or_dot e = false ->
  core_at (h ++ e :: z) = (fun p => (p.1, p.2 ++ e :: z)) <$> core_at h.
Proof.
  unfold digit_or_dot. intros [Hd He]%orb_false_iff.
  assert (forall h, digits_at (h ++ e :: z) = (fun p => (p.1, p.2 ++ e :: z)) <$> digits_at h) as D.
  { intros h'. unfold digits_at. rewrite span_local by done. by destruct (span is_digit h') as [[] ?]. }
  assert (forall h, dot_at (h ++ e :: z) = (fun r => r ++ e :: z) <$> dot_at h) as T.
  { intros [|[] ?]; try done. simpl. unfold dot_at. by destruct e. }
  unfold core_at. rewrite D. destruct (digits_at h) as [[a s1]|]; [|done]. simpl.
  rewrite T. destruct (dot_at s1) as [s2|]; [|done]. simpl.
  rewrite D. destruct (digits_at s2) as [[b s3]|]; [|done]. simpl.
  rewrite T. destruct (dot_at s3) as [s4|]; [|done]. simpl.
  rewrite D. by destruct (digits_at s4) as [[c s5]|].
Qed.

Lemma suffix_at_split s t r : suffix_at s = (t, r) -> s = t ++ r /\ Forall (fun c => sfx c = true) t /\
  (t <> [] -> headed sfx r = false).
Proof.
  unfold suffix_at. destruct s as [|c s]; [by intros [= <- <-]|]. destruct (decide (c = x2d)) as [->|Hne].
  - destruct (span sfx s) as [t' r'] eqn:E. apply span_split in E as (-> & Ht & Hr).
    destruct t' as [|d t']; intros [= <- <-]; [done|]. auto.
  - intros E. assert ((t, r) = ([], c :: s)) as [= -> ->] by (rewrite <- E; by destruct c). done.
Qed.

Lemma suffix_unheaded r : headed sfx r = false -> closed r = true.
Proof.
  unfold closed, suffix_at. destruct r as [|c r]; [done|]. simpl. intros H.
  destruct (is_digit c) eqn:E; [by rewrite digit_sfx in H|]. simpl. by destruct c.
Qed.

Lemma semver_at_split s x r : semver_at s = Some (x, r) ->
  s = x ++ r /\ closed r = true /\ Forall (fun c => sfx c = true) x /\ exists c t, x = c ++ t /\ stable_version c.
Proof.
  unfold semver_at. destruct (core_at s) as [[c r']|] eqn:E; [|done]. simpl.
  apply core_at_split in E as (-> & Hc & Hd). destruct (suffix_at r') as [t r''] eqn:Es. intros [= <- <-].
  pose proof (suffix_at_split _ _ _ Es) as (-> & Ht & Hr). rewrite app_assoc. split; [done|].
  split; [|split; [|eauto]].
  - destruct t as [|a t]; [|apply suffix_unheaded; by apply Hr]. simpl in *. unfold closed. by rewrite Hd, Es.
  - apply Forall_app. split; [|done]. eapply Forall_impl; [by apply core_chars|]. intros b. unfold digit_or_dot, sfx.
    intros [E|E]%orb_true_iff; rewrite E; [done|]. by rewrite !orb_true_r.
Qed.

Lemma stable_read v r : stable_version v -> closed r = true -> semver_at (v ++ r) = Some (v, r).
Proof.
  unfold closed. intros Hv [Hd Ht]%andb_true_iff. apply negb_true_iff in Hd. apply bool_decide_eq_true in Ht.
  unfold semver_at. rewrite stable_app by done. simpl. destruct (suffix_at r) as [t r'] eqn:E. simpl in Ht. subst t.
  apply suffix_at_split in E as (-> & _). by rewrite app_nil_r.
Qed.

Lemma stable_v_read v r : stable_version v -> closed r = true -> v_semver_at (v ++ r) = Some (v, r).
Proof.
  intros Hv Hr. rewrite <- (stable_read v r Hv Hr). destruct (stable_nonempty v Hv) as (c & v' & -> & Hc). by destruct c.
Qed.

Lemma v_semver_at_split s x r : v_semver_at s = Some (x, r) -> s = x ++ r /\ closed r = true.
Proof.
  unfold v_semver_at. intros H.
  assert (semver_at s = Some (x, r) \/ exists s' x', s = x76 :: s' /\ x = x76 :: x' /\ semver_at s' = Some (x', r)) as [G|G].
  { destruct s as [|c s]; [by left|]. destruct (decide (c = x76)) as [->|Hne]; [|left; by destruct c].
    right. destruct (semver_at s) as [[x' r']|] eqn:E; [|done]. injection H as <- <-. eauto. }
  - by apply semver_at_split in G as (-> & Hr & _).
  - destruct G as (s' & x' & -> & -> & (-> & Hr & _)%semver_at_split). done.
Qed.

(** *** Where a version is read does not depend on what comes after the next character that
    is neither a digit, a dot nor a [v] *)
Lemma semver_local h e z z' : digit_or_dot e = false ->
  is_Some (semver_at (h ++ e :: z)) -> is_Some (semver_at (h ++ e :: z')).
Proof.
  intros He. unfold semver_at. rewrite !core_local by done. destruct (core_at h) as [[c r]|]; simpl.
  - intros _. destruct (suffix_at _); eauto.
  - intros [? ?]. done.
Qed.

Lemma v_semver_local h e z z' : digit_or_dot e = false -> e <> x76 ->
  is_Some (v_semver_at (h ++ e :: z)) -> is_Some (v_semver_at (h ++ e :: z')).
Proof.
  intros He Hv. unfold v_semver_at. destruct h as [|c h]; simpl.
  - assert (forall z, semver_at (e :: z) = None) as G.
    { intros y. apply v_not_digit. simpl. unfold digit_or_dot in He. by apply orb_false_iff in He as [-> _]. }
    intros [? H]. destruct e; try done; rewrite G in H; done.
  - destruct (decide (c = x76)) as [->|Hne].
    + intros [[x r] H]. destruct (semver_local h e z z' He) as [[x' r'] ->]; [|by eexists].
      destruct (semver_at (h ++ e :: z)); [eauto|done].
    + intros H. assert (forall y, (match c :: h ++ e :: y with x76 :: s' => '(x, r) ← semver_at s'; Some (x76 :: x, r) | _ => semver_at (c :: h ++ e :: y) end) = semver_at ((c :: h) ++ e :: y)) as G by (intros; by destruct c).
      simpl in G. rewrite G in H |- *. by eapply (semver_local (c :: h)).
Qed.

(** ** The patterns of the script, read *)
Definition mod_lit (p : Plan) : str := (p_pinModule p ++ " ") ++ [x76].

Lemma exec_mod p b s : exec (modPattern p) b s =
  if starts_with (mod_lit p) s
  then match semver_at (drop (length (mod_lit p)) s) with
       | Some (x, rest) => Some {| h_caps := []; h_text := mod_lit p ++ x; h_rest := rest |}
       | None => None
       end
  else None.
Proof.
  apply (exec_reads _ SEMVER _ [] (fun _ => [])).
  - intros b' s' k. unfold modPattern, Esc, mod_lit. rewrite m_Seq, <-app_assoc, <-m_Lit_app.
    apply m_Lit_ext. intros b'' s''. rewrite m_Seq. by apply m_Lit_ext.
  - intros b' s' k Hk. apply m_semver. by left.
  - intros z x r. apply semver_at_split.
Qed.

Lemma exec_image c b s : exec (imagePattern c) b s =
  if starts_with (c ++ [x3a]) s
  then match v_semver_at (drop (length (c ++ [x3a])) s) with
       | Some (x, rest) => Some {| h_caps := [c ++ [x3a]]; h_text := (c ++ [x3a]) ++ x; h_rest := rest |}
       | None => None
       end
  else None.
Proof.
  apply (exec_reads _ (Seq optional_v SEMVER) _ [c ++ [x3a]] (fun _ => [c ++ [x3a]])).
  - intros b' s' k. unfold imagePattern. rewrite m_Seq, (m_Capture_Lit _ (c ++ [x3a])).
    + by apply m_Lit_ext.
    + intros k'. unfold Esc. by rewrite m_Seq, <-m_Lit_app.
  - intros b' s' k Hk. apply m_v_semver. by left.
  - intros z x r. apply v_semver_at_split.
Qed.

Lemma exec_found c b s : exec (foundPattern c) b s =
  if starts_with (c ++ [x3a]) s
  then match v_semver_at (drop (length (c ++ [x3a])) s) with
       | Some (x, rest) => Some {| h_caps := []; h_text := (c ++ [x3a]) ++ x; h_rest := rest |}
       | None => None
       end
  else None.
Proof.
  apply (exec_reads _ (Seq optional_v SEMVER) _ [] (fun _ => [])).
  - intros b' s' k. unfold foundPattern, Esc. rewrite m_Seq, <-m_Lit_app.
    apply m_Lit_ext. intros b'' s''. rewrite m_Seq. by apply m_Lit_ext.
  - intros b' s' k Hk. apply m_v_semver. by left.
  - intros z x r. apply v_semver_at_split.
Qed.

(** *** The workspace: a version between the module and the arrow *)
Definition ARROW : str := " => .".

Definition work_read (s : str) : option (str * str) :=
  match s with
  | x76 :: s' => '(x, r) ← semver_at s';
      if starts_with ARROW r then Some (x76 :: x ++ ARROW, drop (length ARROW) r) else None
  | _ => None
  end.

Definition work_lit (p : Plan) : str := ("replace " ++ p_pinModule p) ++ [x20].

Lemma work_read_spec s y r : work_read s = Some (y, r) <->
  exists x, s = x76 :: x ++ ARROW ++ r /\ y = x76 :: x ++ ARROW /\ semver_at (x ++ ARROW ++ r) = Some (x, ARROW ++ r).
Proof.
  unfold work_read. split.
  - destruct s as [|c s]; [done|]. destruct (decide (c = x76)) as [->|Hne]; [|by destruct c].
    destruct (semver_at s) as [[x q]|] eqn:E; [|done]. cbn [mbind option_bind].
    destruct (starts_with ARROW q) eqn:Ea; [|done]. apply starts_with_spec in Ea as [q' ->].
    rewrite (drop_app_length ARROW). intros [= <- <-]. exists x.
    pose proof (semver_at_split _ _ _ E) as (-> & _). done.
  - intros (x & -> & -> & E). rewrite E. cbn [mbind option_bind]. by rewrite starts_with_app, drop_app_length.
Qed.

(** The pattern with its second capture. *)
Lemma exec_work p b s : exec (workPattern p) b s =
  if starts_with (work_lit p) s
  then match work_read (drop (length (work_lit p)) s) with
       | Some (x, rest) => Some {| h_caps := [work_lit p; ARROW]; h_text := work_lit p ++ x; h_rest := rest |}
       | None => None
       end
  else None.
Proof.
  unfold exec. transitivity (m (Lit (work_lit p)) [] b s (fun _ b' s' =>
    m (Seq (Lit "v") (Seq SEMVER (Capture (Lit ARROW)))) [work_lit p] b' s' (fun caps _ s' =>
      Some {| h_caps := caps; h_text := take (length s - length s') s; h_rest := s' |}))).
  { unfold workPattern. rewrite m_Seq, (m_Capture_Lit _ (work_lit p)); [by apply m_Lit_ext|].
    intros k. unfold work_lit, Esc. rewrite m_Seq, <-app_assoc, <-m_Lit_app. apply m_Lit_ext.
    intros b' s'. by rewrite m_Seq, <-m_Lit_app. }
  rewrite m_Lit. destruct (starts_with (work_lit p) s) eqn:E; [|done].
  apply starts_with_spec in E as [z ->]. rewrite drop_app_length, m_Seq, m_Lit.
  destruct z as [|c z]; [done|]. cbn [starts_with]. destruct (decide (x76 = c)) as [<-|Hne].
  2: { rewrite bool_decide_false by done. by destruct c. }
  rewrite bool_decide_true by done. cbn [andb length drop]. rewrite drop_0, m_Seq, m_semver.
  - unfold work_read. destruct (semver_at z) as [[x q]|] eqn:Ex; [|done]. cbn [mbind option_bind].
    rewrite (m_Capture_Lit _ ARROW), m_Lit by done. destruct (starts_with ARROW q) eqn:Ea; [|done].
    apply starts_with_spec in Ea as [r ->]. apply semver_at_split in Ex as (-> & _).
    rewrite (drop_app_length ARROW). do 2 f_equal.
    transitivity (take (length ((work_lit p ++ x76 :: x ++ ARROW) ++ r) - length r) ((work_lit p ++ x76 :: x ++ ARROW) ++ r));
      [|apply taken].
    by rewrite <-!app_assoc, <-app_comm_cons, <-app_assoc.
  - right. intros b' d z' Hd. rewrite (m_Capture_Lit _ ARROW), m_Lit by done. by destruct d.
Qed.

(** ** The first match, replaced twice *)

Lemma suffix_local h e z : sfx e = false ->
  suffix_at (h ++ e :: z) = ((suffix_at h).1, (suffix_at h).2 ++ e :: z).
Proof.
  intros He. destruct h as [|c h]; [destruct e; done|]. simpl. destruct (decide (c = x2d)) as [->|Hne]; [|by destruct c].
  rewrite span_local by done. by destruct (span sfx h) as [[] ?].
Qed.

Lemma sfx_not_digit_or_dot e : sfx e = false -> digit_or_dot e = false.
Proof. by destruct e. Qed.

Lemma semver_ends h e z : sfx e = false ->
  semver_at (h ++ e :: z) = (fun p => (p.1, p.2 ++ e :: z)) <$> semver_at h.
Proof.
  intros He. unfold semver_at. rewrite core_local by (by apply sfx_not_digit_or_dot).
  destruct (core_at h) as [[c r]|]; [|done]. simpl. rewrite suffix_local by done. by destruct (suffix_at r).
Qed.

Lemma stable_plain v : stable_version v -> x24 ∉ v.
Proof. intros H Hin. pose proof (core_chars v H) as F. rewrite Forall_forall in F. by specialize (F _ Hin). Qed.

Lemma mod_twice p v s : p_pinVersion p = x76 :: v -> stable_version v -> x24 ∉ p_pinModule p ->
  replace (modPattern p) (pinned p) (replace (modPattern p) (pinned p) s) = replace (modPattern p) (pinned p) s.
Proof.
  intros Ep Hv Hm. apply (reads_twice _ _ (p_pinModule p ++ " ") x76 semver_at (fun _ => []) (fun _ => v)).
  - apply exec_mod.
  - intros z x r (_ & Hr & _)%semver_at_split. by apply stable_read.
  - intros _ _ rest hit b _. unfold pinned. rewrite Ep, expand_plain.
    + by rewrite <-!app_assoc.
    + pose proof (stable_plain v Hv). set_solver.
  - done.
  - intros h z z' _ _. by apply semver_local.
Qed.

Lemma image_twice c v s : stable_version v ->
  replace (imagePattern c) ("$1" ++ v) (replace (imagePattern c) ("$1" ++ v) s) = replace (imagePattern c) ("$1" ++ v) s.
Proof.
  intros Hv. apply (reads_twice _ _ c x3a v_semver_at (fun _ => [c ++ [x3a]]) (fun _ => v)).
  - apply exec_image.
  - intros z x r [_ Hr]%v_semver_at_split. by apply stable_v_read.
  - intros _ _ rest hit b _. rewrite (expand_ref _ _ _ _ x31 0 (c ++ [x3a])) by (done || simpl; lia).
    by rewrite expand_plain by (by apply stable_plain).
  - done.
  - intros h z z' _ _. by apply v_semver_local.
Qed.

Lemma arrow_local r y : starts_with ARROW (r ++ x20 :: x76 :: y) = true -> starts_with ARROW r = true.
Proof.
  intros H. do 5 (destruct r as [|? r]; [by simpl in H; repeat (case_bool_decide; simplify_eq; simpl in H)|]).
  simpl in *. done.
Qed.

Lemma work_twice p v s : p_pinVersion p = x76 :: v -> stable_version v -> x24 ∉ p_pinModule p ->
  let tpl := "$1" ++ p_pinVersion p ++ "$2" in
  replace (workPattern p) tpl (replace (workPattern p) tpl s) = replace (workPattern p) tpl s.
Proof.
  intros Ep Hv Hm tpl.
  apply (reads_twice _ _ ("replace " ++ p_pinModule p) x20 work_read (fun _ => [work_lit p; ARROW]) (fun _ => x76 :: v ++ ARROW)).
  - apply exec_work.
  - intros z y r (x & -> & -> & E)%work_read_spec. apply work_read_spec. exists v.
    split; [by rewrite <-app_comm_cons, <-app_assoc|]. split; [done|].
    apply semver_at_split in E as (_ & Hr & _). by apply stable_read.
  - intros _ _ rest hit b _. unfold tpl. rewrite Ep.
    rewrite (expand_ref _ _ _ _ x31 0 (work_lit p)) by (done || simpl; lia).
    rewrite expand_plain_app by (pose proof (stable_plain v Hv); set_solver).
    replace (expand [work_lit p; ARROW] hit b rest "$2") with ARROW; [done|].
    symmetry. apply (expand_ref [work_lit p; ARROW] hit b rest x32 1 ARROW []); simpl; done || lia.
  - done.
  - intros h z z' [[y r] (x & -> & _)%work_read_spec] [[y' r'] (x' & -> & _)%work_read_spec].
    destruct h as [|c h]; [by intros [??]|]. intros [[y'' r''] H].
    apply work_read_spec in H as (x'' & E0 & _ & E).
    assert (c = x76) as -> by (by injection E0). rewrite <-app_comm_cons in *. apply (f_equal (drop 1)) in E0. cbn [drop] in E0. rewrite !drop_0 in E0.
    rewrite <- E0 in E. cbn [work_read]. rewrite semver_ends in E |- * by done.
    destruct (semver_at h) as [[w q]|]; [|done]. cbn [fmap option_fmap option_map fst snd mbind option_bind] in E |- *.
    assert (q ++ x20 :: x76 :: x' ++ ARROW ++ r' = ARROW ++ r'') as E1 by congruence.
    assert (starts_with ARROW q = true) as Hq.
    { eapply arrow_local. rewrite E1. apply starts_with_app. }
    apply starts_with_spec in Hq as [q' ->]. rewrite <-app_assoc, (starts_with_app ARROW). by eexists.
Qed.
