(* ===== verification/PlanTexts.v ===== *)
(** * The texts a plan edits, edited twice

    The edits of [apply-release-plan.mjs] that are not one version behind one literal: the
    compatibility field, the fields and images of the chart, the badges of its README, and
    the images the documentation names. Each is shown to leave its own result alone. *)

From stdpp Require Import base list sets.
From Stdlib Require Import Init.Byte ZArith Lia.
From S2P Require Import Prelude Regex Release ApplyPlan SemverText.

(** ** White space *)
Inductive blank : str -> Prop :=
  | blank_nil : blank []
  | blank_cons w a : w ∈ js_whitespace -> blank a -> blank (w ++ a).

Fixpoint blank_span (fuel : nat) (s : str) : str * str :=
  match fuel with
  | O => ([], s)
  | S f => match space_at s with
           | Some w => let '(a, r) := blank_span f (drop (length w) s) in (w ++ a, r)
           | None => ([], s)
           end
  end.

Lemma starts_with_local w h e z : e ∉ w -> starts_with w (h ++ e :: z) = starts_with w h.
Proof.
  revert h. induction w as [|c w IH]; intros h; [done|]. intros [Hc Hw]%not_elem_of_cons.
  destruct h as [|d h]; simpl; [by rewrite bool_decide_false by congruence|]. by rewrite IH.
Qed.

Definition not_blank (e : byte) : bool := forallb (fun w => negb (existsb (fun d => d === e) w)) js_whitespace.

Lemma not_blank_spec e w : not_blank e = true -> w ∈ js_whitespace -> e ∉ w.
Proof.
  unfold not_blank. rewrite List.forallb_forall. intros H Hw Hin. apply list_elem_of_In in Hw. apply H in Hw.
  apply negb_true_iff in Hw. assert (existsb (fun d => d === e) w = true) as E; [|congruence].
  apply existsb_exists. exists e. split; [by apply list_elem_of_In|apply eqb_refl].
Qed.

Lemma find_ext {A} (f g : A -> bool) l : (forall x, x ∈ l -> f x = g x) -> List.find f l = List.find g l.
Proof.
  induction l as [|x l IH]; intros H; [done|]. simpl. rewrite (H x) by set_solver.
  rewrite IH by set_solver. done.
Qed.

Lemma space_at_local h e z : not_blank e = true -> space_at (h ++ e :: z) = space_at h.
Proof. intros He. apply find_ext. intros w Hw. apply starts_with_local. by eapply not_blank_spec. Qed.

Lemma space_length w : w ∈ js_whitespace -> 0 < length w.
Proof.
  intros H. assert (forallb (fun w => 0 <? length w) js_whitespace = true) as E by (vm_compute; reflexivity).
  rewrite List.forallb_forall in E. by apply Nat.ltb_lt, E, list_elem_of_In.
Qed.

Lemma space_at_in s w : space_at s = Some w -> w ∈ js_whitespace.
Proof. intros [H _]%List.find_some. by apply list_elem_of_In. Qed.

Lemma blank_span_spec f s a r : blank_span f s = (a, r) -> s = a ++ r /\ blank a /\ (length s <= f -> space_at r = None).
Proof.
  revert s a r. induction f as [|f IH]; intros s a r; simpl.
  - intros [= <- <-]. split_and!; [done|constructor|]. destruct s; simpl; [done|lia].
  - destruct (space_at s) as [w|] eqn:E; [|intros [= <- <-]; split_and!; [done|constructor|done]].
    destruct (blank_span f (drop (length w) s)) as [a' r'] eqn:Eb. intros [= <- <-].
    destruct (IH _ _ _ Eb) as (Hs & Ha & Hr). pose proof (space_at_in _ _ E) as Hw.
    split_and!; [by rewrite <-app_assoc, <-Hs, <-space_at_app|by constructor|].
    intros Hl. apply Hr. rewrite length_drop. pose proof (space_length _ Hw). lia.
Qed.

(** No white space is the beginning of another, so a text has one reading. *)
Lemma space_at_ws w a : w ∈ js_whitespace -> space_at (w ++ a) = Some w.
Proof.
  revert w. apply Forall_forall. unfold js_whitespace. repeat (apply Forall_cons_2; [reflexivity|]). apply Forall_nil_2.
Qed.

Lemma blank_chars a e : blank a -> not_blank e = true -> e ∉ a.
Proof.
  intros Ha He. induction Ha as [|w a Hw Ha IH]; [by apply not_elem_of_nil|].
  rewrite elem_of_app. intros [H | H]; [by eapply not_blank_spec|done].
Qed.

(** The whitespace before a character that is not blank is read whole. *)
Lemma blank_span_app a e z f : blank a -> not_blank e = true -> length a <= f -> blank_span f (a ++ e :: z) = (a, e :: z).
Proof.
  intros Ha He. revert f. induction Ha as [|w a Hw Ha IH]; intros f Hf.
  - destruct f; simpl; [done|]. by rewrite (space_at_local [] e z He : space_at (e :: z) = space_at []).
  - pose proof (space_length w Hw). rewrite length_app in Hf. destruct f as [|f]; [lia|]. simpl.
    rewrite <-app_assoc, space_at_ws, drop_app_length by done. by rewrite IH by lia.
Qed.

Lemma spaces_run {A} f caps b s (k : list str -> str -> str -> option A) a r :
  (forall b s, space_at s <> None -> k caps b s = None) ->
  blank_span f s = (a, r) -> spaces f caps b s k = k caps (rev a ++ b) r.
Proof.
  intros Hk. revert b s a r. induction f as [|f IH]; intros b s a r; simpl; [by intros [= <- <-]|].
  destruct (space_at s) as [w|] eqn:E; [|by intros [= <- <-]].
  destruct (blank_span f (drop (length w) s)) as [a' r'] eqn:Eb. intros [= <- <-].
  rewrite (IH _ _ _ _ Eb), (Hk b s) by congruence. rewrite rev_app_distr, <-app_assoc.
  by destruct (k caps _ r').
Qed.

(** ** The compatibility field *)
Definition compat_read (z : str) : option (str * str) :=
  match blank_span (length z) z with
  | (a, x22 :: q) => match cut x22 q with
                     | (v, Some rest) => Some (a ++ [x22] ++ v ++ [x22], rest)
                     | _ => None
                     end
  | _ => None
  end.

Lemma compat_read_spec z x rest : compat_read z = Some (x, rest) <->
  exists a v, z = x ++ rest /\ x = a ++ [x22] ++ v ++ [x22] /\ blank a /\ x22 ∉ v.
Proof.
  unfold compat_read. split.
  - destruct (blank_span (length z) z) as [a r] eqn:E. apply blank_span_spec in E as (-> & Ha & _).
    destruct r as [|c q]; [done|]. destruct (decide (c = x22)) as [->|Hne]; [|by destruct c].
    destruct (cut x22 q) as [v [t|]] eqn:Ec; [|done]. apply cut_inv in Ec as [Hv ->]. intros [= <- <-].
    exists a, v. split_and!; try done. by rewrite <-app_assoc; simpl; rewrite <-app_assoc.
  - intros (a & v & -> & -> & Ha & Hv). rewrite <-!app_assoc. simpl. rewrite blank_span_app, cut_some; try done.
    rewrite length_app. lia.
Qed.

(** The white space a reading starts with. *)
Definition blank_of (x : str) : str := (blank_span (length x) x).1.

Lemma blank_of_app a r : blank a -> blank_of (a ++ x22 :: r) = a.
Proof. intros Ha. unfold blank_of. rewrite blank_span_app; [done..|]. rewrite length_app. lia. Qed.

Lemma exec_compat b s : exec compatPattern b s =
  if starts_with ("pactoCore" ++ [x3a]) s
  then match compat_read (drop (length ("pactoCore" ++ [x3a])) s) with
       | Some (x, rest) => Some {| h_caps := [("pactoCore" ++ [x3a]) ++ blank_of x];
                                   h_text := ("pactoCore" ++ [x3a]) ++ x; h_rest := rest |}
       | None => None
       end
  else None.
Proof.
  unfold exec, compatPattern. rewrite m_Seq, m_Capture, m_Seq, m_Lit. simpl ("pactoCore" ++ [x3a]).
  destruct (starts_with "pactoCore:" s) eqn:E; [|done]. apply starts_with_spec in E as [z ->].
  rewrite (drop_app_length "pactoCore:"). unfold compat_read. cbn [m].
  destruct (blank_span (length z) z) as [a r] eqn:Ez. erewrite spaces_run; [|intros b' s' Hs|exact Ez].
  2: { cbn [m Lit foldr]. destruct s' as [|c s']; [done|]. case_bool_decide; [|done]. subst. by destruct Hs. }
  apply blank_span_spec in Ez as (-> & Ha & _). rewrite (app_assoc _ a r), taken.
  rewrite (m_Lit [x22]). destruct r as [|c q]; [done|]. cbn [starts_with]. destruct (decide (x22 = c)) as [<-|Hne].
  2: { rewrite bool_decide_false by done. by destruct c. }
  rewrite bool_decide_true by done. cbn [andb length drop]. rewrite drop_0.
  destruct (span not_quote q) as [v t] eqn:Eq. rewrite (star_run _ _ _ _ _ _ _ Eq).
  - apply span_split in Eq as (-> & Hv & Ht).
    assert (x22 ∉ v) as Hn by (intros Hin; rewrite Forall_forall in Hv; by specialize (Hv _ Hin)).
    rewrite m_Lit. destruct t as [|d t]; simpl; [by rewrite app_nil_r, cut_none|].
    assert (d = x22) as -> by (simpl in Ht; unfold not_quote in Ht; by case_bool_decide).
    rewrite drop_0, cut_some, blank_of_app by done. do 2 f_equal.
    pose proof (taken ("pactoCore:" ++ a ++ x22 :: v ++ [x22]) t) as G. simpl in G.
    rewrite <-!app_assoc in G. simpl in G. by rewrite <-app_assoc in G.
  - intros _ b' d z' Hd. rewrite m_Lit. simpl. unfold not_quote in Hd. case_bool_decide; [done|].
    by rewrite bool_decide_false by congruence.
Qed.

(** Where a reading runs into another field, what that field holds does not matter. *)
Lemma compat_local h z z' : is_Some (compat_read z) -> is_Some (compat_read z') ->
  is_Some (compat_read (h ++ x3a :: z')) -> is_Some (compat_read (h ++ x3a :: z)).
Proof.
  intros [[x rest] (a & v & Ez & -> & Ha & Hv)%compat_read_spec] _ [[x' rest'] H'].
  unfold compat_read in H' |- *.
  destruct (blank_span (length (h ++ x3a :: z')) (h ++ x3a :: z')) as [a1 r1] eqn:E1.
  destruct r1 as [|c q]; [done|]. destruct (decide (c = x22)) as [->|Hne]; [|by destruct c]. clear H'.
  apply blank_span_spec in E1 as (E & Ha1 & _).
  assert (exists h', h = a1 ++ x22 :: h') as [h' ->].
  { destruct (app_eq_inv _ _ _ _ E) as [(k & -> & Ek) | (k & -> & Ek)]; destruct k as [|d k]; simplify_eq/=; [eauto|].
    exfalso. apply (blank_chars _ x3a Ha1 eq_refl). set_solver. }
  rewrite <-app_assoc. simpl. rewrite blank_span_app by (done || rewrite !length_app; lia).
  destruct (cut x22 (h' ++ x3a :: z)) as [v1 [t|]] eqn:Ec; [eauto|]. exfalso.
  apply cut_inv in Ec as [Hn E2]. apply Hn. rewrite app_nil_r in E2. subst v1. rewrite Ez. set_solver.
Qed.

Lemma compat_twice v s : x22 ∉ v -> x24 ∉ v ->
  let tpl := "$1" ++ quoted v in
  replace compatPattern tpl (replace compatPattern tpl s) = replace compatPattern tpl s.
Proof.
  intros Hv Hd tpl.
  apply (reads_twice _ _ "pactoCore" x3a compat_read (fun x => [("pactoCore" ++ [x3a]) ++ blank_of x])
           (fun x => blank_of x ++ quoted v)).
  - apply exec_compat.
  - intros z x rest (a & w & -> & -> & Ha & Hw)%compat_read_spec. simpl. rewrite blank_of_app by done.
    apply compat_read_spec. by exists a, v.
  - intros z x rest hit b (a & w & -> & -> & Ha & Hw)%compat_read_spec. unfold tpl.
    rewrite (expand_ref _ _ _ _ x31 0 (("pactoCore" ++ [x3a]) ++ blank_of (a ++ [x22] ++ w ++ [x22]))) by (done || simpl; lia).
    rewrite expand_plain by (unfold quoted; set_solver). by rewrite <-!app_assoc.
  - intros z x rest (a & w & -> & -> & Ha & Hw)%compat_read_spec. simpl. rewrite blank_of_app by done. unfold quoted. simpl. by rewrite blank_of_app.
  - apply compat_local.
Qed.

(** ** The images of the documentation

    The check after the edit looks for every image again; once it passes, the edit has
    nothing left to change. *)
Lemma matchAll_ext r r' s :
  (forall b s, h_text <$> exec r b s = h_text <$> exec r' b s) -> matchAll r s = matchAll r' s.
Proof.
  intros H. unfold matchAll. generalize (@nil byte) as b, 0 as n. induction s as [|c s IH]; intros b n; [done|].
  destruct n as [|n]; cbn [matchAll_from]; [|apply IH]. specialize (H b (c :: s)).
  destruct (exec r b (c :: s)), (exec r' b (c :: s)); simplify_eq/=; [|apply IH].
  rewrite H. f_equal. apply IH.
Qed.

Lemma image_found c s : matchAll (imagePattern c) s = matchAll (foundPattern c) s.
Proof.
  apply matchAll_ext. intros b s'. rewrite exec_image, exec_found. destruct (starts_with _ s'); [|done].
  by destruct (v_semver_at _) as [[??]|].
Qed.

Lemma image_nonempty c b s h : exec (imagePattern c) b s = Some h -> h_text h <> [].
Proof.
  rewrite exec_image. destruct (starts_with _ s); [|done]. destruct (v_semver_at _) as [[x r]|]; [|done].
  intros [= <-]. simpl. by destruct c.
Qed.

Lemma image_fixed c tag s : x24 ∉ tag -> Forall (eq (c ++ ":" ++ tag)) (matchAll (foundPattern c) s) ->
  replaceAll (imagePattern c) ("$1" ++ tag) s = s.
Proof.
  intros Ht H. eapply replaceAll_fixed; [apply image_nonempty| |by rewrite image_found].
  intros b s' h E _. rewrite exec_image in E. destruct (starts_with _ s'); [|done].
  destruct (v_semver_at _) as [[x r]|]; [|done]. injection E as <-. cbn [h_caps h_text h_rest].
  rewrite (expand_ref _ _ _ _ x31 0 (c ++ [x3a])) by (done || simpl; lia).
  by rewrite expand_plain, <-app_assoc.
Qed.

Lemma pageText_fixed imgs s :
  Forall (fun a => x24 ∉ a.2 /\ Forall (eq (a.1 ++ ":" ++ a.2)) (matchAll (foundPattern a.1) s)) imgs ->
  pageText imgs s = s.
Proof.
  unfold pageText. induction 1 as [|a imgs [Ht Ha] _ IH]; [done|]. cbn [fold_left]. by rewrite image_fixed.
Qed.

(** A pattern made of [esc(s)] matches [s] and nothing else. *)
Lemma literal_esc s : literal (esc s) = Some s.
Proof.
  induction s as [|c s IH]; [done|]. unfold esc in *. rewrite bind_cons.
  destruct (existsb (fun d => c === d) specials) eqn:E.
  - cbn [app literal]. rewrite eqb_refl. cbn [literal]. by rewrite E, IH.
  - cbn [app literal]. rewrite E, IH. rewrite bool_decide_false; [done|]. intros ->. done.
Qed.
