(* ===== verification/ApplyAgain.v ===== *)
(** * Applying a release plan again

    The header of [apply-release-plan.mjs] promises that a second run leaves the tree as it
    is. A run is a sequence of sections, each reading and writing its own files; a section is
    [settled] by a run of itself, and stays so while its files do. The sections of the chart and
    its README make several edits each to one text; for these it is shown that a second run
    edits nothing else. *)

From stdpp Require Import base list sets.
From Stdlib Require Import Init.Byte ZArith Lia.
From S2P Require Import Prelude Uri Paging Canonical Regex Release ApplyPlan SemverText PlanTexts.

(** ** Runs that change nothing *)
Definition quiet {A} (x : Run A) (a : A) (F : list (str * str)) : Prop :=
  forall c, x {| files := F; changed := c |} = ({| files := F; changed := c |}, Done a).

(** A computation that does not look at the tree. *)
Definition pure {A} (x : Run A) : Prop := exists o, forall t, x t = (t, o).

Lemma pure_ret {A} (a : A) : pure (ret a).
Proof. by exists (Done a). Qed.
Lemma pure_fail {A} (msg : str) : pure (fail (A:=A) msg).
Proof. by exists (Fail msg). Qed.
Lemma pure_assert c msg : pure (assert c msg).
Proof. destruct c; [apply pure_ret|apply pure_fail]. Qed.
Lemma pure_of_option {A} (o : option A) : pure (of_option o).
Proof. destruct o; [apply pure_ret|apply pure_fail]. Qed.
Lemma pure_bind {A B} (x : Run A) (f : A -> Run B) : pure x -> (forall a, pure (f a)) -> pure (bind x f).
Proof.
  intros [[a|msg] Hx] Hf.
  - destruct (Hf a) as [o Ho]. exists o. intros t. unfold bind. by rewrite Hx, Ho.
  - exists (Fail msg). intros t. unfold bind. by rewrite Hx.
Qed.
Lemma pure_each {A} (f : A -> Run unit) l : (forall a, pure (f a)) -> pure (each f l).
Proof. intros H. induction l; [apply pure_ret|]. by apply pure_bind. Qed.

#[local] Hint Resolve pure_ret pure_assert pure_of_option pure_bind pure_each : core.

Lemma pure_quiet {A} (x : Run A) t t' a F : pure x -> x t = (t', Done a) -> t' = t /\ quiet x a F.
Proof. intros [o Ho] E. rewrite Ho in E. simplify_eq. split; [done|]. intros c. apply Ho. Qed.

Lemma bind_Done {A B} (x : Run A) (f : A -> Run B) t t' b :
  bind x f t = (t', Done b) -> exists t1 a, x t = (t1, Done a) /\ f a t1 = (t', Done b).
Proof. unfold bind. destruct (x t) as [t1 [a|msg]]; [eauto|done]. Qed.

Lemma quiet_bind {A B} (x : Run A) (f : A -> Run B) a b F : quiet x a F -> quiet (f a) b F -> quiet (bind x f) b F.
Proof. intros Hx Hf c. unfold bind. by rewrite Hx, Hf. Qed.

(** ** Sections *)
Definition same_on (ps : list str) (F F' : list (str * str)) : Prop := forall q, q ∈ ps -> assoc q F = assoc q F'.

(** A section that reads and writes the files [ps] only, is brought by a successful run
    (from a tree on which [pre] holds) to a tree on which it is calm, and is calm while
    [ps] keep their texts. *)
Record settles (ps : list str) (pre calm : list (str * str) -> Prop) (x : Run unit) : Prop := {
  s_frame : forall t t', x t = (t', Done tt) -> forall q, q ∉ ps -> assoc q (files t') = assoc q (files t);
  s_calm : forall t t', pre (files t) -> x t = (t', Done tt) -> calm (files t');
  s_quiet : forall F, calm F -> quiet x tt F;
  s_keeps : forall F F', calm F -> same_on ps F F' -> calm F';
  s_pre : forall F F', pre F -> same_on ps F F' -> pre F' }.

Lemma same_on_app ps1 ps2 F F' : same_on (ps1 ++ ps2) F F' -> same_on ps1 F F' /\ same_on ps2 F F'.
Proof. unfold same_on. set_solver. Qed.

Lemma settles_then ps1 ps2 pre1 pre2 calm1 calm2 x y : Forall (fun q => q ∉ ps2) ps1 ->
  settles ps1 pre1 calm1 x -> settles ps2 pre2 calm2 y ->
  settles (ps1 ++ ps2) (fun F => pre1 F /\ pre2 F) (fun F => calm1 F /\ calm2 F) (bind x (fun _ => y)).
Proof.
  intros Hd Hx Hy. rewrite Forall_forall in Hd. split.
  - intros t t' H q Hq. apply bind_Done in H as (t1 & [] & E1 & E2). rewrite elem_of_app in Hq.
    rewrite (s_frame _ _ _ _ Hy _ _ E2) by tauto. apply (s_frame _ _ _ _ Hx _ _ E1). tauto.
  - intros t t' [P1 P2] H. apply bind_Done in H as (t1 & [] & E1 & E2). split.
    + eapply (s_keeps _ _ _ _ Hx); [by eapply (s_calm _ _ _ _ Hx)|].
      intros q Hq. symmetry. apply (s_frame _ _ _ _ Hy _ _ E2). auto.
    + eapply (s_calm _ _ _ _ Hy); [|done]. eapply (s_pre _ _ _ _ Hy); [done|].
      intros q Hq. symmetry. apply (s_frame _ _ _ _ Hx _ _ E1). intros H1. by eapply Hd.
  - intros F [C1 C2]. eapply quiet_bind; [by eapply (s_quiet _ _ _ _ Hx)|by eapply (s_quiet _ _ _ _ Hy)].
  - intros F F' [C1 C2] [S1 S2]%same_on_app. split; [by eapply (s_keeps _ _ _ _ Hx)|by eapply (s_keeps _ _ _ _ Hy)].
  - intros F F' [P1 P2] [S1 S2]%same_on_app. split; [by eapply (s_pre _ _ _ _ Hx)|by eapply (s_pre _ _ _ _ Hy)].
Qed.

(** A step that does not look at the tree settles at once. *)
Lemma settles_pure x : pure x -> settles [] (fun _ => True) (fun F => quiet x tt F) x.
Proof.
  intros Hx. split; auto.
  - intros t t' E q _. by destruct (pure_quiet _ _ _ _ [] Hx E) as [-> _].
  - intros t t' _ E. by destruct (pure_quiet _ _ _ _ (files t') Hx E).
  - intros F F' Q _ c. destruct Hx as [o Ho]. specialize (Q c). rewrite Ho in Q |- *. congruence.
Qed.

(** *** An edit and the assertions on its result *)
Lemma edit_spec rel fn t t' after : edit rel fn t = (t', Done after) ->
  exists before, assoc rel (files t) = Some before /\ after = fn before /\
    files t' = (if after === before then files t else map_set rel after (files t)).
Proof.
  intros H. apply bind_Done in H as (t1 & before & E1 & H). unfold readFile in E1.
  destruct (assoc rel (files t)) as [b|] eqn:Eb; [|done]. injection E1 as <- <-. exists b. split; [done|].
  apply bind_Done in H as (t2 & [] & E2 & E3). unfold ret in E3. injection E3 as -> <-. split; [done|].
  case_bool_decide; simpl in E2; [by injection E2 as <-|].
  unfold bind, writeFile, push_changed in E2. simpl in E2. by injection E2 as <-.
Qed.

Lemma edit_quiet rel fn s F : assoc rel F = Some s -> fn s = s -> quiet (edit rel fn) s F.
Proof. intros E Hs c. unfold edit, bind, readFile. simpl. by rewrite E, Hs, eqb_refl. Qed.

Lemma edit_leaves rel fn t t' after : edit rel fn t = (t', Done after) ->
  assoc rel (files t') = Some after /\ forall q, q <> rel -> assoc q (files t') = assoc q (files t).
Proof.
  intros (s & Es & Ha & ->)%edit_spec. case_bool_decide as Hb; [subst; by rewrite Hb, Es in *|].
  split; [|intros q Hq]; rewrite assoc_map_set; [by rewrite eqb_refl|by rewrite bool_decide_false].
Qed.

Lemma settles_edit rel fn (check : str -> Run unit) : (forall s, pure (check s)) ->
  settles [rel] (fun F => forall s, assoc rel F = Some s -> quiet (check (fn s)) tt [] -> fn (fn s) = fn s)
    (fun F => exists s, assoc rel F = Some s /\ fn s = s /\ quiet (check s) tt F)
    (bind (edit rel fn) check).
Proof.
  intros Hc. split.
  - intros t t' H q Hq. apply bind_Done in H as (t1 & after & E1 & E2). apply edit_leaves in E1 as [_ Hf].
    destruct (pure_quiet _ _ _ _ [] (Hc after) E2) as [-> _]. apply Hf. set_solver.
  - intros t t' P H. apply bind_Done in H as (t1 & after & E1 & E2). pose proof (edit_leaves _ _ _ _ _ E1) as [Ha _].
    destruct (edit_spec _ _ _ _ _ E1) as (s & Es & -> & _).
    destruct (pure_quiet _ _ _ _ [] (Hc (fn s)) E2) as [-> Q]. exists (fn s).
    split; [done|]. split; [by apply P|]. by destruct (pure_quiet _ _ _ _ (files t1) (Hc (fn s)) E2).
  - intros F (s & Es & Hs & Q). eapply quiet_bind; [by apply edit_quiet|done].
  - intros F F' (s & Es & Hs & Q) Hf. exists s. rewrite <- (Hf rel) by set_solver. split_and!; [done..|].
    intros c. destruct (Hc s) as [o Ho]. specialize (Q c). rewrite Ho in Q |- *. congruence.
  - intros F F' P Hf s. rewrite <- (Hf rel) by set_solver. apply P.
Qed.

(** ** The sections of the script *)

Lemma quiet_bind_inv {B} (x : Run unit) (f : unit -> Run B) b F : pure x -> quiet (bind x f) b F ->
  quiet x tt F /\ quiet (f tt) b F.
Proof.
  intros [o Ho] Q. destruct o as [[]|msg].
  - split; intros c; [apply Ho|]. specialize (Q c). unfold bind in Q. by rewrite Ho in Q.
  - specialize (Q []). unfold bind in Q. by rewrite Ho in Q.
Qed.

Lemma quiet_each {A} (f : A -> Run unit) l F : (forall a, pure (f a)) -> quiet (each f l) tt F ->
  Forall (fun a => quiet (f a) tt F) l.
Proof.
  intros Hf. induction l as [|a l IH]; [constructor|]. cbn [each]. intros [Q1 Q2]%quiet_bind_inv; auto.
Qed.

Lemma quiet_assert c msg F : quiet (assert c msg) tt F -> c = true.
Proof. intros Q. specialize (Q []). by destruct c. Qed.

(** The plans the script is for: a stable pin, and texts that are no template. *)
Definition stable_plan (p : Plan) : Prop :=
  (exists v, p_pinVersion p = x76 :: v /\ stable_version v) /\ x24 ∉ p_pinModule p /\
  x22 ∉ p_pactoCore p /\ x24 ∉ p_pactoCore p /\ Forall (fun a => x24 ∉ a.2) (images p).

Lemma settles_weaken ps (pre : list (str * str) -> Prop) calm x : (forall F, pre F) -> settles ps pre calm x ->
  settles ps (fun _ => True) calm x.
Proof. intros H [H1 H2 H3 H4 H5]. split; eauto. Qed.

Section Sections.
Context (p : Plan) (Hp : stable_plan p).

Lemma settles_goMod : exists calm, settles [GO_MOD] (fun _ => True) calm (pinGoMod p).
Proof.
  destruct Hp as ((v & Ev & Hv) & Hm & _). eexists. eapply settles_weaken.
  2: { apply settles_edit. intros s. apply pure_bind; [auto|]. intros _. by destruct (p_assertNoReplace p); auto. }
  intros F s _ _. by eapply mod_twice.
Qed.

Lemma settles_goWork : exists calm, settles [GO_WORK] (fun _ => True) calm (pinGoWork p).
Proof.
  destruct Hp as ((v & Ev & Hv) & Hm & _). eexists. eapply settles_weaken.
  2: { apply settles_edit. auto. }
  intros F s _ _. by eapply work_twice.
Qed.

Lemma settles_compat : exists calm, settles [INTEGRATION] (fun _ => True) calm (pinCompat p).
Proof.
  destruct Hp as (_ & _ & Hq & Hd & _). eexists. eapply settles_weaken.
  2: { apply settles_edit. auto. }
  intros F s _ _. by apply compat_twice.
Qed.

Lemma settles_page rel : exists calm, settles [rel] (fun _ => True) calm (pinPage (images p) rel).
Proof.
  destruct Hp as (_ & _ & _ & _ & Hi). eexists. eapply settles_weaken.
  2: { apply settles_edit. auto. }
  intros F s _ Q. apply pageText_fixed. apply quiet_each in Q; [|auto]. cbv beta in Q.
  rewrite Forall_forall in Q, Hi. apply Forall_forall. intros a Ha. split; [auto|].
  specialize (Q a Ha). apply quiet_each in Q; [|auto]. eapply Forall_impl; [exact Q|].
  intros found E%quiet_assert. apply bool_decide_eq_true in E. done.
Qed.

Lemma settles_pages : exists calm, settles pages (fun _ => True) calm (each (pinPage (images p)) pages).
Proof.
  assert (forall l, NoDup l -> exists calm, settles l (fun _ => True) calm (each (pinPage (images p)) l)) as G.
  { induction 1 as [|rel l Hn _ [calm IH]].
    - eexists. apply settles_pure, pure_ret.
    - destruct (settles_page rel) as [calm' H']. eexists. cbn [each].
      eapply settles_weaken; [|apply (settles_then [rel] l); [by constructor|done..]]. done. }
  apply G. by_decide.
Qed.
End Sections.

Lemma settles_hub : exists calm, settles [HUB] (fun _ => True) calm checkHub.
Proof.
  exists (fun F => exists s, assoc HUB F = Some s /\ includes "repositoryID:" s = true). split; try done.
  - intros t t' E q _. unfold checkHub in E. destruct (assoc HUB (files t)) as [s|]; [|done].
    destruct (includes _ s); by injection E as <-.
  - intros t t' _ E. unfold checkHub in E. destruct (assoc HUB (files t)) as [s|] eqn:Es; [|done].
    destruct (includes _ s) eqn:Ei; [|done]. injection E as <-. eauto.
  - intros F (s & Es & Ei) c. unfold checkHub. simpl. by rewrite Es, Ei.
  - intros F F' (s & Es & Ei) Hf. exists s. by rewrite <- (Hf HUB) by set_solver.
Qed.

Lemma settles_manifest p uc : exists calm, settles [MANIFEST] (fun _ => True) calm (writeManifest p uc).
Proof.
  exists (fun F => assoc MANIFEST F = Some (manifestText p uc)). unfold writeManifest. split; try done.
  - intros t t' E q Hq. case_bool_decide; [by injection E as <-|].
    unfold bind, writeFile, push_changed in E. injection E as <-. simpl. rewrite assoc_map_set.
    by rewrite bool_decide_false by set_solver.
  - intros t t' _ E. case_bool_decide as Hm; [by injection E as <-|].
    unfold bind, writeFile, push_changed in E. injection E as <-. simpl. by rewrite assoc_map_set, eqb_refl.
  - intros F E c. simpl. by rewrite bool_decide_true.
  - intros F F' E Hf. by rewrite <- (Hf MANIFEST) by set_solver.
Qed.

Lemma readFile_Done rel t t' s : readFile rel t = (t', Done s) -> t' = t /\ assoc rel (files t) = Some s.
Proof. unfold readFile. destruct (assoc rel (files t)); intros E; by simplify_eq. Qed.

Lemma assert_Done c msg t t' : assert c msg t = (t', Done tt) -> t' = t /\ c = true.
Proof. unfold assert, ret, fail. destruct c; intros E; by simplify_eq. Qed.

(** Whether the checksums are left alone. *)
Definition sums_skipped (p : Plan) (s : str) : bool := renamePending p || includes (pinned p ++ " h1:") s.

(** A run of the last section, when it succeeds, either had nothing to do or completed
    [go.sum] and left [go.mod] as it was. *)
Lemma completeSums_Done `{GoTool} p t t' : completeSums p t = (t', Done tt) ->
  exists s, assoc GO_SUM (files t) = Some s /\
    ((sums_skipped p s = true /\ t' = t) \/
     exists s', assoc GO_SUM (files t') = Some s' /\ sums_skipped p s' = true /\
       forall q, q <> GO_SUM -> assoc q (files t') = assoc q (files t)).
Proof.
  intros E. apply bind_Done in E as (t1 & s & [-> Es]%readFile_Done & E). exists s. split; [done|].
  unfold sums_skipped. rewrite <-negb_orb in E. destruct (renamePending p || _); simpl in E; [left; by injection E as <-|].
  right. apply bind_Done in E as (t2 & m0 & [-> Em]%readFile_Done & E). apply bind_Done in E as (t3 & [] & Ed & E).
  apply bind_Done in E as (t4 & m1 & [-> Em1]%readFile_Done & E).
  apply bind_Done in E as (t5 & [] & [-> Ea]%assert_Done & E). apply bool_decide_eq_true in Ea. subst m1.
  apply bind_Done in E as (t6 & s' & [-> Es']%readFile_Done & E).
  apply bind_Done in E as (t7 & [] & [-> Hi]%assert_Done & E). apply bind_Done in E as (t8 & [] & [-> _]%assert_Done & E).
  assert (files t' = files t3) as -> by (destruct (s' !== s); unfold push_changed, ret in E; by injection E as <-).
  exists s'. split; [done|]. split; [by rewrite Hi, orb_true_r|]. intros q Hq. unfold download in Ed.
  destruct (match download_published (files t) with Some r => Some r | None => download_staged (files t) end) as [[gm gs]|]; [|done].
  injection Ed as <-. cbn [files] in *. rewrite !assoc_map_set in Em1 |- *. rewrite eqb_refl in Em1.
  rewrite bool_decide_false in Em1 by done. rewrite (bool_decide_false (q = GO_SUM)) by done.
  destruct (bool_decide_reflect (q = GO_MOD)) as [->|]; [by rewrite Em, Em1|done].
Qed.

Lemma settles_sums `{GoTool} p : exists calm, settles [GO_SUM] (fun _ => True) calm (completeSums p).
Proof.
  exists (fun F => exists s, assoc GO_SUM F = Some s /\ sums_skipped p s = true). split; try done.
  - intros t t' (s & _ & [[_ ->] | (s' & _ & _ & Hf)])%completeSums_Done q Hq; [done|]. apply Hf. set_solver.
  - intros t t' _ (s & Es & [[Hs ->] | (s' & Es' & Hs' & _)])%completeSums_Done; eauto.
  - intros F (s & Es & Hs) c. unfold completeSums, bind, readFile. simpl. unfold sums_skipped in Hs. by rewrite Es, <-negb_orb, Hs.
  - intros F F' (s & Es & Hs) Hf. exists s. by rewrite <- (Hf GO_SUM) by set_solver.
Qed.

(** ** The whole script *)

(** What the script does once its values are known. *)
Definition after_goMod `{GoTool} (p : Plan) (packages : list Package) (op dl cv av : str) : Run unit :=
  do! pinGoWork p then do! pinChart op dl cv av then do! checkHub then do! pinCompat p then
  do! pinReadme cv av then do! each (pinPage (images p)) pages then
  do! writeManifest p (unitCoordOf packages) then completeSums p.

Definition sections `{GoTool} (p : Plan) (packages : list Package) (op dl cv av : str) : Run unit :=
  do! assert (pinFits p) ("release plan pins " ++ p_pinModule p ++ " at " ++ p_pinVersion p
         ++ ", which that module path cannot carry") then
  do! pinGoMod p then after_goMod p packages op dl cv av.

Lemma apply_sections `{GoTool} p packages t t' : apply p packages t = (t', Done tt) ->
  exists chart op dl, artifact_of p "operator-chart" = Some chart /\
    artifact_of p "operator-image" ≫= a_coordinate = Some op /\ artifact_of p "delivery-image" ≫= a_coordinate = Some dl /\
    forall t, apply p packages t = sections p packages op dl (or_empty (a_chartVersion chart)) (or_empty (a_appVersion chart)) t.
Proof.
  unfold apply. destruct (artifact_of p "operator-chart") as [chart|]; [|done].
  destruct (artifact_of p "operator-image") as [opi|]; [|done].
  destruct (a_coordinate opi) as [op|] eqn:Eo.
  2: { intros E. do 2 (apply bind_Done in E as (? & ? & Hr & E); injection Hr as <- <-).
       do 3 (apply bind_Done in E as (? & ? & _ & E)). rewrite Eo in E. by apply bind_Done in E as (? & ? & [=] & _). }
  destruct (artifact_of p "delivery-image" ≫= a_coordinate) as [dl|] eqn:Ed.
  2: { intros E. do 6 (apply bind_Done in E as (? & ? & _ & E)). by apply bind_Done in E as (? & ? & [=] & _). }
  intros _. exists chart, op, dl. split_and!; [done..|]. intros t0. unfold bind at 1, of_option at 1, ret at 1. unfold bind at 1, of_option at 1, ret at 1.
  rewrite Eo. done.
Qed.

(** *** The second run

    The chart and its README are edited by several patterns each, which may run into one another;
    a second run may edit these two again, and nothing else. *)
Definition near (F F' : list (str * str)) : Prop :=
  (forall q, q <> CHART -> q <> README -> assoc q F' = assoc q F) /\ is_Some (assoc CHART F') /\ is_Some (assoc README F').

(** What a check of the two says when it fails. *)
Definition theirs {A} (o : outcome A) : Prop :=
  match o with Done _ => True | Fail msg => starts_with CHART msg || starts_with README msg = true end.

(** Run on a tree that differs from [F] in the two files only, [x] edits no other file, reports no
    other one, and fails in no other check. *)
Definition mild (F : list (str * str)) (x : Run unit) : Prop :=
  forall F' c t o, near F F' -> x {| files := F'; changed := c |} = (t, o) ->
    near F (files t) /\ (exists ch, changed t = c ++ ch /\ ch ⊆ [CHART; README]) /\ theirs o.

Record ends (ps : list str) (calm : list (str * str) -> Prop) (x : Run unit) : Prop := {
  e_frame : forall t t', x t = (t', Done tt) -> forall q, q ∉ ps -> assoc q (files t') = assoc q (files t);
  e_calm : forall t t', x t = (t', Done tt) -> calm (files t');
  e_keeps : forall F F', calm F -> same_on ps F F' -> calm F';
  e_mild : forall F, calm F -> mild F x }.

Lemma quiet_mild x F : (forall F', near F F' -> quiet x tt F') -> mild F x.
Proof.
  intros Q F' c t o N E. rewrite (Q F' N) in E. injection E as <- <-. split; [done|]. split; [|done].
  exists []. split; [by rewrite app_nil_r|set_solver].
Qed.

Lemma settles_ends ps calm x : CHART ∉ ps -> README ∉ ps -> settles ps (fun _ => True) calm x -> ends ps calm x.
Proof.
  intros Hc Hr S. split.
  - exact (s_frame _ _ _ _ S).
  - intros t t'. by apply (s_calm _ _ _ _ S).
  - exact (s_keeps _ _ _ _ S).
  - intros F C. apply quiet_mild. intros F' (N & _). apply (s_quiet _ _ _ _ S), (s_keeps _ _ _ _ S F); [done|].
    intros q Hq. symmetry. apply N; by intros ->.
Qed.

Lemma near_refl F : is_Some (assoc CHART F) -> is_Some (assoc README F) -> near F F.
Proof. intros A B. split; [done|by split]. Qed.

Lemma mild_bind F x y : mild F x -> mild F y -> mild F (bind x (fun _ => y)).
Proof.
  intros X Y F' c t o N E. unfold bind in E. destruct (x _) as [t1 [[]|msg]] eqn:Ex.
  - destruct (X _ _ _ _ N Ex) as (N1 & (ch1 & C1 & S1) & _). destruct t1 as [F1 c1]. cbn [files changed] in *. subst c1.
    destruct (Y _ _ _ _ N1 E) as (N2 & (ch2 & C2 & S2) & O). split; [done|]. split; [|done].
    exists (ch1 ++ ch2). rewrite C2, app_assoc. split; [done|]. set_solver.
  - injection E as <- <-. by apply (X _ _ _ _ N Ex).
Qed.

Lemma ends_then ps1 ps2 calm1 calm2 x y : Forall (fun q => q ∉ ps2) ps1 ->
  ends ps1 calm1 x -> ends ps2 calm2 y -> ends (ps1 ++ ps2) (fun F => calm1 F /\ calm2 F) (bind x (fun _ => y)).
Proof.
  intros Hd X Y. rewrite Forall_forall in Hd. split.
  - intros t t' H q Hq. apply bind_Done in H as (t1 & [] & E1 & E2). rewrite elem_of_app in Hq.
    rewrite (e_frame _ _ _ Y _ _ E2) by tauto. apply (e_frame _ _ _ X _ _ E1). tauto.
  - intros t t' H. apply bind_Done in H as (t1 & [] & E1 & E2). split; [|by eapply (e_calm _ _ _ Y)].
    eapply (e_keeps _ _ _ X); [by eapply (e_calm _ _ _ X)|]. intros q Hq. symmetry. apply (e_frame _ _ _ Y _ _ E2). auto.
  - intros F F' [C1 C2] [S1 S2]%same_on_app. split; [by eapply (e_keeps _ _ _ X)|by eapply (e_keeps _ _ _ Y)].
  - intros F [C1 C2]. apply mild_bind; [by apply (e_mild _ _ _ X)|by apply (e_mild _ _ _ Y)].
Qed.

(** An edit of one of the two, and its checks. *)
Lemma edit_mild rel fn (check : str -> Run unit) F : rel = CHART \/ rel = README ->
  (forall s, exists o, (forall t, check s t = (t, o)) /\ theirs o) -> mild F (bind (edit rel fn) check).
Proof.
  intros Hr Hc F' c t o N E. pose proof N as (N0 & Nc & Nr).
  assert (is_Some (assoc rel F')) as [s Es] by (by destruct Hr as [->| ->]).
  unfold bind, edit, readFile in E. cbn [bind files] in E. unfold bind in E. cbn [files changed] in E. rewrite Es in E.
  destruct (Hc (fn s)) as (o' & Ho & T). unfold writeFile, push_changed, ret in E. cbn [files changed] in E.
  assert (rel ∈ [CHART; README]) as Hm by (destruct Hr as [->| ->]; set_solver).
  destruct (fn s !== s); rewrite Ho in E; injection E as <- <-; cbn [files changed]; (split; [|split; [|done]]).
  - split; [intros q Q1 Q2|split; rewrite assoc_map_set; by case_bool_decide].
    rewrite assoc_map_set, bool_decide_false by (destruct Hr; congruence). by apply N0.
  - exists [rel]. split; [done|]. set_solver.
  - done.
  - exists []. split; [by rewrite app_nil_r|set_solver].
Qed.

Lemma edit_ends rel fn (check : str -> Run unit) : rel = CHART \/ rel = README ->
  (forall s, exists o, (forall t, check s t = (t, o)) /\ theirs o) ->
  ends [rel] (fun F => is_Some (assoc rel F)) (bind (edit rel fn) check).
Proof.
  intros Hr Hc. split.
  - intros t t' H q Hq. apply bind_Done in H as (t1 & after & E1 & E2). apply edit_leaves in E1 as [_ Hf].
    destruct (Hc after) as (o & Ho & _). rewrite Ho in E2. injection E2 as <- _. apply Hf. set_solver.
  - intros t t' H. apply bind_Done in H as (t1 & after & E1 & E2). apply edit_leaves in E1 as [Ha _].
    destruct (Hc after) as (o & Ho & _). rewrite Ho in E2. injection E2 as <- _. by eexists.
  - intros F F' C Hf. by rewrite <- (Hf rel) by set_solver.
  - intros F _. by apply edit_mild.
Qed.

Lemma assert_theirs c msg : theirs (A:=unit) (Fail msg) -> exists o, (forall t, assert c msg t = (t, o)) /\ theirs o.
Proof. intros H. destruct c; [by exists (Done tt)|by exists (Fail msg)]. Qed.
Lemma bind_theirs (x y : Run unit) :
  (exists o, (forall t, x t = (t, o)) /\ theirs o) -> (exists o, (forall t, y t = (t, o)) /\ theirs o) ->
  exists o, (forall t, bind x (fun _ => y) t = (t, o)) /\ theirs o.
Proof.
  intros ([[]|msg] & X & T) (o & Y & U); [exists o|exists (Fail msg)]; (split; [|done]); intros t; unfold bind; by rewrite X, ?Y.
Qed.

Lemma chart_ends op dl cv av : ends [CHART] (fun F => is_Some (assoc CHART F)) (pinChart op dl cv av).
Proof.
  apply edit_ends; [by left|]. intros s. assert (forall msg, theirs (A:=unit) (Fail (CHART ++ msg))) as T.
  { intros msg. unfold theirs. by rewrite starts_with_app. }
  repeat (apply bind_theirs; [by apply assert_theirs, T|]). by apply assert_theirs, T.
Qed.
Lemma readme_ends cv av : ends [README] (fun F => is_Some (assoc README F)) (pinReadme cv av).
Proof.
  apply edit_ends; [by right|]. intros s. apply assert_theirs. unfold theirs. by rewrite (starts_with_app README), orb_true_r.
Qed.

Lemma ends_after_goMod `{GoTool} p packages op dl cv av : stable_plan p ->
  exists calm, ends ([GO_WORK; CHART; HUB; INTEGRATION; README] ++ pages ++ [MANIFEST; GO_SUM]) calm
    (after_goMod p packages op dl cv av) /\ forall F, calm F -> is_Some (assoc CHART F) /\ is_Some (assoc README F).
Proof.
  intros Hp. destruct (settles_goWork p Hp) as [c2 S2%settles_ends]; [|by_decide..].
  destruct settles_hub as [c4 S4%settles_ends]; [|by_decide..]. destruct (settles_compat p Hp) as [c5 S5%settles_ends]; [|by_decide..].
  destruct (settles_pages p Hp) as [c7 S7%settles_ends]; [|by_decide..].
  destruct (settles_manifest p (unitCoordOf packages)) as [c8 S8%settles_ends]; [|by_decide..].
  destruct (settles_sums p) as [c9 S9%settles_ends]; [|by_decide..].
  eexists. split; [unfold after_goMod|].
  - eapply (ends_then [GO_WORK]); [|exact S2|].
    2: eapply (ends_then [CHART]); [|apply chart_ends|]. 3: eapply (ends_then [HUB]); [|exact S4|].
    4: eapply (ends_then [INTEGRATION]); [|exact S5|]. 5: eapply (ends_then [README]); [|apply readme_ends|].
    6: eapply (ends_then pages); [|exact S7|]. 7: eapply (ends_then [MANIFEST]); [|exact S8|exact S9].
    all: by_decide.
  - simpl. tauto.
Qed.

Lemma ends_sections `{GoTool} p packages op dl cv av : stable_plan p ->
  exists ps calm, ends ps calm (sections p packages op dl cv av) /\
    forall F, calm F -> is_Some (assoc CHART F) /\ is_Some (assoc README F).
Proof.
  intros Hp. destruct (settles_goMod p Hp) as [c1 S1%settles_ends]; [|by_decide..].
  destruct (ends_after_goMod p packages op dl cv av Hp) as (calm & S2 & Hc).
  do 2 eexists. split; [unfold sections|].
  - eapply ends_then; [|apply settles_ends, settles_pure, pure_assert; by_decide|]; [constructor|].
    eapply ends_then; [|exact S1|exact S2]. by_decide.
  - simpl. intros F (_ & _ & C). by apply Hc.
Qed.

(** C28: Run a second time over the tree a first run left, the script for a plan of stable
    versions edits no file but the chart and its README (which it edits by several patterns each,
    and for which this does not say that the second edit changes nothing), whatever the go tool
    did: every other file keeps its text byte for byte, no other file is reported as changed, and
    no check of another file fails. *)
Theorem apply_twice `{GoTool} (p : Plan) (packages : list Package) (t t' t2 : Tree) (c : list str) (o : outcome unit) :
  stable_plan p -> apply p packages t = (t', Done tt) ->
  apply p packages {| files := files t'; changed := c |} = (t2, o) ->
  (forall q, q <> CHART -> q <> README -> assoc q (files t2) = assoc q (files t')) /\
  (exists ch, changed t2 = c ++ ch /\ ch ⊆ [CHART; README]) /\
  match o with Done _ => True | Fail msg => starts_with CHART msg || starts_with README msg = true end.
Proof.
  intros Hp E E2. destruct (apply_sections _ _ _ _ E) as (chart & op & dl & _ & _ & _ & Hs). rewrite Hs in E, E2.
  destruct (ends_sections p packages op dl (or_empty (a_chartVersion chart)) (or_empty (a_appVersion chart)) Hp)
    as (ps & calm & S & Hc).
  pose proof (e_calm _ _ _ S _ _ E) as C. destruct (Hc _ C) as [C1 C2].
  by destruct (e_mild _ _ _ S _ C _ _ _ _ (near_refl _ C1 C2) E2) as ((N & _) & Ch & T).
Qed.

(** C29: The script fails closed. A pin the module path cannot carry stops it before any file
    is touched, and a run that ends well leaves a module file that requires the pinned
    version and, where the plan asks for it, holds no replace directive. *)
Theorem apply_guards `{GoTool} (p : Plan) (packages : list Package) (t t' : Tree) (o : outcome unit) :
  stable_plan p -> apply p packages t = (t', o) ->
  (pinFits p = false -> t' = t /\ o <> Done tt) /\
  (o = Done tt -> exists s, assoc GO_MOD (files t') = Some s /\ includes (pinned p) s = true /\
     (p_assertNoReplace p = true -> test replaceDirective s = false)).
Proof.
  intros Hp E. split.
  - intros Hf. unfold apply in E. rewrite Hf in E.
    destruct (artifact_of p "operator-chart"), (artifact_of p "operator-image");
      cbv beta iota delta [bind of_option ret assert fail] in E; by injection E as <- <-.
  - intros ->. destruct (apply_sections _ _ _ _ E) as (chart & op & dl & _ & _ & _ & Hs). rewrite Hs in E.
    apply bind_Done in E as (t1 & [] & [-> _]%assert_Done & E). apply bind_Done in E as (t2 & [] & Em & E).
    apply bind_Done in Em as (t3 & s & [Es _]%edit_leaves & Em). exists s.
    apply bind_Done in Em as (t4 & [] & [-> Hi]%assert_Done & Em).
    destruct (ends_after_goMod p packages op dl (or_empty (a_chartVersion chart)) (or_empty (a_appVersion chart)) Hp)
      as (calm & S & _).
    rewrite (e_frame _ _ _ S _ _ E) by by_decide.
    destruct (p_assertNoReplace p).
    + apply assert_Done in Em as [-> Hr%negb_true_iff]. auto.
    + injection Em as <-. done.
Qed.

(** A plan built from stable unit versions is one the theorem is about, while the core
    module path is not ahead of the core version. *)
Lemma num_text_plain n : x22 ∉ num_text n /\ x24 ∉ num_text n.
Proof.
  destruct n as [|[]|z]; [by split; by_decide..|]. simpl.
  destruct (show_Z_digits z) as (s & ds & -> & Hs & Hd). rewrite Forall_forall in Hd.
  split; rewrite elem_of_app; (intros [H|H]; [destruct Hs; subst; set_solver|by specialize (Hd _ H)]).
Qed.

Lemma images_plain p :
  Forall (fun a => a_kind a = "oci-image" -> x24 ∉ nullish (a_tag a) "undefined") (groups p ≫= (fun g => g_artifacts g.2)) ->
  Forall (fun a => x24 ∉ a.2) (images p).
Proof.
  unfold images. generalize (groups p ≫= (fun g => g_artifacts g.2)) as l. intros l H.
  apply Forall_forall. intros [c tag] (a & Ha & E)%list_elem_of_omap. rewrite Forall_forall in H. specialize (H a Ha).
  destruct (a_coordinate a) as [c'|]; [|done]. case_bool_decide; [|done]. destruct (truthy c'); [|done]. simplify_eq/=. auto.
Qed.

Lemma buildPlan_stable (u : list (str * Unit_)) (p : Plan) (uc uk : Unit_) :
  buildPlan u = Some p -> assoc "core" u = Some uc -> assoc "k8s-module" u = Some uk ->
  stable_version (u_version uc) -> stable_version (u_version uk) -> x24 ∉ u_coordinate uc ->
  num_gt (pathMajorOf (u_coordinate uc)) (number_trunc (first_component (u_version uc))) = false -> stable_plan p.
Proof.
  unfold buildPlan. intros Hb Ec Ek Hc Hk Hd Hg. rewrite Ec, Ek in Hb. cbn [mbind option_bind] in Hb. rewrite Hg in Hb.
  repeat match type of Hb with (?o ≫= _) = _ => destruct o; [cbn [mbind option_bind] in Hb|done] end.
  injection Hb as <-. unfold stable_plan. cbn -[num_text num_max images].
  destruct (num_text_plain (num_max (pathMajorOf (u_coordinate uc)) (number_trunc (first_component (u_version uc))))) as [N1 N2].
  pose proof (stable_plain _ Hc) as Pc. pose proof (stable_plain _ Hk) as Pk.
  split; [by exists (u_version uc)|]. split; [done|]. split; [set_solver|]. split; [set_solver|].
  apply images_plain. cbn. repeat (apply Forall_cons_2; [done|]). apply Forall_nil_2.
Qed.

(** *** A tree of the repository's shape *)
Definition LF : str := [x0a].

Definition repo_tree : list (str * str) := [
  (GO_MOD, "require github.com/trianalab/pacto/v4 v4.4.2" ++ LF);
  (GO_WORK, "replace github.com/trianalab/pacto/v4 v4.4.2 => ." ++ LF);
  (CHART, "type: application" ++ LF ++ "version: 6.4.1" ++ LF ++ "appVersion: " ++ quoted "6.4.1" ++ LF
     ++ "    version: 0.1.128" ++ LF ++ "    - image: ghcr.io/trianalab/pacto/delivery:6.4.1" ++ LF);
  (HUB, "repositoryID: 5f" ++ LF);
  (INTEGRATION, "  pactoCore: " ++ quoted ">=3.0.0" ++ "  # engine" ++ LF);
  (README, "![Version: 6.4.1](https://img/Version-6.4.1-informational?s) ![AppVersion: 6.4.1](https://img/AppVersion-6.4.1-informational?s)"
     ++ LF ++ "helm install --version 6.4.1." ++ LF);
  ("docs/examples/compose-demo.md", "ghcr.io/trianalab/pacto/demo:v4.4.2." ++ LF);
  ("docs/dashboard-docker.md", "ghcr.io/trianalab/pacto/dashboard:4.4.2" ++ LF);
  ("integrations/kubernetes/docs/installation.md", "no image" ++ LF);
  (GO_SUM, "") ].

(** A go tool that has the module staged and writes its two checksums. *)
Definition staged_tool : GoTool := {|
  download_published := fun _ => None;
  download_staged := fun F => gomod ← assoc GO_MOD F; gosum ← assoc GO_SUM F;
    Some (gomod, gosum ++ "github.com/trianalab/pacto/v4 v4.5.0 h1:a" ++ LF
                  ++ "github.com/trianalab/pacto/v4 v4.5.0/go.mod h1:b" ++ LF) |}.

Definition demo_packages : list Package := repo_packages "github.com/trianalab/pacto/v4" "4.5.0" "6.5.0".
Definition demo_tree : Tree := {| files := repo_tree; changed := [] |}.

Lemma demo_stable p : buildPlan (readUnits demo_packages) = Some p -> stable_plan p.
Proof.
  intros Ep. destruct (assoc "core" (readUnits demo_packages)) as [uc|] eqn:Ec; [|vm_compute in Ec; discriminate Ec].
  destruct (assoc "k8s-module" (readUnits demo_packages)) as [uk|] eqn:Ek; [|vm_compute in Ek; discriminate Ek].
  eapply buildPlan_stable; [exact Ep|exact Ec|exact Ek|..]; vm_compute in Ec, Ek; injection Ec as <-; injection Ek as <-;
    [vm_compute; reflexivity..|by_decide|vm_compute; reflexivity].
Qed.

Lemma apply_twice_witness :
  exists p, buildPlan (readUnits demo_packages) = Some p /\ stable_plan p /\
    let '(t', o) := apply (H := staged_tool) p demo_packages demo_tree in
    o = Done tt /\ length (changed t') = 9 /\
    let '(t2, o2) := apply (H := staged_tool) p demo_packages {| files := files t'; changed := [] |} in
    (forall q, q <> CHART -> q <> README -> assoc q (files t2) = assoc q (files t')) /\
    (exists ch, changed t2 = [] ++ ch /\ ch ⊆ [CHART; README]) /\
    match o2 with Done _ => True | Fail msg => starts_with CHART msg || starts_with README msg = true end.
Proof.
  destruct (buildPlan (readUnits demo_packages)) as [p|] eqn:Ep; [|vm_compute in Ep; discriminate Ep].
  exists p. split; [done|]. pose proof (demo_stable p Ep) as Hp.
  split; [done|].
  destruct (apply (H := staged_tool) p demo_packages demo_tree) as [t' o] eqn:E.
  assert (o = Done tt /\ length (changed t') = 9) as [-> Hl].
  { vm_compute in Ep. injection Ep as <-. vm_compute in E. injection E as <- <-. split; reflexivity. }
  split; [done|]. split; [done|].
  destruct (apply (H := staged_tool) p demo_packages {| files := files t'; changed := [] |}) as [t2 o2] eqn:E2.
  exact (apply_twice (H := staged_tool) p demo_packages demo_tree t' t2 [] o2 Hp E E2).
Defined.

(** There the second run changes nothing at all. *)
Example demo_second : exists p, buildPlan (readUnits demo_packages) = Some p /\
  let t' := (apply (H := staged_tool) p demo_packages demo_tree).1 in
  apply (H := staged_tool) p demo_packages {| files := files t'; changed := [] |} = ({| files := files t'; changed := [] |}, Done tt).
Proof.
  destruct (buildPlan (readUnits demo_packages)) as [p|] eqn:Ep; [|vm_compute in Ep; discriminate Ep].
  exists p. split; [done|]. vm_compute in Ep. injection Ep as <-. vm_compute. reflexivity.
Qed.

Lemma apply_guards_witness :
  exists p, buildPlan (readUnits demo_packages) = Some p /\ stable_plan p /\
    let '(t', o) := apply (H := staged_tool) p demo_packages demo_tree in
    (pinFits p = false -> t' = demo_tree /\ o <> Done tt) /\
    (o = Done tt -> exists s, assoc GO_MOD (files t') = Some s /\ includes (pinned p) s = true /\
       (p_assertNoReplace p = true -> test replaceDirective s = false)).
Proof.
  destruct (buildPlan (readUnits demo_packages)) as [p|] eqn:Ep; [|vm_compute in Ep; discriminate Ep].
  exists p. split; [done|]. pose proof (demo_stable p Ep) as Hp. split; [done|].
  destruct (apply (H := staged_tool) p demo_packages demo_tree) as [t' o] eqn:E.
  exact (apply_guards (H := staged_tool) p demo_packages demo_tree t' o Hp E).
Defined.

(** *** Where the promise stops

    The suffix of [SEMVER] takes a period. With a prerelease version, a sentence that ends in
    one is edited differently the second time: the period is lost, and nothing notices. *)
Theorem prerelease_drifts :
  let s := "helm install --version 6.4.1." in
  let once := readmeText "6.5.0-rc.1" "6.5.0-rc.1" s in
  once = "helm install --version 6.5.0-rc.1." /\
  readmeText "6.5.0-rc.1" "6.5.0-rc.1" once = "helm install --version 6.5.0-rc.1".
Proof. split; vm_compute; reflexivity. Qed.

(** In the documentation, where the result is checked, the same sentence stops the release. *)
Theorem prerelease_refused :
  let page := "docs/dashboard-docker.md" : str in
  let imgs := [("ghcr.io/trianalab/pacto/dashboard" : str, "4.5.0-rc.1" : str)] in
  let F := [(page, "Pull ghcr.io/trianalab/pacto/dashboard:4.4.2." : str)] in
  pinPage imgs page {| files := F; changed := [] |}
  = ({| files := [(page, "Pull ghcr.io/trianalab/pacto/dashboard:4.5.0-rc.1.")]; changed := [page] |},
     Fail "docs/dashboard-docker.md: ghcr.io/trianalab/pacto/dashboard:4.5.0-rc.1. != ghcr.io/trianalab/pacto/dashboard:4.5.0-rc.1").
Proof. vm_compute. reflexivity. Qed.
