(* ===== verification/Answers.v ===== *)
(** * One-line answers and identity context:
    [src/pkg/dashboard/frontend/src/lib/answers.ts] and [identityContext.ts]

    The sentence at the top of a page, and the bits that tell same-named entities apart. *)

From stdpp Require Import base list gmap.
From Stdlib Require Import Init.Byte ZArith NArith Lia.
From S2P Require Import Prelude Uri Format.
Local Open Scope Z_scope.

(** ** Answers *)
Definition plural (n : Z) (one many : str) : str :=
  formatCount n ++ " " ++ (if n =? 1 then one else many).

Definition joinAnd (parts : list str) (word : str) : str :=
  if (length parts <? 2)%nat then join [] parts
  else join ", " (but_last parts) ++ " " ++ word ++ " " ++ List.last parts [].

Inductive AnswerTone := ToneErr | ToneWarn | ToneOk | ToneNeutral.

#[export] Instance AnswerTone_eq_dec : EqDecision AnswerTone.
Proof. solve_decision. Defined.

Record Answer := { tone : AnswerTone; lead : str; rest : str }.

(** The counts of a posture aggregate; an absent group of counts has none of them. *)
Record PostureSummary := {
  ps_targets : option Z; ps_revisions : option Z; ps_revisionsInUse : option Z;
  ps_invalidRevisions : option Z; ps_compliant : option Z; ps_nonCompliant : option Z;
  ps_unknown : option Z; ps_stale : option Z; ps_withoutEvidence : option Z }.

(** The first letter in capitals; every phrase starts with an ASCII character. *)
Definition cap (s : str) : str :=
  match s with b :: s' => shift_byte 97 122 (-32) b :: s' | [] => [] end.

Definition nonzero (n : Z) : bool := negb (n =? 0).

Definition phrase (b : bool) (s : str) : str := if b then s else [].

Definition problems (s : PostureSummary) : list str :=
  let nc := nullish (ps_nonCompliant s) 0 in
  let invalid := nullish (ps_invalidRevisions s) 0 in
  List.filter truthy
    [ phrase (nonzero nc) (plural nc "running target breaks its" "running targets break their" ++ " contract");
      phrase (nonzero invalid) (plural invalid "revision is" "revisions are" ++ " invalid") ].

Definition concerns (s : PostureSummary) (conflicts : Z) : list str :=
  let targets := nonzero (nullish (ps_targets s) 0) in
  let unknown := nullish (ps_unknown s) 0 in
  let stale := nullish (ps_stale s) 0 in
  let never := nullish (ps_withoutEvidence s) 0 in
  List.filter truthy
    [ phrase (targets && nonzero unknown)
        (plural unknown "running target has" "running targets have" ++ " unknown compliance");
      phrase (targets && (ps_revisionsInUse s === Some 0) && (0 <? nullish (ps_revisions s) 0))
        "no running target matches a known revision";
      phrase (nonzero conflicts) (plural conflicts "revision names" "revisions name" ++ " a different owner");
      phrase (targets && nonzero stale)
        (plural stale "running target has" "running targets have" ++ " stale evidence");
      phrase (targets && nonzero never)
        (plural never "running target was" "running targets were" ++ " never observed") ].

Definition postureAnswer (s : PostureSummary) (incomplete : bool) (conflicts : Z) : Answer :=
  let targets := nullish (ps_targets s) 0 in
  let problems := problems s in
  let concerns := concerns s conflicts in
  if negb (length problems =? 0)%nat then
    {| tone := ToneErr; lead := "Needs work."; rest := cap (joinAnd (problems ++ concerns) "and") ++ "." |}
  else if negb (length concerns =? 0)%nat then
    {| tone := ToneWarn; lead := "Needs a look."; rest := cap (joinAnd concerns "and") ++ "." |}
  else if targets =? 0 then
    {| tone := ToneNeutral; lead := "Nothing running yet.";
       rest := "There is no compliance picture until a target is observed." |}
  else if incomplete then {| tone := ToneWarn; lead := "Nothing broken found."; rest := [] |}
  else if nullish (ps_compliant s) 0 =? targets then
    {| tone := ToneOk; lead := "Healthy.";
       rest := if targets =? 1 then "The one running target is compliant."
               else "All " ++ plural targets "running target" "running targets" ++ " are compliant." |}
  else {| tone := ToneNeutral; lead := "Nothing broken found."; rest := [] |}.

Record RevisionReadiness := {
  rr_passing : option bool; rr_score : option Z; rr_minScore : option Z; rr_expired : option bool }.

Record RevisionFacts := {
  rf_valid : option bool; rf_validationTotal : option Z; rf_readiness : option RevisionReadiness }.

Definition revisionAnswer (r : RevisionFacts) : Answer :=
  if rf_valid r === Some false then
    let n := nullish (rf_validationTotal r) 0 in
    {| tone := ToneErr; lead := "Invalid contract.";
       rest := if nonzero n then plural n "validation finding" "validation findings" ++ " below." else [] |}
  else match rf_readiness r with
  | None => {| tone := ToneNeutral; lead := "Valid."; rest := "No readiness gate declared." |}
  | Some g =>
      let expired := nullish (rr_expired g) false in
      let score := "Readiness " ++ show_Z (nullish (rr_score g) 0) ++ ", " ++ show_Z (nullish (rr_minScore g) 0) ++
                   " required" ++ (if expired then ", assessment expired" else []) ++ "." in
      if nullish (rr_passing g) false && negb expired
      then {| tone := ToneOk; lead := "Valid and ready."; rest := score |}
      else {| tone := ToneWarn; lead := "Valid, not ready."; rest := score |}
  end.

Definition problemPhrase (category : option str) (n : Z) : str :=
  if category === Some "non-compliant" then
    plural n "running target breaks its" "running targets break their" ++ " contract"
  else if category === Some "invalid" then plural n "revision is" "revisions are" ++ " invalid"
  else [].

(** ** Identity context *)
Record EntityRefLike := {
  er_key : option str; er_label : option str; er_kind : option str; er_domain : option str;
  er_businessDomain : option str; er_scope : option str; er_parentService : option str;
  er_secondary : option str }.

Definition no_ref : EntityRefLike :=
  {| er_key := None; er_label := None; er_kind := None; er_domain := None; er_businessDomain := None;
     er_scope := None; er_parentService := None; er_secondary := None |}.

(** The text before and after the first occurrence of [p] in [s]. *)
Fixpoint find_first (p s : str) : option (str * str) :=
  if starts_with p s then Some ([], drop (length p) s)
  else match s with
       | [] => None
       | b :: s' => match find_first p s' with Some (u, v) => Some (b :: u, v) | None => None end
       end.

Definition separators : list str := ["/"; " "; "@"; ":"; "·"; ","].

Definition spelledOut (label bit : str) : bool :=
  match find_first bit label with
  | None => false
  | Some (u, v) =>
      (negb (truthy u) || existsb (fun c => ends_with c u) separators) &&
      (negb (truthy v) || existsb (fun c => starts_with c v) separators)
  end.

Definition primaryLabel (ref : option EntityRefLike) : str :=
  or_str (ref ≫= er_label) (or_str (ref ≫= er_key) "(unknown)").

(** The candidate bits, each with the text it is shown as. *)
Definition context_bits (r : EntityRefLike) : list (option str * str) :=
  [ (er_businessDomain r, "domain " ++ nullish (er_businessDomain r) "undefined");
    (er_domain r, "registry " ++ nullish (er_domain r) "undefined");
    (if er_parentService r !== er_key r then er_parentService r else None, nullish (er_parentService r) []);
    (er_scope r, nullish (er_scope r) []);
    (if er_secondary r !== er_scope r then er_secondary r else None, nullish (er_secondary r) []) ].

Definition identityContext (ref : option EntityRefLike) : list str :=
  let r := nullish ref no_ref in
  let label := primaryLabel (Some r) in
  (List.filter (fun b => match when_truthy b.1 with
                         | Some raw => negb (spelledOut label raw)
                         | None => false
                         end) (context_bits r)).*2.

Definition dropService (label service : str) : str :=
  if negb (truthy service) || (label === service) then label
  else if ends_with ("/" ++ service) label then take (length label - length service - 1) label
  else if starts_with (service ++ " ") label || starts_with (service ++ "@") label
  then drop (length service + 1) label
  else label.

Definition inService (ref : EntityRefLike) (service : str) : EntityRefLike :=
  let label := dropService (primaryLabel (Some ref)) service in
  if label === primaryLabel (Some ref) then ref
  else {| er_key := er_key ref; er_label := Some label; er_kind := er_kind ref; er_domain := er_domain ref;
          er_businessDomain := er_businessDomain ref; er_scope := er_scope ref; er_parentService := None;
          er_secondary := er_secondary ref |}.

(** ** Properties *)
Lemma plural_truthy n one many t : truthy (plural n one many ++ t) = true.
Proof.
  unfold plural, formatCount. destruct (n <? 0); [done|]. rewrite <- !app_assoc.
  apply truthy_nonempty. intros E. apply app_eq_nil in E as [_ E]. apply app_eq_nil in E as [_ E]. done.
Qed.

Lemma filter_phrases l : List.filter truthy l = [] <-> Forall (fun s => s = []) l.
Proof.
  induction l as [|s l IH]; simpl; [done|]. rewrite Forall_cons, <- IH. destruct s; simpl; naive_solver.
Qed.

Lemma phrase_nil b s : truthy s = true -> phrase b s = [] <-> b = false.
Proof. destruct s; [done|]. by destruct b. Qed.

Lemma nonzero_false n : nonzero n = false <-> n = 0.
Proof. unfold nonzero. rewrite negb_false_iff. apply Z.eqb_eq. Qed.

Lemma problems_nil s :
  problems s = [] <-> nullish (ps_nonCompliant s) 0 = 0 /\ nullish (ps_invalidRevisions s) 0 = 0.
Proof.
  unfold problems. rewrite filter_phrases, !Forall_cons, !phrase_nil, !nonzero_false by apply plural_truthy.
  naive_solver.
Qed.

Lemma concerns_nil s c :
  nullish (ps_targets s) 0 <> 0 ->
  concerns s c = [] <->
  nullish (ps_unknown s) 0 = 0 /\ ~ (ps_revisionsInUse s = Some 0 /\ 0 < nullish (ps_revisions s) 0) /\
  c = 0 /\ nullish (ps_stale s) 0 = 0 /\ nullish (ps_withoutEvidence s) 0 = 0.
Proof.
  intros Ht. unfold concerns. rewrite filter_phrases, !Forall_cons, !phrase_nil by (done || apply plural_truthy).
  assert (nonzero (nullish (ps_targets s) 0) = true) as ->
    by (apply not_false_iff_true; by rewrite nonzero_false).
  cbn [andb]. rewrite !nonzero_false, andb_false_iff, bool_decide_eq_false, Z.ltb_ge.
  assert (ps_revisionsInUse s <> Some 0 \/ nullish (ps_revisions s) 0 <= 0 <->
    ~ (ps_revisionsInUse s = Some 0 /\ 0 < nullish (ps_revisions s) 0)) as ->.
  { split; [intros [?|?] [??]; [done|lia]|]. intros Hn.
    destruct (decide (ps_revisionsInUse s = Some 0)); [right|by left].
    apply Znot_gt_le. intros ?. apply Hn. split; [done|lia]. }
  rewrite Forall_nil. tauto.
Qed.

(** A page says "Healthy." only when nothing speaks against it. The answer is the good
    one exactly when something runs, every running target is compliant, knowledge is
    complete, and there is no non-compliant target, invalid revision, unknown compliance,
    unmatched estate, ownership conflict, stale evidence or never-observed target. *)
Theorem healthy_iff (s : PostureSummary) (incomplete : bool) (conflicts : Z) :
  tone (postureAnswer s incomplete conflicts) = ToneOk <->
  (nullish (ps_targets s) 0 <> 0 /\ nullish (ps_compliant s) 0 = nullish (ps_targets s) 0 /\
   incomplete = false /\ nullish (ps_nonCompliant s) 0 = 0 /\ nullish (ps_invalidRevisions s) 0 = 0 /\
   nullish (ps_unknown s) 0 = 0 /\ ~ (ps_revisionsInUse s = Some 0 /\ 0 < nullish (ps_revisions s) 0) /\
   conflicts = 0 /\ nullish (ps_stale s) 0 = 0 /\ nullish (ps_withoutEvidence s) 0 = 0).
Proof.
  unfold postureAnswer. pose proof (problems_nil s) as Hp. pose proof (concerns_nil s conflicts) as Hc.
  destruct (problems s) as [|x l] eqn:Ep; simpl.
  2:{ split; [done|]. intros (_ & _ & _ & H1 & H2 & _). by pose proof (proj2 Hp (conj H1 H2)). }
  assert (nullish (ps_nonCompliant s) 0 = 0 /\ nullish (ps_invalidRevisions s) 0 = 0) as Hp' by tauto.
  destruct (concerns s conflicts) as [|x l] eqn:Ec; simpl.
  2:{ split; [done|]. intros (Ht & _ & _ & _ & _ & Hrest). by pose proof (proj2 (Hc Ht) Hrest). }
  destruct (Z.eqb_spec (nullish (ps_targets s) 0) 0) as [E|E]; simpl; [split; [done|tauto]|].
  destruct incomplete; simpl; [split; [done|]; by intros (_ & _ & ? & _)|].
  destruct (Z.eqb_spec (nullish (ps_compliant s) 0) (nullish (ps_targets s) 0)) as [Et|Et]; simpl.
  - split; [|done]. intros _. specialize (Hc E). tauto.
  - split; [done|]. tauto.
Qed.

(** The context never repeats what the label already says. *)
Lemma identityContext_fresh r text :
  text ∈ identityContext (Some r) ->
  exists raw, (Some raw, text) ∈ context_bits r /\ raw <> [] /\ spelledOut (primaryLabel (Some r)) raw = false.
Proof.
  unfold identityContext. cbn [nullish]. intros ([o t] & -> & Hin)%list_elem_of_fmap.
  apply list_elem_of_In, filter_In in Hin as [Hin Hf]. simpl in *.
  destruct o as [[|b raw]|]; simpl in Hf; try done. exists (b :: raw).
  apply negb_true_iff in Hf. split_and!; try done. by apply list_elem_of_In.
Qed.
