(* ===== verification/Labels.v ===== *)
(** * User-facing labels and tones: [src/pkg/dashboard/frontend/src/lib/entityLabels.ts]

    The one source of the words and tones of entity kinds, revision matches, retrievability,
    knowledge, provenance, attention, environments, severities and data-source health. *)

From stdpp Require Import base list gmap.
From Stdlib Require Import Init.Byte ZArith NArith Lia.
From S2P Require Import Prelude Uri Format Knowledge.
Local Open Scope Z_scope.

(** [s[0]] and [s.slice(1)]: the first character, by the length its lead byte announces. The
    halves of a supplementary character map to themselves, so it is left whole. *)
Definition first_char (s : str) : str * str :=
  match s with
  | [] => ([], [])
  | b :: _ => let n := if is_ascii b then 1%nat else if lead2 b then 2%nat else if lead3 b then 3%nat else 0%nat in
              (take n s, drop n s)
  end.

Definition kindLabel `{Locale} (kind : option str) : str :=
  oswitch kind [ ("service", "Service"); ("revision", "Revision"); ("target", "Operational target");
    ("owner", "Owner"); ("source", "Data source"); ("domain", "Domain"); ("offering", "Platform offering") ]
    (match when_truthy kind with
     | Some k => let '(c, r) := first_char k in toUpperCase c ++ r
     | None => "Entity"
     end).

Definition kindLabelPlural `{Locale} (kind : option str) : str := kindLabel kind ++ "s".

Definition linkStateLabel (s : option str) : str :=
  oswitch s [ ("exact", "Exact revision match"); ("inferred", "Inferred revision match");
    ("ambiguous", "Ambiguous revision match"); ("unresolved", "Unresolved revision") ] (or_str s "Unknown").

Definition linkStateTone (s : option str) : str :=
  oswitch s [("exact", "ok"); ("inferred", "info"); ("ambiguous", "warn"); ("unresolved", "neutral")] "neutral".

Definition retrievabilityLabel (identityClass : option str) (retrievable : option bool) : str :=
  if nullish retrievable false then "Retrievable content"
  else oswitch identityClass
    [ ("mutable", "Mutable reference (not retrievable)"); ("no-ref", "No canonical reference");
      ("local", "Local reference (not retrievable)"); ("malformed", "Malformed identity");
      ("digest-mismatch", "Digest/reference mismatch") ] "Content not retrievable".

Definition retrievabilityTone (identityClass : option str) (retrievable : option bool) : str :=
  if nullish retrievable false then "ok"
  else if (identityClass === Some "digest-mismatch") || (identityClass === Some "malformed") then "err" else "neutral".

Definition knowledgeLabel (level : option str) : str :=
  oswitch level [ ("complete", "Complete knowledge"); ("empty", "Nothing known yet");
    ("partial", "Partial knowledge"); ("stale", "Stale knowledge"); ("unavailable", "Source unavailable");
    ("unknown", "Knowledge state unknown") ] "Knowledge state unknown".

Definition knowledgeTone (level : option str) : str :=
  oswitch level [("complete", "ok"); ("empty", "neutral"); ("partial", "warn"); ("stale", "warn");
    ("unavailable", "err")] "neutral".

Definition provenanceLabel (p : option str) : str :=
  oswitch p [("declared", "Expected"); ("observed", "Observed"); ("declared+observed", "Expected and observed")]
    (or_str p []).

Definition IMPLIED_PROVENANCE : list (str * str) :=
  [ ("matched", "declared+observed"); ("expected-not-observed", "declared"); ("observed-not-expected", "observed") ].

(** A member of [Object.prototype] equals no text. *)
Definition provenanceIsImplied (difference provenance : option str) : bool :=
  otruthy provenance &&
  match obj_get IMPLIED_PROVENANCE (or_str difference []) with
  | Own p => provenance === Some p
  | _ => false
  end.

Definition ATTENTION_CATEGORIES : list str :=
  [ "non-compliant"; "unknown"; "stale"; "invalid"; "readiness"; "unresolved"; "out-of-range"; "undeclared";
    "unowned" ].

Definition attentionCategoryLabel (c : option str) : str :=
  oswitch c [ ("non-compliant", "Not compliant"); ("unknown", "Compliance unknown"); ("stale", "Stale evidence");
    ("invalid", "Invalid contract"); ("readiness", "Readiness gate"); ("unresolved", "Unresolved revision");
    ("out-of-range", "Version out of range"); ("undeclared", "Undeclared dependency");
    ("unowned", "No declared owner") ] (or_str c "Other").

Definition NO_DOMAIN : str := "(none)".
Definition UNKNOWN_DOMAIN : str := "(unknown)".

Definition businessDomainLabel (v : option str) : str :=
  if v === Some UNKNOWN_DOMAIN then "Domain unknown"
  else match when_truthy v with
       | Some s => if s !== NO_DOMAIN then s else "No domain"
       | None => "No domain"
       end.

(** The check's status, if there is a check. *)
Record TargetEnvironmentLike := { te_name : option str; te_declared : option str; te_check : option (option str) }.

Definition targetEnvironmentLabel (env : option TargetEnvironmentLike) : str :=
  or_str (env ≫= te_name) "Unknown".

Definition targetEnvironmentTone (env : option TargetEnvironmentLike) : str :=
  let declared := env ≫= te_declared in
  if declared === Some "not-declared" then "warn"
  else if declared !== Some "declared" then "neutral"
  else oswitch (match env with Some e => nullish (te_check e) None | None => None end) [("pass", "ok"); ("fail", "err")] "neutral".

Definition severityLabel (s : option str) : str :=
  oswitch s [("error", "Error"); ("warning", "Warning"); ("info", "Info"); ("unknown", "Unknown")] (or_str s "Unknown").

Definition severityTone (s : option str) : str :=
  oswitch s [("error", "err"); ("warning", "warn"); ("info", "info")] "neutral".

Record EntryPoint := { ep_view : option str; ep_category : option str; ep_severity : option str }.

Definition shown_entry (ep : EntryPoint) : bool :=
  (ep_view ep !== Some "overview") && negb ((ep_view ep === Some "attention") && negb (otruthy (ep_category ep))).

Definition milder (ep : EntryPoint) : bool := (ep_severity ep === Some "warning") || (ep_severity ep === Some "info").

Definition splitEntryPoints (eps : list EntryPoint) : list EntryPoint * list EntryPoint :=
  let shown := List.filter shown_entry eps in
  (List.filter (fun ep => negb (milder ep)) shown, List.filter milder shown).

(** ** Data-source health *)
Definition sourceHealthLabel (status : option str) : str :=
  oswitch status [("available", "Available"); ("partial", "Partial"); ("stale", "Stale"); ("unavailable", "Unavailable")]
    (or_str status "Unknown").

Definition sourceHealthTone (status : option str) : str :=
  oswitch status [("available", "ok"); ("partial", "warn"); ("stale", "warn"); ("unavailable", "err")] "neutral".

Record SourceTallyPart := { tp_status : str; tp_count : Z; tp_text : str }.

Definition tally_part (status : str) (n : Z) (word : str) : SourceTallyPart :=
  {| tp_status := status; tp_count := n; tp_text := show_Z n ++ " " ++ word |}.

Definition add_part (parts : list SourceTallyPart) (sn : str * Z) : list SourceTallyPart :=
  if 0 <? sn.2 then parts ++ [tally_part sn.1 sn.2 sn.1] else parts.

Definition sum_parts (parts : list SourceTallyPart) : Z := fold_left (fun n p => n + tp_count p) parts 0.

Definition sourceHealthTallyParts (c : option SourceCounts) : list SourceTallyPart :=
  let get f := nullish (c ≫= f) 0 in
  let parts := fold_left add_part
    [ ("unavailable", get sc_unavailable); ("stale", get sc_stale); ("partial", get sc_partial);
      ("available", get sc_available) ] [] in
  let classified := sum_parts parts in
  let total := get sc_total in
  if classified <? total then parts ++ [tally_part [] (total - classified) "unclassified"] else parts.

Definition sourceHealthTally (c : option SourceCounts) : str :=
  let total := nullish (c ≫= sc_total) 0 in
  if total =? 0 then "No data sources reported."
  else
    let noun := formatCount total ++ " data source" ++ (if total =? 1 then [] else "s") in
    let parts := sourceHealthTallyParts c in
    match parts with
    | [p] => if tp_status p === "available" then noun ++ ", all available."
             else noun ++ " — " ++ join ", " (tp_text <$> parts) ++ "."
    | _ => noun ++ " — " ++ join ", " (tp_text <$> parts) ++ "."
    end.

Definition sourceHealthSentence (status : option str) : str :=
  oswitch status
    [ ("available", "This data source answered in full, so everything it holds is in the snapshot.");
      ("partial", "This data source answered only in part, so some of its records are missing from the snapshot and may still exist in the fleet.");
      ("stale", "This data source last answered too long ago to be treated as current, so what it contributed to the snapshot may already have changed.");
      ("unavailable", "This data source did not answer, so nothing it holds reached the snapshot.") ]
    "This data source reported a health state Pacto does not recognize, so how much of it reached the snapshot is unknown.".

Definition collectorLabel (collector : option str) : str :=
  oswitch collector
    [ ("k8s-observer", "Kubernetes"); ("k8s-observer+ebpf", "Kubernetes + kernel"); ("ebpf", "kernel");
      ("pacto-agent+ebpf", "kernel (host agent)"); ("pacto-run+ebpf", "kernel (pacto run)") ]
    (nullish collector []).

(** The refs by the collector each names. *)
Definition seenBy (refs : option (list (option str))) : str :=
  join ", " (dedupe (List.filter truthy (collectorLabel <$> nullish refs []))).

(** ** Properties *)
Lemma sum_parts_app a b : sum_parts (a ++ b) = sum_parts a + sum_parts b.
Proof.
  unfold sum_parts. rewrite fold_left_app. generalize (fold_left (fun n p => n + tp_count p) a 0) as k.
  assert (forall b k, fold_left (fun n p => n + tp_count p) b k = k + fold_left (fun n p => n + tp_count p) b 0) as H.
  { clear. induction b as [|p b IH]; intros k; cbn [fold_left]; [lia|]. rewrite IH, (IH (0 + tp_count p)). lia. }
  intros k. apply H.
Qed.

(** The parts the loop makes: one per positive count, in order. *)
Lemma add_part_fold l parts :
  fold_left add_part l parts =
    parts ++ ((fun sn => tally_part sn.1 sn.2 sn.1) <$> List.filter (fun sn => 0 <? sn.2) l).
Proof.
  revert parts. induction l as [|sn l IH]; intros parts; simpl; [by rewrite app_nil_r|].
  rewrite IH. unfold add_part. destruct (0 <? sn.2); [|done]. by rewrite <- app_assoc.
Qed.

(** The four health counts of a tally, absent ones being 0 and none negative. *)
Definition health_counts (c : SourceCounts) : list Z :=
  [nullish (sc_unavailable c) 0; nullish (sc_stale c) 0; nullish (sc_partial c) 0; nullish (sc_available c) 0].

(** The data-source tally adds up. For counts that are not negative and a total no
    smaller than what is classified, the parts are all positive, count every source exactly
    once (what no health bucket claims is named as unclassified, never folded in), and they
    are the one part "available", which the sentence reads as "all available", exactly when
    there are sources and every one of them is available. *)
Theorem source_tally_adds_up (c : SourceCounts) :
  Forall (fun n => 0 <= n) (health_counts c) ->
  foldr Z.add 0 (health_counts c) <= nullish (sc_total c) 0 ->
  let parts := sourceHealthTallyParts (Some c) in
  Forall (fun p => 0 < tp_count p) parts /\ sum_parts parts = nullish (sc_total c) 0 /\
  ((exists p, parts = [p] /\ tp_status p = "available") <->
     0 < nullish (sc_total c) 0 /\ nullish (sc_available c) 0 = nullish (sc_total c) 0).
Proof.
  unfold health_counts. intros Hpos Hle. rewrite !Forall_cons in Hpos. destruct Hpos as (Hu & Hs & Hp & Ha & _).
  cbn [foldr] in Hle. cbv zeta. unfold sourceHealthTallyParts. cbn [mbind option_bind].
  rewrite add_part_fold. cbn [app List.filter snd fst].
  set (u := nullish (sc_unavailable c) 0) in *. set (s := nullish (sc_stale c) 0) in *.
  set (p := nullish (sc_partial c) 0) in *. set (a := nullish (sc_available c) 0) in *.
  set (t := nullish (sc_total c) 0) in *. clearbody u s p a t.
  destruct (Z.ltb_spec 0 u), (Z.ltb_spec 0 s), (Z.ltb_spec 0 p), (Z.ltb_spec 0 a);
    cbn [fmap list_fmap]; unfold sum_parts, tally_part; cbn [fold_left tp_count fst snd];
    match goal with |- context [?x <? t] => destruct (Z.ltb_spec x t) end;
    cbn [app fold_left tp_count];
    (split; [repeat (apply Forall_cons; split; [simpl; lia|]); apply Forall_nil; exact I|split; [lia|]]);
    (split; [intros (q & E & Hq); simplify_eq/=; lia
            |intros [? ?]; first [lia | eexists; split; [reflexivity|done]]]).
Qed.

Lemma source_tally_adds_up_witness :
  let c := {| sc_total := Some 6; sc_available := Some 3; sc_partial := None; sc_stale := Some 1;
              sc_unavailable := Some 1 |} in
  let parts := sourceHealthTallyParts (Some c) in
  Forall (fun p => 0 < tp_count p) parts /\ sum_parts parts = nullish (sc_total c) 0 /\
  ((exists p, parts = [p] /\ tp_status p = "available") <->
     0 < nullish (sc_total c) 0 /\ nullish (sc_available c) 0 = nullish (sc_total c) 0).
Proof. intros c. apply source_tally_adds_up; [repeat constructor; simpl; lia|simpl; lia]. Defined.

Lemma splitEntryPoints_partition eps :
  let '(lead, secondary) := splitEntryPoints eps in
  lead ++ secondary ≡ₚ List.filter shown_entry eps /\
  Forall (fun ep => milder ep = false) lead /\ Forall (fun ep => milder ep = true) secondary.
Proof.
  unfold splitEntryPoints. generalize (List.filter shown_entry eps) as l. intros l. split_and!.
  - induction l as [|ep l IH]; simpl; [done|]. destruct (milder ep); simpl; [|by rewrite IH].
    rewrite <- Permutation_middle. by rewrite IH.
  - apply Forall_forall. intros ep [_ H]%list_elem_of_In%filter_In. by apply negb_true_iff in H.
  - apply Forall_forall. intros ep [_ H]%list_elem_of_In%filter_In. done.
Qed.
