(* ===== verification/Distributions.v ===== *)
(** * Tallies as segments: [src/pkg/dashboard/frontend/src/lib/distributions.ts]

    Counts the backend computed over complete populations, reshaped for charts: one
    wording and one tone per state, with the filter each bucket drills into. A tally is an
    object of counts by field; a field that is missing counts 0. *)

From stdpp Require Import base list gmap.
From Stdlib Require Import Init.Byte ZArith NArith Lia.
From S2P Require Import Prelude Uri Format.
Local Open Scope Z_scope.

Record Segment := { sg_label : str; sg_value : Z; sg_tone : str; sg_href : option str }.

Record BucketState := { bs_value : str; bs_field : str; bs_label : str; bs_tone : str }.

Definition bucket (v f l t : str) : BucketState := {| bs_value := v; bs_field := f; bs_label := l; bs_tone := t |}.

Definition n (v : option Z) : Z := nullish v 0.

(** No field name is a member of [Object.prototype]. *)
Definition Tally : Type := list (str * Z).

Definition stateSegments (states : list BucketState) (tally : option Tally) (hrefs : list (str * str)) : list Segment :=
  let t := nullish tally [] in
  (fun s => {| sg_label := bs_label s; sg_value := n (assoc (bs_field s) t); sg_tone := bs_tone s;
               sg_href := assoc (bs_field s) hrefs |}) <$> states.

Definition bucketLabel (states : list BucketState) (value : str) : str :=
  or_str (bs_label <$> List.find (fun s => bs_value s === value) states) value.

Definition COMPLIANCE_STATES : list BucketState :=
  ((fun vf : str * str => bucket vf.1 vf.2 (statusLabel (Some vf.1)) (statusTone (Some vf.1))) <$>
    [ ("Compliant", "compliant"); ("NonCompliant", "nonCompliant"); ("Unknown", "unknown");
      ("Warning", "warning"); ("Invalid", "invalid"); ("Reference", "reference");
      ("NotEvaluated", "notEvaluated") ])
  ++ [bucket [] "other" "Other" "neutral"].

Definition complianceSegments (t : option Tally) (hrefs : list (str * str)) : list Segment :=
  stateSegments COMPLIANCE_STATES t hrefs.

(** [Object.fromEntries] of the states that pass [keep]. *)
Definition hrefs_of (keep : BucketState -> bool) (states : list BucketState) (url : str -> str) : list (str * str) :=
  fold_left (fun o s => map_set (bs_field s) (url (bs_value s)) o) (List.filter keep states) [].

Definition statusHrefs (url : str -> str) : list (str * str) :=
  hrefs_of (fun s => truthy (bs_value s)) COMPLIANCE_STATES url.

Definition seg (l : str) (v : Z) (t : str) : Segment :=
  {| sg_label := l; sg_value := v; sg_tone := t; sg_href := None |}.

Record LinkTally := { lt_exact : option Z; lt_inferred : option Z; lt_ambiguous : option Z; lt_unresolved : option Z }.
Definition no_links : LinkTally := {| lt_exact := None; lt_inferred := None; lt_ambiguous := None; lt_unresolved := None |}.

Definition linkSegments (t : option LinkTally) : list Segment :=
  let l := nullish t no_links in
  [ seg "Exact" (n (lt_exact l)) "ok"; seg "Inferred" (n (lt_inferred l)) "info";
    seg "Ambiguous" (n (lt_ambiguous l)) "warn"; seg "Unresolved" (n (lt_unresolved l)) "warn" ].

Definition SEVERITY_STATES : list BucketState :=
  [ bucket "error" "errors" "Errors" "err"; bucket "warning" "warnings" "Warnings" "warn";
    bucket "info" "infos" "Info" "info"; bucket [] "unknown" "Unknown severity" "neutral" ].

Definition severitySegments (t : option Tally) (hrefs : list (str * str)) : list Segment :=
  stateSegments SEVERITY_STATES t hrefs.

Definition severityHrefs (url : str -> str) : list (str * str) :=
  hrefs_of (fun s => truthy (bs_value s)) SEVERITY_STATES url.

Record EvidenceTally := { ev_withEvidence : option Z; ev_withoutEvidence : option Z; ev_stale : option Z }.
Definition no_evidence : EvidenceTally := {| ev_withEvidence := None; ev_withoutEvidence := None; ev_stale := None |}.

Definition evidenceSegments (e : option EvidenceTally) : list Segment :=
  let w := nullish e no_evidence in
  let fresh := Z.max 0 (n (ev_withEvidence w) - n (ev_stale w)) in
  [ seg "Fresh evidence" fresh "ok"; seg "Stale evidence" (n (ev_stale w)) "warn";
    seg "No evidence" (n (ev_withoutEvidence w)) "neutral" ].

Definition OWNERSHIP_STATES : list BucketState :=
  [ bucket "consistent" "consistent" "One declared owner" "ok";
    bucket "conflicting" "conflicting" "Revisions name different owners" "err";
    bucket "unowned" "unowned" "No declared owner" "warn" ].

Definition ownershipSegments (t : option Tally) (hrefs : list (str * str)) : list Segment :=
  stateSegments OWNERSHIP_STATES t hrefs.

Definition ownershipHrefs (url : str -> str) : list (str * str) :=
  hrefs_of (fun _ => true) OWNERSHIP_STATES url.

(** ** The owner ranking *)
Record OwnerCount := {
  oc_key : option str; oc_label : option str; oc_kind : option str; oc_ambiguous : bool;
  oc_services : option Z; oc_targets : option Z }.

Record OwnerRankingTally := {
  rt_byOwner : option (list OwnerCount); rt_beyondRanking : option Z; rt_unidentifiedOwnership : option Z;
  rt_rankedOwners : option Z; rt_distinctOwners : option Z }.

Record OwnerRanking := {
  or_distinct : Z; or_ranked : Z; or_services : list Segment; or_targets : list Segment; or_note : str;
  or_unidentified : Z; or_unidentifiedNote : str }.

Definition kindOf (o : OwnerCount) : str :=
  if oc_kind o === Some "dri" then "DRI" else if oc_kind o === Some "team" then "Team" else [].

Definition rowLabel (o : OwnerCount) : str :=
  let label := or_str (oc_label o) (or_str (oc_key o) []) in
  let kind := kindOf o in
  if oc_ambiguous o && truthy kind then label ++ " (" ++ kind ++ ")" else label.

Definition owner_segment (href : str -> str) (o : OwnerCount) (value : option Z) : Segment :=
  {| sg_label := rowLabel o; sg_value := n value; sg_tone := "info"; sg_href := Some (href (or_str (oc_key o) [])) |}.

Definition one_many (k : Z) (one many : str) : str := if k =? 1 then one else many.

Definition ranking_scope (shown ranked distinct : Z) : str :=
  if ranked =? distinct then
    "Top " ++ show_Z shown ++ " of " ++ show_Z ranked ++ " named " ++ one_many ranked "owner" "owners" ++ " by service count."
  else
    "Top " ++ show_Z shown ++ " of " ++ show_Z ranked ++ " rankable " ++ one_many ranked "owner" "owners" ++
    " by service count, out of " ++ show_Z distinct ++ " named across these services. The other " ++
    show_Z (distinct - ranked) ++ " " ++
    one_many (distinct - ranked) "is named only by services whose revisions disagree"
      "are named only by services whose revisions disagree" ++ ".".

Definition ranking_tail (shown ranked beyond : Z) : str :=
  if 0 <? beyond then
    let rest := ranked - shown in
    " " ++ (if rest =? 1 then "The remaining owner accounts"
            else "The remaining " ++ show_Z rest ++ " of " ++ show_Z ranked ++ " owners account") ++
    " for " ++ show_Z beyond ++ " more " ++ one_many beyond "service" "services" ++ "."
  else [].

Definition ownerRanking (agg : option OwnerRankingTally) (href : str -> str) : OwnerRanking :=
  let rows := nullish (agg ≫= rt_byOwner) [] in
  let distinct := n (agg ≫= rt_distinctOwners) in
  let ranked := n (agg ≫= rt_rankedOwners) in
  let beyond := n (agg ≫= rt_beyondRanking) in
  let unidentified := n (agg ≫= rt_unidentifiedOwnership) in
  let shown := Z.of_nat (length rows) in
  {| or_distinct := distinct; or_ranked := ranked; or_unidentified := unidentified;
     or_unidentifiedNote :=
       if 0 <? unidentified then
         show_Z unidentified ++ " " ++ one_many unidentified "service" "services" ++ " " ++
         one_many unidentified "is" "are" ++
         " consistently owned by a declaration that names no team or DRI, only contacts. It has no team or person to rank or link to, so it appears in no row above."
       else [];
     or_services := (fun o => owner_segment href o (oc_services o)) <$> rows;
     or_targets := (fun o => owner_segment href o (oc_targets o)) <$> rows;
     or_note := match rows with
                | [] => []
                | _ => ranking_scope shown ranked distinct ++ ranking_tail shown ranked beyond ++
                       " Services with no declared owner, or whose revisions name different owners, appear in no row here."
                end |}.

(** ** Readiness, signatures, changes, verdicts *)
Definition READINESS_STATES : list BucketState :=
  [ bucket "passing" "passing" "Passing" "ok"; bucket "below-threshold" "belowThreshold" "Below its own threshold" "warn";
    bucket "expired" "expired" "Assessment expired" "warn"; bucket "not-declared" "notDeclared" "Not assessed" "neutral" ].

Definition readinessSegments (t : option Tally) (hrefs : list (str * str)) : list Segment :=
  stateSegments READINESS_STATES t hrefs.

Definition SIGNATURE_STATES : list BucketState :=
  [ bucket "verified" "verified" "Verified" "ok"; bucket "unverified" "unverified" "Unverified" "err";
    bucket "unsigned" "unsigned" "Unsigned" "warn"; bucket "unknown" "unknown" "Unknown" "neutral";
    bucket "not-checked" "notChecked" "Not checked" "neutral" ].

Definition signatureSegments (t : option Tally) : list Segment := stateSegments SIGNATURE_STATES t [].

(** A signature by its status and signer. *)
Definition signatureState (sig : option (option str * option str)) : BucketState :=
  let v := match sig with
           | None => Some ("not-checked" : str)
           | Some (status, signer) =>
               if (status === Some "verified") && negb (otruthy signer) then Some ("unknown" : str) else status
           end in
  nullish (List.find (fun s => Some (bs_value s) === v) SIGNATURE_STATES)
    (nth 3 SIGNATURE_STATES (bucket [] [] [] [])).

Definition changeSegments (breaking potential nonBreaking : option Z) : list Segment :=
  [ seg "Breaking" (n breaking) "err"; seg "Potentially breaking" (n potential) "warn";
    seg "Non-breaking" (n nonBreaking) "ok" ].

Definition VERDICT_META : list (str * (str * str)) :=
  [ ("incompatible", ("Incompatible", "err")); ("compatible", ("Compatible", "ok"));
    ("unknown", ("Compatibility unknown", "warn")) ].

Definition CONFIDENCE_META : list (str * (str * str)) :=
  [ ("corroborated", ("Declared and observed", "ok")); ("contractual", ("Declared with a range", "ok"));
    ("declared", ("Declared only", "info")); ("observed", ("Observed only", "info"));
    ("inferred", ("Reached through another service", "neutral")); ("unknown", ("Evidence incomplete", "warn")) ].

(** No member of [Object.prototype] has a [label] or a [tone]. *)
Definition buckets (items : option (list (option str * option Z))) (meta : list (str * (str * str))) : list Segment :=
  (fun b => let m f := get_field meta (or_str b.1 []) f in
            {| sg_label := nullish (m fst) (or_str b.1 "Unknown"); sg_value := n b.2;
               sg_tone := nullish (m snd) "neutral"; sg_href := None |}) <$> nullish items [].

Definition verdictSegments (items : option (list (option str * option Z))) : list Segment := buckets items VERDICT_META.
Definition confidenceSegments (items : option (list (option str * option Z))) : list Segment := buckets items CONFIDENCE_META.

Definition segmentTotal (segments : list Segment) : Z := fold_left (fun sum s => sum + sg_value s) segments 0.

(** ** Properties *)
Definition sum_values (t : Tally) : Z := foldr (fun p k => p.2 + k) 0 t.

Lemma segmentTotal_foldr l : segmentTotal l = foldr (fun s k => sg_value s + k) 0 l.
Proof.
  unfold segmentTotal. assert (forall k, fold_left (fun sum s => sum + sg_value s) l k =
    k + foldr (fun s k => sg_value s + k) 0 l) as H; [|rewrite H; lia].
  induction l as [|s l IH]; intros k; simpl; [lia|]. rewrite IH. lia.
Qed.

Lemma sum_values_perm a b : a ≡ₚ b -> sum_values a = sum_values b.
Proof. induction 1; simpl; lia. Qed.

(** The counts of distinct fields that include all of a tally's add up to the tally. *)
Lemma fields_total (fields : list str) (t : Tally) :
  NoDup fields -> NoDup (keys t) -> (forall k, k ∈ keys t -> k ∈ fields) ->
  foldr (fun f k => n (assoc f t) + k) 0 fields = sum_values t.
Proof.
  intros Hf. revert t. induction Hf as [|f fs Hn Hf IH]; intros t Ht Hsub.
  - destruct t as [|[k v] t]; [done|]. destruct (not_elem_of_nil k). apply Hsub. by left.
  - simpl. destruct (assoc f t) as [v|] eqn:E.
    + apply assoc_elem in E as Hin. apply list_elem_of_split in Hin as (a & b & ->).
      rewrite (sum_values_perm (a ++ (f, v) :: b) ((f, v) :: a ++ b)) by (by rewrite Permutation_middle).
      simpl. f_equal. unfold keys in *. rewrite fmap_app, fmap_cons in Ht, Hsub. simpl in *.
      assert (NoDup (f :: (a ++ b).*1)) as Ht' by (rewrite fmap_app, Permutation_middle; done).
      apply NoDup_cons in Ht' as [Hfresh Ht'].
      rewrite <- IH; [|done|].
      * clear -Hn. induction fs as [|g fs IHfs]; [done|]. simpl. apply not_elem_of_cons in Hn as [Hne Hn].
        rewrite IHfs by done. f_equal. clear -Hne. induction a as [|[k w] a IHa]; simpl.
        -- by rewrite bool_decide_eq_false_2.
        -- by destruct (bool_decide (g = k)).
      * intros k Hk. assert (k ∈ f :: fs) as Hc by (apply Hsub; rewrite fmap_app in Hk; set_solver).
        apply elem_of_cons in Hc as [->|]; done.
    + simpl. apply IH; [done|]. intros k Hk. destruct (elem_of_cons fs k f) as [Hc _].
      destruct (Hc (Hsub k Hk)) as [->|]; [|done]. by apply assoc_None in E.
Qed.

(** The five partitions the product draws. *)
Definition PARTITIONS : list (list BucketState) :=
  [COMPLIANCE_STATES; SEVERITY_STATES; OWNERSHIP_STATES; READINESS_STATES; SIGNATURE_STATES].

Lemma partitions_wf states :
  states ∈ PARTITIONS -> NoDup (bs_field <$> states) /\ NoDup (bs_value <$> states).
Proof.
  unfold PARTITIONS. intros H. repeat (apply elem_of_cons in H as [->|H]; [split; by_decide|]). by apply not_elem_of_nil in H.
Qed.

Lemma hrefs_of_lookup keep states url s :
  NoDup (bs_field <$> states) -> s ∈ states ->
  assoc (bs_field s) (hrefs_of keep states url) = if keep s then Some (url (bs_value s)) else None.
Proof.
  unfold hrefs_of. intros Hn Hs.
  assert (forall m, assoc (bs_field s)
      (fold_left (fun o s => map_set (bs_field s) (url (bs_value s)) o) (List.filter keep states) m) =
    if keep s then Some (url (bs_value s)) else assoc (bs_field s) m) as H; [|by rewrite H].
  assert (forall l m, bs_field s ∉ bs_field <$> l -> assoc (bs_field s)
      (fold_left (fun o s => map_set (bs_field s) (url (bs_value s)) o) (List.filter keep l) m) = assoc (bs_field s) m) as Hout.
  { clear. induction l as [|x l IH]; intros m Hx; simpl; [done|]. rewrite fmap_cons in Hx.
    destruct (keep x); simpl; rewrite IH by set_solver; [|done]. rewrite assoc_map_set.
    by rewrite bool_decide_eq_false_2 by set_solver. }
  induction states as [|x l IH]; intros m; [set_solver|]. rewrite fmap_cons in Hn. apply NoDup_cons in Hn as [Hx Hn].
  apply elem_of_cons in Hs as [->|Hs]; simpl.
  - destruct (keep x) eqn:E; simpl; rewrite Hout by done; [by rewrite assoc_map_set, eqb_refl|done].
  - destruct (keep x); simpl; rewrite IH by done; [|done]. rewrite assoc_map_set.
    rewrite bool_decide_eq_false_2; [done|]. intros E. apply Hx. rewrite <- E. by apply list_elem_of_fmap_2.
Qed.

(** A distribution loses nothing and every bucket drills into itself. For each of the
    partitions drawn, the segments of a tally of its fields add up to the tally, in the
    fixed order with one segment per state; and with the drill-downs built from a filter's
    URL, a bucket that is a real filter links to the URL of its own wire value under the
    label its filter chip shows, and one that is not has no link. *)
Theorem distribution_complete (states : list BucketState) (t : Tally) (url : str -> str) :
  states ∈ PARTITIONS -> NoDup (keys t) -> (forall k, k ∈ keys t -> k ∈ bs_field <$> states) ->
  let segs := stateSegments states (Some t) (hrefs_of (fun s => truthy (bs_value s)) states url) in
  segmentTotal segs = sum_values t /\ sg_label <$> segs = bs_label <$> states /\
  (forall i s, states !! i = Some s -> exists g, segs !! i = Some g /\ sg_value g = n (assoc (bs_field s) t) /\
     sg_href g = (if truthy (bs_value s) then Some (url (bs_value s)) else None) /\
     (truthy (bs_value s) = true -> sg_label g = bucketLabel states (bs_value s))).
Proof.
  intros Hp Ht Hsub. destruct (partitions_wf _ Hp) as [Hf Hv]. cbv zeta. unfold stateSegments. cbn [nullish]. split_and!.
  - rewrite segmentTotal_foldr. rewrite <- (fields_total (bs_field <$> states) t Hf Ht Hsub).
    generalize (hrefs_of (fun s => truthy (bs_value s)) states url). intros hr.
    clear. induction states as [|s l IH]; [done|]. rewrite !fmap_cons. cbn [foldr sg_value]. by rewrite IH.
  - by rewrite <- list_fmap_compose.
  - intros i s Hi. rewrite list_lookup_fmap, Hi. simpl. eexists. split; [done|]. simpl. split_and!; [done| |].
    + rewrite hrefs_of_lookup; [done|done|]. by eapply list_elem_of_lookup_2.
    + intros Hs. assert (truthy (bs_label s) = true) as Hl.
      { apply list_elem_of_lookup_2 in Hi. clear -Hp Hi. unfold PARTITIONS in Hp.
        repeat (apply elem_of_cons in Hp as [->|Hp];
          [repeat (apply elem_of_cons in Hi as [->|Hi]; [done|]); by apply not_elem_of_nil in Hi|]).
        by apply not_elem_of_nil in Hp. }
      unfold bucketLabel. assert (List.find (fun x => bs_value x === bs_value s) states = Some s) as ->.
      { apply list_elem_of_lookup_2 in Hi. clear -Hv Hi. induction states as [|x l IH]; [set_solver|].
        rewrite fmap_cons in Hv. apply NoDup_cons in Hv as [Hx Hv]. simpl.
        apply elem_of_cons in Hi as [->|Hi]; [by rewrite eqb_refl|].
        rewrite bool_decide_eq_false_2; [by apply IH|]. intros E. apply Hx. rewrite E. by apply list_elem_of_fmap_2. }
      simpl. by rewrite Hl.
Qed.

Lemma distribution_complete_witness :
  let t : Tally := [("invalid", 2); ("compliant", 5); ("other", 1)] in
  let url s := "#/fleet/services?status=" ++ s in
  let segs := stateSegments COMPLIANCE_STATES (Some t) (statusHrefs url) in
  segmentTotal segs = sum_values t /\ sg_label <$> segs = bs_label <$> COMPLIANCE_STATES /\
  (forall i s, COMPLIANCE_STATES !! i = Some s ->
     exists g, segs !! i = Some g /\ sg_value g = n (assoc (bs_field s) t) /\
     sg_href g = (if truthy (bs_value s) then Some (url (bs_value s)) else None) /\
     (truthy (bs_value s) = true -> sg_label g = bucketLabel COMPLIANCE_STATES (bs_value s))).
Proof.
  intros t url. apply (distribution_complete COMPLIANCE_STATES t url); [by left|by_decide|].
  intros k Hk. repeat (apply elem_of_cons in Hk as [->|Hk]; [by_decide|]). by apply not_elem_of_nil in Hk.
Defined.
