(* ===== verification/Neighborhood.v ===== *)
(** * The neighbourhood graph: [src/pkg/dashboard/frontend/src/lib/neighborhoodGraph.ts]

    The adapter from a neighbourhood answer to the nodes and edges that are drawn, and the
    side of the focus each entity sits on. Nodes that the code updates through a [Map] of
    references are addressed by their index in the node list. The lanes are in [Lanes]. *)

From stdpp Require Import base list gmap sorting.
From Stdlib Require Import Init.Byte ZArith NArith Lia.
From S2P Require Import Prelude Uri Format.
Local Open Scope Z_scope.

(** ** The answer, and what is drawn *)
Record ProductRef := {
  pr_kind : str; pr_key : str; pr_label : option str; pr_status : option str; pr_version : option str }.
Record ProductNode := {
  pn_ref : ProductRef; pn_status : option str; pn_depth : option Z; pn_focus : option bool; pn_owner : option str }.
Record ProductEdge := {
  pe_from : ProductRef; pe_to : ProductRef; pe_relation : str; pe_difference : option str;
  pe_serviceCorroboration : option str; pe_guaranteeStatus : option str }.
Record NeighborhoodLike := { nb_nodes : option (list ProductNode); nb_edges : option (list ProductEdge) }.

(** The four states a drawn edge can have; the empty state is [None]. *)
Inductive EdgeVisualState := Matched | ExpectedNotObserved | Drift | Insufficient.
#[export] Instance EdgeVisualState_eq_dec : EqDecision EdgeVisualState.
Proof. solve_decision. Defined.

Inductive NodeKind := KService | KRevision | KTarget.

Record GraphEdge := {
  targetId : str; e_type : option str; e_state : option EdgeVisualState; driftStatus : option str;
  refused : bool; e_label : option str }.

Record GraphNode := {
  gid : str; serviceName : str; status : str; version : option str; kind : NodeKind; edges : list GraphEdge;
  depth : option Z; owner : option str; group : option Z; side : option Z; lane : bool; parent : option str }.

Definition set_edges (es : list GraphEdge) (n : GraphNode) : GraphNode :=
  {| gid := gid n; serviceName := serviceName n; status := status n; version := version n; kind := kind n;
     edges := es; depth := depth n; owner := owner n; group := group n; side := side n; lane := lane n;
     parent := parent n |}.

Definition push_edge (e : GraphEdge) (n : GraphNode) : GraphNode := set_edges (edges n ++ [e]) n.

Definition edgeState (e : ProductEdge) : option EdgeVisualState :=
  oswitch (pe_difference e)
    [("matched", Some Matched); ("observed-not-expected", Some Drift);
     ("expected-not-observed", Some ExpectedNotObserved); ("insufficient", Some Insufficient)]
    (oswitch (pe_serviceCorroboration e)
       [("matched", Some Matched); ("expected-not-observed", Some ExpectedNotObserved);
        ("insufficient", Some Insufficient)] None).

Definition edgeType (relation : str) : str :=
  if relation === "runs" then "runs"
  else if relation === "configuration_reference" then "reference" else "dependency".

Definition cyEdgeId (fromKey toKey relation : str) : str := fromKey ++ "→" ++ toKey ++ ":" ++ edgeType relation.

Definition nodeKind (kind : str) : NodeKind :=
  if kind === "revision" then KRevision else if kind === "target" then KTarget else KService.

(** One node of the answer, as drawn. *)
Definition adapt_node (n : ProductNode) : GraphNode :=
  let r := pn_ref n in
  let version := if pr_kind r === "revision" then or_str (pr_version r) [] else [] in
  let label := or_str (pr_label r) (pr_key r) in
  let isFocus := nullish (pn_focus n) false in
  {| gid := pr_key r;
     serviceName := if truthy version && ends_with (" " ++ version) label
                    then take (length label - length version - 1) label else label;
     version := if truthy version then Some version else None;
     status := or_str (pn_status n) (or_str (pr_status r) "Unknown");
     kind := nodeKind (pr_kind r);
     edges := [];
     depth := match pn_depth n with
              | Some d => Some (if isFocus then 0 else d)
              | None => if isFocus then Some 0 else None
              end;
     owner := if otruthy (pn_owner n) then pn_owner n else None;
     group := None; side := None; lane := false; parent := None |}.

Definition adapt_edge (e : ProductEdge) : GraphEdge :=
  let state := edgeState e in
  {| targetId := pr_key (pe_to e); e_type := Some (edgeType (pe_relation e)); e_state := state;
     driftStatus := if state === Some Drift then Some ("drift" : str) else None;
     refused := pe_guaranteeStatus e === Some ("unmet" : str); e_label := None |}.

(** [byKey]: the index of the last node of each id. *)
Definition index_of (ns : list GraphNode) : list (str * nat) :=
  fold_left (fun m p => map_set (gid p.2) p.1 m) (imap pair ns) [].

Definition add_edge (byKey : list (str * nat)) (nodes : list GraphNode) (e : ProductEdge) : list GraphNode :=
  match assoc (pr_key (pe_from e)) byKey with
  | Some src => if map_has (pr_key (pe_to e)) byKey then alter (push_edge (adapt_edge e)) src nodes else nodes
  | None => nodes
  end.

Definition neighborhoodToGraph (nb : option NeighborhoodLike) : list GraphNode :=
  let nodes := adapt_node <$> nullish (nb ≫= nb_nodes) [] in
  fold_left (add_edge (index_of nodes)) (nullish (nb ≫= nb_edges) []) nodes.

(** ** Signatures *)
Definition kind_str (k : NodeKind) : str :=
  match k with KService => "service" | KRevision => "revision" | KTarget => "target" end.
Definition state_str (s : option EdgeVisualState) : str :=
  match s with
  | Some Matched => "matched" | Some ExpectedNotObserved => "expected-not-observed"
  | Some Drift => "drift" | Some Insufficient => "insufficient" | None => []
  end.

Definition topo_edge (n : GraphNode) (e : GraphEdge) : str :=
  gid n ++ ">" ++ targetId e ++ ":" ++ or_str (e_type e) "dependency".

Definition topoSignature (nodes : list GraphNode) : str :=
  join "," (sort_str (gid <$> nodes)) ++ "||" ++
  join "," (sort_str (concat ((fun n => topo_edge n <$> edges n) <$> nodes))).

Definition presentationSignature (nodes : list GraphNode) : str :=
  join "," (sort_str ((fun n => gid n ++ ":" ++ status n ++ ":" ++ kind_str (kind n) ++ ":" ++ serviceName n ++
                                ":" ++ or_str (version n) []) <$> nodes)) ++ "||" ++
  join "," (sort_str (concat ((fun n => (fun e => topo_edge n e ++ ":" ++ state_str (e_state e) ++ ":" ++
                                (if refused e then "refused" else []) ++ ":" ++ or_str (e_label e) []) <$> edges n) <$> nodes))).

(** ** The two sides of the focus *)
Inductive Side := DependsOn | UsedBy.
#[export] Instance Side_eq_dec : EqDecision Side.
Proof. solve_decision. Defined.

Definition side_str (s : Side) : str := match s with DependsOn => "depends-on" | UsedBy => "used-by" end.

(** [link(a, b)] *)
Definition link (adj : list (str * list str)) (a b : str) : list (str * list str) :=
  map_set a (nullish (assoc a adj) [] ++ [b]) adj.

(** The pairs (source, edge) in the order the loops meet them. *)
Definition all_edges (nodes : list GraphNode) : list (str * str) :=
  concat ((fun n => (fun e => (gid n, targetId e)) <$> edges n) <$> nodes).

Definition adjacency (nodes : list GraphNode) : list (str * list str) :=
  fold_left (fun adj p => link (link adj p.1 p.2) p.2 p.1) (all_edges nodes) [].

Definition dependencies_of (nodes : list GraphNode) (focusId : str) : list (str * Side) :=
  fold_left (fun out p => if (p.1 === focusId) && (p.2 !== focusId) then map_set p.2 DependsOn out else out)
    (all_edges nodes) [].

Definition add_users (nodes : list GraphNode) (focusId : str) (out : list (str * Side)) : list (str * Side) :=
  fold_left (fun out n =>
    if (gid n !== focusId) && negb (map_has (gid n) out) && existsb (fun e => targetId e === focusId) (edges n)
    then map_set (gid n) UsedBy out else out) nodes out.

(** One turn of the walk over [queue]: the unseen neighbours of [id] take its side. The
    queue holds keys of [out] only, so the default of [out.get(id)!] is never read. *)
Definition visit (focusId : str) (adj : list (str * list str)) (id : str)
    (st : list (str * Side) * list str) : list (str * Side) * list str :=
  fold_left (fun st m =>
    if (m !== focusId) && negb (map_has m st.1)
    then (map_set m (nullish (assoc id st.1) UsedBy) st.1, st.2 ++ [m]) else st)
    (nullish (assoc id adj) []) st.

(** The walk, and what is left of the queue when the fuel is spent. *)
Fixpoint walk (focusId : str) (adj : list (str * list str)) (fuel : nat) (out : list (str * Side))
    (queue : list str) : list (str * Side) * list str :=
  match fuel, queue with
  | S fuel, id :: queue => let '(out, queue) := visit focusId adj id (out, queue) in walk focusId adj fuel out queue
  | _, _ => (out, queue)
  end.

(** The ids of the graph, which bound the walk: each is queued at most once. *)
Definition graph_ids (nodes : list GraphNode) : list str :=
  (gid <$> nodes) ++ (all_edges nodes).*1 ++ (all_edges nodes).*2.

Definition sidesOf (nodes : list GraphNode) (focusId : str) : list (str * Side) :=
  let adj := adjacency nodes in
  let out := add_users nodes focusId (dependencies_of nodes focusId) in
  let out := (walk focusId adj (length (graph_ids nodes)) out (keys out)).1 in
  fold_left (fun out n => if (gid n !== focusId) && negb (map_has (gid n) out)
                          then map_set (gid n) UsedBy out else out) nodes out.

(** ** Pushing edges *)
Lemma set_edges_id n : set_edges (edges n) n = n.
Proof. by destruct n. Qed.

Section Pushes.
Context {B : Type} (dest : B -> option nat) (edge : B -> GraphEdge).

(** Push each edge onto the node its destination names, if any. *)
Definition push_step (ns : list GraphNode) (b : B) : list GraphNode :=
  match dest b with Some j => alter (push_edge (edge b)) j ns | None => ns end.

Lemma fold_push bs ns i :
  fold_left push_step bs ns !! i =
  (fun n => set_edges (edges n ++ (edge <$> List.filter (fun b => dest b === Some i) bs)) n) <$> ns !! i.
Proof.
  revert ns. induction bs as [|b bs IH]; intros ns; cbn [fold_left List.filter].
  - destruct (ns !! i); simpl; [|done]. by rewrite app_nil_r, set_edges_id.
  - rewrite IH. unfold push_step. destruct (dest b) as [j|].
    2:{ by rewrite bool_decide_eq_false_2. }
    destruct (decide (j = i)) as [->|Hne].
    + rewrite list_lookup_alter_eq, bool_decide_eq_true_2 by done. destruct (ns !! i) as [n|]; [|done].
      destruct n. unfold push_edge, set_edges; simpl. by rewrite <- app_assoc.
    + rewrite list_lookup_alter_ne by done. by rewrite bool_decide_eq_false_2 by congruence.
Qed.

Lemma fold_push_gid bs ns : gid <$> fold_left push_step bs ns = gid <$> ns.
Proof. apply list_eq. intros i. rewrite !list_lookup_fmap, fold_push. by destruct (ns !! i). Qed.
End Pushes.

Lemma imap_fmap_snd {A} (l : list A) : (imap pair l).*2 = l.
Proof. rewrite fmap_imap. apply list_eq. intros i. rewrite list_lookup_imap. by destruct (l !! i). Qed.

Lemma imap_gid (ns : list GraphNode) : (fun p => gid p.2) <$> imap pair ns = gid <$> ns.
Proof. rewrite <- (imap_fmap_snd ns) at 2. by rewrite <- list_fmap_compose. Qed.

Lemma index_of_eq ns :
  NoDup (gid <$> ns) -> index_of ns = (fun p => (gid p.2, p.1)) <$> imap pair ns.
Proof.
  intros Hn. unfold index_of. rewrite (fold_set_fresh (fun p => gid p.2) (fun p => p.1)); [done|].
  cbn [keys fmap list_fmap app]. by rewrite imap_gid.
Qed.

Lemma index_of_lookup ns k i :
  NoDup (gid <$> ns) -> assoc k (index_of ns) = Some i <-> (gid <$> ns) !! i = Some k.
Proof.
  intros Hn. rewrite index_of_eq by done.
  set (m := (fun p => (gid p.2, p.1)) <$> imap pair ns).
  assert (keys m = gid <$> ns) as Hk.
  { unfold m, keys. rewrite <- list_fmap_compose. apply imap_gid. }
  assert ((k, i) ∈ m <-> (gid <$> ns) !! i = Some k) as Hm.
  { unfold m. rewrite list_elem_of_fmap, list_lookup_fmap, fmap_Some. split.
    - intros ((j & n) & E & (j' & n' & E' & Hl)%elem_of_lookup_imap_1). simplify_eq/=. by eexists.
    - intros (n & Hl & ->). exists (i, n). split; [done|]. apply elem_of_lookup_imap_2 with (f := pair) in Hl. done. }
  rewrite <- Hm. split; [apply assoc_elem|]. intros Hin. apply assoc_unique; [by rewrite Hk|done].
Qed.

Lemma index_of_has ns k : NoDup (gid <$> ns) -> map_has k (index_of ns) = bool_decide (k ∈ gid <$> ns).
Proof.
  intros Hn. unfold map_has. destruct (assoc k (index_of ns)) as [i|] eqn:E.
  - apply index_of_lookup in E; [|done]. by rewrite bool_decide_eq_true_2 by (by eapply list_elem_of_lookup_2).
  - rewrite bool_decide_eq_false_2; [done|]. intros [i Hi]%list_elem_of_lookup.
    apply index_of_lookup in Hi; [|done]. congruence.
Qed.

(** C15: the canvas shows exactly what the backend answered. For an answer with distinct
    keys there is one drawn node per returned node, in order, and each carries, in the
    order returned, exactly the edges that leave it for a returned node; no node or edge is
    invented, dropped or attached elsewhere. *)
Theorem neighborhood_exact (nb : NeighborhoodLike) (ns : list ProductNode) (es : list ProductEdge) :
  nb_nodes nb = Some ns -> nb_edges nb = Some es ->
  let ids := (fun n => pr_key (pn_ref n)) <$> ns in
  NoDup ids ->
  neighborhoodToGraph (Some nb) =
    (fun n => set_edges (adapt_edge <$> List.filter (fun e => (pr_key (pe_from e) === pr_key (pn_ref n)) &&
                                                     bool_decide (pr_key (pe_to e) ∈ ids)) es) (adapt_node n)) <$> ns.
Proof.
  intros Hns Hes ids Hn. unfold neighborhoodToGraph. simpl. rewrite Hns, Hes. cbn [nullish].
  set (nodes := adapt_node <$> ns).
  assert (gid <$> nodes = ids) as Hids by (unfold nodes, ids; by rewrite <- list_fmap_compose).
  assert (NoDup (gid <$> nodes)) as Hn' by (by rewrite Hids).
  apply list_eq. intros i.
  set (dest e := if map_has (pr_key (pe_to e)) (index_of nodes)
                 then assoc (pr_key (pe_from e)) (index_of nodes) else None).
  rewrite (fold_left_ext _ (push_step dest adapt_edge)).
  2:{ intros l e. unfold add_edge, push_step, dest. by destruct (assoc _ _), (map_has _ _). }
  rewrite fold_push.
  rewrite list_lookup_fmap. unfold nodes at 1. rewrite list_lookup_fmap. destruct (ns !! i) as [n|] eqn:Ei; [|done]. simpl. do 2 f_equal.
  f_equal. apply List.filter_ext. intros e. unfold dest. rewrite index_of_has, Hids by done.
  destruct (bool_decide (pr_key (pe_to e) ∈ ids)); [|by rewrite andb_false_r, bool_decide_eq_false_2].
  rewrite andb_true_r. apply bool_decide_ext. rewrite index_of_lookup, Hids by done.
  unfold ids. rewrite list_lookup_fmap, Ei. simpl. split; congruence.
Qed.

(** ** Sides *)
Definition adjacent (nodes : list GraphNode) (a b : str) : Prop :=
  (a, b) ∈ all_edges nodes \/ (b, a) ∈ all_edges nodes.

(** One hop that does not enter the focus. *)
Definition hop (nodes : list GraphNode) (focusId a b : str) : Prop := adjacent nodes a b /\ b <> focusId.

(** The side of a direct neighbour; both ways, depends-on wins. *)
Definition direct (nodes : list GraphNode) (focusId d : str) (s : Side) : Prop :=
  d <> focusId /\
  match s with
  | DependsOn => (focusId, d) ∈ all_edges nodes
  | UsedBy => (focusId, d) ∉ all_edges nodes /\ (d, focusId) ∈ all_edges nodes
  end.

Definition neighbours (adj : list (str * list str)) (a : str) : list str := nullish (assoc a adj) [].

Lemma neighbours_link adj a b c : neighbours (link adj a b) c = neighbours adj c ++ (if a === c then [b] else []).
Proof.
  unfold neighbours, link. rewrite assoc_map_set.
  case_bool_decide as E1; case_bool_decide as E2; subst; try done; by rewrite app_nil_r.
Qed.

Lemma adjacency_spec nodes a b : b ∈ neighbours (adjacency nodes) a <-> adjacent nodes a b.
Proof.
  unfold adjacency, adjacent. generalize (all_edges nodes) as l. intros l.
  assert (forall adj, b ∈ neighbours (fold_left (fun adj p => link (link adj p.1 p.2) p.2 p.1) l adj) a <->
    b ∈ neighbours adj a \/ (a, b) ∈ l \/ (b, a) ∈ l) as Hl.
  { induction l as [|[x y] l IH]; intros adj; simpl; [set_solver|].
    rewrite IH, !neighbours_link, !elem_of_app, !elem_of_cons.
    assert (forall (u v w z : str), z ∈ (if u === v then [w] else []) <-> u = v /\ z = w) as Hif.
    { intros u v w z. case_bool_decide; set_solver. }
    rewrite !Hif. clear. naive_solver. }
  rewrite Hl. unfold neighbours. simpl. set_solver.
Qed.

Lemma all_edges_elem nodes a b :
  (a, b) ∈ all_edges nodes <-> exists n e, n ∈ nodes /\ e ∈ edges n /\ gid n = a /\ targetId e = b.
Proof.
  unfold all_edges. rewrite elem_of_concat. setoid_rewrite list_elem_of_fmap. split.
  - intros (l & Hin & n & -> & Hn). apply list_elem_of_fmap in Hin as (e & E & He). simplify_eq. eauto 10.
  - intros (n & e & Hn & He & <- & <-). eexists. split; [|eauto]. apply list_elem_of_fmap. eauto.
Qed.

Lemma dependencies_of_spec nodes f k :
  assoc k (dependencies_of nodes f) = if bool_decide (k <> f /\ (f, k) ∈ all_edges nodes) then Some DependsOn else None.
Proof.
  unfold dependencies_of. generalize (all_edges nodes) as l. intros l.
  assert (forall out, assoc k (fold_left (fun out p => if (p.1 === f) && (p.2 !== f) then map_set p.2 DependsOn out else out) l out) =
    if bool_decide (k <> f /\ (f, k) ∈ l) then Some DependsOn else assoc k out) as Hl; [|by rewrite Hl].
  induction l as [|[x y] l IH]; intros out; cbn [fold_left fst snd].
  - rewrite bool_decide_eq_false_2; [done|]. intros [_ ?]. by eapply not_elem_of_nil.
  - rewrite IH. case_bool_decide as H1.
    + rewrite bool_decide_eq_true_2; [done|]. split; [tauto|]. right. tauto.
    + case_bool_decide as H2; case_bool_decide as H3; subst; simpl; rewrite ?assoc_map_set.
      * rewrite bool_decide_eq_false_2; [done|]. set_solver.
      * case_bool_decide as H4; subst; [by rewrite bool_decide_eq_true_2 by set_solver|].
        rewrite bool_decide_eq_false_2; [done|]. set_solver.
      * rewrite bool_decide_eq_false_2; [done|]. set_solver.
      * rewrite bool_decide_eq_false_2; [done|]. set_solver.
Qed.

(** Filling in the nodes that have no side yet. *)
Lemma fill_spec (f : str) (p : GraphNode -> bool) nodes out k :
  assoc k (fold_left (fun out n => if (gid n !== f) && negb (map_has (gid n) out) && p n
                                   then map_set (gid n) UsedBy out else out) nodes out) =
  match assoc k out with
  | Some s => Some s
  | None => if (k !== f) && existsb (fun n => (gid n === k) && p n) nodes then Some UsedBy else None
  end.
Proof.
  revert out. induction nodes as [|n nodes IH]; intros out; cbn [fold_left existsb].
  - destruct (assoc k out); [done|]. by rewrite andb_false_r.
  - rewrite IH. destruct (decide (gid n = k)) as [->|Hne].
    + rewrite eqb_refl. destruct (k === f) eqn:Ef; simpl; [done|].
      unfold map_has. destruct (assoc k out) eqn:E; simpl; [by rewrite E|].
      destruct (p n); simpl; [by rewrite assoc_map_set, eqb_refl|by rewrite E].
    + rewrite (bool_decide_eq_false_2 (gid n = k)) by done. simpl.
      destruct ((gid n !== f) && negb (map_has (gid n) out) && p n); [|done].
      by rewrite assoc_map_set, bool_decide_eq_false_2 by done.
Qed.

(** *** The walk *)
Section Walk.
Context (nodes : list GraphNode) (f : str).

Definition direct_sides : list (str * Side) := add_users nodes f (dependencies_of nodes f).

Lemma direct_sides_spec k s : assoc k direct_sides = Some s <-> direct nodes f k s.
Proof.
  unfold direct_sides, add_users. rewrite (fill_spec f (fun n => existsb (fun e => targetId e === f) (edges n))).
  rewrite dependencies_of_spec. unfold direct. case_bool_decide as Hd.
  - destruct s; [naive_solver|]. split; [done|]. intros (_ & Hn & _). tauto.
  - assert ((k !== f) && existsb (fun n => (gid n === k) && existsb (fun e => targetId e === f) (edges n)) nodes = true
      <-> k <> f /\ (k, f) ∈ all_edges nodes) as He.
    { rewrite andb_true_iff, negb_true_iff, bool_decide_eq_false, all_edges_elem, existsb_exists.
      setoid_rewrite andb_true_iff. setoid_rewrite bool_decide_eq_true. setoid_rewrite existsb_exists.
      setoid_rewrite bool_decide_eq_true. setoid_rewrite list_elem_of_In. naive_solver. }
    destruct (_ && _); destruct s; simpl; naive_solver.
Qed.

Record walk_inv (out : list (str * Side)) (queue : list str) : Prop := {
  wi_nodup : NoDup (keys out);
  wi_queue : forall k, k ∈ queue -> k ∈ keys out;
  wi_ids : forall k, k ∈ keys out -> k ∈ graph_ids nodes;
  wi_sound : forall k s, assoc k out = Some s -> exists d, direct nodes f d s /\ rtc (hop nodes f) d k;
  wi_direct : forall d s, direct nodes f d s -> assoc d out = Some s }.

(** The neighbours of everything walked, [done] apart, have a side. *)
Definition closed (out : list (str * Side)) (queue done : list str) : Prop :=
  forall k m, k ∈ keys out -> k ∉ queue -> k ∉ done -> hop nodes f k m -> m ∈ keys out.

Lemma adjacent_ids a b : adjacent nodes a b -> b ∈ graph_ids nodes.
Proof.
  unfold adjacent, graph_ids. intros [H|H]; apply elem_of_app; right; apply elem_of_app; [right|left];
    apply list_elem_of_fmap; eexists; (split; [|exact H]); done.
Qed.

Lemma visit_one out q id m :
  walk_inv out q -> closed out q [id] -> id ∈ keys out -> hop nodes f id m -> m ∉ keys out ->
  let out' := map_set m (nullish (assoc id out) UsedBy) out in
  walk_inv out' (q ++ [m]) /\ closed out' (q ++ [m]) [id].
Proof.
  intros [Hn Hq Hids Hs Hd] Hc Hid Hm Hfresh out'.
  assert (forall k, k ∈ keys out' <-> k ∈ keys out \/ k = m) as Hk.
  { intros k. unfold out'. rewrite elem_of_keys_map_set. tauto. }
  assert (exists s, assoc id out = Some s) as [s Es].
  { destruct (assoc id out) eqn:E; [by eexists|]. by apply assoc_None in E. }
  split; [constructor|].
  - by apply NoDup_map_set.
  - intros k. rewrite Hk, elem_of_app, list_elem_of_singleton. naive_solver.
  - intros k [?| ->]%Hk; [by apply Hids|]. eapply adjacent_ids, Hm.
  - intros k s'. unfold out'. rewrite assoc_map_set, Es. cbn [nullish]. case_bool_decide as E; [|apply Hs].
    intros ?. simplify_eq. destruct (Hs id s' Es) as (d & Hdd & Hr). exists d. split; [done|]. by eapply rtc_r.
  - intros d s' Hdd. unfold out'. rewrite assoc_map_set. case_bool_decide as E; [|by apply Hd].
    subst. apply Hd in Hdd. by apply assoc_None in Hfresh; rewrite Hdd in Hfresh.
  - intros k x [Hk'| ->]%Hk Hnq Hni Hx; [|set_solver]. apply Hk. left. apply (Hc k x); set_solver.
Qed.

Lemma visit_fold id l out q :
  (forall m, m ∈ l -> adjacent nodes id m) ->
  walk_inv out q -> closed out q [id] -> id ∈ keys out ->
  let st := fold_left (fun st m =>
    if (m !== f) && negb (map_has m st.1)
    then (map_set m (nullish (assoc id st.1) UsedBy) st.1, st.2 ++ [m]) else st) l (out, q) in
  walk_inv st.1 st.2 /\ closed st.1 st.2 [id] /\ (forall k, k ∈ keys out -> k ∈ keys st.1) /\
  (forall m, m ∈ l -> m <> f -> m ∈ keys st.1) /\ (length st.1 + length q = length out + length st.2)%nat.
Proof.
  revert out q. induction l as [|m l IH]; intros out q Hl Hi Hc Hid; cbn [fold_left fst snd].
  { cbv zeta. cbn [fst snd]. split_and!; try done; set_solver. }
  destruct (decide (m = f)) as [->|Hmf].
  { rewrite eqb_refl. simpl. destruct (IH out q) as (? & ? & ? & ? & ?); [set_solver..|]. split_and!; try done. set_solver. }
  rewrite bool_decide_eq_false_2 by done. destruct (map_has m out) eqn:Hh; cbn [negb andb].
  { apply map_has_spec in Hh. destruct (IH out q) as (? & ? & ? & ? & ?); [set_solver..|]. split_and!; try done. set_solver. }
  assert (m ∉ keys out) as Hfresh by (intros ?%map_has_spec; congruence).
  destruct (visit_one out q id m) as [Hi' Hc']; try done; [split; [by apply Hl; left|done]|].
  destruct (IH _ (q ++ [m]) ltac:(set_solver) Hi' Hc') as (H1 & H2 & H3 & H4 & H5).
  { apply elem_of_keys_map_set. tauto. }
  split_and!; try done.
  - intros k Hk. apply H3, elem_of_keys_map_set. tauto.
  - intros x [->|Hx]%elem_of_cons; [|by apply H4]. intros _. apply H3, elem_of_keys_map_set. tauto.
  - cbv zeta in H5. rewrite (map_set_fresh _ _ _ Hfresh) in *. rewrite !length_app in *. simpl in *. lia.
Qed.

Lemma walk_bound out q : walk_inv out q -> (length out <= length (graph_ids nodes))%nat.
Proof.
  intros Hi. rewrite <- (length_fmap fst out). apply submseteq_length, NoDup_submseteq; [apply (wi_nodup _ _ Hi)|].
  intros k. apply (wi_ids _ _ Hi).
Qed.

(** With one unit of fuel per id of the graph the queue is walked to its end. *)
Lemma walk_drains fuel out q :
  walk_inv out q -> closed out q [] -> (length q + length (graph_ids nodes) <= fuel + length out)%nat ->
  let st := walk f (adjacency nodes) fuel out q in st.2 = [] /\ walk_inv st.1 [] /\ closed st.1 [] [].
Proof.
  revert out q. induction fuel as [|fuel IH]; intros out q Hi Hc Hf; cbn [walk].
  { pose proof (walk_bound _ _ Hi). destruct q; [done|simpl in *; lia]. }
  destruct q as [|id q]; [done|]. unfold visit. fold (neighbours (adjacency nodes) id).
  assert (walk_inv out q) as Hi' by (destruct Hi; constructor; set_solver).
  assert (id ∈ keys out) as Hid by (apply (wi_queue _ _ Hi); by left).
  destruct (visit_fold id (neighbours (adjacency nodes) id) out q) as (H1 & H2 & H3 & H4 & H5); try done.
  { intros m. apply adjacency_spec. }
  { intros k m Hk Hq Hn. apply (Hc k m); set_solver. }
  destruct (fold_left _ _ _) as [out' q']. cbn [fst snd] in *. apply IH; [done| |simpl in *; lia].
  intros k m Hk Hq _ Hh. destruct (decide (k = id)) as [->|Hne].
  - apply H4; [|apply Hh]. apply adjacency_spec, Hh.
  - apply (H2 k m); set_solver.
Qed.

Lemma direct_sides_keys : NoDup (keys direct_sides).
Proof.
  unfold direct_sides, add_users, dependencies_of.
  assert (forall l out, NoDup (keys out) -> NoDup (keys (fold_left (fun (out : list (str * Side)) (p : str * str) =>
    if (p.1 === f) && (p.2 !== f) then map_set p.2 DependsOn out else out) l out))) as H1.
  { induction l as [|p l IH]; intros out Ho; simpl; [done|]. apply IH. case_match; [by apply NoDup_map_set|done]. }
  assert (forall l out, NoDup (keys out) -> NoDup (keys (fold_left (fun (out : list (str * Side)) n =>
    if (gid n !== f) && negb (map_has (gid n) out) && existsb (fun e => targetId e === f) (edges n)
    then map_set (gid n) UsedBy out else out) l out))) as H2.
  { induction l as [|p l IH]; intros out Ho; simpl; [done|]. apply IH. case_match; [by apply NoDup_map_set|done]. }
  apply H2, H1. constructor.
Qed.

Lemma walked :
  let out := (walk f (adjacency nodes) (length (graph_ids nodes)) direct_sides (keys direct_sides)).1 in
  (forall k s, assoc k out = Some s -> exists d, direct nodes f d s /\ rtc (hop nodes f) d k) /\
  (forall d s, direct nodes f d s -> assoc d out = Some s) /\
  (forall d s k, direct nodes f d s -> rtc (hop nodes f) d k -> k ∈ keys out).
Proof.
  destruct (walk_drains (length (graph_ids nodes)) direct_sides (keys direct_sides)) as (_ & Hi & Hc).
  - constructor; [apply direct_sides_keys|done| | |apply direct_sides_spec].
    + intros k Hk. destruct (assoc k direct_sides) as [s|] eqn:E; [|by apply assoc_None in E].
      apply direct_sides_spec in E as [_ E]. apply (adjacent_ids f). unfold adjacent. destruct s; tauto.
    + intros k s Hk%direct_sides_spec. by exists k.
  - intros k m Hk Hq. done.
  - unfold keys. rewrite length_fmap. lia.
  - split_and!; [apply (wi_sound _ _ Hi)|apply (wi_direct _ _ Hi)|].
    intros d s k Hd Hr. assert (d ∈ keys (walk f (adjacency nodes) (length (graph_ids nodes)) direct_sides (keys direct_sides)).1) as Hk.
    { apply map_has_spec. unfold map_has. by rewrite (wi_direct _ _ Hi d s Hd). }
    clear Hd. induction Hr as [|a b c Hab Hr IH]; [done|]. apply IH. apply (Hc a b); try done; apply not_elem_of_nil.
Qed.
End Walk.

(** Every entity gets the side it is reached through. The focus has no side and every
    other node has one; what the focus points at is on the depends-on side, what only
    points at the focus on the used-by side; anything else takes the side of a direct
    neighbour it is connected to without passing the focus, and the used-by side exactly
    by default when it is connected to none. *)
Theorem sidesOf_spec (nodes : list GraphNode) (f : str) :
  let side k := assoc k (sidesOf nodes f) in
  side f = None /\
  (forall n, n ∈ nodes -> gid n <> f -> is_Some (side (gid n))) /\
  (forall d s, direct nodes f d s -> side d = Some s) /\
  (forall k s, side k = Some s ->
     (exists d, direct nodes f d s /\ rtc (hop nodes f) d k) \/
     (s = UsedBy /\ forall d s', direct nodes f d s' -> ~ rtc (hop nodes f) d k)).
Proof.
  cbv zeta. unfold sidesOf. fold (direct_sides nodes f).
  destruct (walked nodes f) as (Hsound & Hdir & Hconn). set (out := (walk _ _ _ _ _).1) in *.
  rewrite (fold_left_ext _ (fun out n => if (gid n !== f) && negb (map_has (gid n) out) && (fun _ => true) n
    then map_set (gid n) UsedBy out else out)) by (intros; by rewrite andb_true_r).
  assert (assoc f out = None) as Hf.
  { destruct (assoc f out) as [s|] eqn:E; [|done]. apply Hsound in E as (d & [Hd _] & Hr).
    apply rtc_inv_r in Hr as [->|(b & _ & _ & Hb)]; done. }
  setoid_rewrite (fill_spec f (fun _ => true)). split_and!.
  - by rewrite Hf, eqb_refl.
  - intros n Hn Hne. destruct (assoc (gid n) out); [by eexists|]. rewrite bool_decide_eq_false_2 by done.
    assert (existsb (fun n0 => (gid n0 === gid n) && true) nodes = true) as ->; [|by eexists].
    apply existsb_exists. exists n. by rewrite <- list_elem_of_In, eqb_refl.
  - intros d s Hd. by rewrite (Hdir d s Hd).
  - intros k s Hk. destruct (assoc k out) as [s'|] eqn:E; [left; apply Hsound; congruence|].
    right. split; [by destruct (_ && _); simplify_eq|]. intros d s' Hd Hr.
    apply assoc_None in E. apply E. by eapply Hconn.
Qed.

Definition test_ref (k : str) : ProductRef :=
  {| pr_kind := "service"; pr_key := k; pr_label := None; pr_status := None; pr_version := None |}.
Definition test_pnode (k : str) (d : Z) : ProductNode :=
  {| pn_ref := test_ref k; pn_status := None; pn_depth := Some d; pn_focus := None; pn_owner := None |}.
Definition test_pedge (a b : str) : ProductEdge :=
  {| pe_from := test_ref a; pe_to := test_ref b; pe_relation := "dependency"; pe_difference := Some ("matched" : str);
     pe_serviceCorroboration := None; pe_guaranteeStatus := None |}.

Lemma neighborhood_exact_witness :
  let ns := [test_pnode "a" 0; test_pnode "b" 1] in
  let es := [test_pedge "a" "b"; test_pedge "a" "gone"] in
  neighborhoodToGraph (Some {| nb_nodes := Some ns; nb_edges := Some es |}) =
    (fun n => set_edges (adapt_edge <$> List.filter (fun e => (pr_key (pe_from e) === pr_key (pn_ref n)) &&
        bool_decide (pr_key (pe_to e) ∈ (fun n => pr_key (pn_ref n)) <$> ns)) es) (adapt_node n)) <$> ns.
Proof.
  intros ns es. apply (neighborhood_exact {| nb_nodes := Some ns; nb_edges := Some es |} ns es); [done|done|by_decide].
Defined.
