(* ===== verification/Lanes.v ===== *)
(** * The lanes of a neighbourhood: [laneGraph] of
    [src/pkg/dashboard/frontend/src/lib/neighborhoodGraph.ts]

    Which entities are folded into a node per team or held back from a full lane, and which
    edges are drawn. [n === focus] is equality of positions in the node list. *)

From stdpp Require Import base list gmap sorting.
From Stdlib Require Import Init.Byte ZArith NArith Lia.
From S2P Require Import Prelude Uri Format Neighborhood.
Local Open Scope Z_scope.

(** ** Lanes *)
Definition GROUP_THRESHOLD : Z := 40.
Definition GROUP_PREFIX : str := "group:".
Definition LANE_PREFIX : str := "lane:".
Definition MAX_GROUPS_PER_SIDE : Z := 7.
Definition LANE_CAP : Z := 8.
Definition MORE_SUFFIX : str := ":+".
Definition OTHER_TEAMS : str := "Other teams".
Definition OTHER_TEAMS_BY_SIDE (s : option Side) : option str :=
  match s with
  | Some DependsOn => Some ("Other teams that it depends on" : str)
  | Some UsedBy => Some ("Other teams that depend on it" : str)
  | None => None
  end.

Record Grouping := { open : list str; all : bool; threshold : Z }.
Record LaneGroup := { lg_id : str; lg_owner : str; lg_side : option Side; lg_count : Z }.
Record GroupedGraph := {
  graph : list GraphNode; groups : list LaneGroup; folded : Z; more : option (list LaneGroup) }.

Definition ownerOf (n : GraphNode) : str := or_str (owner n) "No owner".

Definition state_rank (s : option EdgeVisualState) : Z :=
  match s with
  | Some Drift => 4 | Some ExpectedNotObserved => 3 | Some Insufficient => 2 | Some Matched => 1 | None => 0
  end.
Definition tone_rank (tone : str) : Z := switch tone [("err", 2); ("warn", 1)] 0.
Definition STATE_WORDS (s : EdgeVisualState) : str :=
  match s with
  | Drift => "observed, not expected" | ExpectedNotObserved => "expected, not observed"
  | Insufficient => "insufficient evidence" | Matched => "matched"
  end.

(** [${side}] of a side that may be undefined, and the sign it is drawn with. *)
Definition side_text (s : option Side) : str := nullish (side_str <$> s) "undefined".
Definition sign (s : option Side) : Z := if s === Some DependsOn then -1 else 1.

Definition far (n : GraphNode) : bool := 2 <=? nullish (depth n) 1.

Definition len {A} (l : list A) : Z := Z.of_nat (length l).

(** What one group edge stands for. *)
Record Agg := { ag_count : Z; ag_worst : option EdgeVisualState; ag_worstCount : Z; ag_runs : bool; ag_refused : Z }.

Definition tally (agg : list (str * Agg)) (g : str) (e : GraphEdge) : list (str * Agg) :=
  let a := nullish (assoc g agg) {| ag_count := 0; ag_worst := None; ag_worstCount := 0; ag_runs := true; ag_refused := 0 |} in
  let st := e_state e in
  let '(worst, worstCount) :=
    if state_rank (ag_worst a) <? state_rank st then (st, 1)
    else (ag_worst a, if (st !== None) && (st === ag_worst a) then ag_worstCount a + 1 else ag_worstCount a) in
  map_set g {| ag_count := ag_count a + 1; ag_worst := worst; ag_worstCount := worstCount;
               ag_runs := ag_runs a && (e_type e === Some ("runs" : str));
               ag_refused := ag_refused a + (if refused e then 1 else 0) |} agg.

Section Lanes.
Context `{Locale} (nodes : list GraphNode) (opts : Grouping) (fi : nat) (focus : GraphNode).

Definition Entry : Type := nat * GraphNode.
Definition entries : list Entry := imap pair nodes.
Definition is_focus (p : Entry) : bool := (p.1 =? fi)%nat.
Definition is_open (id : str) : bool := bool_decide (id ∈ open opts).

Definition sides : list (str * Side) := sidesOf nodes (gid focus).
Definition side_of (n : GraphNode) : option Side := assoc (gid n) sides.

Definition fold_far : bool := negb (all opts) && (threshold opts <? len nodes).
Definition fold_near : bool :=
  fold_far && (threshold opts <? len (List.filter (fun p => negb (is_focus p) && negb (far p.2)) entries)).

(** *** The teams *)
Definition Members : Type := list (str * list GraphNode).

Definition group_id (n : GraphNode) : str := GROUP_PREFIX ++ side_text (side_of n) ++ ":" ++ ownerOf n.

Definition add_member (m : Members) (p : Entry) : Members :=
  let n := p.2 in
  if is_focus p || negb fold_far || (negb (far n) && negb fold_near) then m
  else let id := group_id n in
       if is_open id then m else map_set id (nullish (assoc id m) [] ++ [n]) m.

Definition teams : Members := fold_left add_member entries [].

Definition cmp_size (a b : str * list GraphNode) : Z := cmp_or (len b.2 - len a.2) (localeCompare a.1 b.1).
Definition by_size : Members := sort_by cmp_size (List.filter (fun t => forallb far t.2) teams).

(** [side.get(ms[0].id)] *)
Definition team_side (ms : list GraphNode) : option Side := head ms ≫= side_of.

Record Folding := { members : Members; ownerName : list (str * option str); perSide : list (option Side * Z) }.

Definition fold_small (f : Folding) (t : str * list GraphNode) : Folding :=
  let '(id, ms) := t in
  let s := team_side ms in
  let n := nullish (assoc s (perSide f)) 0 in
  if (2 <=? len ms) && (n <? MAX_GROUPS_PER_SIDE) then
    {| members := members f; ownerName := ownerName f; perSide := map_set s (n + 1) (perSide f) |}
  else
    let ms1 := map_delete id (members f) in
    let other := GROUP_PREFIX ++ side_text s ++ ":*" in
    if is_open other then {| members := ms1; ownerName := ownerName f; perSide := perSide f |}
    else {| members := map_set other (nullish (assoc other ms1) [] ++ ms) ms1;
            ownerName := map_set other (OTHER_TEAMS_BY_SIDE s) (ownerName f); perSide := perSide f |}.

Definition folding : Folding := fold_left fold_small by_size {| members := teams; ownerName := []; perSide := [] |}.

(** *** The group nodes *)
Definition min_depth (ms : list GraphNode) : Z :=
  match (fun m => nullish (depth m) 1) <$> ms with [] => 0 | d :: ds => fold_left Z.min ds d end.

(** [ms.length < 2 && !far(ms[0])]; a team is never empty. *)
Definition stays_itself (ms : list GraphNode) : bool :=
  (len ms <? 2) && match ms with n :: _ => negb (far n) | [] => false end.

Definition team_owner (id : str) (ms : list GraphNode) : str :=
  nullish (mjoin (assoc id (ownerName folding))) (match ms with n :: _ => ownerOf n | [] => [] end).

Definition group_of (t : str * list GraphNode) : LaneGroup :=
  {| lg_id := t.1; lg_owner := team_owner t.1 t.2; lg_side := team_side t.2; lg_count := len t.2 |}.

Definition group_node (t : str * list GraphNode) : GraphNode :=
  let '(id, ms) := t in
  let s := team_side ms in
  let d := min_depth ms in
  let own := team_owner id ms in
  {| gid := id; serviceName := if ends_with ":*" id then OTHER_TEAMS else own;
     version := Some (formatCount (len ms) ++ " " ++ (if len ms =? 1 then "entity" else "entities"));
     status := "group"; kind := KService; edges := []; depth := Some d; owner := Some own; group := Some (len ms);
     side := Some (sign s); lane := false;
     parent := if d <=? 1 then Some (LANE_PREFIX ++ side_text s) else None |}.

Definition drawn_teams : Members := List.filter (fun t => negb (stays_itself t.2)) (members folding).
Definition group_nodes : list GraphNode := group_node <$> drawn_teams.

(** [for (const m of ms) rep.set(m.id, id)] *)
Definition represent (id : str) (ms : list GraphNode) (rep : list (str * str)) : list (str * str) :=
  fold_left (fun rep m => map_set (gid m) id rep) ms rep.

Definition rep_groups : list (str * str) := fold_left (fun rep t => represent t.1 t.2 rep) drawn_teams [].

(** *** What a full lane holds back *)
Definition attention (n : GraphNode) : Z :=
  fold_left Z.max
    ((fun e => if refused e then 5 else state_rank (e_state e)) <$>
       List.filter (fun e => targetId e === gid n) (edges focus) ++
       List.filter (fun e => targetId e === gid focus) (edges n)) 0 * 10
  + tone_rank (statusTone (Some (status n))).

Definition cmp_attention (a b : GraphNode) : Z := cmp_or (attention b - attention a) (localeCompare (gid a) (gid b)).

Definition hold_back (st : list (str * str) * list LaneGroup) (s : Side) : list (str * str) * list LaneGroup :=
  let '(rep, more) := st in
  let id := GROUP_PREFIX ++ side_str s ++ MORE_SUFFIX in
  if is_open id then st
  else
    let near := snd <$> List.filter (fun p => negb (is_focus p) && negb (far p.2) && negb (map_has (gid p.2) rep) &&
                                              (side_of p.2 === Some s)) entries in
    let room := Z.max 0 (LANE_CAP - len (List.filter (fun g => parent g === Some (LANE_PREFIX ++ side_str s)) group_nodes)) in
    if len near - room <? 2 then st
    else let hidden := drop (Z.to_nat room) (sort_by cmp_attention near) in
         (represent id hidden rep,
          more ++ [{| lg_id := id; lg_owner := "+" ++ show_Z (len hidden) ++ " more"; lg_side := Some s;
                      lg_count := len hidden |}]).

Definition held : list (str * str) * list LaneGroup := fold_left hold_back [DependsOn; UsedBy] (rep_groups, []).
Definition rep : list (str * str) := held.1.

(** *** The lanes and the drawn entities *)
Definition lane_count (s : Side) : Z :=
  len (List.filter (fun p => negb (is_focus p) && negb (far p.2) && (side_of p.2 === Some s)) entries).

Definition lane_node (s : Side) : GraphNode :=
  {| gid := LANE_PREFIX ++ side_str s;
     serviceName := (match s with DependsOn => "Depends on" | UsedBy => "Used by" end) ++
                    " (" ++ show_Z (lane_count s) ++ ")";
     status := "lane"; version := None; kind := KService; edges := []; depth := None; owner := None; group := None;
     side := Some (sign (Some s)); lane := true; parent := None |}.

Definition lanes : list GraphNode :=
  lane_node <$> List.filter (fun s => bool_decide (s ∈ values sides)) [DependsOn; UsedBy].

Definition place (p : Entry) : GraphNode :=
  let n := p.2 in
  let s := side_of n in
  {| gid := gid n; serviceName := serviceName n; status := status n; version := version n; kind := kind n;
     edges := []; depth := depth n; owner := owner n; group := group n;
     side := Some (if is_focus p then 0 else sign s); lane := lane n;
     parent := if is_focus p then parent n
               else if negb (far n) then Some (LANE_PREFIX ++ side_text s) else parent n |}.

Definition kept : list GraphNode := place <$> List.filter (fun p => negb (map_has (gid p.2) rep)) entries.

(** *** Edges *)
Definition route_edge (byId : list (str * nat)) (st : list (str * Agg) * list GraphNode) (ne : GraphNode * GraphEdge)
  : list (str * Agg) * list GraphNode :=
  let '(agg, kept) := st in
  let '(n, e) := ne in
  let from := assoc (gid n) rep in
  let to := assoc (targetId e) rep in
  match from, to with
  | None, None =>
      (agg, if map_has (targetId e) byId
            then match assoc (gid n) byId with Some i => alter (push_edge e) i kept | None => kept end
            else kept)
  | _, _ =>
      if from === to then st
      else let agg := match from with Some g => tally agg g e | None => agg end in
           let agg := match to with Some g => tally agg g e | None => agg end in
           (agg, kept)
  end.

Definition routed : list (str * Agg) * list GraphNode :=
  fold_left (route_edge (index_of kept))
    (concat ((fun n => (fun e => (n, e)) <$> edges n) <$> nodes)) ([], kept).

Definition inner_of (g : GraphNode) : str :=
  if nullish (depth g) 1 <=? 1 then gid focus
  else LANE_PREFIX ++ (if side g === Some (-1) then side_str DependsOn else side_str UsedBy).

Definition group_edge (g : GraphNode) (a : Agg) : GraphEdge :=
  {| targetId := if side g === Some (-1) then gid g else inner_of g;
     e_type := Some (if ag_runs a then "runs" else "dependency");
     e_state := ag_worst a; driftStatus := None; refused := negb (ag_refused a =? 0);
     e_label := Some (if negb (ag_refused a =? 0) then "refused (" ++ formatCount (ag_refused a) ++ ")"
                      else match ag_worst a with
                           | Some w => STATE_WORDS w ++ " (" ++ formatCount (ag_worstCount a) ++ ")"
                           | None => formatCount (ag_count a) ++ " " ++ (if ag_count a =? 1 then "link" else "links")
                           end) |}.

(** Push an edge onto the first node of the list with an id, as [lanes.find(...)] does. *)
Fixpoint push_at (id : str) (e : GraphEdge) (l : list GraphNode) : list GraphNode :=
  match l with
  | [] => []
  | n :: l => if gid n === id then push_edge e n :: l else n :: push_at id e l
  end.

(** The lanes, the drawn entities and the group nodes, once a group's edge is in place. *)
Definition link_group (agg : list (str * Agg)) (byId : list (str * nat))
    (st : list GraphNode * list GraphNode * list GraphNode) (g : GraphNode)
  : list GraphNode * list GraphNode * list GraphNode :=
  let '(lanes, kept, gs) := st in
  match assoc (gid g) agg with
  | None => (lanes, kept, gs ++ [g])
  | Some a =>
      let e := group_edge g a in
      if side g === Some (-1) then
        if inner_of g === gid focus
        then (lanes, match assoc (gid focus) byId with Some i => alter (push_edge e) i kept | None => kept end, gs ++ [g])
        else (push_at (inner_of g) e lanes, kept, gs ++ [g])
      else (lanes, kept, gs ++ [push_edge e g])
  end.

Definition linked : list GraphNode * list GraphNode * list GraphNode :=
  fold_left (link_group routed.1 (index_of kept)) group_nodes (lanes, routed.2, []).

Definition cmp_groups (a b : LaneGroup) : Z :=
  cmp_or (lg_count b - lg_count a)
    (cmp_or (localeCompare (lg_owner a) (lg_owner b)) (localeCompare (side_text (lg_side a)) (side_text (lg_side b)))).

Definition grouped : GroupedGraph :=
  let '(lanes, kept, gs) := linked in
  let capped := fold_left (fun t m => t + lg_count m) held.2 0 in
  {| graph := lanes ++ kept ++ gs; groups := sort_by cmp_groups (group_of <$> drawn_teams);
     folded := len rep - capped; more := match held.2 with [] => None | m => Some m end |}.
End Lanes.

Definition laneGraph `{Locale} (nodes : list GraphNode) (opts : Grouping) : GroupedGraph :=
  match List.find (fun p => depth p.2 === Some 0) (imap pair nodes) with
  | None => {| graph := nodes; groups := []; folded := 0; more := None |}
  | Some (fi, focus) => grouped nodes opts fi focus
  end.

Definition default_grouping : Grouping := {| open := []; all := false; threshold := GROUP_THRESHOLD |}.

(** ** Lanes lose nothing *)
Definition flat {K A} (m : list (K * list A)) : list A := concat (values m).

Lemma flat_cons {K A} (k : K) (l : list A) m : flat ((k, l) :: m) = l ++ flat m.
Proof. done. Qed.

Section Flat.
Context {K A : Type} `{EqDecision K}.

Lemma flat_map_set (k : K) (l : list A) m :
  NoDup (keys m) -> flat (map_set k (nullish (assoc k m) [] ++ l) m) ≡ₚ flat m ++ l.
Proof.
  induction m as [|[k' l'] m IH]; [intros _; unfold flat; simpl; by rewrite app_nil_r|].
  change (keys ((k', l') :: m)) with (k' :: keys m). intros [Hk Hn]%NoDup_cons. cbn [map_set assoc].
  case_bool_decide as E.
  - rewrite !flat_cons. cbn [nullish]. solve_Permutation.
  - rewrite !flat_cons, IH by done. by rewrite app_assoc.
Qed.

Lemma flat_map_delete (k : K) (l : list A) m :
  NoDup (keys m) -> assoc k m = Some l -> flat m ≡ₚ flat (map_delete k m) ++ l.
Proof.
  induction m as [|[k' l'] m IH]; [done|]. change (keys ((k', l') :: m)) with (k' :: keys m).
  intros [Hk Hn]%NoDup_cons. cbn [map_delete List.filter fst assoc].
  case_bool_decide as E1; case_bool_decide as E2; subst; try done; cbn [negb].
  - intros [= ->]. rewrite flat_cons.
    assert (List.filter (fun p : K * list A => p.1 !== k') m = m) as ->; [|by rewrite Permutation_app_comm].
    clear -Hk. induction m as [|[k l] m IH]; [done|]. change (keys ((k, l) :: m)) with (k :: keys m) in Hk.
    apply not_elem_of_cons in Hk as [Hne Hk]. cbn [List.filter fst]. rewrite bool_decide_eq_false_2 by done.
    simpl. by rewrite IH.
  - intros Hl. rewrite !flat_cons, (IH Hn Hl). by rewrite app_assoc.
Qed.

Lemma flat_filter_sub (p : K * list A -> bool) m : flat (List.filter p m) ⊆+ flat m.
Proof.
  induction m as [|[k l] m IH]; [done|]. cbn [List.filter]. destruct (p (k, l)); rewrite !flat_cons.
  - by apply submseteq_app.
  - rewrite IH. by apply submseteq_inserts_l.
Qed.

Lemma keys_filter_sub (p : K * list A -> bool) m : sublist (keys (List.filter p m)) (keys m).
Proof.
  induction m as [|[k l] m IH]; [done|]. cbn [List.filter].
  change (keys ((k, l) :: m)) with (k :: keys m). destruct (p (k, l)); by constructor.
Qed.

Lemma assoc_map_delete (k k' : K) (m : list (K * list A)) : k' <> k -> assoc k' (map_delete k m) = assoc k' m.
Proof.
  intros Hne. unfold map_delete. induction m as [|[k1 l] m IH]; [done|]. cbn [List.filter fst assoc].
  destruct (decide (k1 = k)) as [->|Hk].
  - rewrite eqb_refl. simpl. rewrite IH. by rewrite bool_decide_eq_false_2.
  - rewrite (bool_decide_eq_false_2 (k1 = k)) by done. simpl. by rewrite IH.
Qed.
End Flat.

Section LaneProofs.
Context `{Locale} (nodes : list GraphNode) (opts : Grouping) (fi : nat) (focus : GraphNode).

Definition others : list GraphNode := snd <$> List.filter (fun p => negb (is_focus fi p)) (entries nodes).

(** What stays true of the teams: distinct ids that are not open, none empty, and every
    entity in at most one team, the focus in none. *)
Record teams_ok (m : Members) : Prop := {
  to_keys : NoDup (keys m);
  to_sub : flat m ⊆+ others;
  to_ok : forall id ms, assoc id m = Some ms -> ms <> [] /\ id ∉ open opts }.

Lemma is_open_spec id : is_open opts id = false <-> id ∉ open opts.
Proof. unfold is_open. by rewrite bool_decide_eq_false. Qed.

Lemma teams_are_ok : teams_ok (teams nodes opts fi focus).
Proof.
  unfold teams.
  assert (forall l m rest, (snd <$> List.filter (fun p => negb (is_focus fi p)) l) ++ rest ⊆+ others ->
    NoDup (keys m) -> flat m ⊆+ rest -> (forall id ms, assoc id m = Some ms -> ms <> [] /\ id ∉ open opts) ->
    teams_ok (fold_left (add_member nodes opts fi focus) l m)) as Hg.
  { induction l as [|p l IH]; intros m rest Hr Hk Hs Ho; cbn [fold_left].
    { constructor; [done| |done]. etransitivity; [exact Hs|exact Hr]. }
    unfold add_member at 2. cbv zeta. cbn [List.filter] in Hr.
    destruct (is_focus fi p); cbn [orb negb] in *; [exact (IH m rest Hr Hk Hs Ho)|].
    rewrite fmap_cons in Hr. set (n := p.2) in *.
    assert ((snd <$> List.filter (fun p => negb (is_focus fi p)) l) ++ n :: rest ⊆+ others) as Hr'.
    { rewrite <- Hr. simpl. by rewrite <- Permutation_middle. }
    assert (flat m ⊆+ n :: rest) as Hs' by (by apply submseteq_cons).
    destruct (negb _ || _); [exact (IH m _ Hr' Hk Hs' Ho)|].
    destruct (is_open opts _) eqn:Eo; [exact (IH m _ Hr' Hk Hs' Ho)|].
    eapply IH; [exact Hr'|by apply NoDup_map_set| |].
    - rewrite flat_map_set by done. rewrite Permutation_app_comm. simpl. by apply submseteq_skip.
    - intros id ms. rewrite assoc_map_set. case_bool_decide; [|apply Ho]. intros [= <-]. subst.
      split; [by destruct (nullish _ _)|by apply is_open_spec]. }
  apply (Hg _ [] []); [by rewrite app_nil_r|constructor|done|done].
Qed.

(** A team still to be weighed is still among the members, perhaps grown. *)
Definition pending (m rest : Members) : Prop :=
  NoDup (keys rest) /\ forall id ms, (id, ms) ∈ rest -> ms <> [] /\ exists l, assoc id m = Some l /\ ms ⊆+ l.

Lemma fold_small_ok f t rest :
  teams_ok (members f) -> pending (members f) (t :: rest) ->
  teams_ok (members (fold_small nodes opts focus f t)) /\ pending (members (fold_small nodes opts focus f t)) rest.
Proof.
  destruct t as [id ms]. intros [Hk Hs Ho] [Hn Hp]. change (keys ((id, ms) :: rest)) with (id :: keys rest) in Hn.
  apply NoDup_cons in Hn as [Hid Hn]. destruct (Hp id ms) as (Hne & l & Hl & Hsub); [by left|].
  assert (pending (members f) rest) as Hp' by (split; [done|]; intros k x Hx; apply Hp; by right).
  unfold fold_small. cbv zeta. destruct (_ && _); [done|].
  set (m1 := map_delete id (members f)).
  pose proof (flat_map_delete id l (members f) Hk Hl) as Hd. fold m1 in Hd.
  assert (NoDup (keys m1)) as Hk1 by (eapply sublist_NoDup; [exact Hk|apply keys_filter_sub]).
  assert (forall k x, assoc k m1 = Some x -> assoc k (members f) = Some x) as Hsame.
  { intros k x E. destruct (decide (k = id)) as [->|Hki]; [|by rewrite <- (assoc_map_delete id)].
    apply assoc_elem in E. unfold m1, map_delete in E. apply list_elem_of_In, filter_In in E as [_ E].
    simpl in E. by rewrite eqb_refl in E. }
  assert (forall k x, (k, x) ∈ rest -> exists y, assoc k m1 = Some y /\ x ⊆+ y) as Hp1.
  { intros k x Hx. destruct (Hp k x) as (_ & y & Hy & Hxy); [by right|]. exists y. split; [|done].
    unfold m1. rewrite assoc_map_delete; [done|]. intros ->. apply Hid. apply list_elem_of_fmap. by exists (id, x). }
  destruct (is_open opts _) eqn:Eo; cbn [members].
  - split; [constructor; [done| |naive_solver]|split; [done|]].
    + etransitivity; [|exact Hs]. rewrite Hd. by apply submseteq_inserts_r.
    + intros k x Hx. split; [apply (Hp k x); by right|by apply Hp1].
  - set (other := GROUP_PREFIX ++ _) in *. split; [constructor|split; [done|]].
    + by apply NoDup_map_set.
    + rewrite flat_map_set by done. etransitivity; [|exact Hs]. rewrite Hd. by apply submseteq_skips_l.
    + intros k x. rewrite assoc_map_set. case_bool_decide; [|naive_solver]. intros [= <-]. subst k.
      split; [by intros [_ ?]%app_nil|by apply is_open_spec].
    + intros k x Hx. split; [apply (Hp k x); by right|]. rewrite assoc_map_set.
      destruct (Hp1 k x Hx) as (y & Hy & Hxy). case_bool_decide; [subst k|by eauto].
      rewrite Hy. eexists. split; [done|]. cbn [nullish]. by apply submseteq_inserts_r.
Qed.

Lemma folding_ok : teams_ok (members (folding nodes opts fi focus)).
Proof.
  unfold folding. pose proof teams_are_ok as Ht.
  assert (pending (teams nodes opts fi focus) (by_size nodes opts fi focus)) as Hp.
  { unfold by_size. set (fs := List.filter _ _).
    assert (NoDup (keys fs)) as Hf by (eapply sublist_NoDup; [apply (to_keys _ Ht)|apply keys_filter_sub]).
    split; [by unfold keys; rewrite sort_by_Permutation|].
    intros id ms [Hin _]%elem_of_sort_by%list_elem_of_In%filter_In. apply list_elem_of_In in Hin.
    apply assoc_unique in Hin; [|apply (to_keys _ Ht)]. split; [apply (to_ok _ Ht id ms Hin)|]. by exists ms. }
  change (teams nodes opts fi focus) with (members {| members := teams nodes opts fi focus; ownerName := []; perSide := [] |}) in Ht, Hp.
  revert Ht Hp. generalize ({| members := teams nodes opts fi focus; ownerName := []; perSide := [] |}) as f.
  induction (by_size nodes opts fi focus) as [|t rest IH]; intros f Ht Hp; [done|].
  destruct (fold_small_ok f t rest Ht Hp). by apply IH.
Qed.

Lemma drawn_teams_ok : teams_ok (drawn_teams nodes opts fi focus).
Proof.
  unfold drawn_teams. destruct folding_ok as [Hk Hs Ho].
  assert (NoDup (keys (List.filter (fun t => negb (stays_itself t.2)) (members (folding nodes opts fi focus))))) as Hk'
    by (eapply sublist_NoDup; [exact Hk|apply keys_filter_sub]).
  constructor; [done| |].
  - etransitivity; [apply flat_filter_sub|exact Hs].
  - intros id ms [Hin _]%assoc_elem%list_elem_of_In%filter_In. apply list_elem_of_In in Hin.
    by apply Ho, assoc_unique.
Qed.

(** *** Who is represented *)
Hypothesis ids_distinct : NoDup (gid <$> nodes).
Hypothesis focus_at : nodes !! fi = Some focus.

Lemma entries_snd : (entries nodes).*2 = nodes.
Proof. apply imap_fmap_snd. Qed.

Lemma entries_filter_sub (p : Entry -> bool) : sublist (snd <$> List.filter p (entries nodes)) nodes.
Proof.
  rewrite <- entries_snd at 2. induction (entries nodes) as [|x l IH]; [done|]. cbn [List.filter].
  rewrite fmap_cons. destruct (p x); [rewrite fmap_cons; by constructor|by constructor].
Qed.

Lemma sub_gids (l l' : list GraphNode) : l ⊆+ l' -> gid <$> l ⊆+ gid <$> l'.
Proof. apply fmap_submseteq. Qed.

Lemma others_gids : NoDup (gid <$> others) /\ gid focus ∉ gid <$> others.
Proof.
  split.
  - eapply sublist_NoDup; [exact ids_distinct|]. apply fmap_sublist, entries_filter_sub.
  - unfold others. intros (n & E & Hin)%list_elem_of_fmap. apply list_elem_of_fmap in Hin as ([i m] & -> & Hin).
    apply list_elem_of_In, filter_In in Hin as [Hin Hf]. apply list_elem_of_In in Hin. simpl in *.
    apply elem_of_lookup_imap_1 in Hin as (j & m' & E' & Hm). simplify_eq/=. unfold is_focus in Hf. simpl in Hf.
    apply negb_true_iff, Nat.eqb_neq in Hf. apply Hf. eapply (NoDup_lookup (gid <$> nodes)); [done| |].
    + rewrite list_lookup_fmap, Hm. simpl. by rewrite <- E.
    + by rewrite list_lookup_fmap, focus_at.
Qed.

Lemma NoDup_sub (l l' : list GraphNode) : l ⊆+ l' -> NoDup (gid <$> l') -> NoDup (gid <$> l).
Proof.
  intros [k E]%sub_gids%submseteq_Permutation Hn. rewrite E in Hn. by apply NoDup_app in Hn as (? & _).
Qed.

Lemma represent_eq id ms rep :
  NoDup (keys rep ++ (gid <$> ms)) -> represent id ms rep = rep ++ ((fun m => (gid m, id)) <$> ms).
Proof. apply (fold_set_fresh gid (fun _ => id)). Qed.

Lemma keys_represent id ms rep :
  NoDup (keys rep ++ (gid <$> ms)) -> keys (represent id ms rep) = keys rep ++ (gid <$> ms).
Proof. intros Hr. rewrite represent_eq by done. unfold keys. rewrite fmap_app. by rewrite <- list_fmap_compose. Qed.

Lemma rep_groups_keys : keys (rep_groups nodes opts fi focus) = gid <$> flat (drawn_teams nodes opts fi focus).
Proof.
  assert (NoDup (gid <$> flat (drawn_teams nodes opts fi focus))) as Hd
    by (eapply NoDup_sub; [apply (to_sub _ drawn_teams_ok)|apply others_gids]).
  unfold rep_groups. revert Hd. generalize (drawn_teams nodes opts fi focus) as m. intros m Hd.
  assert (forall rep, NoDup (keys rep ++ (gid <$> flat m)) ->
    keys (fold_left (fun rep t => represent t.1 t.2 rep) m rep) = keys rep ++ (gid <$> flat m)) as Hg; [|by rewrite Hg].
  clear Hd. induction m as [|[id ms] m IH]; intros rep Hr; cbn [fold_left]; [by rewrite app_nil_r|].
  rewrite flat_cons, fmap_app, app_assoc in *. cbn [fst snd].
  assert (NoDup (keys rep ++ (gid <$> ms))) as Hr' by (by apply NoDup_app in Hr as (? & _)).
  rewrite IH; rewrite keys_represent by done; done.
Qed.

(** *** What is held back *)
Definition part_ok (p : LaneGroup * list str) : Prop :=
  lg_count p.1 = len p.2 /\ p.2 <> [] /\ lg_id p.1 ∉ open opts.

Record held_ok (st : list (str * str) * list LaneGroup) : Prop := {
  ho_nodup : NoDup (keys st.1);
  ho_sub : forall k, k ∈ keys st.1 -> k ∈ gid <$> others;
  ho_parts : exists parts : list (LaneGroup * list str),
    parts.*1 = st.2 /\ Forall part_ok parts /\
    keys st.1 = (gid <$> flat (drawn_teams nodes opts fi focus)) ++ concat parts.*2 }.

(** The direct neighbours on a side that nothing stands for yet. *)
Definition near_of (rep : list (str * str)) (s : Side) : list GraphNode :=
  snd <$> List.filter (fun p => negb (is_focus fi p) && negb (far p.2) && negb (map_has (gid p.2) rep) &&
                                (side_of nodes focus p.2 === Some s)) (entries nodes).

Lemma near_of_spec rep s n : n ∈ near_of rep s -> n ∈ others /\ gid n ∉ keys rep.
Proof.
  unfold near_of, others. intros ([i m] & -> & Hin)%list_elem_of_fmap.
  apply list_elem_of_In, filter_In in Hin as [Hin Hb]. split_bools. simpl in *. split.
  - apply list_elem_of_fmap. exists (i, m). split; [done|]. apply list_elem_of_In, filter_In.
    split; [done|]. by apply negb_true_iff.
  - intros ?%map_has_spec. congruence.
Qed.

Lemma hold_back_ok st s : held_ok st -> held_ok (hold_back nodes opts fi focus st s).
Proof.
  destruct st as [rep more]. intros [Hn Hs (parts & Hp & Hok & Hk)]. cbn [fst snd] in *. unfold hold_back.
  destruct (is_open opts _) eqn:Eo; [by constructor; eauto|]. fold (near_of rep s). set (room := Z.max 0 _).
  destruct (Z.ltb_spec (len (near_of rep s) - room) 2) as [|Hroom]; [by constructor; eauto|].
  set (hidden := drop _ _).
  assert (hidden ⊆+ near_of rep s) as Hsub.
  { rewrite <- (sort_by_Permutation (cmp_attention focus) (near_of rep s)). apply sublist_submseteq, sublist_drop. }
  assert (NoDup (keys rep ++ (gid <$> hidden))) as Hnew.
  { apply NoDup_app. split_and!; [done| |].
    - intros k Hk1 (n & -> & Hin)%list_elem_of_fmap. apply (elem_of_submseteq _ (near_of rep s)) in Hin; [|done].
      by apply near_of_spec in Hin as [_ ?].
    - eapply NoDup_sub; [exact Hsub|]. eapply sublist_NoDup; [exact ids_distinct|].
      apply fmap_sublist, entries_filter_sub. }
  constructor; cbn [fst snd]; rewrite ?keys_represent by done; [done| |].
  - intros k [?|(n & -> & Hin)%list_elem_of_fmap]%elem_of_app; [by apply Hs|].
    apply (elem_of_submseteq _ (near_of rep s)) in Hin; [|done]. apply list_elem_of_fmap_2.
    by apply near_of_spec in Hin as [? _].
  - eexists (parts ++ [(_, gid <$> hidden)]). rewrite !fmap_app, concat_app. simpl. split_and!.
    + rewrite Hp. reflexivity.
    + apply Forall_app. split; [done|]. apply Forall_singleton. unfold part_ok. simpl. split_and!.
      * unfold len. by rewrite length_fmap.
      * intros ?%fmap_nil_inv. assert (len hidden = len (near_of rep s) - room) as Hlen.
        { unfold len, hidden. rewrite length_drop, length_sort_by. unfold len in *. lia. }
        rewrite H0 in Hlen. unfold len in *. simpl in *. lia.
      * by apply is_open_spec.
    + by rewrite app_nil_r, Hk, app_assoc.
Qed.

Lemma held_is_ok : held_ok (held nodes opts fi focus).
Proof.
  unfold held. cbn [fold_left]. do 2 apply hold_back_ok. pose proof drawn_teams_ok as [Hk Hs Ho].
  constructor; cbn [fst snd]; rewrite ?rep_groups_keys.
  - eapply NoDup_sub; [exact Hs|apply others_gids].
  - intros k Hin. eapply elem_of_submseteq; [exact Hin|by apply sub_gids].
  - exists []. simpl. by rewrite app_nil_r.
Qed.

Lemma focus_not_rep : assoc (gid focus) (rep nodes opts fi focus) = None.
Proof. apply assoc_None. intros ?%(ho_sub _ held_is_ok). by apply others_gids. Qed.

(** The drawn entities, then those something else stands for, are all the entities. *)
Lemma kept_and_rep :
  (gid <$> kept nodes opts fi focus) ++ keys (rep nodes opts fi focus) ≡ₚ gid <$> nodes /\
  gid <$> kept nodes opts fi focus = List.filter (fun k => negb (map_has k (rep nodes opts fi focus))) (gid <$> nodes).
Proof.
  pose proof held_is_ok as [Hn Hs _]. fold (rep nodes opts fi focus) in Hn, Hs.
  set (r := rep nodes opts fi focus) in *.
  assert (gid <$> kept nodes opts fi focus = List.filter (fun k => negb (map_has k r)) (gid <$> nodes)) as E.
  { unfold kept. fold r. rewrite <- list_fmap_compose. clearbody r.
    transitivity (List.filter (fun k => negb (map_has k r)) (gid <$> (entries nodes).*2)); [|by rewrite entries_snd].
    induction (entries nodes) as [|p l IH]; [reflexivity|]. rewrite !fmap_cons. cbn [List.filter].
    destruct (map_has (gid p.2) r); cbn [negb]; [exact IH|]. rewrite fmap_cons. by f_equal. }
  split; [|done]. rewrite E. apply NoDup_Permutation.
  - apply NoDup_app. split_and!; [|intros k [_ Hb]%list_elem_of_In%filter_In Hk|done].
    + eapply sublist_NoDup; [exact ids_distinct|]. clear. induction (gid <$> nodes) as [|k l IH]; [done|]. simpl.
      destruct (negb _); by constructor.
    + apply map_has_spec in Hk. by rewrite Hk in Hb.
  - done.
  - intros k. rewrite elem_of_app, list_elem_of_In, filter_In, <- list_elem_of_In, negb_true_iff.
    rewrite <- (map_has_spec k r). split.
    + intros [[? _]|Hk]; [done|]. apply map_has_spec, Hs in Hk.
      eapply elem_of_submseteq; [exact Hk|]. apply sub_gids, sublist_submseteq, entries_filter_sub.
    + intros Hk. destruct (map_has k r); tauto.
Qed.

(** *** Which edges are drawn *)
Definition node_edges : list (GraphNode * GraphEdge) := concat ((fun n => (fun e => (n, e)) <$> edges n) <$> nodes).

(** The node an edge is drawn on as it is, if both its ends are drawn. *)
Definition drawn_on (byId : list (str * nat)) (ne : GraphNode * GraphEdge) : option nat :=
  match assoc (gid ne.1) (rep nodes opts fi focus), assoc (targetId ne.2) (rep nodes opts fi focus) with
  | None, None => if map_has (targetId ne.2) byId then assoc (gid ne.1) byId else None
  | _, _ => None
  end.

Lemma routed_kept byId l st :
  (fold_left (route_edge nodes opts fi focus byId) l st).2 = fold_left (push_step (drawn_on byId) snd) l st.2.
Proof.
  revert st. induction l as [|[n e] l IH]; intros [agg ks]; [done|]. cbn [fold_left]. rewrite IH. f_equal.
  unfold route_edge, push_step, drawn_on. cbn [fst snd].
  destruct (assoc (gid n) _), (assoc (targetId e) _); cbn [snd]; try (by case_bool_decide).
  by destruct (map_has _ _), (assoc (gid n) byId).
Qed.

Lemma filter_node_edges n (q : GraphEdge -> bool) :
  n ∈ nodes ->
  snd <$> List.filter (fun ne => (gid ne.1 === gid n) && q ne.2) node_edges = List.filter q (edges n).
Proof.
  unfold node_edges. revert ids_distinct. clear. intros Hn Hin. induction nodes as [|m l IH]; [by apply not_elem_of_nil in Hin|].
  rewrite fmap_cons in Hn. apply NoDup_cons in Hn as [Hm Hn]. rewrite fmap_cons. cbn [concat].
  rewrite List.filter_app, fmap_app.
  assert (forall es, snd <$> List.filter (fun ne => (gid ne.1 === gid n) && q ne.2) ((fun e => (m, e)) <$> es) =
    if gid m === gid n then List.filter q es else []) as Hes.
  { induction es as [|e es IHe]; [by case_bool_decide|]. rewrite fmap_cons. cbn [List.filter fst snd].
    destruct (gid m === gid n) eqn:E; cbn [andb]; [|done]. destruct (q e); [rewrite fmap_cons; by f_equal|done]. }
  rewrite Hes. apply elem_of_cons in Hin as [->|Hin].
  - rewrite eqb_refl. rewrite <- (app_nil_r (List.filter q (edges m))) at 2. f_equal.
    clear -Hm. induction l as [|x l IH]; [done|]. rewrite fmap_cons in Hm. apply not_elem_of_cons in Hm as [Hne Hm].
    rewrite fmap_cons. cbn [concat]. rewrite List.filter_app, fmap_app, IH by done. rewrite app_nil_r.
    induction (edges x) as [|e es IHe]; [done|]. rewrite fmap_cons. cbn [List.filter fst].
    by rewrite bool_decide_eq_false_2.
  - rewrite bool_decide_eq_false_2; [by apply IH|]. intros E. apply Hm. rewrite E. by apply list_elem_of_fmap_2.
Qed.

Lemma kept_distinct : NoDup (gid <$> kept nodes opts fi focus).
Proof.
  destruct kept_and_rep as [Hp _]. pose proof ids_distinct as Hn. rewrite <- Hp in Hn.
  by apply NoDup_app in Hn as (? & _).
Qed.

(** A drawn entity keeps exactly its edges to drawn entities. *)
Lemma routed_lookup i k :
  kept nodes opts fi focus !! i = Some k ->
  exists n, n ∈ nodes /\ gid k = gid n /\
    (routed nodes opts fi focus).2 !! i =
      Some (set_edges (List.filter (fun e => bool_decide (targetId e ∈ gid <$> kept nodes opts fi focus)) (edges n)) k).
Proof.
  intros Hk. unfold routed. fold node_edges. rewrite routed_kept, fold_push. cbn [snd]. rewrite Hk.
  pose proof Hk as Hin. apply list_elem_of_lookup_2 in Hin. unfold kept in Hin.
  apply list_elem_of_fmap in Hin as (p & -> & Hin).
  apply list_elem_of_In, filter_In in Hin as [Hin Hr]. apply list_elem_of_In in Hin. apply negb_true_iff in Hr.
  assert (p.2 ∈ nodes) as Hp by (rewrite <- entries_snd; by apply list_elem_of_fmap_2).
  exists p.2. split_and!; [done|done|]. simpl. do 2 f_equal.
  rewrite <- (filter_node_edges p.2) by done. f_equal. apply List.filter_ext. intros [n e]. cbn [fst snd].
  unfold drawn_on. cbn [fst snd]. pose proof kept_distinct as Hd. rewrite index_of_has by done.
  destruct (bool_decide (targetId e ∈ _)) eqn:Et.
  2:{ rewrite andb_false_r. apply bool_decide_eq_false. by repeat case_match. }
  rewrite andb_true_r. apply bool_decide_eq_true in Et.
  assert (assoc (targetId e) (rep nodes opts fi focus) = None) as ->.
  { rewrite (proj2 kept_and_rep) in Et. apply list_elem_of_In, filter_In in Et as [_ Et]. apply negb_true_iff in Et.
    unfold map_has in Et. by destruct (assoc (targetId e) _). }
  destruct (decide (gid n = gid p.2)) as [E|E].
  - rewrite E, eqb_refl. unfold map_has in Hr. destruct (assoc (gid p.2) (rep nodes opts fi focus)); [done|].
    apply bool_decide_eq_true, index_of_lookup; [done|]. by rewrite list_lookup_fmap, Hk.
  - rewrite (bool_decide_eq_false_2 (gid n = gid p.2)) by done. apply bool_decide_eq_false.
    destruct (assoc (gid n) (rep nodes opts fi focus)); [done|]. intros Hi.
    apply index_of_lookup in Hi; [|done]. rewrite list_lookup_fmap, Hk in Hi. by simplify_eq/=.
Qed.

(** *** The finished graph *)
Definition at_focus (ex : list GraphEdge) (i : nat) (n : GraphNode) : GraphNode :=
  if assoc (gid focus) (index_of (kept nodes opts fi focus)) === Some i then set_edges (edges n ++ ex) n else n.

Record linked_ok (todo : list GraphNode) (st : list GraphNode * list GraphNode * list GraphNode) : Prop := {
  lo_lanes : Forall (fun n => lane n = true) st.1.1;
  lo_groups : Forall (fun n => is_Some (group n)) st.2;
  lo_ids : (gid <$> st.2) ++ (gid <$> todo) = keys (drawn_teams nodes opts fi focus);
  lo_kept : exists ex, Forall (fun e => targetId e ∈ keys (drawn_teams nodes opts fi focus)) ex /\
    forall i, st.1.2 !! i = at_focus ex i <$> (routed nodes opts fi focus).2 !! i }.

Lemma push_at_lanes id e l : Forall (fun n => lane n = true) l -> Forall (fun n => lane n = true) (push_at id e l).
Proof. induction 1 as [|n l Hn Hl IH]; simpl; [done|]. case_bool_decide; by constructor. Qed.

Lemma alter_at_focus e ks :
  match assoc (gid focus) (index_of (kept nodes opts fi focus)) with
  | Some i => alter (push_edge e) i ks | None => ks end = imap (at_focus [e]) ks.
Proof.
  apply list_eq. intros i. rewrite list_lookup_imap. unfold at_focus.
  destruct (assoc (gid focus) (index_of (kept nodes opts fi focus))) as [j|].
  2:{ rewrite bool_decide_eq_false_2 by done. by destruct (ks !! i). }
  destruct (decide (j = i)) as [->|Hne].
  - rewrite list_lookup_alter_eq, bool_decide_eq_true_2 by done. by destruct (ks !! i).
  - rewrite list_lookup_alter_ne by done. rewrite bool_decide_eq_false_2 by congruence. by destruct (ks !! i).
Qed.

Lemma link_group_ok g todo st :
  is_Some (group g) -> linked_ok (g :: todo) st ->
  linked_ok todo (link_group focus (routed nodes opts fi focus).1 (index_of (kept nodes opts fi focus)) st g).
Proof.
  destruct st as [[ls ks] gs]. intros Hg [H1 H2 H3 (ex & H4 & H5)]. cbn [fst snd] in *. rewrite fmap_cons in H3.
  assert (forall g', gid g' = gid g -> (gid <$> gs ++ [g']) ++ (gid <$> todo) = keys (drawn_teams nodes opts fi focus)) as H3'.
  { intros g' E. rewrite fmap_app. simpl. rewrite E, <- app_assoc. done. }
  assert (forall g', is_Some (group g') -> Forall (fun n => is_Some (group n)) (gs ++ [g'])) as H2'
    by (intros; apply Forall_app; split; [done|by apply Forall_singleton]).
  unfold link_group. destruct (assoc (gid g) _) as [a|]; [|constructor; cbn [fst snd]; eauto].
  destruct (side g === Some (-1)) eqn:Es; [|constructor; cbn [fst snd]; eauto].
  destruct (inner_of focus g === gid focus); [|constructor; cbn [fst snd]; eauto using push_at_lanes].
  rewrite alter_at_focus. set (e := group_edge focus g a). constructor; cbn [fst snd]; [done|by apply H2'|by apply H3'|].
  exists (ex ++ [e]). split.
  - apply Forall_app. split; [done|]. apply Forall_singleton. unfold e, group_edge. simpl. rewrite Es.
    rewrite <- H3. set_solver.
  - intros i. rewrite list_lookup_imap, H5. destruct (_ !! i) as [n|]; [|done]. simpl. f_equal. unfold at_focus.
    destruct (bool_decide (assoc _ _ = _)); [|done]. destruct n. unfold set_edges. simpl. by rewrite <- app_assoc.
Qed.

Lemma group_nodes_gids : gid <$> group_nodes nodes opts fi focus = keys (drawn_teams nodes opts fi focus).
Proof. unfold group_nodes. rewrite <- list_fmap_compose. apply list_fmap_ext. by intros i [id ms] _. Qed.

Lemma linked_is_ok : linked_ok [] (linked nodes opts fi focus).
Proof.
  unfold linked.
  assert (linked_ok (group_nodes nodes opts fi focus) (lanes nodes fi focus, (routed nodes opts fi focus).2, [])) as Hi.
  { constructor; cbn [fst snd]; [|constructor|apply group_nodes_gids|].
    - unfold lanes. apply Forall_forall. intros n (s & -> & _)%list_elem_of_fmap. done.
    - exists []. split; [constructor|]. intros i. destruct (_ !! i) as [n|]; [|done]. simpl. f_equal. unfold at_focus.
      rewrite app_nil_r, set_edges_id. by destruct (_ === _). }
  assert (Forall (fun g => is_Some (group g)) (group_nodes nodes opts fi focus)) as Hg.
  { apply Forall_forall. intros n ([id ms] & -> & _)%list_elem_of_fmap. by eexists. }
  revert Hg Hi. generalize (lanes nodes fi focus, (routed nodes opts fi focus).2, @nil GraphNode) as st.
  induction (group_nodes nodes opts fi focus) as [|g gs IH]; intros st [Hg Hgs]%Forall_cons Hi || intros st _ Hi; [done|].
  cbn [fold_left]. apply IH; [done|]. by apply link_group_ok.
Qed.
End LaneProofs.

(** A node that stands for one entity, not a lane and not a group. *)
Definition entity (n : GraphNode) : bool := negb (lane n) && (group n === None).
Definition plain (n : GraphNode) : Prop := lane n = false /\ group n = None.

Definition lane_total (gs : list LaneGroup) : Z := foldr (fun g k => lg_count g + k) 0 gs.

Lemma lane_total_perm a b : a ≡ₚ b -> lane_total a = lane_total b.
Proof. induction 1; simpl; lia. Qed.

Lemma lane_total_fold gs k : fold_left (fun t m => t + lg_count m) gs k = k + lane_total gs.
Proof. revert k. induction gs as [|g gs IH]; intros k; simpl; [lia|]. rewrite IH. lia. Qed.

Lemma len_app {A} (a b : list A) : len (a ++ b) = len a + len b.
Proof. unfold len. rewrite length_app. lia. Qed.

Lemma parts_len opts (parts : list (LaneGroup * list str)) :
  Forall (part_ok opts) parts -> len (concat parts.*2) = lane_total parts.*1.
Proof.
  induction 1 as [|p parts (Hc & _) _ IH]; [done|]. rewrite !fmap_cons. cbn [concat]. rewrite len_app, IH. simpl. lia.
Qed.

(** The nodes [neighborhoodToGraph] builds stand for entities. *)
Lemma neighborhood_plain nb : Forall plain (neighborhoodToGraph nb).
Proof.
  unfold neighborhoodToGraph. set (ns := adapt_node <$> _). assert (Forall plain ns) as Hp.
  { apply Forall_forall. intros n (x & -> & _)%list_elem_of_fmap. done. }
  generalize (index_of ns) as m. intros m. clearbody ns. revert ns Hp.
  induction (nullish (nb ≫= nb_edges) []) as [|e es IH]; intros ns Hp; [done|]. apply IH. unfold add_edge.
  destruct (assoc _ _) as [i|]; [|done]. destruct (map_has _ _); [|done].
  apply Forall_lookup. intros j n. destruct (decide (i = j)) as [->|Hne].
  - rewrite list_lookup_alter_eq. intros (x & Hx & ->)%fmap_Some. rewrite Forall_lookup in Hp. exact (Hp j x Hx).
  - rewrite list_lookup_alter_ne by done. rewrite Forall_lookup in Hp. apply Hp.
Qed.

Section Finished.
Context `{Locale} (nodes : list GraphNode) (opts : Grouping) (fi : nat) (focus : GraphNode).
Hypothesis ids_distinct : NoDup (gid <$> nodes).
Hypothesis focus_at : nodes !! fi = Some focus.
Hypothesis all_plain : Forall plain nodes.

Lemma drawn_are_kept :
  exists ks, List.filter entity (graph (grouped nodes opts fi focus)) = ks /\
    gid <$> ks = gid <$> kept nodes opts fi focus /\
    exists ex, Forall (fun e => targetId e ∈ keys (drawn_teams nodes opts fi focus)) ex /\
      forall i, ks !! i = at_focus nodes opts fi focus ex i <$> (routed nodes opts fi focus).2 !! i.
Proof.
  pose proof (linked_is_ok nodes opts fi focus ids_distinct focus_at) as Hl. unfold grouped.
  destruct (linked nodes opts fi focus) as [[ls ks] gs]. destruct Hl as [H1 H2 _ (ex & Hex & Hks)]. cbn [fst snd] in *.
  exists ks. cbn [graph]. rewrite !List.filter_app.
  assert (forall (l : list GraphNode), Forall (fun n => entity n = false) l -> List.filter entity l = []) as Hnil.
  { induction 1 as [|n l E _ IH]; simpl; [done|]. by rewrite E. }
  assert (gid <$> ks = gid <$> kept nodes opts fi focus) as Hgid.
  { apply list_eq. intros i. rewrite !list_lookup_fmap, Hks. unfold routed. rewrite routed_kept, fold_push. cbn [snd].
    destruct (kept nodes opts fi focus !! i) as [n|]; [|done]. simpl. f_equal. unfold at_focus. by case_bool_decide. }
  split_and!; [|done|by exists ex].
  rewrite (Hnil ls), (Hnil gs), app_nil_r; [| | ].
  - simpl. apply List.forallb_filter_id, forallb_forall. intros n Hn. apply list_elem_of_In, list_elem_of_lookup in Hn as [i Hn].
    rewrite Hks in Hn. apply fmap_Some in Hn as (x & Hx & ->). unfold routed in Hx. rewrite routed_kept, fold_push in Hx.
    cbn [snd] in Hx. apply fmap_Some in Hx as (k & Hk & ->). apply list_elem_of_lookup_2 in Hk. unfold kept in Hk.
    apply list_elem_of_fmap in Hk as (p & -> & Hp). apply list_elem_of_In, filter_In in Hp as [Hp _].
    assert (plain p.2) as [Hpl Hpg].
    { rewrite Forall_forall in all_plain. apply all_plain. rewrite <- (entries_snd nodes).
      apply list_elem_of_fmap_2. by apply list_elem_of_In. }
    unfold at_focus. by case_bool_decide; unfold entity; simpl; rewrite Hpl, Hpg.
  - eapply Forall_impl; [exact H2|]. intros n [k Hk]. unfold entity. rewrite Hk. by rewrite andb_false_r.
  - eapply Forall_impl; [exact H1|]. intros n Hn. unfold entity. by rewrite Hn.
Qed.

Lemma grouped_counts :
  exists parts : list (LaneGroup * list str),
    parts.*1 ≡ₚ groups (grouped nodes opts fi focus) ++ nullish (more (grouped nodes opts fi focus)) [] /\
    Forall (part_ok opts) parts /\
    (gid <$> kept nodes opts fi focus) ++ concat parts.*2 ≡ₚ gid <$> nodes /\
    folded (grouped nodes opts fi focus) = lane_total (groups (grouped nodes opts fi focus)).
Proof.
  destruct (held_is_ok nodes opts fi focus ids_distinct focus_at) as [_ _ (hidden & Hh & Hok & Hk)].
  fold (rep nodes opts fi focus) in Hk.
  pose proof (drawn_teams_ok nodes opts fi focus) as [Htk _ Hto]. set (ts := drawn_teams nodes opts fi focus) in *.
  set (teams := (fun t => (group_of nodes opts fi focus t, gid <$> t.2)) <$> ts).
  assert (Forall (part_ok opts) teams) as Hteams.
  { apply Forall_forall. intros p ([id ms] & -> & Hin)%list_elem_of_fmap.
    destruct (Hto id ms) as [Hne Hopen]; [by apply assoc_unique|]. unfold part_ok. simpl. split_and!; [|by intros ?%fmap_nil_inv|done].
    unfold len. by rewrite length_fmap. }
  assert (concat teams.*2 = gid <$> flat ts) as Hflat.
  { unfold teams, flat, values. clear. induction ts as [|[id ms] m IH]; [done|].
    rewrite !fmap_cons. cbn [concat snd]. by rewrite fmap_app, <- IH. }
  assert (teams.*1 = group_of nodes opts fi focus <$> ts) as Hfst by (unfold teams; by rewrite <- list_fmap_compose).
  assert (groups (grouped nodes opts fi focus) ≡ₚ teams.*1) as Hg.
  { rewrite Hfst. unfold grouped. destruct (linked nodes opts fi focus) as [[ls ks] gs]. simpl. apply sort_by_Permutation. }
  assert (nullish (more (grouped nodes opts fi focus)) [] = hidden.*1) as Hm.
  { rewrite Hh. unfold grouped. destruct (linked nodes opts fi focus) as [[ls ks] gs]. simpl. by destruct (held nodes opts fi focus).2. }
  exists (teams ++ hidden). split_and!.
  - rewrite fmap_app, Hm. by rewrite Hg.
  - by apply Forall_app.
  - rewrite fmap_app, concat_app, Hflat, <- Hk. apply kept_and_rep; done.
  - rewrite (lane_total_perm _ _ Hg), <- (parts_len opts) by done. rewrite Hflat.
    unfold grouped. destruct (linked nodes opts fi focus) as [[ls ks] gs]. cbn [folded].
    rewrite lane_total_fold, <- Hh, <- (parts_len opts) by done.
    replace (len (rep nodes opts fi focus)) with (len (keys (rep nodes opts fi focus)))
      by (unfold len, keys; by rewrite length_fmap).
    rewrite Hk, len_app. lia.
Qed.

Lemma grouped_edges :
  let drawn := List.filter entity (graph (grouped nodes opts fi focus)) in
  exists ex, Forall (fun e => targetId e ∈ lg_id <$> groups (grouped nodes opts fi focus)) ex /\
  forall k, k ∈ drawn -> exists n, n ∈ nodes /\ gid n = gid k /\
    edges k = List.filter (fun e => bool_decide (targetId e ∈ gid <$> drawn)) (edges n) ++
              (if gid k === gid focus then ex else []).
Proof.
  cbv zeta. destruct drawn_are_kept as (ks & -> & Hgid & ex & Hex & Hks). exists ex. split.
  { eapply Forall_impl; [exact Hex|]. intros e He. unfold grouped.
    destruct (linked nodes opts fi focus) as [[ls l] gs]. cbn [groups]. apply list_elem_of_fmap in He as ([id ms] & E & Hin).
    apply list_elem_of_fmap. exists (group_of nodes opts fi focus (id, ms)). split; [done|].
    apply elem_of_sort_by. by apply list_elem_of_fmap_2. }
  intros k [i Hi]%list_elem_of_lookup. pose proof Hi as Hi0. rewrite Hks in Hi. apply fmap_Some in Hi as (x & Hx & ->).
  assert (exists k0, kept nodes opts fi focus !! i = Some k0) as [k0 Hk0].
  { apply lookup_lt_is_Some. rewrite <- (length_fmap gid), <- Hgid, length_fmap. by eapply lookup_lt_Some. }
  destruct (routed_lookup nodes opts fi focus ids_distinct focus_at i k0 Hk0) as (n & Hn & Hgn & Hr).
  rewrite Hx in Hr. injection Hr as ->. rewrite Hgid.
  assert (assoc (gid focus) (index_of (kept nodes opts fi focus)) = Some i <-> gid k0 = gid focus) as Hfi.
  { rewrite index_of_lookup by (by apply kept_distinct). rewrite list_lookup_fmap, Hk0. simpl. split; congruence. }
  exists n. unfold at_focus. case_bool_decide as E; cbn [gid edges set_edges]; (split_and!; [done|done|]).
  - apply Hfi in E. by rewrite (bool_decide_eq_true_2 (gid k0 = gid focus)).
  - rewrite (bool_decide_eq_false_2 (gid k0 = gid focus)) by tauto. by rewrite app_nil_r.
Qed.
End Finished.

Lemma find_focus (nodes : list GraphNode) :
  (exists n, n ∈ nodes /\ depth n = Some 0) ->
  exists fi focus, List.find (fun p => depth p.2 === Some 0) (imap pair nodes) = Some (fi, focus) /\
    nodes !! fi = Some focus /\ depth focus = Some 0.
Proof.
  intros (z & Hz & Hd). destruct (List.find _ (imap pair nodes)) as [[fi focus]|] eqn:Ef.
  - exists fi, focus. apply find_some in Ef as [Hin Ed]. apply bool_decide_eq_true in Ed. split_and!; [done| |done].
    apply list_elem_of_In, elem_of_lookup_imap_1 in Hin as (i & n & E & Hn). by simplify_eq.
  - apply list_elem_of_lookup in Hz as [i Hi]. apply (elem_of_lookup_imap_2 pair) in Hi.
    eapply find_none in Ef; [|by apply list_elem_of_In]. simpl in Ef. by rewrite Hd in Ef.
Qed.

Lemma unfolded `{Locale} nodes opts fi focus :
  fold_far nodes opts = false -> groups (grouped nodes opts fi focus) = [].
Proof.
  intros Hf. assert (teams nodes opts fi focus = []) as Ht.
  { unfold teams. induction (entries nodes) as [|p l IH]; [done|]. cbn [fold_left].
    unfold add_member at 2. cbv zeta. rewrite Hf. by destruct (is_focus fi p). }
  unfold grouped, drawn_teams, folding, by_size. rewrite Ht.
  by destruct (linked nodes opts fi focus) as [[ls ks] gs].
Qed.

(** C16: the lanes lose no entity. For distinct nodes with a focus, the nodes drawn for one
    entity together with the parts (one per team group and per held-back remainder, none
    empty, none of them open) are exactly the entities, each once; every group and every
    remainder counts its own part, [folded] is what the groups stand for, the focus is
    always drawn, and nothing is grouped up to the threshold or when all is asked for. *)
Theorem laneGraph_conserves `{Locale} (nodes : list GraphNode) (opts : Grouping) :
  NoDup (gid <$> nodes) -> Forall plain nodes -> (exists n, n ∈ nodes /\ depth n = Some 0) ->
  let r := laneGraph nodes opts in
  let drawn := List.filter entity (graph r) in
  (exists parts : list (LaneGroup * list str),
     parts.*1 ≡ₚ groups r ++ nullish (more r) [] /\ Forall (part_ok opts) parts /\
     (gid <$> drawn) ++ concat parts.*2 ≡ₚ gid <$> nodes) /\
  folded r = lane_total (groups r) /\
  (exists f, f ∈ nodes /\ depth f = Some 0 /\ gid f ∈ gid <$> drawn) /\
  (all opts = true \/ len nodes <= threshold opts -> groups r = []).
Proof.
  intros Hn Hp Hz. cbv zeta. unfold laneGraph.
  destruct (find_focus nodes Hz) as (fi & focus & -> & Hfi & Ed).
  destruct (grouped_counts nodes opts fi focus Hn Hfi) as (parts & H1 & H2 & H3 & H4).
  destruct (drawn_are_kept nodes opts fi focus Hn Hfi Hp) as (ks & -> & Hg & _). rewrite Hg. split_and!.
  - by exists parts.
  - done.
  - exists focus. split_and!; [by eapply list_elem_of_lookup_2|done|].
    destruct (kept_and_rep nodes opts fi focus Hn Hfi) as [_ ->]. apply list_elem_of_In, filter_In. split.
    + apply list_elem_of_In, list_elem_of_fmap_2. by eapply list_elem_of_lookup_2.
    + unfold map_has. by rewrite focus_not_rep.
  - intros Ho. apply unfolded. unfold fold_far. destruct Ho as [->|Hle]; [done|].
    rewrite (proj2 (Z.ltb_ge _ _)) by lia. apply andb_false_r.
Qed.

(** Edges between drawn entities stay exactly as they are. Every drawn entity carries
    its own edges to drawn entities, in order, and no others, except that the focus also
    carries one edge per group of direct dependencies, and each of those leads to a group
    that is drawn. *)
Theorem laneGraph_edges `{Locale} (nodes : list GraphNode) (opts : Grouping) :
  NoDup (gid <$> nodes) -> Forall plain nodes -> (exists n, n ∈ nodes /\ depth n = Some 0) ->
  let r := laneGraph nodes opts in
  let drawn := List.filter entity (graph r) in
  exists f ex, f ∈ nodes /\ depth f = Some 0 /\ Forall (fun e => targetId e ∈ lg_id <$> groups r) ex /\
  forall k, k ∈ drawn -> exists n, n ∈ nodes /\ gid n = gid k /\
    edges k = List.filter (fun e => bool_decide (targetId e ∈ gid <$> drawn)) (edges n) ++
              (if gid k === gid f then ex else []).
Proof.
  intros Hn Hp Hz. cbv zeta. unfold laneGraph.
  destruct (find_focus nodes Hz) as (fi & focus & -> & Hfi & Ed).
  destruct (grouped_edges nodes opts fi focus Hn Hfi Hp) as (ex & Hex & He).
  exists focus, ex. split_and!; [by eapply list_elem_of_lookup_2|done|done|done].
Qed.

(** ** The one edge of a group *)
Definition no_agg : Agg := {| ag_count := 0; ag_worst := None; ag_worstCount := 0; ag_runs := true; ag_refused := 0 |}.

(** Count one more edge in. *)
Definition bump (a : Agg) (e : GraphEdge) : Agg :=
  let worse := state_rank (ag_worst a) <? state_rank (e_state e) in
  {| ag_count := ag_count a + 1;
     ag_worst := if worse then e_state e else ag_worst a;
     ag_worstCount := if worse then 1
                      else if (e_state e !== None) && (e_state e === ag_worst a) then ag_worstCount a + 1 else ag_worstCount a;
     ag_runs := ag_runs a && (e_type e === Some ("runs" : str));
     ag_refused := ag_refused a + (if refused e then 1 else 0) |}.

Lemma tally_spec agg g g' e :
  assoc g (tally agg g' e) = if g === g' then Some (bump (nullish (assoc g' agg) no_agg) e) else assoc g agg.
Proof.
  unfold tally. fold no_agg. set (a := nullish (assoc g' agg) no_agg). unfold bump.
  destruct (_ <? _); rewrite assoc_map_set; by case_bool_decide.
Qed.

Lemma state_rank_inj s t : state_rank s = state_rank t -> s = t.
Proof. by destruct s as [[]|], t as [[]|]. Qed.

Lemma state_rank_pos s : 0 <= state_rank s.
Proof. by destruct s as [[]|]. Qed.

(** What counting in a list of edges comes to. *)
Record agg_of (l : list GraphEdge) (a : Agg) : Prop := {
  ao_count : ag_count a = len l;
  ao_refused : ag_refused a = len (List.filter refused l);
  ao_runs : ag_runs a = forallb (fun e => e_type e === Some ("runs" : str)) l;
  ao_max : forall e, e ∈ l -> state_rank (e_state e) <= state_rank (ag_worst a);
  ao_worst : ag_worst a <> None -> exists e, e ∈ l /\ e_state e = ag_worst a;
  ao_worstCount : ag_worst a <> None -> ag_worstCount a = len (List.filter (fun e => e_state e === ag_worst a) l) }.

Lemma filter_snoc_len {A} (p : A -> bool) l x :
  len (List.filter p (l ++ [x])) = len (List.filter p l) + (if p x then 1 else 0).
Proof. rewrite List.filter_app, len_app. simpl. by destruct (p x). Qed.

Lemma bump_agg l a e : agg_of l a -> agg_of (l ++ [e]) (bump a e).
Proof.
  intros [H1 H2 H3 H4 H5 H6]. constructor; unfold bump; cbn [ag_count ag_refused ag_runs ag_worst ag_worstCount].
  - rewrite H1, len_app. done.
  - rewrite H2, filter_snoc_len. done.
  - rewrite H3, forallb_app. simpl. by rewrite andb_true_r.
  - intros x [Hx| ->%list_elem_of_singleton]%elem_of_app; destruct (Z.ltb_spec (state_rank (ag_worst a)) (state_rank (e_state e)));
      try lia; specialize (H4 x Hx); lia.
  - destruct (Z.ltb_spec (state_rank (ag_worst a)) (state_rank (e_state e))); intros Hne.
    + exists e. split; [apply elem_of_app; right; by left|done].
    + destruct (H5 Hne) as (x & Hx & E). exists x. split; [apply elem_of_app; by left|done].
  - destruct (Z.ltb_spec (state_rank (ag_worst a)) (state_rank (e_state e))) as [Hlt|Hge]; intros Hne; rewrite filter_snoc_len.
    + rewrite eqb_refl. assert (List.filter (fun x => e_state x === e_state e) l = []) as ->; [|done].
      clear -H4 Hlt. induction l as [|x l IH]; [done|]. cbn [List.filter]. rewrite bool_decide_eq_false_2.
      * apply IH. intros y Hy. apply H4. by right.
      * intros E. specialize (H4 x ltac:(by left)). rewrite E in H4. lia.
    + rewrite (H6 Hne). case_bool_decide as E1; case_bool_decide as E2; simpl; try lia; congruence.
Qed.

Section GroupEdges.
Context `{Locale} (nodes : list GraphNode) (opts : Grouping) (fi : nat) (focus : GraphNode).

(** The edges with exactly one end in the group. *)
Definition crossing (g : str) (ne : GraphNode * GraphEdge) : bool :=
  xorb (assoc (gid ne.1) (rep nodes opts fi focus) === Some g) (assoc (targetId ne.2) (rep nodes opts fi focus) === Some g).

Lemma route_edge_agg byId st ne g :
  assoc g (route_edge nodes opts fi focus byId st ne).1 =
  if crossing g ne then Some (bump (nullish (assoc g st.1) no_agg) ne.2) else assoc g st.1.
Proof.
  destruct st as [agg ks], ne as [n e]. unfold route_edge, crossing. cbn [fst snd].
  set (from := assoc (gid n) _). set (to := assoc (targetId e) _). clearbody from to.
  destruct from as [x|], to as [y|]; cbn [fst]; try done.
  - destruct (decide (x = y)) as [->|Hxy].
    + rewrite eqb_refl. cbn [fst]. by rewrite xorb_nilpotent.
    + rewrite (bool_decide_eq_false_2 (Some x = Some y)) by congruence. cbn [fst]. rewrite !tally_spec.
      repeat case_bool_decide; simplify_eq; done.
  - rewrite bool_decide_eq_false_2 by done. cbn [fst]. rewrite tally_spec. repeat case_bool_decide; simplify_eq; done.
  - rewrite bool_decide_eq_false_2 by done. cbn [fst]. rewrite tally_spec. repeat case_bool_decide; simplify_eq; done.
Qed.

Lemma routed_agg byId g l :
  let crossed := snd <$> List.filter (crossing g) l in
  match assoc g (fold_left (route_edge nodes opts fi focus byId) l ([], kept nodes opts fi focus)).1 with
  | None => crossed = []
  | Some a => crossed <> [] /\ agg_of crossed a
  end.
Proof.
  cbv zeta. induction l as [|ne l IH] using rev_ind; [done|].
  rewrite fold_left_app. cbn [fold_left]. rewrite route_edge_agg, List.filter_app, fmap_app. cbn [List.filter].
  destruct (crossing g ne); [|by rewrite app_nil_r]. rewrite fmap_cons. cbn [fmap list_fmap].
  split; [by intros [_ ?]%app_nil|]. apply bump_agg.
  destruct (assoc g _) as [a|]; cbn [nullish]; [apply IH|].
  rewrite IH. constructor; simpl; try done. intros e. by intros ?%not_elem_of_nil.
Qed.
End GroupEdges.

Lemma refused_count l : negb (len (List.filter refused l) =? 0) = existsb refused l.
Proof.
  induction l as [|e l IH]; [done|]. cbn [List.filter existsb]. destruct (refused e); [|done].
  unfold len. cbn [length]. destruct (Z.eqb_spec (Z.of_nat (S (length (List.filter refused l)))) 0); [lia|done].
Qed.

(** A group's one edge tells the worst of what it stands for. A group has an edge
    exactly when some relationship has one end in it and one outside; the edge then counts
    each of those once, is marked refused exactly when one of them is, runs exactly when
    all of them do, and shows a state none of them is worse than, which one of them has
    whenever any has a state, with the number that have it. *)
Theorem group_edge_worst `{Locale} (nodes : list GraphNode) (opts : Grouping) (fi : nat) (focus : GraphNode) (g : str) :
  let l := snd <$> List.filter (crossing nodes opts fi focus g) (node_edges nodes) in
  match assoc g (routed nodes opts fi focus).1 with
  | None => l = []
  | Some a => l <> [] /\ ag_count a = len l /\ forall gn, let e := group_edge focus gn a in
      refused e = existsb refused l /\
      e_type e = Some (if forallb (fun x => e_type x === Some ("runs" : str)) l then "runs" else "dependency") /\
      (forall x, x ∈ l -> state_rank (e_state x) <= state_rank (e_state e)) /\
      (e_state e <> None -> ag_worstCount a = len (List.filter (fun x => e_state x === e_state e) l) /\ 0 < ag_worstCount a)
  end.
Proof.
  cbv zeta. pose proof (routed_agg nodes opts fi focus (index_of (kept nodes opts fi focus)) g (node_edges nodes)) as Hr.
  unfold routed. fold (node_edges nodes). destruct (assoc g _) as [a|]; [|done]. destruct Hr as [Hne [H1 H2 H3 H4 H5 H6]].
  split_and!; [done|done|]. intros gn. cbn [group_edge refused e_type e_state]. split_and!; [|by rewrite H3|done|].
  - by rewrite H2, refused_count.
  - intros Hw. split; [by apply H6|]. rewrite (H6 Hw). destruct (H5 Hw) as (x & Hx & E).
    assert (x ∈ List.filter (fun x => e_state x === ag_worst a) (snd <$> List.filter (crossing nodes opts fi focus g) (node_edges nodes))) as Hin.
    { apply list_elem_of_In, filter_In. split; [by apply list_elem_of_In|by apply bool_decide_eq_true]. }
    revert Hin. generalize (List.filter (fun x => e_state x === ag_worst a)
      (snd <$> List.filter (crossing nodes opts fi focus g) (node_edges nodes))) as fl.
    intros [|y ys] Hin; [by apply not_elem_of_nil in Hin|]. unfold len. simpl. lia.
Qed.

(** ** Concrete graphs *)
Definition test_node (id own : str) (d : Z) (es : list str) : GraphNode :=
  {| gid := id; serviceName := id; status := "Compliant"; version := None; kind := KService;
     edges := (fun t => {| targetId := t; e_type := Some ("dependency" : str); e_state := Some Matched;
                           driftStatus := None; refused := false; e_label := None |}) <$> es;
     depth := Some d; owner := Some own; group := None; side := None; lane := false; parent := None |}.

(** A focus with one dependency whose two dependencies belong to one team. *)
Definition small_graph : list GraphNode :=
  [test_node "focus" "core" 0 ["near"]; test_node "near" "core" 1 ["far1"; "far2"];
   test_node "far1" "data" 2 []; test_node "far2" "data" 2 []].
Definition small_opts : Grouping := {| open := []; all := false; threshold := 2 |}.

Example small_graph_groups :
  groups (laneGraph small_graph small_opts) =
    [{| lg_id := "group:depends-on:data"; lg_owner := "data"; lg_side := Some DependsOn; lg_count := 2 |}].
Proof. vm_compute. reflexivity. Qed.

(** A focus with ten direct dependencies: [all] groups nothing, and still two of them are
    held back from the lane. *)
Definition wide_graph : list GraphNode :=
  test_node "focus" "core" 0 ["a"; "b"; "c"; "d"; "e"; "f"; "g"; "h"; "i"; "j"] ::
  ((fun id => test_node id "core" 1 []) <$> ["a"; "b"; "c"; "d"; "e"; "f"; "g"; "h"; "i"; "j"]).

Example all_holds_back :
  let r := laneGraph wide_graph {| open := []; all := true; threshold := GROUP_THRESHOLD |} in
  groups r = [] /\ lane_total (nullish (more r) []) = 2 /\
  len (List.filter entity (graph r)) = len wide_graph - 2.
Proof. vm_compute. done. Qed.

Lemma laneGraph_conserves_witness :
  let r := laneGraph small_graph small_opts in
  let drawn := List.filter entity (graph r) in
  (exists parts : list (LaneGroup * list str),
     parts.*1 ≡ₚ groups r ++ nullish (more r) [] /\ Forall (part_ok small_opts) parts /\
     (gid <$> drawn) ++ concat parts.*2 ≡ₚ gid <$> small_graph) /\
  folded r = lane_total (groups r) /\
  (exists f, f ∈ small_graph /\ depth f = Some 0 /\ gid f ∈ gid <$> drawn) /\
  (all small_opts = true \/ len small_graph <= threshold small_opts -> groups r = []).
Proof.
  apply laneGraph_conserves; [by_decide|repeat constructor|].
  eexists. split; [by left|done].
Defined.

Lemma laneGraph_edges_witness :
  let r := laneGraph small_graph small_opts in
  let drawn := List.filter entity (graph r) in
  exists f ex, f ∈ small_graph /\ depth f = Some 0 /\ Forall (fun e => targetId e ∈ lg_id <$> groups r) ex /\
  forall k, k ∈ drawn -> exists n, n ∈ small_graph /\ gid n = gid k /\
    edges k = List.filter (fun e => bool_decide (targetId e ∈ gid <$> drawn)) (edges n) ++
              (if gid k === gid f then ex else []).
Proof.
  apply laneGraph_edges; [by_decide|repeat constructor|].
  eexists. split; [by left|done].
Defined.
