(* ===== verification/Suggest.v ===== *)
(** * Entity search: [src/pkg/dashboard/frontend/src/lib/entitySuggest.svelte.ts] and
    [src/pkg/dashboard/frontend/src/lib/entityResolve.ts]

    A keystroke becomes a request after a quiet period, and responses arrive in any order.
    The search is a record, each method, the timer's callback and each promise reaction a
    function on it; a system of one search with its timer and its requests in flight is
    stepped by the caller, the clock, the network and the microtask queue. *)

From stdpp Require Import base list gmap.
From Stdlib Require Import Init.Byte ZArith NArith Lia.
From Stdlib Require Import Relations.Relation_Operators.
From S2P Require Import Prelude Knowledge.
Local Open Scope Z_scope.

Section Suggest.
Context {Ref : Type}.

(** The page the entities query answers with. *)
Record EntityPage := { ep_entities : option (list Ref); ep_total : option Z }.

Record Suggest := {
  results : list Ref; total : Z; truncated : bool; loading : bool; error : option thrown; seq : nat }.

Definition createEntitySuggest : Suggest :=
  {| results := []; total := 0; truncated := false; loading := false; error := None; seq := 0 |}.

(** [reset()] with the loading flag and the generation the caller sets. *)
Definition reset (sq : nat) : Suggest :=
  {| results := []; total := 0; truncated := false; loading := false; error := None; seq := sq |}.

Definition clear (s : Suggest) : Suggest := reset (S (seq s)).

(** The search and, for text that is not blank, the query of the timer it starts. *)
Definition search (s : Suggest) (text : option str) : Suggest * option str :=
  let q := trim (nullish text []) in
  let mySeq := S (seq s) in
  if negb (truthy q) then (reset mySeq, None)
  else ({| results := results s; total := total s; truncated := truncated s; loading := true; error := error s;
           seq := mySeq |}, Some q).

Definition on_then (s : Suggest) (mySeq : nat) (res : EntityPage) : Suggest :=
  if negb (mySeq =? seq s)%nat then s
  else
    let rs := nullish (ep_entities res) [] in
    let t := nullish (ep_total res) (Z.of_nat (length rs)) in
    {| results := rs; total := t; truncated := Z.of_nat (length rs) <? t; loading := loading s; error := None;
       seq := seq s |}.

Definition on_catch (s : Suggest) (mySeq : nat) (e : thrown) : Suggest :=
  if negb (mySeq =? seq s)%nat then s
  else {| results := []; total := 0; truncated := false; loading := loading s; error := Some e; seq := seq s |}.

Definition on_finally (s : Suggest) (mySeq : nat) : Suggest :=
  if (mySeq =? seq s)%nat then
    {| results := results s; total := total s; truncated := truncated s; loading := false; error := error s;
       seq := seq s |}
  else s.

(** ** The system: the search, its timer, its requests in flight, the text last searched
    for (none after a blank text or a clear) and what came back *)
Inductive phase := Waiting | Finalizing.
Record Request := { rq_seq : nat; rq_text : str; rq_phase : phase }.

Record Sys := {
  sg : Suggest; timer : option (nat * str); inflight : list Request; current : option str;
  outcomes : list (nat * str * (EntityPage + thrown)) }.

Definition init : Sys :=
  {| sg := createEntitySuggest; timer := None; inflight := []; current := None; outcomes := [] |}.

(** [clearTimeout] of the old timer and, for a text, [setTimeout] of the new one. *)
Definition do_search (s : Sys) (text : option str) : Sys :=
  let '(sg', q) := search (sg s) text in
  {| sg := sg'; timer := (fun q => (seq sg', q)) <$> q; inflight := inflight s; current := q; outcomes := outcomes s |}.

Definition do_clear (s : Sys) : Sys :=
  {| sg := clear (sg s); timer := None; inflight := inflight s; current := None; outcomes := outcomes s |}.

Definition react (s : Sys) (rq : Request) (o : EntityPage + thrown) : Suggest :=
  match o with inl res => on_then (sg s) (rq_seq rq) res | inr e => on_catch (sg s) (rq_seq rq) e end.

Inductive step : Sys -> Sys -> Prop :=
  | StepSearch s text : step s (do_search s text)
  | StepClear s : step s (do_clear s)
  | StepFire s sq q :
      timer s = Some (sq, q) ->
      step s {| sg := sg s; timer := None; inflight := {| rq_seq := sq; rq_text := q; rq_phase := Waiting |} :: inflight s;
                current := current s; outcomes := outcomes s |}
  | StepReact s a rq b (o : EntityPage + thrown) :
      inflight s = a ++ rq :: b -> rq_phase rq = Waiting ->
      step s {| sg := react s rq o; timer := timer s;
                inflight := a ++ {| rq_seq := rq_seq rq; rq_text := rq_text rq; rq_phase := Finalizing |} :: b;
                current := current s; outcomes := (rq_seq rq, rq_text rq, o) :: outcomes s |}
  | StepFinally s a rq b :
      inflight s = a ++ rq :: b -> rq_phase rq = Finalizing ->
      step s {| sg := on_finally (sg s) (rq_seq rq); timer := timer s; inflight := a ++ b;
                current := current s; outcomes := outcomes s |}.

Definition steps : Sys -> Sys -> Prop := clos_refl_trans_1n Sys step.
Definition reachable (s : Sys) : Prop := steps init s.

(** ** The invariant *)

(** The search shows one outcome. *)
Definition shows (g : Suggest) (o : EntityPage + thrown) : Prop :=
  match o with
  | inl res => results g = nullish (ep_entities res) [] /\
      total g = nullish (ep_total res) (Z.of_nat (length (results g))) /\ error g = None
  | inr e => results g = [] /\ total g = 0 /\ error g = Some e
  end.

Definition blank (g : Suggest) : Prop := results g = [] /\ total g = 0 /\ truncated g = false /\ error g = None.

(** Where the search for [q] stands. *)
Definition progress (s : Sys) (q : str) : Prop :=
  let n := seq (sg s) in
  (timer s = Some (n, q) /\ n ∉ rq_seq <$> inflight s /\ loading (sg s) = true) \/
  (timer s = None /\ loading (sg s) = true /\
     exists rq, rq ∈ inflight s /\ rq_seq rq = n /\ rq_text rq = q /\
       (rq_phase rq = Finalizing -> exists o, (n, q, o) ∈ outcomes s /\ shows (sg s) o)) \/
  (timer s = None /\ n ∉ rq_seq <$> inflight s /\ loading (sg s) = false /\
     exists o, (n, q, o) ∈ outcomes s /\ shows (sg s) o).

Record inv (s : Sys) : Prop := {
  inv_trunc : truncated (sg s) = (Z.of_nat (length (results (sg s))) <? total (sg s));
  inv_old : forall rq, rq ∈ inflight s -> (rq_seq rq <= seq (sg s))%nat;
  inv_once : NoDup (rq_seq <$> inflight s);
  inv_current : match current s with
                | Some q => progress s q
                | None => timer s = None /\ loading (sg s) = false /\ blank (sg s) /\ seq (sg s) ∉ rq_seq <$> inflight s
                end }.

Lemma fresh_seq s : inv s -> S (seq (sg s)) ∉ rq_seq <$> inflight s.
Proof. intros Hi (rq & E & Hrq)%list_elem_of_fmap. apply (inv_old _ Hi) in Hrq. lia. Qed.

Lemma inv_restart s g t q :
  inv s -> seq g = S (seq (sg s)) -> truncated g = (Z.of_nat (length (results g)) <? total g) ->
  match q with
  | Some x => t = Some (seq g, x) /\ loading g = true
  | None => t = None /\ loading g = false /\ blank g
  end ->
  inv {| sg := g; timer := t; inflight := inflight s; current := q; outcomes := outcomes s |}.
Proof.
  intros Hi Hs Ht Hq. pose proof (fresh_seq _ Hi) as Hf. destruct Hi as [_ Ho Hn _]. constructor; simpl; try done.
  - intros rq Hrq. apply Ho in Hrq. lia.
  - destruct q as [x|]; [left|]; simpl; rewrite Hs in *; naive_solver.
Qed.

Lemma inv_search s text : inv s -> inv (do_search s text).
Proof.
  intros Hi. unfold do_search, search. destruct (truthy _); simpl; apply inv_restart; try done.
  simpl. apply (inv_trunc _ Hi).
Qed.

(** The requests around one that moves are of other searches. *)
Lemma others_seq s a rq b rq' :
  inv s -> inflight s = a ++ rq :: b -> rq' ∈ a ++ b -> rq' ∈ inflight s /\ rq_seq rq' <> rq_seq rq.
Proof.
  intros Hi E Hr. rewrite E. split; [set_solver|]. pose proof (inv_once _ Hi) as Hn.
  rewrite E, fmap_app, fmap_cons, <- Permutation_middle, <- fmap_app in Hn. apply NoDup_cons in Hn as [Hn _].
  intros Eq. apply Hn. rewrite <- Eq. by apply list_elem_of_fmap_2.
Qed.

Lemma same_request s a rq b r :
  inv s -> inflight s = a ++ rq :: b -> r ∈ inflight s -> rq_seq r = rq_seq rq -> r = rq.
Proof.
  intros Hi E Hr Es. rewrite E in Hr. apply elem_of_app in Hr as [Hr|[->|Hr]%elem_of_cons]; [|done|];
    destruct (others_seq s a rq b r Hi E); set_solver.
Qed.

Lemma stale_reaction s rq o : rq_seq rq <> seq (sg s) -> react s rq o = sg s.
Proof. intros Hne. unfold react, on_then, on_catch. destruct o; by rewrite (proj2 (Nat.eqb_neq _ _)). Qed.

Lemma fresh_reaction s rq o :
  rq_seq rq = seq (sg s) ->
  shows (react s rq o) o /\ loading (react s rq o) = loading (sg s) /\ seq (react s rq o) = seq (sg s) /\
  truncated (react s rq o) = (Z.of_nat (length (results (react s rq o))) <? total (react s rq o)).
Proof. intros E. unfold react, on_then, on_catch. destruct o; rewrite E, Nat.eqb_refl; simpl; split_and!; done. Qed.

Lemma react_seq s rq o : seq (react s rq o) = seq (sg s).
Proof. unfold react, on_then, on_catch. by destruct o, (rq_seq rq =? seq (sg s))%nat. Qed.

Lemma inv_fire s sq q :
  inv s -> timer s = Some (sq, q) ->
  inv {| sg := sg s; timer := None; inflight := {| rq_seq := sq; rq_text := q; rq_phase := Waiting |} :: inflight s;
         current := current s; outcomes := outcomes s |}.
Proof.
  intros [Ht Ho Hn Hc] Hf. destruct (current s) as [x|] eqn:Ec; [|naive_solver].
  destruct Hc as [(E & Hfresh & Hl)|[(E & _)|(E & _)]]; [|congruence|congruence].
  rewrite Hf in E. simplify_eq. constructor; simpl; try done.
  - intros rq [->|Hrq]%elem_of_cons; [done|by apply Ho].
  - by apply NoDup_cons.
  - right. left. simpl. split_and!; [done|done|]. eexists. split; [by left|]. done.
Qed.

Lemma inv_reaction s a rq b o :
  inv s -> inflight s = a ++ rq :: b -> rq_phase rq = Waiting ->
  inv {| sg := react s rq o; timer := timer s;
         inflight := a ++ {| rq_seq := rq_seq rq; rq_text := rq_text rq; rq_phase := Finalizing |} :: b;
         current := current s; outcomes := (rq_seq rq, rq_text rq, o) :: outcomes s |}.
Proof.
  intros Hi E Hw. set (rq' := {| rq_seq := rq_seq rq; rq_text := rq_text rq; rq_phase := Finalizing |}).
  assert (rq_seq <$> (a ++ rq' :: b) = rq_seq <$> inflight s) as Hs by (rewrite E, !fmap_app, !fmap_cons; done).
  assert (rq ∈ inflight s) as Hrq by (rewrite E; set_solver).
  destruct (decide (rq_seq rq = seq (sg s))) as [Eq|Ne].
  - destruct (fresh_reaction s rq o Eq) as (Hsh & Hl & Hsq & Htr).
    pose proof Hi as [Ht Ho Hn Hc]. constructor; cbn [sg timer inflight current outcomes]; rewrite ?Hs; try done.
    + rewrite Hsq. intros r Hr. apply (list_elem_of_fmap_2 rq_seq) in Hr. rewrite Hs in Hr.
      apply list_elem_of_fmap in Hr as (r' & -> & Hr). by apply Ho.
    + assert (seq (sg s) ∈ rq_seq <$> inflight s) as Hin by (rewrite <- Eq; by apply list_elem_of_fmap_2).
      destruct (current s) as [q|]; [|naive_solver]. right. left. cbn [sg timer inflight outcomes].
      destruct Hc as [(_ & Hf & _)|[(Htm & Hld & r & Hr & Hrs & Hrt & _)|(_ & Hf & _)]]; [done| |done].
      assert (r = rq) as -> by (eapply same_request; [exact Hi|done|done|congruence]).
      split_and!; [done|congruence|]. exists rq'. rewrite Hsq, <- Eq, <- Hrt. split_and!; [set_solver|done|done|].
      intros _. exists o. split; [by left|done].
  - rewrite (stale_reaction s rq o Ne).
    pose proof Hi as [Ht Ho Hn Hc]. constructor; cbn [sg timer inflight current outcomes]; rewrite ?Hs; try done.
    + intros r Hr. apply (list_elem_of_fmap_2 rq_seq) in Hr. rewrite Hs in Hr.
      apply list_elem_of_fmap in Hr as (r' & -> & Hr). by apply Ho.
    + destruct (current s) as [q|]; [|done]. unfold progress in *. cbn [sg timer inflight outcomes]. rewrite Hs.
      destruct Hc as [Hc|[(Htm & Hld & r & Hr & Hrs & Hrt & Hsh)|(Htm & Hf & Hld & x & Hx & Hsh)]]; [by left| |].
      * right. left. split_and!; [done|done|]. exists r. split_and!; [|done|done|].
        { rewrite E in Hr. apply elem_of_app in Hr as [Hr|[->|Hr]%elem_of_cons]; [set_solver|congruence|set_solver]. }
        intros Hfin. destruct (Hsh Hfin) as (x & Hx & ?). exists x. split; [by right|done].
      * right. right. split_and!; [done|done|done|]. exists x. split; [by right|done].
Qed.

Lemma inv_settled s a rq b :
  inv s -> inflight s = a ++ rq :: b -> rq_phase rq = Finalizing ->
  inv {| sg := on_finally (sg s) (rq_seq rq); timer := timer s; inflight := a ++ b;
         current := current s; outcomes := outcomes s |}.
Proof.
  intros Hi E Hw. assert (rq ∈ inflight s) as Hrq by (rewrite E; set_solver).
  assert (forall r, r ∈ a ++ b -> r ∈ inflight s /\ rq_seq r <> rq_seq rq) as Hoth by (intros r; by apply others_seq).
  assert (NoDup (rq_seq <$> (a ++ b))) as Hn'.
  { pose proof (inv_once _ Hi) as Hn. rewrite E, fmap_app, fmap_cons, <- Permutation_middle, <- fmap_app in Hn.
    by apply NoDup_cons in Hn as [_ ?]. }
  unfold on_finally. destruct (Nat.eqb_spec (rq_seq rq) (seq (sg s))) as [Eq|Ne].
  - pose proof Hi as [Ht Ho Hn Hc]. constructor; simpl; try done; [intros r Hr; apply Ho; by apply Hoth|].
    assert (seq (sg s) ∈ rq_seq <$> inflight s) as Hin by (rewrite <- Eq; by apply list_elem_of_fmap_2).
    destruct (current s) as [q|]; [|naive_solver]. right. right. cbn [sg timer inflight outcomes seq loading].
    destruct Hc as [(_ & Hf & _)|[(Htm & Hld & r & Hr & Hrs & Hrt & Hsh)|(_ & Hf & _)]]; [done| |done].
    assert (r = rq) as -> by (eapply same_request; [exact Hi|done|done|congruence]).
    destruct (Hsh Hw) as (x & Hx & Hsx). split_and!; [done| |done|exists x; split; [done|by destruct x]].
    intros (r & Er & Hr')%list_elem_of_fmap. destruct (Hoth r Hr'). congruence.
  - pose proof Hi as [Ht Ho Hn Hc]. constructor; simpl; try done; [intros r Hr; apply Ho; by apply Hoth|].
    assert (seq (sg s) ∉ rq_seq <$> inflight s -> seq (sg s) ∉ rq_seq <$> (a ++ b)) as Hsub.
    { intros Hf (r & Er & Hr)%list_elem_of_fmap. apply Hf. rewrite Er. apply list_elem_of_fmap_2. by apply Hoth. }
    destruct (current s) as [q|]; [|naive_solver]. unfold progress in *. cbn [sg timer inflight outcomes].
    destruct Hc as [Hc|[(Htm & Hld & r & Hr & Hrs & Hrt & Hsh)|Hc]]; [left; naive_solver| |right; right; naive_solver].
    right. left. split_and!; [done|done|]. exists r. split_and!; [|done|done|done].
    rewrite E in Hr. apply elem_of_app in Hr as [Hr|[->|Hr]%elem_of_cons]; [set_solver|congruence|set_solver].
Qed.

Lemma inv_always s : reachable s -> inv s.
Proof.
  unfold reachable, steps. intros Hr. assert (inv init) as Hi.
  { constructor; simpl; try done; [by intros rq ?%not_elem_of_nil|constructor|].
    split_and!; try done. by apply not_elem_of_nil. }
  revert Hi. induction Hr as [|x y z Hxy Hyz IH]; intros Hi; [done|]. apply IH. clear IH Hyz.
  destruct Hxy; [by apply inv_search| |by apply inv_fire|by apply inv_reaction|by apply inv_settled].
  by apply inv_restart.
Qed.

(** ** Properties *)

(** What the search box shows is the answer to what was typed last. In every
    interleaving of typing, clearing, timers and responses: "more than shown" is claimed
    exactly when the backend counted more than it returned; after a blank text or a clear
    nothing is shown and nothing loads, whatever arrives late; and once the timer has fired
    and every request is done, the box is not loading and shows the outcome of a request
    for the text typed last. *)
Theorem suggest_newest (s : Sys) :
  reachable s ->
  truncated (sg s) = (Z.of_nat (length (results (sg s))) <? total (sg s)) /\
  (current s = None -> loading (sg s) = false /\ blank (sg s)) /\
  (forall q, current s = Some q -> timer s = None -> inflight s = [] ->
     loading (sg s) = false /\ exists o, (seq (sg s), q, o) ∈ outcomes s /\ shows (sg s) o).
Proof.
  intros [Ht _ _ Hc]%inv_always. split_and!; [done| |].
  - intros E. rewrite E in Hc. naive_solver.
  - intros q E Htm Hin. rewrite E in Hc. destruct Hc as [(? & _)|[(_ & _ & rq & Hrq & _)|(_ & _ & ?)]]; [congruence| |done].
    rewrite Hin in Hrq. by apply not_elem_of_nil in Hrq.
Qed.
End Suggest.

(** A run in which the answer to "pay" arrives after "payments" was typed. *)
Definition demo_page (names : list str) : EntityPage (Ref := str) :=
  {| ep_entities := Some names; ep_total := Some 3 |}.
Definition demo_late : Sys (Ref := str) :=
  {| sg := {| results := []; total := 0; truncated := false; loading := true; error := None; seq := 2 |};
     timer := Some (2%nat, "payments" : str);
     inflight := [{| rq_seq := 1; rq_text := "pay"; rq_phase := Waiting |}]; current := Some ("payments" : str);
     outcomes := [] |}.
Definition demo_end : Sys (Ref := str) :=
  {| sg := {| results := ["payments"]; total := 3; truncated := true; loading := false; error := None; seq := 2 |};
     timer := None; inflight := []; current := Some ("payments" : str);
     outcomes := [(2%nat, "payments" : str, inl (demo_page ["payments"])); (1%nat, "pay" : str, inl (demo_page ["pay"; "payroll"]))] |}.

Lemma demo_late_reachable : reachable demo_late.
Proof.
  eapply rt1n_trans; [apply (StepSearch init (Some ("pay" : str)))|].
  eapply rt1n_trans; [by apply (StepFire _ 1 "pay")|].
  eapply rt1n_trans; [apply (StepSearch _ (Some ("payments " : str)))|]. apply rt1n_refl.
Qed.

Lemma suggest_end_reachable : reachable demo_end.
Proof.
  assert (steps demo_late demo_end) as He.
  { eapply rt1n_trans; [by apply (StepReact _ [] {| rq_seq := 1; rq_text := "pay"; rq_phase := Waiting |} [] (inl (demo_page ["pay"; "payroll"])))|].
    eapply rt1n_trans; [by apply (StepFinally _ [] {| rq_seq := 1; rq_text := "pay"; rq_phase := Finalizing |} [])|].
    eapply rt1n_trans; [by apply (StepFire _ 2 "payments")|].
    eapply rt1n_trans; [by apply (StepReact _ [] {| rq_seq := 2; rq_text := "payments"; rq_phase := Waiting |} [] (inl (demo_page ["payments"])))|].
    eapply rt1n_trans; [by apply (StepFinally _ [] {| rq_seq := 2; rq_text := "payments"; rq_phase := Finalizing |} [])|].
    apply rt1n_refl. }
  pose proof demo_late_reachable as Hl. unfold reachable, steps in *.
  induction Hl as [|x y z Hxy Hyz IH]; [done|]. eapply rt1n_trans; [exact Hxy|]. by apply IH.
Qed.

Lemma suggest_newest_witness :
  truncated (sg demo_end) = (Z.of_nat (length (results (sg demo_end))) <? total (sg demo_end)) /\
  (current demo_end = None -> loading (sg demo_end) = false /\ blank (sg demo_end)) /\
  (forall q, current demo_end = Some q -> timer demo_end = None -> inflight demo_end = [] ->
     loading (sg demo_end) = false /\ exists o, (seq (sg demo_end), q, o) ∈ outcomes demo_end /\ shows (sg demo_end) o).
Proof. apply suggest_newest, suggest_end_reachable. Defined.

(** ** Resolving a name over one bounded page *)
Record BoundedMatches (Ref : Type) := { matches : list Ref; complete : bool }.
Arguments matches {Ref} _.
Arguments complete {Ref} _.

Definition NAME_LOOKUP_LIMIT : Z := 500.

(** A page as [boundedMatches] reads it: its entities and its [truncated] flag. *)
Definition boundedMatches {Ref} (page : option (option (list Ref) * option bool)) (match_ : Ref -> bool) : BoundedMatches Ref :=
  {| matches := List.filter match_ (nullish (page ≫= fst) []);
     complete := negb (nullish (page ≫= snd) false) |}.

(** A page that was not truncated holds every entity, so what it says of a name is true of
    the population: none is absent, one is unique. *)
Lemma boundedMatches_sound {Ref} (population entities : list Ref) (t : bool) (match_ : Ref -> bool) :
  (t = false -> entities ≡ₚ population) ->
  let r := boundedMatches (Some (Some entities, Some t)) match_ in
  complete r = true -> matches r ≡ₚ List.filter match_ population.
Proof.
  intros Hp r Hc. unfold r, boundedMatches in *. simpl in *. apply negb_true_iff in Hc. specialize (Hp Hc).
  clear r. induction Hp; simpl; repeat case_match; try done; [by constructor|by constructor|by etransitivity].
Qed.
