(* ===== verification/Spatial.v ===== *)
(** * Saved graph arrangements: [src/pkg/dashboard/frontend/src/lib/graphSpatial.ts]

    The browser's session storage is a map from keys to items. An item is kept by the JSON
    value its text parses to, or as text that does not parse; a write can be refused (quota,
    private mode), which a parameter decides. Objects keep their keys in insertion order: no
    node id is an array index or [__proto__]. *)

From stdpp Require Import base list gmap sorting.
From Stdlib Require Import Init.Byte ZArith NArith Lia.
From S2P Require Import Prelude.
Local Open Scope Z_scope.

(** ** Numbers and JSON values

    A finite double is [m * 2 ^ e]; [Math.round] of one is exact, and a finite number
    survives [JSON.stringify] and [JSON.parse]. *)
Inductive num := Nan | Infinite (neg : bool) | Fin (m e : Z).

Definition isFinite (n : num) : bool := match n with Fin _ _ => true | _ => false end.
Definition positive (n : num) : bool :=
  match n with Fin m _ => 0 <? m | Infinite neg => negb neg | Nan => false end.
Definition math_round (n : num) : num :=
  match n with
  | Fin m e => Fin (if 0 <=? e then m * 2 ^ e else (2 * m + 2 ^ (- e)) / 2 ^ (1 - e)) 0
  | _ => n
  end.

Inductive value :=
  | VNull | VBool (b : bool) | VNum (n : num) | VStr (s : str) | VArr (l : list value) | VObj (o : list (str * value)).

(** [v.k], undefined when [v] has no member [k] of its own. *)
Definition member (k : str) (v : value) : option value :=
  match v with VObj o => assoc k o | _ => None end.

Record Point := { px : num; py : num }.
Record SpatialRecord := { positions : list (str * Point); pan : Point; zoom : num }.

Definition SPATIAL_VERSION : num := Fin 1 0.
Definition PREFIX : str := "pacto.graph.spatial.v1:".
Definition INDEX_KEY : str := "pacto.graph.spatial.v1.index".
Definition MAX_NODES : nat := 400.
Definition MAX_ENTRIES : nat := 8.

(** ** The identity of a query *)
Record GraphQuery := {
  gq_kind : str; gq_key : str; gq_perspective : str; gq_views : list str; gq_direction : str;
  gq_depth : Z; gq_maxNodes : Z }.

Definition graphQueryKey (q : GraphQuery) : str :=
  join "|" [gq_kind q; gq_key q; gq_perspective q; join "+" (sort_str (gq_views q)); gq_direction q;
            show_Z (gq_depth q); show_Z (gq_maxNodes q)].

(** ** Reading *)
Definition finitePoint (p : Point) : option Point := if isFinite (px p) && isFinite (py p) then Some p else None.

Definition finitePointOf (v : option value) : option Point :=
  match v ≫= member "x", v ≫= member "y" with
  | Some (VNum x), Some (VNum y) => finitePoint {| px := x; py := y |}
  | _, _ => None
  end.

(** The loop over the stored positions, with the number kept so far. *)
Fixpoint read_positions (entries : list (str * value)) (n : nat) : list (str * Point) :=
  match entries with
  | [] => []
  | (id, v) :: rest =>
      match finitePointOf (Some v) with
      | None => read_positions rest n
      | Some pt => (id, pt) :: (if (MAX_NODES <=? S n)%nat then [] else read_positions rest (S n))
      end
  end.

Definition num_is (n : num) (v : option value) : bool :=
  match v, n with Some (VNum (Fin m e)), Fin m' e' => (m * 2 ^ (e - Z.min e e') =? m' * 2 ^ (e' - Z.min e e')) | _, _ => false end.

(** What [Object.entries] gives: an object's own members, an array's elements (none of
    which matter here but for being points under their index). *)
Definition entries_of (v : value) : option (list (str * value)) :=
  match v with
  | VObj o => Some o
  | VArr l => Some (imap (fun i x => (show_Z (Z.of_nat i), x)) l)
  | _ => None
  end.

(** An item: the value its text parses to, or text that does not parse. *)
Inductive Item := Parsed (v : value) | Unparsable.

Definition parseRecord (raw : option Item) : option SpatialRecord :=
  match raw with
  | Some (Parsed r) =>
      if negb (num_is SPATIAL_VERSION (member "v" r)) then None
      else
        p ← finitePointOf (member "pan" r);
        match member "zoom" r with
        | Some (VNum z) =>
            if negb (isFinite z) || negb (positive z) then None
            else
              es ← (member "positions" r ≫= entries_of);
              match read_positions es 0 with
              | [] => None
              | ps => Some {| positions := ps; pan := p; zoom := z |}
              end
        | _ => None
        end
  | _ => None
  end.

(** ** The storage *)
Abbreviation Storage := (gmap str Item).

Section Storage.
(** Does [setItem] of this key and item succeed in this storage? *)
Context (accepts : gmap str Item -> str -> Item -> bool).

Definition readIndex (s : Storage) : list str :=
  match s !! INDEX_KEY with
  | Some (Parsed (VArr l)) => omap (fun v => match v with VStr k => Some k | _ => None end) l
  | _ => []
  end.

(** The storage after [setItem], or none when it throws. *)
Definition setItem (s : Storage) (k : str) (i : Item) : option Storage :=
  if accepts s k i then Some (<[k := i]> s) else None.

Definition writeIndex (s : Storage) (ks : list str) : Storage :=
  nullish (setItem s INDEX_KEY (Parsed (VArr (VStr <$> ks)))) s.

Definition loadSpatial (s : option Storage) (queryKey : str) : option SpatialRecord :=
  st ← s; parseRecord (st !! (PREFIX ++ queryKey)).

(** [keys.shift()] and [removeItem] while there are too many. *)
Fixpoint evict (ks : list str) (s : Storage) : list str * Storage :=
  match ks with
  | [] => ([], s)
  | old :: rest =>
      if (MAX_ENTRIES <? length ks)%nat then evict rest (if truthy old then delete (PREFIX ++ old) s else s)
      else (ks, s)
  end.

Definition round_point (p : Point) : Point := {| px := math_round (px p); py := math_round (py p) |}.

(** One position as saved, if it is finite. *)
Definition save_position (ps : list (str * Point)) (id : str) : option (str * Point) :=
  pt ← assoc id ps ≫= finitePoint; Some (id, round_point pt).

(** The positions that are saved: the finite ones among the first ids in order. *)
Definition saved_positions (ps : list (str * Point)) : list (str * Point) :=
  omap (save_position ps) (take MAX_NODES (sort_str (keys ps))).

Definition point_value (p : Point) : value := VObj [("x", VNum (px p)); ("y", VNum (py p))].

Definition record_value (r : SpatialRecord) : value :=
  VObj [("v", VNum SPATIAL_VERSION); ("positions", VObj ((fun p => (p.1, point_value p.2)) <$> positions r));
        ("pan", point_value (pan r)); ("zoom", VNum (zoom r))].
Definition record_item (r : SpatialRecord) : Item := Parsed (record_value r).

(** The record a state is saved as, if it is worth saving. *)
Definition record_of (st : SpatialRecord) : option SpatialRecord :=
  p ← finitePoint (pan st);
  if negb (isFinite (zoom st)) || negb (positive (zoom st)) then None
  else match saved_positions (positions st) with
       | [] => None
       | ps => Some {| positions := ps; pan := round_point p; zoom := zoom st |}
       end.

Definition saveSpatial (s : Storage) (queryKey : str) (st : SpatialRecord) : Storage :=
  match record_of st with
  | None => s
  | Some r =>
      let ks := List.filter (fun k => k !== queryKey) (readIndex s) ++ [queryKey] in
      let '(ks, s) := evict ks s in
      match setItem s (PREFIX ++ queryKey) (record_item r) with
      | Some s' => writeIndex s' ks
      | None => s
      end
  end.

Definition clearSpatial (s : Storage) (queryKey : str) : Storage :=
  let s := delete (PREFIX ++ queryKey) s in
  writeIndex s (List.filter (fun k => k !== queryKey) (readIndex s)).
End Storage.

(** ** Reading back what was written *)
Lemma finitePointOf_value p : finitePoint p = Some p -> finitePointOf (Some (point_value p)) = Some p.
Proof. intros H. destruct p as [x y]. unfold finitePointOf. simpl. exact H. Qed.

Lemma finitePoint_self p p' : finitePoint p = Some p' -> p' = p /\ finitePoint p = Some p /\ finitePoint (round_point p) = Some (round_point p).
Proof.
  destruct p as [[| |m e] [| |m' e']]; unfold finitePoint; simpl; intros ?; simplify_eq. done.
Qed.

Lemma read_positions_values ps n :
  Forall (fun p => finitePoint p.2 = Some p.2) ps -> (n + length ps <= MAX_NODES)%nat ->
  read_positions ((fun p => (p.1, point_value p.2)) <$> ps) n = ps.
Proof.
  intros Hf. revert n. induction Hf as [|[id p] ps Hp Hf IH]; intros n Hn; [done|].
  rewrite fmap_cons. cbn [read_positions fst snd] in *. rewrite (finitePointOf_value p Hp). f_equal.
  cbn [length] in Hn. destruct (Nat.leb_spec MAX_NODES (S n)); [|apply IH; lia]. destruct ps; [done|simpl in Hn; lia].
Qed.

Lemma saved_finite ps : Forall (fun p => finitePoint p.2 = Some p.2) (saved_positions ps).
Proof.
  unfold saved_positions. apply Forall_forall. intros [id p] (k & _ & Hk)%list_elem_of_omap.
  unfold save_position in Hk. destruct (assoc k ps ≫= finitePoint) as [pt|] eqn:E; simpl in Hk; simplify_eq.
  destruct (assoc id ps) as [p0|]; [|done]. simpl in E. apply finitePoint_self in E as (-> & _ & ?). done.
Qed.

Lemma length_omap_le {A B} (f : A -> option B) (l : list A) : (length (omap f l) <= length l)%nat.
Proof. induction l as [|x l IH]; [done|]. simpl. unfold omap in IH. destruct (f x); simpl; lia. Qed.

Lemma saved_length ps : (length (saved_positions ps) <= MAX_NODES)%nat.
Proof. unfold saved_positions. etransitivity; [apply length_omap_le|]. rewrite length_take. lia. Qed.

Lemma assoc_saved (ps : list (str * Point)) id ids :
  NoDup ids ->
  assoc id (omap (save_position ps) ids) =
  if bool_decide (id ∈ ids) then round_point <$> (assoc id ps ≫= finitePoint) else None.
Proof.
  induction 1 as [|k ids Hk Hn IH]; [done|].
  assert (omap (save_position ps) (k :: ids) =
    match save_position ps k with Some x => x :: omap (save_position ps) ids | None => omap (save_position ps) ids end) as -> by done.
  destruct (decide (id = k)) as [->|Hne].
  - rewrite (bool_decide_eq_true_2 (k ∈ k :: ids)) by (by left). unfold save_position at 1.
    destruct (assoc k ps ≫= finitePoint) as [pt|] eqn:E; cbn [mbind option_bind assoc]; [by rewrite eqb_refl|].
    rewrite IH. by rewrite bool_decide_eq_false_2.
  - assert (bool_decide (id ∈ k :: ids) = bool_decide (id ∈ ids)) as -> by (apply bool_decide_ext; set_solver).
    rewrite <- IH. unfold save_position at 1.
    destruct (assoc k ps ≫= finitePoint) as [pt|]; cbn [mbind option_bind assoc]; [|done].
    by rewrite bool_decide_eq_false_2.
Qed.

Lemma prefix_not_index q : PREFIX ++ q <> INDEX_KEY.
Proof. by intros H. Qed.

Lemma prefix_inj q q' : PREFIX ++ q = PREFIX ++ q' -> q = q'.
Proof. apply app_inv_head. Qed.

Lemma parse_record_item st r : record_of st = Some r -> parseRecord (Some (record_item r)) = Some r.
Proof.
  unfold record_of. destruct (finitePoint (pan st)) as [p|] eqn:Ep; [|done]. cbn [mbind option_bind].
  destruct (negb (isFinite (zoom st)) || negb (positive (zoom st))) eqn:Ez; [done|].
  pose proof (saved_finite (positions st)) as Hf. pose proof (saved_length (positions st)) as Hl.
  destruct (saved_positions (positions st)) as [|x ps] eqn:Es; [done|]. intros [= <-].
  apply finitePoint_self in Ep as (-> & Hp & Hrp). unfold record_item, parseRecord.
  set (v := record_value _).
  assert (member "v" v = Some (VNum SPATIAL_VERSION)) as -> by reflexivity.
  assert (member "pan" v = Some (point_value (round_point (pan st)))) as -> by reflexivity.
  assert (member "zoom" v = Some (VNum (zoom st))) as -> by reflexivity.
  assert (member "positions" v = Some (VObj ((fun p => (p.1, point_value p.2)) <$> x :: ps))) as -> by reflexivity.
  change (negb (num_is SPATIAL_VERSION (Some (VNum SPATIAL_VERSION)))) with false. cbn iota.
  rewrite finitePointOf_value by done. cbn [mbind option_bind]. rewrite Ez. set (l := (fun p => (p.1, point_value p.2)) <$> x :: ps). cbn [mbind option_bind entries_of]. subst l.
  rewrite (read_positions_values (x :: ps)); [done|done|simpl in *; lia].
Qed.

Section StorageProofs.
Context (accepts : gmap str Item -> str -> Item -> bool).

Lemma evict_spec ks s :
  evict ks s = (drop (length ks - MAX_ENTRIES) ks,
    fold_left (fun (s : Storage) old => if truthy old then delete (PREFIX ++ old) s else s)
      (take (length ks - MAX_ENTRIES) ks) s).
Proof.
  revert s. induction ks as [|k ks IH]; intros s; [done|]. cbn [evict].
  destruct (Nat.ltb_spec MAX_ENTRIES (length (k :: ks))) as [Hlt|Hge].
  - rewrite IH. replace (length (k :: ks) - MAX_ENTRIES)%nat with (S (length ks - MAX_ENTRIES)) by (cbn [length] in *; lia). done.
  - by replace (length (k :: ks) - MAX_ENTRIES)%nat with 0%nat by lia.
Qed.

Lemma evicted_lookup (old : list str) (s : Storage) k :
  fold_left (fun (s : Storage) o => if truthy o then delete (PREFIX ++ o) s else s) old s !! k =
  if bool_decide (k ∈ (fun o => PREFIX ++ o) <$> List.filter truthy old) then None else s !! k.
Proof.
  revert s. induction old as [|o old IH]; intros s; cbn [fold_left List.filter]; [done|].
  rewrite IH. destruct (truthy o); [|done]. rewrite fmap_cons. case_bool_decide as H1.
  - by rewrite bool_decide_eq_true_2 by (by right).
  - destruct (decide (k = PREFIX ++ o)) as [->|Hne].
    + rewrite lookup_delete_eq. by rewrite bool_decide_eq_true_2 by (by left).
    + rewrite lookup_delete_ne by congruence. by rewrite bool_decide_eq_false_2 by set_solver.
Qed.

Lemma readIndex_write (s : Storage) ks :
  accepts s INDEX_KEY (Parsed (VArr (VStr <$> ks))) = true -> readIndex (writeIndex accepts s ks) = ks.
Proof.
  intros Ha. unfold writeIndex, setItem. rewrite Ha. cbn [nullish]. unfold readIndex. rewrite lookup_insert_eq.
  clear Ha. induction ks as [|k ks IH]; [done|]. simpl. f_equal. apply IH.
Qed.

Lemma writeIndex_other (s : Storage) ks k : k <> INDEX_KEY -> writeIndex accepts s ks !! k = s !! k.
Proof.
  intros Hk. unfold writeIndex, setItem. destruct (accepts _ _ _); simpl; [|done]. by rewrite lookup_insert_ne.
Qed.

(** The index as it is after a save, and what is removed. *)
Definition next_index (s : Storage) (q : str) : list str := List.filter (fun k => k !== q) (readIndex s) ++ [q].
Definition oldest (s : Storage) (q : str) : list str := take (length (next_index s q) - MAX_ENTRIES) (next_index s q).
Definition newest (s : Storage) (q : str) : list str := drop (length (next_index s q) - MAX_ENTRIES) (next_index s q).
Definition evicted (s : Storage) (q : str) : Storage :=
  fold_left (fun (s : Storage) old => if truthy old then delete (PREFIX ++ old) s else s) (oldest s q) s.

Lemma saveSpatial_eq s q st r :
  record_of st = Some r ->
  saveSpatial accepts s q st =
    if accepts (evicted s q) (PREFIX ++ q) (record_item r)
    then writeIndex accepts (<[PREFIX ++ q := record_item r]> (evicted s q)) (newest s q) else evicted s q.
Proof.
  intros Hr. unfold saveSpatial. rewrite Hr. cbv zeta. fold (next_index s q). rewrite evict_spec.
  fold (oldest s q) (newest s q) (evicted s q). unfold setItem. by destruct (accepts _ _ _).
Qed.

Lemma readIndex_ext (s s' : Storage) : s !! INDEX_KEY = s' !! INDEX_KEY -> readIndex s = readIndex s'.
Proof. unfold readIndex. by intros ->. Qed.

Lemma evicted_index s q : readIndex (evicted s q) = readIndex s.
Proof.
  apply readIndex_ext. unfold evicted. rewrite evicted_lookup. rewrite bool_decide_eq_false_2; [done|].
  intros (o & E & _)%list_elem_of_fmap. by apply (prefix_not_index o).
Qed.

Definition stored (s : Storage) (q : str) : Prop := is_Some (s !! (PREFIX ++ q)).

Lemma evicted_stored s q k :
  Forall (fun o => truthy o = true) (readIndex s) -> truthy q = true ->
  stored (evicted s q) k <-> stored s k /\ k ∉ oldest s q.
Proof.
  intros Ht Hq. unfold stored, evicted. rewrite evicted_lookup.
  assert (PREFIX ++ k ∈ (fun o => PREFIX ++ o) <$> List.filter truthy (oldest s q) <-> k ∈ oldest s q) as He.
  { rewrite list_elem_of_fmap. split.
    - intros (o & E & Ho). apply prefix_inj in E as ->. apply list_elem_of_In, filter_In in Ho as [Ho _].
      by apply list_elem_of_In.
    - intros Hk. exists k. split; [done|]. apply list_elem_of_In, filter_In. split; [by apply list_elem_of_In|].
      unfold oldest in Hk. apply elem_of_take in Hk as (i & Hi & _). apply list_elem_of_lookup_2 in Hi.
      unfold next_index in Hi. apply elem_of_app in Hi as [Hi| ->%list_elem_of_singleton]; [|done].
      apply list_elem_of_In, filter_In in Hi as [Hi _]. rewrite Forall_forall in Ht. by apply Ht, list_elem_of_In. }
  case_bool_decide as Hc; rewrite He in Hc; [|tauto]. split; [by intros []|tauto].
Qed.

(** Every entry is in the index, and the index is short. *)
Record bounded (s : Storage) : Prop := {
  bd_once : NoDup (readIndex s);
  bd_short : (length (readIndex s) <= MAX_ENTRIES)%nat;
  bd_named : Forall (fun o => truthy o = true) (readIndex s);
  bd_all : forall q, stored s q -> q ∈ readIndex s }.

Lemma next_index_NoDup s q : NoDup (readIndex s) -> NoDup (next_index s q).
Proof.
  intros Hn. unfold next_index. apply NoDup_app. split_and!; [| |by apply NoDup_singleton].
  - apply NoDup_ListNoDup, List.NoDup_filter. by apply NoDup_ListNoDup.
  - intros k Hk ->%list_elem_of_singleton. apply list_elem_of_In, filter_In in Hk as [_ Hk]. by rewrite eqb_refl in Hk.
Qed.

Lemma newest_has s q : q ∈ newest s q.
Proof.
  unfold newest, next_index. rewrite length_app. cbn [length].
  rewrite drop_app_le by (unfold MAX_ENTRIES; lia). apply elem_of_app. right. by left.
Qed.

Lemma next_split s q k : k ∈ next_index s q <-> k ∈ oldest s q \/ k ∈ newest s q.
Proof. unfold oldest, newest. rewrite <- elem_of_app, take_drop. done. Qed.

Lemma save_bounded s q st :
  (forall s i, accepts s INDEX_KEY i = true) -> truthy q = true -> bounded s -> bounded (saveSpatial accepts s q st).
Proof.
  intros Ha Hq [Hn Hs Ht Hall]. destruct (record_of st) as [r|] eqn:Er.
  2:{ unfold saveSpatial. rewrite Er. by constructor. }
  rewrite (saveSpatial_eq _ _ _ _ Er). destruct (accepts _ _ _); cycle 1.
  { constructor; rewrite ?evicted_index; try done. intros k [Hk _]%evicted_stored; [by apply Hall|done|done]. }
  pose proof (next_index_NoDup s q Hn) as Hnn.
  constructor; rewrite ?readIndex_write by apply Ha.
  - unfold newest. eapply sublist_NoDup; [exact Hnn|apply sublist_drop].
  - unfold newest. rewrite length_drop. lia.
  - apply Forall_forall. intros k Hk. assert (k ∈ next_index s q) as Hin by (apply next_split; by right).
    apply elem_of_app in Hin as [Hin| ->%list_elem_of_singleton]; [|done].
    apply list_elem_of_In, filter_In in Hin as [Hin _]. rewrite Forall_forall in Ht. by apply Ht, list_elem_of_In.
  - intros k. unfold stored. rewrite writeIndex_other by apply prefix_not_index.
    destruct (decide (k = q)) as [->|Hne]; [intros _; apply newest_has|].
    rewrite lookup_insert_ne by (intros E; by apply prefix_inj in E). fold (stored (evicted s q) k).
    intros [Hk Ho]%evicted_stored; [|done|done]. apply Hall in Hk.
    assert (k ∈ next_index s q) as [?|?]%next_split; [|done|done].
    unfold next_index. apply elem_of_app. left. apply list_elem_of_In, filter_In.
    split; [by apply list_elem_of_In|]. by rewrite bool_decide_eq_false_2.
Qed.

Lemma clear_bounded s q :
  (forall s i, accepts s INDEX_KEY i = true) -> bounded s -> bounded (clearSpatial accepts s q).
Proof.
  intros Ha [Hn Hs Ht Hall]. unfold clearSpatial. cbv zeta.
  assert (readIndex (delete (PREFIX ++ q) s) = readIndex s) as Hi.
  { apply readIndex_ext. rewrite lookup_delete_ne; [done|]. apply prefix_not_index. }
  rewrite Hi. constructor; rewrite ?readIndex_write by apply Ha.
  - apply NoDup_ListNoDup, List.NoDup_filter. by apply NoDup_ListNoDup.
  - etransitivity; [apply List.filter_length_le|done].
  - apply Forall_forall. intros k Hk. apply list_elem_of_In, filter_In in Hk as [Hk _].
    rewrite Forall_forall in Ht. by apply Ht, list_elem_of_In.
  - intros k. unfold stored. rewrite writeIndex_other by apply prefix_not_index.
    destruct (decide (k = q)) as [->|Hne]; [rewrite lookup_delete_eq; by intros []|].
    rewrite lookup_delete_ne by (intros E; by apply prefix_inj in E). intros Hk. apply list_elem_of_In, filter_In.
    split; [apply list_elem_of_In; by apply Hall|]. by rewrite bool_decide_eq_false_2.
Qed.

Lemma save_frame s q st k :
  bounded s -> truthy q = true -> k <> q -> k ∈ newest s q ->
  saveSpatial accepts s q st !! (PREFIX ++ k) = s !! (PREFIX ++ k).
Proof.
  intros [Hn Hs Ht Hall] Hq Hne Hk. destruct (record_of st) as [r|] eqn:Er.
  2:{ unfold saveSpatial. by rewrite Er. }
  assert (k ∉ oldest s q) as Ho.
  { pose proof (next_index_NoDup s q Hn) as Hnn. unfold oldest, newest in *. intros Hin.
    rewrite <- (take_drop (length (next_index s q) - MAX_ENTRIES) (next_index s q)) in Hnn.
    apply NoDup_app in Hnn as (_ & Hd & _). by apply (Hd k). }
  assert (evicted s q !! (PREFIX ++ k) = s !! (PREFIX ++ k)) as He.
  { unfold evicted. rewrite evicted_lookup. rewrite bool_decide_eq_false_2; [done|].
    intros (o & E & Hin)%list_elem_of_fmap. apply prefix_inj in E as ->. apply list_elem_of_In, filter_In in Hin as [Hin _].
    by apply Ho, list_elem_of_In. }
  rewrite (saveSpatial_eq _ _ _ _ Er). destruct (accepts _ _ _); [|done].
  rewrite writeIndex_other by apply prefix_not_index.
  rewrite lookup_insert_ne by (intros E; apply prefix_inj in E; congruence). done.
Qed.

(** ** Properties *)

(** A saved arrangement comes back. When the storage takes the entry, loading the query
    it was saved under gives the viewport and the position of every node at a finite
    point, rounded to whole pixels, as long as there are no more than the cap on nodes. *)
Theorem spatial_roundtrip (s : Storage) (q : str) (st r : SpatialRecord) :
  record_of st = Some r -> (forall s', accepts s' (PREFIX ++ q) (record_item r) = true) ->
  loadSpatial (Some (saveSpatial accepts s q st)) q = Some r /\
  finitePoint (pan st) = Some (pan st) /\ pan r = round_point (pan st) /\ zoom r = zoom st /\
  (NoDup (keys (positions st)) -> (length (positions st) <= MAX_NODES)%nat ->
     forall id, assoc id (positions r) = round_point <$> (assoc id (positions st) ≫= finitePoint)).
Proof.
  intros Hr Ha. split.
  { unfold loadSpatial. cbn [mbind option_bind]. rewrite (saveSpatial_eq _ _ _ _ Hr), Ha.
    rewrite writeIndex_other by apply prefix_not_index. rewrite lookup_insert_eq. by apply (parse_record_item st). }
  unfold record_of in Hr. destruct (finitePoint (pan st)) as [p|] eqn:Ep; [|done]. cbn [mbind option_bind] in Hr.
  destruct (negb _ || negb _); [done|]. destruct (saved_positions (positions st)) as [|x ps] eqn:Es; [done|].
  injection Hr as <-. apply finitePoint_self in Ep as (-> & Hp & _). split_and!; [done|done|done|].
  intros Hn Hl id. cbn [positions]. rewrite <- Es. unfold saved_positions. rewrite take_ge.
  2:{ unfold sort_str. rewrite length_sort_by. unfold keys. by rewrite length_fmap. }
  rewrite assoc_saved by (unfold sort_str; by rewrite sort_by_Permutation). case_bool_decide as Hin; [done|].
  unfold sort_str in Hin. rewrite elem_of_sort_by in Hin. apply assoc_None in Hin. by rewrite Hin.
Qed.

(** One use of the store by the page. *)
Inductive op := Save (q : str) (st : SpatialRecord) | Clear (q : str).
Definition run_op (s : Storage) (o : op) : Storage :=
  match o with Save q st => saveSpatial accepts s q st | Clear q => clearSpatial accepts s q end.
Definition op_named (o : op) : Prop := match o with Save q _ | Clear q => truthy q = true end.

(** The browser's store stays bounded. After any sequence of saves and clears, with
    entries refused or not as long as the index itself can be written, at most eight
    arrangements are kept; each save removes only the entries saved longest ago, leaving
    the seven saved most recently as they were; and a cleared query reads as absent. *)
Theorem spatial_bounded (ops : list op) :
  (forall s i, accepts s INDEX_KEY i = true) -> Forall op_named ops ->
  let s := fold_left run_op ops ∅ in
  (forall l, NoDup l -> (forall q, q ∈ l -> is_Some (loadSpatial (Some s) q)) -> (length l <= MAX_ENTRIES)%nat) /\
  (forall q st k, truthy q = true -> k <> q -> k ∈ newest s q ->
     loadSpatial (Some (saveSpatial accepts s q st)) k = loadSpatial (Some s) k) /\
  (forall q, loadSpatial (Some (clearSpatial accepts s q)) q = None).
Proof.
  intros Ha Ho s. assert (bounded s) as Hb.
  { unfold s. assert (bounded ∅) as H0.
    { assert (readIndex (∅ : Storage) = []) as E by (unfold readIndex; by rewrite lookup_empty).
      constructor; rewrite ?E; [constructor|simpl; lia|constructor|]. intros q [x Hx]. by rewrite lookup_empty in Hx. }
    revert H0. generalize (∅ : Storage) as s0. induction Ho as [|o ops Hop _ IH]; intros s0 H0; [done|].
    apply IH. destruct o as [q st|q]; [by apply (save_bounded s0 q st)|by apply (clear_bounded s0 q)]. }
  split_and!.
  - intros l Hn Hl. etransitivity; [|apply (bd_short _ Hb)]. apply submseteq_length, NoDup_submseteq; [done|].
    intros q Hq. apply (bd_all _ Hb). destruct (Hl q Hq) as [r Hr]. unfold loadSpatial in Hr.
    cbn [mbind option_bind] in Hr. unfold stored. destruct (s !! (PREFIX ++ q)) as [i|]; [by eexists|done].
  - intros q st k Hq Hne Hk. unfold loadSpatial. cbn [mbind option_bind]. by rewrite save_frame.
  - intros q. unfold loadSpatial, clearSpatial. cbn [mbind option_bind]. cbv zeta.
    rewrite writeIndex_other by apply prefix_not_index. by rewrite lookup_delete_eq.
Qed.
End StorageProofs.

(** ** Witnesses *)
Definition demo_state : SpatialRecord :=
  {| positions := [("b", {| px := Fin 5 (-1); py := Fin (-5) (-1) |}); ("a", {| px := Nan; py := Fin 1 0 |})];
     pan := {| px := Fin 3 0; py := Fin 1 2 |}; zoom := Fin 3 (-1) |}.
Definition demo_record : SpatialRecord :=
  {| positions := [("b", {| px := Fin 3 0; py := Fin (-2) 0 |})]; pan := {| px := Fin 3 0; py := Fin 4 0 |};
     zoom := Fin 3 (-1) |}.

Lemma spatial_roundtrip_witness :
  let accepts := fun (_ : Storage) (_ : str) (_ : Item) => true in
  loadSpatial (Some (saveSpatial accepts ∅ "q" demo_state)) "q" = Some demo_record /\
  finitePoint (pan demo_state) = Some (pan demo_state) /\ pan demo_record = round_point (pan demo_state) /\
  zoom demo_record = zoom demo_state /\
  (NoDup (keys (positions demo_state)) -> (length (positions demo_state) <= MAX_NODES)%nat ->
     forall id, assoc id (positions demo_record) = round_point <$> (assoc id (positions demo_state) ≫= finitePoint)).
Proof. intros accepts. apply (spatial_roundtrip accepts); [vm_compute; reflexivity|done]. Defined.

Lemma spatial_bounded_witness :
  let accepts := fun (_ : Storage) (_ : str) (_ : Item) => true in
  let s := fold_left (run_op accepts) [Save "one" demo_state; Save "two" demo_state; Clear "one"] ∅ in
  (forall l, NoDup l -> (forall q, q ∈ l -> is_Some (loadSpatial (Some s) q)) -> (length l <= MAX_ENTRIES)%nat) /\
  (forall q st k, truthy q = true -> k <> q -> k ∈ newest s q ->
     loadSpatial (Some (saveSpatial accepts s q st)) k = loadSpatial (Some s) k) /\
  (forall q, loadSpatial (Some (clearSpatial accepts s q)) q = None).
Proof. intros accepts. apply (spatial_bounded accepts); [done|repeat constructor]. Defined.

(** Where the index cannot be written but entries can, entries are kept past the cap: the
    index never learns of them. *)
Example unindexed_entries_stay :
  let accepts := fun (_ : Storage) (k : str) (_ : Item) => k !== INDEX_KEY in
  let s := fold_left (run_op accepts)
    [Save "1" demo_state; Save "2" demo_state; Save "3" demo_state; Save "4" demo_state; Save "5" demo_state;
     Save "6" demo_state; Save "7" demo_state; Save "8" demo_state; Save "9" demo_state] ∅ in
  Forall (fun q => is_Some (loadSpatial (Some s) q)) (["1"; "2"; "3"; "4"; "5"; "6"; "7"; "8"; "9"] : list str).
Proof. repeat (constructor; [vm_compute; by eexists|]). constructor. Qed.

(** ** One question, one key *)
Lemma pipe_not_in_views vs : Forall (fun v => x7c ∉ v) vs -> x7c ∉ join "+" vs.
Proof.
  induction 1 as [|v vs Hv Hvs IH]; [by apply not_elem_of_nil|]. destruct vs as [|w vs]; [done|].
  rewrite join_cons2, !elem_of_app. intros [H|[H|H]]; [done| |done]. by apply list_elem_of_singleton in H.
Qed.

Definition query_ok (q : GraphQuery) : Prop :=
  x7c ∉ gq_kind q /\ x7c ∉ gq_perspective q /\ x7c ∉ gq_direction q /\
  Forall (fun v => v <> [] /\ x7c ∉ v /\ x2b ∉ v) (gq_views q).

Lemma views_recovered vs ws :
  Forall (fun v => v <> [] /\ x7c ∉ v /\ x2b ∉ v) vs -> Forall (fun v => v <> [] /\ x7c ∉ v /\ x2b ∉ v) ws ->
  join "+" (sort_str vs) = join "+" (sort_str ws) -> vs ≡ₚ ws.
Proof.
  intros Hv Hw E. rewrite <- (sort_by_Permutation str_cmp vs), <- (sort_by_Permutation str_cmp ws).
  fold (sort_str vs) (sort_str ws).
  assert (forall l, Forall (fun v => v <> [] /\ x7c ∉ v /\ x2b ∉ v) l ->
    sort_str l = match join "+" (sort_str l) with [] => [] | s => split_on x2b s end) as Hs.
  { intros l Hl. assert (Forall (fun v => v <> [] /\ x7c ∉ v /\ x2b ∉ v) (sort_str l)) as Hf
      by (unfold sort_str; by rewrite sort_by_Permutation).
    destruct (sort_str l) as [|v rest] eqn:El; [done|].
    assert (split_on x2b (join [x2b] (v :: rest)) = v :: rest) as Hsp.
    { apply split_join; [done|]. eapply Forall_impl; [exact Hf|]. naive_solver. }
    change ("+" : str) with [x2b]. destruct (join [x2b] (v :: rest)) eqn:Ej; [|by rewrite <- Hsp].
    apply Forall_cons in Hf as [(Hne & _) _]. destruct rest; simpl in Ej; [done|]. destruct v; done. }
  rewrite (Hs vs Hv), (Hs ws Hw), E. done.
Qed.

(** One arrangement per question. Two graph queries share a storage key exactly when
    they ask the same: the same focus, perspective, direction, depth and node budget, and
    the same knowledge views in whatever order they were picked. The focus key may be any
    text; kinds, perspectives, directions and view names contain no separator. *)
Theorem graphQueryKey_identity (a b : GraphQuery) :
  query_ok a -> query_ok b ->
  graphQueryKey a = graphQueryKey b <->
  gq_kind a = gq_kind b /\ gq_key a = gq_key b /\ gq_perspective a = gq_perspective b /\
  gq_views a ≡ₚ gq_views b /\ gq_direction a = gq_direction b /\ gq_depth a = gq_depth b /\
  gq_maxNodes a = gq_maxNodes b.
Proof.
  intros (Ka & Pa & Da & Va) (Kb & Pb & Db & Vb).
  assert (forall q, Forall (fun v => v <> [] /\ x7c ∉ v /\ x2b ∉ v) (gq_views q) ->
    x7c ∉ join "+" (sort_str (gq_views q))) as Hv.
  { intros q Hq. apply pipe_not_in_views. unfold sort_str. rewrite sort_by_Permutation.
    eapply Forall_impl; [exact Hq|]. naive_solver. }
  assert (forall q, graphQueryKey q = ((((((gq_kind q ++ x7c :: gq_key q) ++ x7c :: gq_perspective q) ++
    x7c :: join "+" (sort_str (gq_views q))) ++ x7c :: gq_direction q) ++ x7c :: show_Z (gq_depth q)) ++
    x7c :: show_Z (gq_maxNodes q))) as Hk.
  { intros q. unfold graphQueryKey. cbn [join]. rewrite <- !app_assoc. cbn [app]. rewrite <- ?app_assoc. done. }
  rewrite !Hk. split.
  - intros E. apply cut_last in E as [E Em]; [|apply pipe_not_in_show..].
    apply cut_last in E as [E Ed]; [|apply pipe_not_in_show..]. apply cut_last in E as [E Edir]; [|done..].
    apply cut_last in E as [E Ev]; [|by apply Hv..]. apply cut_last in E as [E Ep]; [|done..].
    apply cut_first in E as [E1 E2]; [|done..]. apply show_Z_inj in Em, Ed.
    split_and!; try done. by apply views_recovered.
  - intros (-> & -> & -> & Hp & -> & -> & ->). do 3 f_equal. do 2 f_equal.
    by rewrite (sort_str_perm _ _ Hp).
Qed.

Definition demo_query (vs : list str) : GraphQuery :=
  {| gq_kind := "service"; gq_key := "a|b"; gq_perspective := "service"; gq_views := vs; gq_direction := "both";
     gq_depth := 2; gq_maxNodes := 60 |}.

Lemma graphQueryKey_identity_witness :
  let a := demo_query ["observed"; "expected"] in
  let b := demo_query ["expected"; "observed"] in
  graphQueryKey a = graphQueryKey b <->
  gq_kind a = gq_kind b /\ gq_key a = gq_key b /\ gq_perspective a = gq_perspective b /\
  gq_views a ≡ₚ gq_views b /\ gq_direction a = gq_direction b /\ gq_depth a = gq_depth b /\
  gq_maxNodes a = gq_maxNodes b.
Proof.
  intros a b. apply graphQueryKey_identity; (split_and!; [by_decide..|]);
    repeat (constructor; [split_and!; [done|by_decide|by_decide]|]); constructor.
Defined.
