(* ===== verification/Subgraph.v ===== *)
(** * Subgraphs: [src/pkg/dashboard/frontend/src/lib/graph-aggregate.ts] and [computeVisible]
    of [src/pkg/dashboard/frontend/src/lib/layout.ts]

    The nodes a team touches, the graph of teams, and the part of a dependency tree that is
    shown. A [Set] is the list of its members in insertion order, and the queue of the walk
    is consumed with one unit of fuel per node. *)

From stdpp Require Import base list gmap sorting.
From Stdlib Require Import Init.Byte ZArith NArith Lia.
From S2P Require Import Prelude Uri Format Neighborhood.
Local Open Scope Z_scope.

(** [set.add(x)] *)
Definition set_add {A} `{EqDecision A} (x : A) (l : list A) : list A := if bool_decide (x ∈ l) then l else l ++ [x].

(** ** The worst status *)
Definition STATUS_SEVERITY : list (str * Z) :=
  [("Invalid", 5); ("NonCompliant", 4); ("Unknown", 3); ("Warning", 2); ("external", 1); ("Reference", 0);
   ("NotEvaluated", 0); ("Compliant", 0)].

(** [STATUS_SEVERITY[s] ?? 0]; a member of [Object.prototype] is a function, which compares
    as not a number and so never wins. *)
Definition severity (s : str) : option Z :=
  match obj_get STATUS_SEVERITY s with Own v => Some v | Missing => Some 0 | Inherited _ => None end.

Definition worse (st : str * Z) (s : str) : str * Z :=
  match severity s with Some v => if st.2 <? v then (s, v) else st | None => st end.

Definition worstStatus (statuses : list str) : str := (fold_left worse statuses ("Compliant", -1)).1.

(** ** A team and what it touches *)
Definition relatedSubgraph (nodes : list GraphNode) (isCore : GraphNode -> bool) (includeDependents : bool) : list GraphNode :=
  let core := dedupe (gid <$> List.filter isCore nodes) in
  match core with
  | [] => []
  | _ =>
      let keep := fold_left (fun keep n =>
        let keep := if bool_decide (gid n ∈ core)
                    then fold_left (fun k e => set_add (targetId e) k) (edges n) keep else keep in
        if includeDependents
        then fold_left (fun k e => if bool_decide (targetId e ∈ core) then set_add (gid n) k else k) (edges n) keep
        else keep) nodes core in
      List.filter (fun n => bool_decide (gid n ∈ keep)) nodes
  end.

(** ** The graph of teams *)
Record AggNode := { an_id : str; an_status : str; an_version : str; an_targets : list str }.

Section Aggregate.
Context (ownerLabelOf : GraphNode -> str).

Definition owner_map (nodes : list GraphNode) : list (str * str) :=
  fold_left (fun m n => map_set (gid n) (ownerLabelOf n) m) nodes [].

(** [ownerOf.get(id)], none when it is empty or unknown: the code tests it for truth. *)
Definition owner_at (m : list (str * str)) (id : str) : option str :=
  o ← assoc id m; if truthy o then Some o else None.

(** Statuses of the services of each team, in order; the count is their number. *)
Definition add_stat (m : list (str * str)) (stats : list (str * list str)) (n : GraphNode) : list (str * list str) :=
  match owner_at m (gid n) with
  | None => stats
  | Some o => map_set o (nullish (assoc o stats) [] ++ [status n]) stats
  end.

Definition team_stats (nodes : list GraphNode) : list (str * list str) :=
  fold_left (add_stat (owner_map nodes)) nodes [].

Definition add_target (m : list (str * str)) (targets : list (str * list str)) (p : str * str) : list (str * list str) :=
  match owner_at m p.1, owner_at m p.2 with
  | Some so, Some to => if so === to then targets else map_set so (set_add to (nullish (assoc so targets) [])) targets
  | _, _ => targets
  end.

Definition team_targets (nodes : list GraphNode) : list (str * list str) :=
  fold_left (add_target (owner_map nodes)) (all_edges nodes)
    ((fun o => (o, [])) <$> keys (team_stats nodes)).

Definition aggregateGraphByOwner (nodes : list GraphNode) : list AggNode :=
  (fun p => {| an_id := p.1; an_status := worstStatus p.2;
               an_version := formatCount (Z.of_nat (length p.2)) ++ " service" ++ (if (length p.2 =? 1)%nat then [] else "s");
               an_targets := nullish (assoc p.1 (team_targets nodes)) [] |}) <$> team_stats nodes.
End Aggregate.

(** ** The part of a tree that is shown *)
Inductive TreeDirection := Down | Up.

Record VisibleOptions := {
  vo_rootId : str; vo_direction : TreeDirection; vo_depth : Z; vo_expanded : list str; vo_childCap : Z }.

(** One child in a direction, when the edge's target is a node of the graph. *)
Definition add_child (ids : list str) (dir : TreeDirection) (cs : list (str * list str)) (p : str * str) : list (str * list str) :=
  if negb (bool_decide (p.2 ∈ ids)) then cs
  else let '(k, c) := match dir with Down => (p.1, p.2) | Up => (p.2, p.1) end in
       map_set k (set_add c (nullish (assoc k cs) [])) cs.

Definition childrenOf (nodes : list GraphNode) (dir : TreeDirection) : list (str * list str) :=
  fold_left (add_child (gid <$> nodes) dir) (all_edges nodes)
    (fold_left (fun m n => map_set (gid n) [] m) nodes []).

(** The children of one node that become visible, within its cap ([None] is [Infinity]). *)
Fixpoint show_children (cap : option Z) (d : Z) (ks : list str) (shown : Z)
    (st : list str * list (str * Z) * list str) : list str * list (str * Z) * list str :=
  match ks with
  | [] => st
  | k :: ks =>
      let '(visible, depthOf, queue) := st in
      if bool_decide (k ∈ visible) then show_children cap d ks shown st
      else if match cap with Some c => c <=? shown | None => false end then st
      else show_children cap d ks (shown + 1) (visible ++ [k], map_set k (d + 1) depthOf, queue ++ [k])
  end.

Definition descend (o : VisibleOptions) (cs : list (str * list str)) (id : str)
    (st : list str * list (str * Z) * list str) : list str * list (str * Z) * list str :=
  let '(visible, depthOf, queue) := st in
  let d := nullish (assoc id depthOf) 0 in
  let open := bool_decide (id ∈ vo_expanded o) in
  if negb (open || (d <? vo_depth o)) then st
  else show_children (if open then None else Some (vo_childCap o)) d (nullish (assoc id cs) []) 0 st.

Fixpoint tree_walk (o : VisibleOptions) (cs : list (str * list str)) (fuel : nat)
    (st : list str * list (str * Z) * list str) : list str * list (str * Z) * list str :=
  match fuel, st with
  | S fuel, (visible, depthOf, id :: queue) => tree_walk o cs fuel (descend o cs id (visible, depthOf, queue))
  | _, _ => st
  end.

Record VisibleResult := { vr_nodes : list GraphNode; vr_hidden : list (str * Z) }.

Definition computeVisible (nodes : list GraphNode) (o : VisibleOptions) : VisibleResult :=
  match List.find (fun n => (gid n === vo_rootId o) || (serviceName n === vo_rootId o)) nodes with
  | None => {| vr_nodes := []; vr_hidden := [] |}
  | Some root =>
      let cs := childrenOf nodes (vo_direction o) in
      let '(visible, _, _) := tree_walk o cs (length nodes) ([gid root], [(gid root, 0)], [gid root]) in
      let miss id := Z.of_nat (length (List.filter (fun k => negb (bool_decide (k ∈ visible))) (nullish (assoc id cs) []))) in
      {| vr_nodes := List.filter (fun n => bool_decide (gid n ∈ visible)) nodes;
         vr_hidden := fold_left (fun h id => if 0 <? miss id then map_set id (miss id) h else h) visible [] |}
  end.

(** ** Lemmas *)
Lemma elem_of_set_add {A} `{EqDecision A} (x y : A) l : x ∈ set_add y l <-> x = y \/ x ∈ l.
Proof. unfold set_add. case_bool_decide; [naive_solver|]. rewrite elem_of_app, list_elem_of_singleton. tauto. Qed.

Lemma NoDup_set_add {A} `{EqDecision A} (y : A) l : NoDup l -> NoDup (set_add y l).
Proof.
  intros Hn. unfold set_add. case_bool_decide as Hy; [done|]. apply NoDup_app.
  split_and!; [done|by intros x Hx ->%list_elem_of_singleton|by apply NoDup_singleton].
Qed.

Lemma elem_of_fold_add {A B} `{EqDecision B} (p : A -> bool) (f : A -> B) (l : list A) (k : list B) x :
  x ∈ fold_left (fun k a => if p a then set_add (f a) k else k) l k <-> x ∈ k \/ exists a, a ∈ l /\ p a = true /\ f a = x.
Proof.
  revert k. induction l as [|a l IH]; intros k; cbn [fold_left]; [set_solver|]. rewrite IH.
  destruct (p a) eqn:E; [rewrite elem_of_set_add|]; setoid_rewrite elem_of_cons; naive_solver congruence.
Qed.

(** A team's view is the team and what it touches. A node is kept exactly when it is a
    core node, a direct dependency of one or, when dependents are asked for, points at one;
    nodes keep their order, and no core means nothing at all. *)
Theorem relatedSubgraph_spec (nodes : list GraphNode) (isCore : GraphNode -> bool) (dependents : bool) :
  let core id := exists c, c ∈ nodes /\ isCore c = true /\ gid c = id in
  let r := relatedSubgraph nodes isCore dependents in
  sublist r nodes /\
  forall n, n ∈ r <-> n ∈ nodes /\
    (core (gid n) \/ (exists c, core c /\ (c, gid n) ∈ all_edges nodes) \/
     (dependents = true /\ exists c, core c /\ (gid n, c) ∈ all_edges nodes)).
Proof.
  intros core r. unfold r, relatedSubgraph. set (cs := dedupe (gid <$> List.filter isCore nodes)).
  assert (forall id, id ∈ cs <-> core id) as Hcs.
  { intros id. unfold cs, core. rewrite elem_of_dedupe, list_elem_of_fmap. setoid_rewrite list_elem_of_In.
    setoid_rewrite filter_In. setoid_rewrite <- list_elem_of_In. naive_solver. }
  destruct cs as [|c0 cs'] eqn:Ec.
  { split; [apply sublist_nil_l|]. intros n. split; [by intros ?%not_elem_of_nil|].
    assert (forall id, ~ core id) as Hno by (intros id ?%Hcs; by eapply not_elem_of_nil). naive_solver. }
  rewrite <- Ec in *. clear Ec. set (step := fun keep n => _).
  assert (forall l keep id, (forall n, n ∈ l -> n ∈ nodes) -> id ∈ fold_left step l keep <-> id ∈ keep \/
    (exists n e, n ∈ l /\ e ∈ edges n /\ core (gid n) /\ targetId e = id) \/
    (dependents = true /\ exists n e, n ∈ l /\ e ∈ edges n /\ core (targetId e) /\ gid n = id)) as Hk.
  { induction l as [|n l IH]; intros keep id Hl; cbn [fold_left].
    { setoid_rewrite elem_of_nil. naive_solver. }
    rewrite IH by (intros; apply Hl; by right).
    assert (id ∈ step keep n <-> id ∈ keep \/ (core (gid n) /\ exists e, e ∈ edges n /\ targetId e = id) \/
      (dependents = true /\ gid n = id /\ exists e, e ∈ edges n /\ core (targetId e))) as ->.
    { unfold step. cbv zeta.
      assert (id ∈ (if bool_decide (gid n ∈ cs) then fold_left (fun k e => set_add (targetId e) k) (edges n) keep else keep) <->
        id ∈ keep \/ (core (gid n) /\ exists e, e ∈ edges n /\ targetId e = id)) as Hdep.
      { case_bool_decide as Hc; rewrite Hcs in Hc; [|naive_solver].
        rewrite (elem_of_fold_add (fun _ => true) targetId). naive_solver. }
      destruct dependents; [|rewrite Hdep; naive_solver].
      rewrite (elem_of_fold_add (fun e => bool_decide (targetId e ∈ cs)) (fun _ => gid n)), Hdep.
      setoid_rewrite bool_decide_eq_true. setoid_rewrite Hcs. naive_solver. }
    setoid_rewrite elem_of_cons. clear. naive_solver. }
  split; [apply filter_sublist|]. intros n. rewrite elem_of_lfilter, bool_decide_eq_true, Hk, Hcs by done.
  setoid_rewrite all_edges_elem. split.
  - intros (Hn & Hr). split; [done|]. destruct Hr as [Hc|[(m & e & Hm & He & Hc & Ht)|(Hd & m & e & Hm & He & Hc & Ht)]].
    + by left.
    + right. left. exists (gid m). split; [done|]. by exists m, e.
    + right. right. split; [done|]. exists (targetId e). split; [done|]. by exists m, e.
  - intros (Hn & Hr). split; [done|].
    destruct Hr as [Hc|[(c & Hc & m & e & Hm & He & <- & Ht)|(Hd & c & Hc & m & e & Hm & He & Hg & <-)]].
    + by left.
    + right. left. by exists m, e.
    + right. right. split; [done|]. by exists m, e.
Qed.

(** *** Teams *)
Section AggregateProofs.
Context (ownerLabelOf : GraphNode -> str) (nodes : list GraphNode).

Definition team_of (id : str) : option str := owner_at (owner_map ownerLabelOf nodes) id.

(** The services of one team. *)
Definition services_of (o : str) : list GraphNode := List.filter (fun n => team_of (gid n) === Some o) nodes.

Lemma team_stats_spec l stats :
  NoDup (keys stats) ->
  let r := fold_left (add_stat (owner_map ownerLabelOf nodes)) l stats in
  NoDup (keys r) /\
  forall o, (o ∈ keys r <-> o ∈ keys stats \/ exists n, n ∈ l /\ team_of (gid n) = Some o) /\
    nullish (assoc o r) [] = nullish (assoc o stats) [] ++ (status <$> List.filter (fun n => team_of (gid n) === Some o) l).
Proof.
  revert stats. induction l as [|n l IH]; intros stats Hs; cbn [fold_left List.filter].
  { split; [done|]. intros o. rewrite app_nil_r. split; [|done]. setoid_rewrite elem_of_nil. naive_solver. }
  unfold add_stat at 2 4 6. fold (team_of (gid n)). destruct (team_of (gid n)) as [x|] eqn:Ex.
  - destruct (IH (map_set x (nullish (assoc x stats) [] ++ [status n]) stats)) as [Hn Hr]; [by apply NoDup_map_set|].
    split; [done|]. intros o. destruct (Hr o) as [H1 H2]. split.
    + rewrite H1, elem_of_keys_map_set. setoid_rewrite elem_of_cons. clear -Ex. naive_solver.
    + rewrite H2, assoc_map_set. destruct (decide (o = x)) as [->|Hne].
      * rewrite !eqb_refl. cbn [nullish]. rewrite fmap_cons, <- app_assoc. done.
      * rewrite bool_decide_eq_false_2 by done. by rewrite bool_decide_eq_false_2 by congruence.
  - destruct (IH stats Hs) as [Hn Hr]. split; [done|]. intros o. destruct (Hr o) as [H1 H2]. split.
    + rewrite H1. setoid_rewrite elem_of_cons. clear -Ex. naive_solver.
    + by rewrite H2, bool_decide_eq_false_2.
Qed.

Lemma team_targets_spec l ts :
  NoDup (keys ts) -> (forall o x, assoc o ts = Some x -> NoDup x) ->
  (forall a b, (a, b) ∈ l -> forall o, team_of a = Some o -> o ∈ keys ts) ->
  let r := fold_left (add_target (owner_map ownerLabelOf nodes)) l ts in
  keys r = keys ts /\ forall o, NoDup (nullish (assoc o r) []) /\
    forall x, x ∈ nullish (assoc o r) [] <->
      x ∈ nullish (assoc o ts) [] \/ (x <> o /\ exists a b, (a, b) ∈ l /\ team_of a = Some o /\ team_of b = Some x).
Proof.
  revert ts. induction l as [|[a b] l IH]; intros ts Hk Hn Hin; cbn [fold_left].
  { split; [done|]. intros o. split; [destruct (assoc o ts) eqn:E; simpl; [by eapply Hn|constructor]|].
    setoid_rewrite elem_of_nil. naive_solver. }
  assert (forall a0 b0, (a0, b0) ∈ l -> forall o, team_of a0 = Some o -> o ∈ keys ts) as Hin' by (intros; eapply Hin; [by right|done]).
  assert (add_target (owner_map ownerLabelOf nodes) ts (a, b) = ts /\ (forall so to, team_of a = Some so -> team_of b = Some to -> so = to) \/
    exists so to, team_of a = Some so /\ team_of b = Some to /\ so <> to /\
      add_target (owner_map ownerLabelOf nodes) ts (a, b) = map_set so (set_add to (nullish (assoc so ts) [])) ts) as [[-> Hsame]|(so & to & Ha & Hb & Hne & ->)].
  { unfold add_target. cbn [fst snd]. fold (team_of a) (team_of b). destruct (team_of a) as [so|], (team_of b) as [to|];
      [|left; split; [done|congruence]..]. case_bool_decide; [left; split; [done|congruence]|right; by exists so, to]. }
  - destruct (IH ts Hk Hn Hin') as [H1 H2]. split; [done|]. intros o. destruct (H2 o) as [H3 H4]. split; [done|].
    intros x. rewrite H4. setoid_rewrite elem_of_cons. split.
    + intros [?|(Hx & a0 & b0 & Hl & Ha & Hb)]; [by left|]. right. split; [done|]. exists a0, b0. tauto.
    + intros [?|(Hx & a0 & b0 & [[= -> ->]|Hl] & Ha & Hb)]; [by left| |right; split; [done|by exists a0, b0]].
      destruct Hx. symmetry. by apply Hsame.
  - assert (so ∈ keys ts) as Hso by (eapply Hin; [by left|done]).
    assert (keys (map_set so (set_add to (nullish (assoc so ts) [])) ts) = keys ts) as Hkeys.
    { rewrite keys_map_set. by rewrite (proj2 (map_has_spec so ts)). }
    destruct (IH (map_set so (set_add to (nullish (assoc so ts) [])) ts)) as [H1 H2].
    + by rewrite Hkeys.
    + intros o x. rewrite assoc_map_set. case_bool_decide; [|apply Hn]. intros [= <-]. apply NoDup_set_add.
      destruct (assoc so ts) eqn:E; [by eapply Hn|constructor].
    + by rewrite Hkeys.
    + split; [by rewrite H1|]. intros o. destruct (H2 o) as [H3 H4]. split; [done|]. intros x. rewrite H4, assoc_map_set.
      setoid_rewrite elem_of_cons. destruct (decide (o = so)) as [->|Ho].
      * rewrite eqb_refl. cbn [nullish]. rewrite elem_of_set_add. clear -Ha Hb Hne. split.
        { intros [[->|?]|(Hx & a0 & b0 & Hl & ? & ?)]; [right; split; [done|exists a, b]; tauto|by left|].
          right. split; [done|]. exists a0, b0. tauto. }
        { intros [?|(Hx & a0 & b0 & [[= -> ->]|Hl] & ? & ?)]; [tauto|left; left; congruence|].
          right. split; [done|]. by exists a0, b0. }
      * rewrite bool_decide_eq_false_2 by done. clear -Ha Hb Hne Ho. split.
        { intros [?|(Hx & a0 & b0 & Hl & ? & ?)]; [by left|]. right. split; [done|]. exists a0, b0. tauto. }
        { intros [?|(Hx & a0 & b0 & [[= -> ->]|Hl] & ? & ?)]; [by left|congruence|].
          right. split; [done|]. by exists a0, b0. }
Qed.
End AggregateProofs.

(** The graph of teams says who depends on whom. There is one node per team that owns a
    service, carrying the worst status among exactly its services; and its edges are, each
    once, the other teams that own something one of its services points at. *)
Theorem aggregate_exact (ownerLabelOf : GraphNode -> str) (nodes : list GraphNode) :
  let team_of := team_of ownerLabelOf nodes in
  let r := aggregateGraphByOwner ownerLabelOf nodes in
  NoDup (an_id <$> r) /\
  (forall o, o ∈ an_id <$> r <-> exists n, n ∈ nodes /\ team_of (gid n) = Some o) /\
  (forall t, t ∈ r ->
     an_status t = worstStatus (status <$> services_of ownerLabelOf nodes (an_id t)) /\
     NoDup (an_targets t) /\
     forall x, x ∈ an_targets t <->
       x <> an_id t /\ exists a b, (a, b) ∈ all_edges nodes /\ team_of a = Some (an_id t) /\ team_of b = Some x).
Proof.
  intros Ow r. destruct (team_stats_spec ownerLabelOf nodes nodes [] ltac:(constructor)) as [Hn Hs].
  fold (team_stats ownerLabelOf nodes) in Hn, Hs. set (st := team_stats ownerLabelOf nodes) in *.
  assert (an_id <$> r = keys st) as Hid by (unfold r, aggregateGraphByOwner, keys; by rewrite <- list_fmap_compose).
  rewrite Hid. split_and!; [done| |].
  { intros o. destruct (Hs o) as [-> _]. split; [intros [?%not_elem_of_nil|?]; done|by right]. }
  intros t ([o l] & -> & Hin)%list_elem_of_fmap. cbn [an_id an_status an_targets fst snd].
  pose proof (assoc_unique _ _ _ Hn Hin) as Ho. split.
  { destruct (Hs o) as [_ Hst]. rewrite Ho in Hst. cbn [nullish assoc app] in Hst. by rewrite Hst. }
  assert (keys ((fun o : str => (o, @nil str)) <$> keys st) = keys st) as Hk.
  { unfold keys at 1. rewrite <- list_fmap_compose. apply list_fmap_id. }
  destruct (team_targets_spec ownerLabelOf nodes (all_edges nodes) ((fun o => (o, [])) <$> keys st)) as [_ Ht].
  - by rewrite Hk.
  - intros k x (k' & E & _)%assoc_elem%list_elem_of_fmap. simplify_eq. constructor.
  - rewrite Hk. intros a b (n & e & Hnd & _ & <- & _)%all_edges_elem x Hx. destruct (Hs x) as [-> _]. right. by exists n.
  - unfold team_targets. fold st. destruct (Ht o) as [H1 H2]. split; [done|]. intros x. rewrite H2.
    assert (nullish (assoc o ((fun o : str => (o, @nil str)) <$> keys st)) [] = []) as ->.
    { clear. induction (keys st) as [|k ks IH]; [done|]. rewrite fmap_cons. cbn [assoc]. by case_bool_decide. }
    split; [intros [?%not_elem_of_nil|?]; done|by right].
Qed.

(** *** The visible part of a tree *)
Section Visible.
Context (o : VisibleOptions) (ids : list str) (cs : list (str * list str)) (root : str).

Definition child (a b : str) : Prop := b ∈ nullish (assoc a cs) [].

Hypothesis children_known : forall a b, child a b -> b ∈ ids.
Hypothesis root_known : root ∈ ids.

Lemma show_children_spec cap d ks shown vis dep q :
  exists new, let st := show_children cap d ks shown (vis, dep, q) in
    st.1.1 = vis ++ new /\ st.2 = q ++ new /\ NoDup new /\ (forall k, k ∈ new -> k ∈ ks /\ k ∉ vis) /\
    (cap = None -> forall k, k ∈ ks -> k ∈ vis ++ new) /\
    (forall c, cap = Some c -> Z.of_nat (length new) <= Z.max 0 (c - shown)).
Proof.
  revert shown vis dep q. induction ks as [|k ks IH]; intros shown vis dep q; cbn [show_children].
  { exists []. cbn [fst snd]. rewrite !app_nil_r. split_and!; try done; [constructor|set_solver|set_solver|simpl; lia]. }
  case_bool_decide as Hk.
  { destruct (IH shown vis dep q) as (new & H1 & H2 & H3 & H4 & H5 & H6). exists new. split_and!; try done; [set_solver|].
    intros Hc x [->|Hx]%elem_of_cons; [set_solver|by apply H5]. }
  destruct cap as [c|].
  - destruct (Z.leb_spec c shown).
    { exists []. cbn [fst snd]. rewrite !app_nil_r. split_and!; try done; [constructor|set_solver|simpl; lia]. }
    destruct (IH (shown + 1) (vis ++ [k]) (map_set k (d + 1) dep) (q ++ [k])) as (new & H1 & H2 & H3 & H4 & _ & H6).
    exists (k :: new). rewrite H1, H2, <- !app_assoc. split_and!; try done.
    + apply NoDup_cons. split; [|done]. intros Hn. apply H4 in Hn as [_ Hn]. set_solver.
    + intros x [->|Hx]%elem_of_cons; [set_solver|]. apply H4 in Hx. set_solver.
    + intros c' [= <-]. specialize (H6 c eq_refl). cbn [length]. lia.
  - destruct (IH (shown + 1) (vis ++ [k]) (map_set k (d + 1) dep) (q ++ [k])) as (new & H1 & H2 & H3 & H4 & H5 & _).
    exists (k :: new). rewrite H1, H2, <- !app_assoc. split_and!; try done.
    + apply NoDup_cons. split; [|done]. intros Hn. apply H4 in Hn as [_ Hn]. set_solver.
    + intros x [->|Hx]%elem_of_cons; [set_solver|]. apply H4 in Hx. set_solver.
    + intros _ x [->|Hx]%elem_of_cons; [set_solver|]. specialize (H5 eq_refl x Hx). set_solver.
Qed.

Record tree_inv (vis q : list str) : Prop := {
  ti_once : NoDup vis;
  ti_known : forall k, k ∈ vis -> k ∈ ids;
  ti_queue : forall k, k ∈ q -> k ∈ vis;
  ti_root : root ∈ vis;
  ti_path : forall k, k ∈ vis -> rtc child root k;
  ti_open : forall k c, k ∈ vis -> k ∉ q -> k ∈ vo_expanded o -> child k c -> c ∈ vis }.

Lemma tree_step vis dep id q :
  tree_inv vis (id :: q) ->
  exists new, let st := descend o cs id (vis, dep, q) in
    st.1.1 = vis ++ new /\ st.2 = q ++ new /\ tree_inv (vis ++ new) (q ++ new).
Proof.
  intros [Hn Hk Hq Hr Hp Ho]. unfold descend.
  destruct (negb _) eqn:Ex.
  { exists []. cbn [fst snd]. rewrite !app_nil_r. split_and!; try done. constructor; try done; [set_solver|].
    intros k c Hkv Hkq He Hc. destruct (decide (k = id)) as [->|Hne]; [|apply (Ho k c); set_solver].
    apply negb_true_iff, orb_false_iff in Ex as [Ex _]. by apply bool_decide_eq_false in Ex. }
  destruct (show_children_spec (if bool_decide (id ∈ vo_expanded o) then None else Some (vo_childCap o))
    (nullish (assoc id dep) 0) (nullish (assoc id cs) []) 0 vis dep q) as (new & H1 & H2 & H3 & H4 & H5 & _).
  exists new. cbv zeta in *. split_and!; [done|done|]. constructor.
  - apply NoDup_app. split_and!; [done| |done]. intros x Hx Hnew. by apply H4 in Hnew as [_ ?].
  - intros k [?|Hnew]%elem_of_app; [by apply Hk|]. apply H4 in Hnew as [Hc _]. by apply (children_known id).
  - set_solver.
  - set_solver.
  - intros k [?|Hnew]%elem_of_app; [by apply Hp|]. apply H4 in Hnew as [Hc _]. eapply rtc_r; [|exact Hc].
    apply Hp, Hq. by left.
  - intros k c [Hkv|Hnew]%elem_of_app Hkq He Hc; [|set_solver]. destruct (decide (k = id)) as [->|Hne].
    + rewrite bool_decide_eq_true_2 in H5 by done. by apply H5.
    + apply elem_of_app. left. apply (Ho k c); set_solver.
Qed.

Lemma tree_drains fuel vis dep q :
  tree_inv vis q -> (length q + length ids <= fuel + length vis)%nat ->
  let st := tree_walk o cs fuel (vis, dep, q) in st.2 = [] /\ tree_inv st.1.1 [].
Proof.
  revert vis dep q. induction fuel as [|fuel IH]; intros vis dep q Hi Hf; cbn [tree_walk].
  { assert (length vis <= length ids)%nat by (apply submseteq_length, NoDup_submseteq; apply Hi).
    destruct q; [done|simpl in *; lia]. }
  destruct q as [|id q]; [done|]. destruct (tree_step vis dep id q Hi) as (new & H1 & H2 & Hi').
  destruct (descend o cs id (vis, dep, q)) as [[vis' dep'] q']. cbn [fst snd] in *. subst vis' q'. apply IH; [done|].
  rewrite !length_app in *. simpl in *. lia.
Qed.
End Visible.

(** One node is the child of another in a direction. *)
Definition kid (nodes : list GraphNode) (dir : TreeDirection) (a b : str) : Prop :=
  match dir with Down => (a, b) ∈ all_edges nodes | Up => (b, a) ∈ all_edges nodes end /\
  a ∈ gid <$> nodes /\ b ∈ gid <$> nodes.

Lemma childrenOf_spec nodes dir a :
  NoDup (nullish (assoc a (childrenOf nodes dir)) []) /\
  forall b, child (childrenOf nodes dir) a b <-> kid nodes dir a b.
Proof.
  unfold childrenOf. set (cs0 := fold_left _ nodes []).
  assert (nullish (assoc a cs0) [] = []) as H0.
  { unfold cs0. assert (forall l (m : list (str * list str)), nullish (assoc a m) [] = [] ->
      nullish (assoc a (fold_left (fun m n => map_set (gid n) [] m) l m)) [] = []) as Hl; [|by apply Hl].
    induction l as [|n l IH]; intros m Hm; [done|]. apply IH. rewrite assoc_map_set. by case_bool_decide. }
  assert (forall x y, (x, y) ∈ all_edges nodes -> x ∈ gid <$> nodes) as Hsrc.
  { intros x y (n & e & Hn & _ & <- & _)%all_edges_elem. by apply list_elem_of_fmap_2. }
  assert (forall l cs, (forall p, p ∈ l -> p ∈ all_edges nodes) -> NoDup (nullish (assoc a cs) []) ->
    NoDup (nullish (assoc a (fold_left (add_child (gid <$> nodes) dir) l cs)) []) /\
    forall b, b ∈ nullish (assoc a (fold_left (add_child (gid <$> nodes) dir) l cs)) [] <->
      b ∈ nullish (assoc a cs) [] \/
      (match dir with Down => (a, b) ∈ l | Up => (b, a) ∈ l end /\ a ∈ gid <$> nodes /\ b ∈ gid <$> nodes)) as Hl.
  { induction l as [|[x y] l IH]; intros cs Hin Hn; cbn [fold_left].
    { split; [done|]. intros b. destruct dir; rewrite elem_of_nil; tauto. }
    assert (x ∈ gid <$> nodes) as Hx by (apply (Hsrc x y), Hin; by left).
    assert (NoDup (nullish (assoc a (add_child (gid <$> nodes) dir cs (x, y))) []) /\ forall b,
      b ∈ nullish (assoc a (add_child (gid <$> nodes) dir cs (x, y))) [] <-> b ∈ nullish (assoc a cs) [] \/
      (match dir with Down => (a, b) = (x, y) | Up => (b, a) = (x, y) end /\ a ∈ gid <$> nodes /\ b ∈ gid <$> nodes)) as [Hn' Hb].
    { unfold add_child. cbn [snd fst]. case_bool_decide as Hy; cbn [negb].
      - destruct dir; rewrite assoc_map_set; case_bool_decide as E; cbn [nullish]; subst;
          (split; [try apply NoDup_set_add; done|intros b; rewrite ?elem_of_set_add; naive_solver]).
      - split; [done|]. intros b. destruct dir; naive_solver. }
    destruct (IH (add_child (gid <$> nodes) dir cs (x, y)) ltac:(set_solver) Hn') as [H1 H2]. split; [done|].
    intros b. rewrite H2, Hb. destruct dir; rewrite elem_of_cons; tauto. }
  destruct (Hl (all_edges nodes) cs0 ltac:(done)) as [H1 H2]; [rewrite H0; constructor|].
  split; [done|]. intros b. unfold child. rewrite H2, H0. unfold kid. rewrite elem_of_nil. tauto.
Qed.

Lemma hidden_spec (miss : str -> Z) vis id k :
  assoc id (fold_left (fun h id => if 0 <? miss id then map_set id (miss id) h else h) vis []) = Some k <->
  id ∈ vis /\ k = miss id /\ 0 < k.
Proof.
  assert (forall h, assoc id (fold_left (fun h id => if 0 <? miss id then map_set id (miss id) h else h) vis h) = Some k <->
    (id ∈ vis /\ 0 < miss id /\ k = miss id) \/ (~ (id ∈ vis /\ 0 < miss id) /\ assoc id h = Some k)) as Hh.
  { induction vis as [|x vis IH]; intros h; cbn [fold_left]; [set_solver|]. rewrite IH.
    destruct (Z.ltb_spec 0 (miss x)) as [Hm|Hm].
    - rewrite assoc_map_set. destruct (decide (id = x)) as [->|Hne].
      + rewrite eqb_refl. destruct (decide (x ∈ vis)); set_solver.
      + rewrite bool_decide_eq_false_2 by done. set_solver.
    - destruct (decide (id = x)) as [->|Hne]; [|set_solver].
      split; [|set_solver by lia]. intros [?|[? ?]]; [set_solver|]. right. split; [intros [_ ?]; lia|done]. }
  rewrite Hh. simpl. naive_solver lia.
Qed.

(** The tree shows a connected part and counts what it leaves out. When the root is
    found it is shown, every node shown is reached from it through nodes of the graph in
    the chosen direction, an expanded node shows every child, and each node shown carries
    the exact number of its distinct children that are not shown, when there are any. *)
Theorem computeVisible_spec (nodes : list GraphNode) (o : VisibleOptions) (root : GraphNode) :
  List.find (fun n => (gid n === vo_rootId o) || (serviceName n === vo_rootId o)) nodes = Some root ->
  let r := computeVisible nodes o in
  let shown := gid <$> vr_nodes r in
  let K := kid nodes (vo_direction o) in
  sublist (vr_nodes r) nodes /\ gid root ∈ shown /\ (forall id, id ∈ shown -> rtc K (gid root) id) /\
  (forall id c, id ∈ shown -> id ∈ vo_expanded o -> K id c -> c ∈ shown) /\
  (forall id k, assoc id (vr_hidden r) = Some k <-> id ∈ shown /\ 0 < k /\
     exists out, NoDup out /\ (forall c, c ∈ out <-> K id c /\ c ∉ shown) /\ k = Z.of_nat (length out)).
Proof.
  intros Hroot. cbv zeta. unfold computeVisible. rewrite Hroot. set (cs := childrenOf nodes (vo_direction o)).
  assert (forall a b, child cs a b <-> kid nodes (vo_direction o) a b) as Hcs by (intros a; apply childrenOf_spec).
  assert (gid root ∈ gid <$> nodes) as Hin.
  { apply list_elem_of_fmap_2. apply find_some in Hroot as [H _]. by apply list_elem_of_In. }
  destruct (tree_drains o (gid <$> nodes) cs (gid root) ltac:(intros a b Hab%Hcs; apply Hab) Hin (length nodes)
    [gid root] [(gid root, 0)] [gid root]) as [_ Hi].
  { constructor; [apply NoDup_singleton|by intros k ->%list_elem_of_singleton|done|by left|
      by intros k ->%list_elem_of_singleton|done]. }
  { rewrite length_fmap. simpl. lia. }
  destruct (tree_walk o cs (length nodes) _) as [[vis dep] q]. cbn [fst snd] in Hi. cbn [vr_nodes vr_hidden].
  set (r := List.filter (fun n => bool_decide (gid n ∈ vis)) nodes).
  assert (forall id, id ∈ gid <$> r <-> id ∈ vis) as Hv.
  { intros id. unfold r. rewrite list_elem_of_fmap. setoid_rewrite elem_of_lfilter. setoid_rewrite bool_decide_eq_true. split.
    - by intros (n & -> & _ & ?).
    - intros Hid. destruct (proj1 (list_elem_of_fmap _ _ _) (ti_known _ _ _ _ _ _ Hi id Hid)) as (n & -> & Hn). by exists n. }
  split_and!.
  - apply filter_sublist.
  - apply Hv, (ti_root _ _ _ _ _ _ Hi).
  - intros id Hid%Hv. apply (ti_path _ _ _ _ _ _ Hi) in Hid. eapply rtc_subrel; [|exact Hid]. intros a b. apply Hcs.
  - intros id c Hid%Hv He Hk. apply Hv. eapply (ti_open _ _ _ _ _ _ Hi id c); [done|apply not_elem_of_nil|done|by apply Hcs].
  - intros id k. rewrite hidden_spec, Hv. set (out := List.filter _ (nullish (assoc id cs) [])).
    assert (NoDup out) as Hn by (eapply sublist_NoDup; [apply (childrenOf_spec nodes (vo_direction o) id)|apply filter_sublist]).
    assert (forall c, c ∈ out <-> kid nodes (vo_direction o) id c /\ c ∉ gid <$> r) as Hout.
    { intros c. unfold out. rewrite elem_of_lfilter, negb_true_iff, bool_decide_eq_false, Hv. fold (child cs id c). by rewrite Hcs. }
    split.
    + intros (Hid & -> & Hk). split_and!; [done|done|]. by exists out.
    + intros (Hid & Hk & out' & Hn' & Hout' & ->). split_and!; [done| |done]. f_equal.
      apply Permutation_length, NoDup_Permutation; [done|done|]. intros c. by rewrite Hout, Hout'.
Qed.

Definition tree_node (id : str) (ts : list str) : GraphNode :=
  set_edges ((fun t => {| targetId := t; e_type := None; e_state := None; driftStatus := None; refused := false;
                          e_label := None |}) <$> ts)
    {| gid := id; serviceName := id; status := "Compliant"; version := None; kind := KService; edges := [];
       depth := None; owner := None; group := None; side := None; lane := false; parent := None |}.
Definition demo_tree : list GraphNode :=
  [tree_node "a" ["b"; "c"; "b"; "gone"]; tree_node "b" ["d"]; tree_node "c" []; tree_node "d" ["a"]].
Definition demo_options : VisibleOptions :=
  {| vo_rootId := "a"; vo_direction := Down; vo_depth := 1; vo_expanded := []; vo_childCap := 1 |}.

Example demo_tree_shown :
  gid <$> vr_nodes (computeVisible demo_tree demo_options) = ["a"; "b"] /\
  vr_hidden (computeVisible demo_tree demo_options) = [("a", 1); ("b", 1)].
Proof. vm_compute. done. Qed.

Lemma computeVisible_spec_witness :
  let r := computeVisible demo_tree demo_options in
  let shown := gid <$> vr_nodes r in
  let K := kid demo_tree Down in
  sublist (vr_nodes r) demo_tree /\ ("a" : str) ∈ shown /\ (forall id, id ∈ shown -> rtc K "a" id) /\
  (forall id c, id ∈ shown -> id ∈ vo_expanded demo_options -> K id c -> c ∈ shown) /\
  (forall id k, assoc id (vr_hidden r) = Some k <-> id ∈ shown /\ 0 < k /\
     exists out, NoDup out /\ (forall c, c ∈ out <-> K id c /\ c ∉ shown) /\ k = Z.of_nat (length out)).
Proof. apply (computeVisible_spec demo_tree demo_options (tree_node "a" ["b"; "c"; "b"; "gone"])). reflexivity. Defined.
