(* ===== verification/ScrollRestore.v ===== *)
(** * Scroll positions: [src/pkg/dashboard/frontend/src/lib/scrollRestore.ts]

    The browser's session history is a list of entries with a cursor; each entry carries its
    hash, the index stamped on its [history.state], and, for the specification only, the
    offset the last scroll event at it reported. The restorer is a record and each of its
    listeners a function on it. A navigation and the [hashchange] it fires are one step; one
    between entries that show the same hash fires none. The map of positions is keyed by the
    pair that [posKey] writes as text. *)

From stdpp Require Import base list gmap.
From Stdlib Require Import Init.Byte ZArith NArith Lia.
From Stdlib Require Import Relations.Relation_Operators.
From S2P Require Import Prelude.
Local Open Scope Z_scope.

Definition MAX_ENTRIES : nat := 30.
Definition SETTLE_MS : Z := 3000.
Definition HOLD_MS : Z := 400.
Definition TOLERANCE : Z := 2.

(** ** The restorer *)
Abbreviation Key := (Z * str)%type.

Record Restorer := {
  positions : list (Key * Z); currentHash : str; currentIdx : Z; highWater : Z }.

Definition posKey (k : Key) : str := show_Z k.1 ++ "|" ++ k.2.

Definition currentKey (r : Restorer) : Key := (currentIdx r, currentHash r).

(** The positions after the oldest ones past the bound are dropped. *)
Definition trim_oldest (ps : list (Key * Z)) : list (Key * Z) := drop (length ps - MAX_ENTRIES) ps.

Definition remember (r : Restorer) (scrollY : Z) : Restorer :=
  {| positions := trim_oldest (map_set (currentKey r) scrollY (map_delete (currentKey r) (positions r)));
     currentHash := currentHash r; currentIdx := currentIdx r; highWater := highWater r |}.

Definition dropForwardOf (idx : Z) (ps : list (Key * Z)) : list (Key * Z) :=
  List.filter (fun p => negb (idx <=? p.1.1)) ps.

(** A [hashchange] without [oldURL]: the URL of this entry was rewritten in place. *)
Definition on_replace (r : Restorer) (next : str) : Restorer :=
  let prevKey := currentKey r in
  let r' := {| positions := positions r; currentHash := next; currentIdx := currentIdx r; highWater := highWater r |} in
  match assoc prevKey (positions r) with
  | Some held =>
      if next === currentHash r then r'
      else {| positions := map_set (currentKey r') held (map_delete prevKey (positions r));
              currentHash := next; currentIdx := currentIdx r; highWater := highWater r |}
  | None => r'
  end.

(** A [hashchange] with [oldURL], to an entry with the given stamp: the new state and the
    offset that is restored. *)
Definition on_navigate (r : Restorer) (next : str) (stamp : option Z) : Restorer * option Z :=
  if next === currentHash r then (r, None)
  else
    let idx := nullish stamp (-1) in
    if idx <? 0 then
      let idx := highWater r + 1 in
      ({| positions := dropForwardOf idx (positions r); currentHash := next; currentIdx := idx; highWater := idx |}, Some 0)
    else
      let r' := {| positions := positions r; currentHash := next; currentIdx := idx; highWater := Z.max (highWater r) idx |} in
      (r', Some (nullish (assoc (currentKey r') (positions r)) 0)).

(** Starting on a page whose entry has the given stamp, with what the store held. *)
Definition initScrollRestore (stored : list (Key * Z)) (hash : str) (stamp : option Z) : Restorer * option Z :=
  let idx := Z.max (nullish stamp (-1)) 0 in
  ({| positions := stored; currentHash := hash; currentIdx := idx; highWater := idx |},
   Some (nullish (assoc (idx, hash) stored) 0)).

(** *** Applying an offset until it holds *)

(** One poll at a time [now] that finds the page at [y']: the time since which the offset
    has held (0 for none), and whether the polling stops. *)
Definition attempt (y deadline heldSince now y' : Z) : Z * bool :=
  let held := if TOLERANCE <? Z.abs (y' - y) then 0 else if heldSince =? 0 then now else heldSince in
  (held, (negb (held =? 0) && (HOLD_MS <=? now - held)) || (deadline <? now)).

(** ** The browser and the restorer *)
Record Entry := { e_hash : str; e_stamp : option Z; e_seen : option Z }.

Definition seen_at (e : Entry) (y : Z) : Entry := {| e_hash := e_hash e; e_stamp := e_stamp e; e_seen := Some y |}.

(** [target] is where the last step sent the page, if it did, and [pending] the offset that is
    being applied until it holds. For the specification only, [forgot] records that a position
    was dropped for want of room, and [confused] that the reader went from one entry to another
    that shows the same hash. *)
Record Sys := {
  hist : list Entry; at_ : nat; rs : Restorer; target : option Z; pending : option Z; forgot : bool; confused : bool }.

(** [restoreTo]: a pending offset is given up, and one below the top is applied until it holds. *)
Definition restoreTo (t pending : option Z) : option Z :=
  match t with None => pending | Some y => if y <=? 0 then None else Some y end.

Definition evicts (r : Restorer) : bool :=
  (MAX_ENTRIES <? length (map_set (currentKey r) 0%Z (map_delete (currentKey r) (positions r))))%nat.

Definition do_scroll (s : Sys) (y : Z) : Sys :=
  {| hist := alter (fun e => seen_at e y) (at_ s) (hist s); at_ := at_ s; rs := remember (rs s) y; target := None;
     pending := pending s; forgot := forgot s || evicts (rs s); confused := confused s |}.

(** A deliberate navigation: the forward entries go, a fresh entry comes. *)
Definition do_push (s : Sys) (h : str) : Sys :=
  let '(r, t) := on_navigate (rs s) h None in
  {| hist := take (S (at_ s)) (hist s) ++ [{| e_hash := h; e_stamp := Some (currentIdx r); e_seen := None |}];
     at_ := S (at_ s); rs := r; target := t; pending := restoreTo t (pending s); forgot := forgot s; confused := confused s |}.

(** Back or forward to the entry [j]. *)
Definition do_traverse (s : Sys) (j : nat) (e : Entry) : Sys :=
  let '(r, t) := on_navigate (rs s) (e_hash e) (e_stamp e) in
  {| hist := hist s; at_ := j; rs := r; target := t; pending := restoreTo t (pending s); forgot := forgot s;
     confused := confused s || (negb (j =? at_ s)%nat && (e_hash e === currentHash (rs s))) |}.

Definition do_replace (s : Sys) (h : str) : Sys :=
  let r := on_replace (rs s) h in
  {| hist := alter (fun e => {| e_hash := h; e_stamp := Some (currentIdx r); e_seen := e_seen e |}) (at_ s) (hist s);
     at_ := at_ s; rs := r; target := None; pending := pending s; forgot := forgot s; confused := confused s |}.

(** The offset held, the deadline passed, or the reader took over. *)
Definition do_stop (s : Sys) : Sys :=
  {| hist := hist s; at_ := at_ s; rs := rs s; target := None; pending := None; forgot := forgot s; confused := confused s |}.

(** A reload: the page remembers and stores its positions, and a new one starts on the same
    entry; [kept] tells whether the store took them. *)
Definition do_reload (s : Sys) (y : Z) (kept : bool) (e : Entry) : Sys :=
  let s1 := do_scroll s y in
  let '(r, t) := initScrollRestore (if kept then positions (rs s1) else []) (e_hash e) (e_stamp e) in
  {| hist := hist s1; at_ := at_ s1; rs := r; target := t; pending := restoreTo t None; forgot := forgot s1 || negb kept;
     confused := confused s1 |}.

Definition start (h : str) : Sys :=
  let '(r, t) := initScrollRestore [] h None in
  {| hist := [{| e_hash := h; e_stamp := Some 0; e_seen := None |}]; at_ := 0; rs := r; target := t; pending := restoreTo t None;
     forgot := false; confused := false |}.

Inductive step : Sys -> Sys -> Prop :=
  | StepScroll s y : step s (do_scroll s y)
  | StepPush s h : h <> currentHash (rs s) -> step s (do_push s h)
  | StepTraverse s j e : hist s !! j = Some e -> step s (do_traverse s j e)
  | StepStop s : step s (do_stop s)
  | StepReplace s h : step s (do_replace s h)
  | StepReload s y kept e : hist s !! at_ s = Some e -> step s (do_reload s y kept e).

Definition steps : Sys -> Sys -> Prop := clos_refl_trans_1n Sys step.
Definition reachable (s : Sys) : Prop := exists h, steps (start h) s.

(** ** The invariant *)
Record inv (s : Sys) : Prop := {
  i_at : exists e, hist s !! at_ s = Some e /\ e_hash e = currentHash (rs s) /\ e_stamp e = Some (currentIdx (rs s));
  i_stamped : forall i e, hist s !! i = Some e -> exists a, e_stamp e = Some a /\ 0 <= a;
  i_order : forall i j e f a b, (i < j)%nat -> hist s !! i = Some e -> hist s !! j = Some f ->
    e_stamp e = Some a -> e_stamp f = Some b -> a < b;
  i_high : currentIdx (rs s) <= highWater (rs s);
  i_keys : NoDup (keys (positions (rs s)));
  i_own : forall i e a h y, hist s !! i = Some e -> e_stamp e = Some a ->
    assoc (a, h) (positions (rs s)) = Some y -> h = e_hash e /\ e_seen e = Some y;
  i_all : forgot s = false -> forall i e a y, hist s !! i = Some e -> e_stamp e = Some a -> e_seen e = Some y ->
    assoc (a, e_hash e) (positions (rs s)) = Some y }.

(** The stamp of an entry is its own. *)
Lemma stamp_unique s i j e f a :
  inv s -> hist s !! i = Some e -> hist s !! j = Some f -> e_stamp e = Some a -> e_stamp f = Some a -> i = j.
Proof.
  intros Hi He Hf Ha Hb. destruct (lt_eq_lt_dec i j) as [[Hlt|?]|Hlt]; [|done|].
  - pose proof (i_order _ Hi i j e f a a Hlt He Hf Ha Hb). lia.
  - pose proof (i_order _ Hi j i f e a a Hlt Hf He Hb Ha). lia.
Qed.

Lemma assoc_remember r y k :
  NoDup (keys (positions r)) ->
  NoDup (keys (positions (remember r y))) /\
  (forall z, assoc k (positions (remember r y)) = Some z -> (if k === currentKey r then Some y else assoc k (positions r)) = Some z) /\
  (evicts r = false -> assoc k (positions (remember r y)) = if k === currentKey r then Some y else assoc k (positions r)).
Proof.
  intros Hn. unfold remember. cbn [positions]. set (ps := map_set (currentKey r) y (map_delete (currentKey r) (positions r))).
  assert (NoDup (keys ps)) as Hps by (apply NoDup_map_set, NoDup_keys_filter, Hn).
  assert (assoc k ps = if k === currentKey r then Some y else assoc k (positions r)) as Hk.
  { unfold ps. rewrite assoc_map_set, assoc_delete. by case_bool_decide. }
  assert (sublist (trim_oldest ps) ps) as Hsub by apply sublist_drop.
  split_and!.
  - eapply sublist_NoDup; [exact Hps|by apply fmap_sublist].
  - intros z Hz. rewrite <- Hk. by eapply assoc_sublist.
  - intros He. unfold evicts in He. apply Nat.ltb_ge in He. unfold trim_oldest.
    rewrite (length_map_set _ 0 y) in He. fold ps in He. replace (length ps - MAX_ENTRIES)%nat with 0%nat by lia. done.
Qed.

Lemma inv_scroll s y : inv s -> inv (do_scroll s y).
Proof.
  intros Hi. pose proof Hi as [(e0 & He0 & Hh & Hs0) Hst Hord Hhi Hk Hown Hall].
  assert (forall i e, alter (fun e => seen_at e y) (at_ s) (hist s) !! i = Some e ->
    exists e1, hist s !! i = Some e1 /\ e_hash e = e_hash e1 /\ e_stamp e = e_stamp e1 /\
      e_seen e = if (i =? at_ s)%nat then Some y else e_seen e1) as Hl.
  { intros i e. destruct (Nat.eqb_spec i (at_ s)) as [->|Hne].
    - rewrite list_lookup_alter_eq. intros (e1 & -> & ->)%fmap_Some. by exists e1.
    - rewrite list_lookup_alter_ne by done. intros ->. by exists e. }
  assert (forall i e a h, hist s !! i = Some e -> e_stamp e = Some a ->
    ((a, h) === currentKey (rs s)) = (i =? at_ s)%nat && (h === e_hash e)) as Hcur.
  { intros i e a h He Ha. unfold currentKey. destruct (Nat.eqb_spec i (at_ s)) as [->|Hne].
    - simplify_eq. cbn [andb]. apply bool_decide_ext. rewrite <- Hh. split; congruence.
    - apply bool_decide_eq_false. intros [= -> _]. by apply Hne, (stamp_unique s i (at_ s) e e0 (currentIdx (rs s))). }
  constructor; cbn [do_scroll hist at_ rs remember currentHash currentIdx highWater].
  - exists (seen_at e0 y). by rewrite list_lookup_alter_eq, He0.
  - intros i e (e1 & He1 & _ & -> & _)%Hl. by eapply Hst.
  - intros i j e f a b Hij (e1 & He1 & _ & -> & _)%Hl (f1 & Hf1 & _ & -> & _)%Hl. by eapply Hord.
  - done.
  - by apply (assoc_remember (rs s) y (currentKey (rs s))).
  - intros i e a h z (e1 & He1 & -> & -> & ->)%Hl Ha Hz.
    destruct (assoc_remember (rs s) y (a, h) Hk) as (_ & Hr & _). apply Hr in Hz.
    rewrite (Hcur i e1 a h He1 Ha) in Hz. destruct (i =? at_ s)%nat eqn:Ei; cbn [andb] in Hz; [|by eapply Hown].
    destruct (decide (h = e_hash e1)) as [Eh|Eh].
    + rewrite bool_decide_eq_true_2 in Hz by done. by split.
    + rewrite bool_decide_eq_false_2 in Hz by done. by destruct (Hown i e1 a h z He1 Ha Hz).
  - intros [Hf He]%orb_false_iff i e a z (e1 & He1 & -> & -> & ->)%Hl Ha Hz.
    destruct (assoc_remember (rs s) y (a, e_hash e1) Hk) as (_ & _ & Hr). rewrite (Hr He), (Hcur i e1 a _ He1 Ha), eqb_refl, andb_true_r.
    destruct (i =? at_ s)%nat; [done|]. by eapply Hall.
Qed.

Lemma assoc_forward idx ps k :
  assoc k (dropForwardOf idx ps) = if idx <=? k.1 then None else assoc k ps.
Proof.
  unfold dropForwardOf. induction ps as [|[k1 y] ps IH]; [by destruct (_ <=? _)|]. cbn [List.filter fst assoc].
  destruct (decide (k = k1)) as [->|Hne].
  - rewrite eqb_refl. destruct (idx <=? k1.1); cbn [negb assoc]; [done|]. by rewrite eqb_refl.
  - rewrite (bool_decide_eq_false_2 (k = k1)) by done. rewrite <- IH.
    destruct (idx <=? k1.1); cbn [negb assoc]; [done|]. by rewrite bool_decide_eq_false_2.
Qed.

Lemma stamp_le_current s i e a :
  inv s -> (i <= at_ s)%nat -> hist s !! i = Some e -> e_stamp e = Some a -> a <= currentIdx (rs s).
Proof.
  intros Hi Hle He Ha. destruct (i_at _ Hi) as (e0 & He0 & _ & Hs0).
  destruct (decide (i = at_ s)) as [->|Hne]; [assert (e = e0) as -> by congruence; rewrite Hs0 in Ha; injection Ha as <-; lia|].
  assert (i < at_ s)%nat as Hlt by lia. pose proof (i_order _ Hi i (at_ s) e e0 a _ Hlt He He0 Ha Hs0). lia.
Qed.

Lemma inv_push s h : inv s -> h <> currentHash (rs s) -> inv (do_push s h).
Proof.
  intros Hi Hh. pose proof Hi as [(e0 & He0 & _ & _) Hst Hord Hhi Hk Hown Hall].
  unfold do_push, on_navigate. rewrite bool_decide_eq_false_2 by done. cbn [currentIdx nullish Z.ltb Z.compare].
  set (idx := highWater (rs s) + 1). set (new := {| e_hash := h; e_stamp := Some idx; e_seen := None |}).
  assert (length (take (S (at_ s)) (hist s)) = S (at_ s)) as Hlen.
  { rewrite length_take. apply lookup_lt_Some in He0. lia. }
  assert (forall i e, (take (S (at_ s)) (hist s) ++ [new]) !! i = Some e ->
    ((i <= at_ s)%nat /\ hist s !! i = Some e) \/ (i = S (at_ s) /\ e = new)) as Hl.
  { intros i e [He|[Hge He]]%lookup_app_Some.
    - left. apply lookup_take_Some in He as [? ?]. split; [lia|done].
    - right. rewrite Hlen in *. apply list_lookup_singleton_Some in He as [? <-]. split; [lia|done]. }
  constructor; cbn [hist at_ rs positions currentHash currentIdx highWater forgot].
  - exists new. rewrite lookup_app_r by lia. by rewrite Hlen, Nat.sub_diag.
  - intros i e [[_ He]|[_ ->]]%Hl; [by eapply Hst|]. exists idx. split; [done|].
    destruct (i_at _ Hi) as (e1 & He1 & _ & Hs1). destruct (Hst _ _ He1) as (a & Ha & ?). rewrite Hs1 in Ha. simplify_eq. lia.
  - intros i j e f a b Hij Hei Hfj Ha Hb. destruct (Hl _ _ Hfj) as [[Hj Hf]|[-> ->]].
    + destruct (Hl _ _ Hei) as [[_ He]|[-> _]]; [|lia]. by eapply (Hord i j).
    + destruct (Hl _ _ Hei) as [[Hile He]|[-> _]]; [|lia]. simpl in Hb. simplify_eq.
      pose proof (stamp_le_current s i e a Hi Hile He Ha). lia.
  - lia.
  - by apply NoDup_keys_filter.
  - intros i e a h' y [[Hile He]|[_ ->]]%Hl Ha; rewrite assoc_forward; cbn [fst].
    + destruct (idx <=? a); [done|]. by apply (Hown i).
    + simpl in Ha. simplify_eq. by rewrite Z.leb_refl.
  - intros Hf i e a y [[Hile He]|[_ ->]]%Hl Ha Hy; [|done]. rewrite assoc_forward. cbn [fst].
    pose proof (stamp_le_current s i e a Hi Hile He Ha). rewrite (proj2 (Z.leb_gt _ _)) by lia. by apply (Hall Hf i).
Qed.

Lemma inv_traverse s j e :
  inv s -> hist s !! j = Some e -> confused (do_traverse s j e) = false -> inv (do_traverse s j e).
Proof.
  intros Hi He Hc. pose proof Hi as [Hat Hst Hord Hhi Hk Hown Hall].
  assert (j = at_ s \/ e_hash e <> currentHash (rs s)) as Hj.
  { unfold do_traverse in Hc. destruct (on_navigate _ _ _). cbn [confused] in Hc. apply orb_false_iff in Hc as [_ Hc].
    destruct (Nat.eqb_spec j (at_ s)) as [|_]; [by left|right]. cbn [negb andb] in Hc. by apply bool_decide_eq_false in Hc. }
  unfold do_traverse, on_navigate. destruct (decide (e_hash e = currentHash (rs s))) as [Eh|Hh].
  { rewrite bool_decide_eq_true_2 by done. destruct Hj as [->|]; [|done]. by constructor. }
  rewrite bool_decide_eq_false_2 by done.
  destruct (Hst _ _ He) as (a & Ha & Hpos). rewrite Ha. cbn [nullish]. rewrite (proj2 (Z.ltb_ge _ _) Hpos).
  constructor; try done. cbn [hist at_ rs currentHash currentIdx].
  - by exists e.
  - simpl. lia.
Qed.

(** Renaming an entry in place moves its position along, and touches no other. *)
Lemma on_replace_spec r h :
  NoDup (keys (positions r)) ->
  (forall h', h' <> currentHash r -> assoc (currentIdx r, h') (positions r) = None) ->
  currentIdx (on_replace r h) = currentIdx r /\ currentHash (on_replace r h) = h /\
  highWater (on_replace r h) = highWater r /\ NoDup (keys (positions (on_replace r h))) /\
  forall a h', assoc (a, h') (positions (on_replace r h)) =
    if decide (a = currentIdx r) then (if h' === h then assoc (currentKey r) (positions r) else None)
    else assoc (a, h') (positions r).
Proof.
  intros Hk Hc'.
  assert (forall h', assoc (currentIdx r, h') (positions r) =
    if h' === currentHash r then assoc (currentKey r) (positions r) else None) as Hc.
  { intros h'. case_bool_decide as E; [by subst|by apply Hc']. }
  unfold on_replace. destruct (assoc (currentKey r) (positions r)) as [held|] eqn:Eh.
  - destruct (decide (h = currentHash r)) as [->|Hne].
    + rewrite eqb_refl. cbn [currentIdx currentHash highWater positions]. split_and!; try done. intros a h'.
      case_decide as Ea; [subst a; by rewrite Hc|done].
    + rewrite (bool_decide_eq_false_2 (h = _)) by done. cbn [currentIdx currentHash highWater positions].
      split_and!; try done; [by apply NoDup_map_set, NoDup_keys_filter|]. intros a h'.
      unfold currentKey. cbn [currentIdx currentHash]. rewrite assoc_map_set, assoc_delete. case_decide as Ea.
      * subst a. destruct (decide (h' = h)) as [->|Hh']; [by rewrite !eqb_refl|].
        rewrite !(bool_decide_eq_false_2 (h' = h)) by done.
        rewrite (bool_decide_eq_false_2 (_ = (currentIdx r, h))) by congruence.
        rewrite Hc. destruct (decide (h' = currentHash r)) as [->|Hn']; [by rewrite eqb_refl|].
        rewrite (bool_decide_eq_false_2 (h' = _)) by done. by rewrite bool_decide_eq_false_2 by congruence.
      * by rewrite !bool_decide_eq_false_2 by congruence.
  - cbn [currentIdx currentHash highWater positions]. split_and!; try done. intros a h'.
    case_decide as Ea; [subst a; rewrite Hc; by repeat case_match|done].
Qed.

Lemma inv_replace s h : inv s -> inv (do_replace s h).
Proof.
  intros Hi. pose proof Hi as [(e0 & He0 & Hh0 & Hs0) Hst Hord Hhi Hk Hown Hall].
  unfold do_replace. set (r := on_replace (rs s) h).
  destruct (on_replace_spec (rs s) h Hk) as (Hri & Hrh & Hrw & Hrk & Hrp).
  { intros h' Hne. destruct (assoc _ _) eqn:E; [|done]. destruct (Hown _ _ _ _ _ He0 Hs0 E) as [-> _]. congruence. }
  fold r in Hri, Hrh, Hrw, Hrk, Hrp.
  clearbody r.
  assert (forall i e, alter (fun e => {| e_hash := h; e_stamp := Some (currentIdx r); e_seen := e_seen e |}) (at_ s) (hist s) !! i = Some e ->
    exists e1, hist s !! i = Some e1 /\ e_stamp e = e_stamp e1 /\ e_seen e = e_seen e1 /\
      e_hash e = if (i =? at_ s)%nat then h else e_hash e1) as Hl.
  { intros i e. destruct (Nat.eqb_spec i (at_ s)) as [->|Hne].
    - rewrite list_lookup_alter_eq. intros (e1 & He1 & ->)%fmap_Some. exists e1. simpl. rewrite Hri. split_and!; try done. congruence.
    - rewrite list_lookup_alter_ne by done. intros ->. by exists e. }
  assert (forall i e a, hist s !! i = Some e -> e_stamp e = Some a -> a = currentIdx (rs s) <-> (i =? at_ s)%nat = true) as Hcur.
  { intros i e a He Ha. rewrite Nat.eqb_eq. split; [|intros ->; congruence].
    intros ->. by apply (stamp_unique s i (at_ s) e e0 (currentIdx (rs s))). }
  constructor; cbn [hist at_ rs forgot]; try done.
  - eexists. rewrite list_lookup_alter_eq, He0. by rewrite Hrh.
  - intros i e (e1 & He1 & -> & _)%Hl. by eapply Hst.
  - intros i j e f a b Hij (e1 & He1 & -> & _)%Hl (f1 & Hf1 & -> & _)%Hl. by eapply Hord.
  - by rewrite Hri, Hrw.
  - intros i e a h' y (e1 & He1 & -> & -> & ->)%Hl Ha. rewrite Hrp. case_decide as Ea.
    + rewrite (proj1 (Hcur i e1 a He1 Ha) Ea). case_bool_decide as Eh; [|done]. intros Hy. split; [done|].
      subst a. apply (Hown i e1 (currentIdx (rs s)) (currentHash (rs s)) y He1 Ha Hy).
    + destruct (i =? at_ s)%nat eqn:Ei; [by apply (Hcur i e1 a He1 Ha) in Ei|]. by apply (Hown i).
  - intros Hf i e a y (e1 & He1 & -> & -> & ->)%Hl Ha Hy. rewrite Hrp. case_decide as Ea.
    + pose proof (proj1 (Hcur i e1 a He1 Ha) Ea) as Ei. rewrite Ei, eqb_refl. apply Nat.eqb_eq in Ei as ->.
      simplify_eq. unfold currentKey. rewrite <- Hh0. by apply (Hall Hf (at_ s)).
    + destruct (i =? at_ s)%nat eqn:Ei; [by apply (Hcur i e1 a He1 Ha) in Ei|]. by apply (Hall Hf i).
Qed.

Lemma inv_reload s y kept e : inv s -> hist s !! at_ s = Some e -> inv (do_reload s y kept e).
Proof.
  intros Hi0 He0. pose proof (inv_scroll s y Hi0) as [(e1 & He1 & Hh & Hs1) Hst Hord Hhi Hk Hown Hall].
  assert (e_hash e1 = e_hash e /\ e_stamp e1 = e_stamp e) as [Eh Es].
  { cbn [do_scroll hist at_] in He1. rewrite list_lookup_alter_eq, He0 in He1. by injection He1 as <-. }
  destruct (Hst _ _ He1) as (a & Ha & Hpos). assert (a = currentIdx (rs (do_scroll s y))) as -> by congruence.
  unfold do_reload, initScrollRestore. rewrite <- Eh, <- Es, Hs1. cbn [nullish]. rewrite Z.max_l by done.
  constructor; cbn [hist at_ rs positions currentHash currentIdx highWater forgot]; try done.
  - by exists e1.
  - destruct kept; [done|]. apply NoDup_nil_2.
  - destruct kept; [exact Hown|done].
  - rewrite orb_false_iff. intros [Hf Hkept]. destruct kept; [by apply Hall|done].
Qed.

Lemma inv_start h : inv (start h).
Proof.
  constructor; cbn [start initScrollRestore hist at_ rs positions currentHash currentIdx highWater nullish]; try done.
  - by eexists.
  - intros [|[|i]] e [= <-]. by exists 0.
  - intros [|[|i]] [|[|j]]; try done; lia.
  - apply NoDup_nil_2.
  - intros _ [|[|i]] e a y [= <-]. done.
Qed.

Lemma inv_stop s : inv s -> inv (do_stop s).
Proof. intros []. by constructor. Qed.

Lemma confused_stays s s' : step s s' -> confused s' = false -> confused s = false.
Proof.
  intros [s1 y|s1 h _|s1 j e _|s1|s1 h|s1 y kept e _]; try done.
  - unfold do_push. by destruct (on_navigate _ _ _).
  - unfold do_traverse. destruct (on_navigate _ _ _). cbn [confused]. by intros [? _]%orb_false_iff.
Qed.

Lemma inv_kept s s' : step s s' -> confused s' = false -> inv s -> inv s'.
Proof. intros [] Hc Hi; eauto using inv_scroll, inv_push, inv_traverse, inv_stop, inv_replace, inv_reload. Qed.

(** *** The bound on what is remembered *)
Lemma length_filter_le {A} (p : A -> bool) l : (length (List.filter p l) <= length l)%nat.
Proof. apply sublist_length, filter_sublist. Qed.

Lemma length_remember r y : (length (positions (remember r y)) <= MAX_ENTRIES)%nat.
Proof. unfold remember, trim_oldest. cbn [positions]. rewrite length_drop. lia. Qed.

Lemma length_map_set_le (k : Key) (y : Z) m : (length (map_set k y m) <= S (length m))%nat.
Proof. induction m as [|[k' b] m IH]; [simpl; lia|]. simpl. case_bool_decide; simpl in *; lia. Qed.

Lemma length_delete_lt (k : Key) (y : Z) m : assoc k m = Some y -> (S (length (map_delete k m)) <= length m)%nat.
Proof.
  unfold map_delete. induction m as [|[k' b] m IH]; [done|]. cbn [assoc List.filter fst length].
  destruct (decide (k = k')) as [->|Hne].
  - rewrite eqb_refl. cbn [negb]. intros _. pose proof (length_filter_le (fun p => negb (p.1 === k')) m). lia.
  - rewrite (bool_decide_eq_false_2 (k = k')), (bool_decide_eq_false_2 (k' = k)) by congruence. cbn [negb length].
    intros H%IH. lia.
Qed.

Lemma length_replace r h : (length (positions (on_replace r h)) <= length (positions r))%nat.
Proof.
  unfold on_replace. destruct (assoc _ _) as [held|] eqn:E; [|done]. case_bool_decide; [done|]. cbn [positions].
  etrans; [apply length_map_set_le|]. by eapply length_delete_lt.
Qed.

Lemma length_navigate r h st : (length (positions (on_navigate r h st).1) <= length (positions r))%nat.
Proof. unfold on_navigate. case_bool_decide; [done|]. cbn zeta. destruct (_ <? 0); [apply length_filter_le|done]. Qed.

Lemma bounded_step s s' :
  step s s' -> (length (positions (rs s)) <= MAX_ENTRIES)%nat -> (length (positions (rs s')) <= MAX_ENTRIES)%nat.
Proof.
  intros [s1 y|s1 h _|s1 j e _|s1|s1 h|s1 y kept e _] Hb.
  - apply length_remember.
  - unfold do_push. pose proof (length_navigate (rs s1) h None). destruct (on_navigate _ _ _). simpl in *. lia.
  - unfold do_traverse. pose proof (length_navigate (rs s1) (e_hash e) (e_stamp e)).
    destruct (on_navigate _ _ _). simpl in *. lia.
  - done.
  - pose proof (length_replace (rs s1) h). cbn [do_replace rs]. lia.
  - destruct kept; [apply length_remember|]. cbn. lia.
Qed.

Lemma reachable_good s : reachable s -> (confused s = false -> inv s) /\ (length (positions (rs s)) <= MAX_ENTRIES)%nat.
Proof.
  intros [h Hs]. assert ((confused (start h) = false -> inv (start h)) /\ (length (positions (rs (start h))) <= MAX_ENTRIES)%nat) as H0.
  { split; [intros _; apply inv_start|]. cbn. lia. }
  revert H0. induction Hs as [s|s s1 s2 Hst _ IH]; [done|]. intros [Hi Hb]. apply IH.
  split; [|by eapply bounded_step]. intros Hc. eapply inv_kept; [done|done|]. by eapply Hi, confused_stays.
Qed.

(** The position remembered last is not the one that is dropped. *)
Lemma assoc_remember_current r y : NoDup (keys (positions r)) -> assoc (currentKey r) (positions (remember r y)) = Some y.
Proof.
  intros Hn. unfold remember, trim_oldest. cbn [positions].
  assert (currentKey r ∉ keys (map_delete (currentKey r) (positions r))) as Hf.
  { rewrite <- assoc_None, assoc_delete. by rewrite eqb_refl. }
  rewrite (map_set_fresh _ _ _ Hf), length_app. cbn [length].
  set (m := map_delete _ _) in *. rewrite drop_app. replace (_ - length m)%nat with 0%nat by (unfold MAX_ENTRIES; lia).
  rewrite drop_0. apply assoc_unique; [|set_solver].
  eapply (sublist_NoDup _ (keys (m ++ [(currentKey r, y)]))).
  - unfold keys. rewrite fmap_app. apply NoDup_app. split_and!; [by apply NoDup_keys_filter| |apply NoDup_singleton].
    intros k Hk. set_solver.
  - apply fmap_sublist, sublist_app; [apply sublist_drop|done].
Qed.

(** ** What the text of a key tells *)
Lemma posKey_inj k k' : posKey k = posKey k' -> k = k'.
Proof.
  destruct k as [i h], k' as [i' h']. unfold posKey. cbn [fst snd]. intros E.
  apply cut_first in E as [Hi ->]; [|apply pipe_not_in_show..]. by apply show_Z_inj in Hi as ->.
Qed.

(** ** The polling ends *)

(** Past the deadline a poll is the last, and so is one that finds the offset held. *)
Lemma attempt_stops y deadline held now y' :
  deadline < now \/ (held <> 0 /\ Z.abs (y' - y) <= TOLERANCE /\ HOLD_MS <= now - held) ->
  (attempt y deadline held now y').2 = true.
Proof.
  unfold attempt. cbn [snd]. intros [H|(Hh & Ht & Hn)].
  - rewrite (proj2 (Z.ltb_lt _ _) H). apply orb_true_r.
  - rewrite (proj2 (Z.ltb_ge _ _) Ht), (proj2 (Z.eqb_neq _ _) Hh). cbn [negb]. rewrite (proj2 (Z.eqb_neq _ _) Hh).
    by rewrite (proj2 (Z.leb_le _ _) Hn).
Qed.

(** Before the deadline a poll stops only after the offset held: one that finds the page
    elsewhere goes on, and forgets what it had seen. *)
Lemma attempt_goes_on y deadline held now y' :
  now <= deadline -> TOLERANCE < Z.abs (y' - y) -> attempt y deadline held now y' = (0, false).
Proof.
  intros Hn Ht. unfold attempt. rewrite (proj2 (Z.ltb_lt _ _) Ht). cbn [Z.eqb negb andb orb].
  by rewrite (proj2 (Z.ltb_ge _ _) Hn).
Qed.

(** ** The rule of the module *)

Lemma target_traverse s j e a :
  0 <= a -> e_stamp e = Some a -> e_hash e <> currentHash (rs s) ->
  target (do_traverse s j e) = Some (nullish (assoc (a, e_hash e) (positions (rs s))) 0).
Proof.
  intros Hpos Ha Hh. unfold do_traverse, on_navigate. rewrite bool_decide_eq_false_2 by done. rewrite Ha. cbn [nullish].
  by rewrite (proj2 (Z.ltb_ge _ _) Hpos).
Qed.

Lemma target_reload s y e :
  inv s -> hist s !! at_ s = Some e -> target (do_reload s y true e) = Some y.
Proof.
  intros Hi He. destruct (i_at _ Hi) as (e0 & He0 & Hh & Hs). assert (e0 = e) as -> by congruence.
  destruct (i_stamped _ Hi _ _ He) as (a & Ha & Hpos). assert (a = currentIdx (rs s)) as -> by congruence.
  unfold do_reload, initScrollRestore. cbn [target]. rewrite Hs, Hh. cbn [nullish]. rewrite Z.max_l by done.
  change (currentIdx (rs s), currentHash (rs s)) with (currentKey (rs s)). cbn [do_scroll rs].
  by rewrite assoc_remember_current by apply Hi.
Qed.

Lemma navigate_same s j e : e_hash e = currentHash (rs s) -> target (do_traverse s j e) = None /\ pending (do_traverse s j e) = pending s /\
  rs (do_traverse s j e) = rs s.
Proof. intros E. unfold do_traverse, on_navigate. by rewrite bool_decide_eq_true_2. Qed.

(** A rewrite keeps every entry's position, its own under the new name. *)
Lemma replace_keeps s h : inv s -> let s' := do_replace s h in
  forall j e e' a, hist s !! j = Some e -> hist s' !! j = Some e' -> e_stamp e = Some a ->
    e_stamp e' = Some a /\ assoc (a, e_hash e') (positions (rs s')) = assoc (a, e_hash e) (positions (rs s)).
Proof.
  intros Hi s' j e e' a He He' Ha. destruct (i_at _ Hi) as (e0 & He0 & Hh0 & Hs0).
  destruct (on_replace_spec (rs s) h (i_keys _ Hi)) as (Hri & Hrh & _ & _ & Hrp).
  { intros h' Hne. destruct (assoc _ _) eqn:E; [|done]. destruct (i_own _ Hi _ _ _ _ _ He0 Hs0 E) as [-> _]. congruence. }
  unfold s', do_replace in *. cbn [hist rs] in *. rewrite Hrp. destruct (decide (j = at_ s)) as [->|Hne].
  - assert (e = e0) as -> by congruence. assert (a = currentIdx (rs s)) as -> by congruence.
    rewrite list_lookup_alter_eq, He0 in He'. injection He' as <-. cbn [e_stamp e_hash].
    rewrite Hri, decide_True, eqb_refl by done. unfold currentKey. by rewrite Hh0.
  - rewrite list_lookup_alter_ne in He' by done. assert (e' = e) as -> by congruence. split; [done|].
    rewrite decide_False; [done|]. intros ->. by apply Hne, (stamp_unique s j (at_ s) e e0 (currentIdx (rs s))).
Qed.

(** C17: Back, forward, a link, a rewrite and a reload each move the page as the module's rule
    says, at any point of a session in which the reader has not yet gone from one entry straight
    to another that shows the same hash ([confused]): back and forward send the page to a
    position of that very entry (its last one, unless positions were dropped for want of room,
    when it may be the top), and keep applying it; a reload comes back to where the page was left;
    a rewrite of the URL sends it nowhere, leaves a restore in progress alone and keeps the
    entry's position under its new name. In every session a deliberate navigation starts at the
    top and gives up a restore in progress, going between entries with the same hash moves
    nothing, and never more than [MAX_ENTRIES] positions are kept. *)
Theorem scroll_restored (s : Sys) (Hs : reachable s) :
  (confused s = false ->
   (forall j e, hist s !! j = Some e -> e_hash e <> currentHash (rs s) -> let s' := do_traverse s j e in
      (target s' = Some 0 \/ target s' = e_seen e) /\ (forgot s = false -> target s' = Some (nullish (e_seen e) 0)) /\
      (forall y, 0 < y -> target s' = Some y -> pending s' = Some y)) /\
   (forall y e, hist s !! at_ s = Some e -> target (do_reload s y true e) = Some y) /\
   (forall h, let s' := do_replace s h in target s' = None /\ pending s' = pending s /\
      forall j e e' a, hist s !! j = Some e -> hist s' !! j = Some e' -> e_stamp e = Some a ->
        e_stamp e' = Some a /\ assoc (a, e_hash e') (positions (rs s')) = assoc (a, e_hash e) (positions (rs s)))) /\
  (forall h, h <> currentHash (rs s) -> target (do_push s h) = Some 0 /\ pending (do_push s h) = None) /\
  (forall j e, e_hash e = currentHash (rs s) -> target (do_traverse s j e) = None /\ pending (do_traverse s j e) = pending s) /\
  (length (positions (rs s)) <= MAX_ENTRIES)%nat.
Proof.
  destruct (reachable_good s Hs) as [Hi Hb]. split; [|split; [|split; [|done]]].
  - intros Hc. specialize (Hi Hc). split; [|split].
    + intros j e He Hh s'. destruct (i_stamped _ Hi _ _ He) as (a & Ha & Hpos). unfold s'. rewrite (target_traverse s j e a Hpos Ha Hh). split_and!.
      * destruct (assoc _ _) as [y|] eqn:E; [right|by left]. by destruct (i_own _ Hi _ _ _ _ _ He Ha E) as [_ ->].
      * intros Hf. destruct (e_seen e) as [y|] eqn:Ey; [by rewrite (i_all _ Hi Hf j e a y He Ha Ey)|].
        destruct (assoc _ _) as [y|] eqn:E; [|done]. destruct (i_own _ Hi _ _ _ _ _ He Ha E) as [_ E']. congruence.
      * intros y Hy [= Et]. unfold do_traverse, on_navigate. rewrite bool_decide_eq_false_2 by done. rewrite Ha. cbn [nullish].
        rewrite (proj2 (Z.ltb_ge _ _) Hpos). unfold currentKey. cbn [pending restoreTo currentIdx currentHash].
        by rewrite Et, (proj2 (Z.leb_gt _ _)).
    + intros y e He. by apply target_reload.
    + intros h s'. split; [done|]. split; [done|]. by apply replace_keeps.
  - intros h Hh. unfold do_push, on_navigate. by rewrite bool_decide_eq_false_2.
  - intros j e E. by destruct (navigate_same s j e E) as (? & ? & _).
Qed.

(** A session: read A halfway, open B, come back to A through a link, read on, then go back to
    the first visit by way of B. *)
Definition visit_A : str := "#/a".
Definition visit_B : str := "#/b".
Definition session : Sys :=
  let s := do_push (do_scroll (do_push (do_scroll (start visit_A) 500) visit_B) 20) visit_A in
  let s := do_scroll s 900 in
  do_traverse s 1 {| e_hash := visit_B; e_stamp := Some 1; e_seen := Some 20 |}.

Lemma session_reachable : reachable session.
Proof.
  exists visit_A. unfold steps, session.
  eapply rt1n_trans; [apply (StepScroll _ 500)|]. eapply rt1n_trans; [apply (StepPush _ visit_B); by vm_compute|].
  eapply rt1n_trans; [apply (StepScroll _ 20)|]. eapply rt1n_trans; [apply (StepPush _ visit_A); by vm_compute|].
  eapply rt1n_trans; [apply (StepScroll _ 900)|].
  eapply rt1n_trans; [apply (StepTraverse _ 1); by vm_compute|]. apply rt1n_refl.
Defined.

Lemma scroll_restored_witness :
  target (do_traverse session 0 {| e_hash := visit_A; e_stamp := Some 0; e_seen := Some 500 |}) = Some 500 /\
  target (do_traverse session 2 {| e_hash := visit_A; e_stamp := Some 2; e_seen := Some 900 |}) = Some 900.
Proof.
  destruct (scroll_restored session session_reachable) as (H & _). destruct (H eq_refl) as (T & _).
  split; [apply (T 0%nat)|apply (T 2%nat)]; by vm_compute.
Defined.

(** *** Two visits to one page, side by side *)

(** The second visit to A jumps two entries back to the first one: what is read there is filed
    under the second visit, and coming back to the first restores the old place. *)
Example stale_after_same_hash :
  let s := do_scroll (do_push (do_push (do_scroll (start visit_A) 500) visit_B) visit_A) 900 in
  let s := do_scroll (do_traverse s 0 {| e_hash := visit_A; e_stamp := Some 0; e_seen := Some 500 |}) 40 in
  let s := do_traverse s 1 {| e_hash := visit_B; e_stamp := Some 1; e_seen := None |} in
  confused s = true /\ hist s !! 0%nat = Some {| e_hash := visit_A; e_stamp := Some 0; e_seen := Some 40 |} /\
  target (do_traverse s 0 {| e_hash := visit_A; e_stamp := Some 0; e_seen := Some 40 |}) = Some 500.
Proof. by vm_compute. Qed.
