(* ===== verification/Digests.v ===== *)
(** * Digests and reasons in delivery text: [src/pkg/dashboard/frontend/src/lib/delivery.ts]

    What the delivery views do to the text a server writes: digests are shortened or cut out
    as parts that keep the full digest, codes already shown are dropped from a reason, a
    note becomes a sentence. Each regular expression is the function that finds its matches
    in the order the engine tries them. *)

From stdpp Require Import base list gmap.
From Stdlib Require Import Init.Byte ZArith NArith Lia.
From S2P Require Import Prelude Uri Format Labels.
Local Open Scope nat_scope.

(** ** One digest *)
Definition SHA : str := "sha256:".

Definition shortDigest (d : option str) : str :=
  match when_truthy d with
  | None => []
  | Some d =>
      let hex := strip_prefix SHA d in
      if forallb is_hex hex && (13 <=? length hex) then take 12 hex else hex
  end.

(** A table the server sends: [versions?.[k]], seen through [Object.prototype]. *)
Definition version_slot (versions : option (list (str * str))) (k : str) : slot str :=
  match versions with Some vs => obj_get vs k | None => Missing end.

Definition versionLabel (digest : option str) (versions : option (list (str * str))) : jsval :=
  match when_truthy digest with
  | None => JStr (shortDigest digest)
  | Some d => match version_slot versions d with
              | Own v => JStr (or_s v (shortDigest digest))
              | Inherited k => JForeign k
              | Missing => JStr (shortDigest digest)
              end
  end.

(** ** Every full digest of a sentence *)

(** [sha256:([0-9a-f]{12})[0-9a-f]{52}] at the head of [s]. *)
Definition full_at (s : str) : bool :=
  starts_with SHA s && (71 <=? length s) && forallb is_lower_hex (take 64 (drop 7 s)).

Definition named_digest (versions : option (list (str * str))) (d : str) : str :=
  let hex := take 12 (drop 7 d) in
  match version_slot versions d with
  | Own v => if truthy v then v ++ " (" ++ hex ++ ")" else SHA ++ hex
  | _ => SHA ++ hex
  end.

(** The global [replace]; a digest is no member of [Object.prototype]. *)
Fixpoint replace_full (versions : option (list (str * str))) (fuel : nat) (s : str) : str :=
  match fuel with
  | O => s
  | S fuel' =>
      match s with
      | [] => []
      | b :: s' => if full_at s then named_digest versions (take 71 s) ++ replace_full versions fuel' (drop 71 s)
                   else b :: replace_full versions fuel' s'
      end
  end.

Definition shortDigests (text : option str) (versions : option (list (str * str))) : str :=
  let t := nullish text [] in replace_full versions (length t) t.

(** ** A sentence in parts *)
Record DigestPart := { dp_text : str; dp_full : option str }.

#[export] Instance DigestPart_eq_dec : EqDecision DigestPart.
Proof. solve_decision. Defined.

(** [sha256:[0-9a-f]{12}(?:[0-9a-f]{52})?(?![0-9a-f])] at the head of [s]: the length of the
    match. What follows it is no hexadecimal digit, so it spans a whole run of them. *)
Definition digest_at (s : str) : option nat :=
  if starts_with SHA s then
    let n := length (span is_lower_hex (drop 7 s)).1 in
    if n =? 64 then Some 71 else if n =? 12 then Some 19 else None
  else None.

(** The first match: what is before it, the match, what is after it. *)
Fixpoint find_digest (s : str) : option (str * str * str) :=
  match digest_at s with
  | Some n => Some ([], take n s, drop n s)
  | None => match s with
            | [] => None
            | b :: s' => match find_digest s' with
                         | Some (u, m, v) => Some (b :: u, m, v)
                         | None => None
                         end
            end
  end.

(** [k.length]: the UTF-16 code units of a text. *)
Definition utf16_length (s : str) : nat :=
  fold_right (fun b n => (if is_cont b then 0 else if lead4 b then 2 else 1) + n) 0 s.

Definition hits_of (known : list (option str)) (m : str) : list str :=
  if length m =? 71 then [m]
  else dedupe (omap (fun k => match k with
                              | Some k => if (utf16_length k =? 71) && starts_with m k then Some k else None
                              | None => None
                              end) known).

Definition hit_part (known : list (option str)) (m : str) : DigestPart :=
  match hits_of known m with
  | [h] => {| dp_text := shortDigest (Some h); dp_full := Some h |}
  | _ => {| dp_text := m; dp_full := None |}
  end.

Definition text_part (s : str) : list DigestPart :=
  if truthy s then [{| dp_text := s; dp_full := None |}] else [].

Fixpoint parts_from (known : list (option str)) (fuel : nat) (s : str) : list DigestPart :=
  match fuel with
  | O => text_part s
  | S fuel' => match find_digest s with
               | Some (u, m, v) => text_part u ++ hit_part known m :: parts_from known fuel' v
               | None => text_part s
               end
  end.

Definition digestParts (text : option str) (known : list (option str)) : list DigestPart :=
  let s := nullish text [] in parts_from known (length s) s.

(** ** A time *)

(** A literal character, or [\d]. *)
Inductive shape_char := Lit (b : byte) | Dig.

Fixpoint match_shape (p : list shape_char) (s : str) : option str :=
  match p, s with
  | [], _ => Some s
  | Lit c :: p', b :: s' => if b === c then match_shape p' s' else None
  | Dig :: p', b :: s' => if is_digit b then match_shape p' s' else None
  | _ :: _, [] => None
  end.

Definition DATE : list shape_char := [Dig; Dig; Dig; Dig; Lit x2d; Dig; Dig; Lit x2d; Dig; Dig].
Definition CLOCK : list shape_char := [Dig; Dig; Lit x3a; Dig; Dig].

(** [(:\d\d(\.\d+)?)?Z$] *)
Definition seconds_end (s : str) : bool :=
  (s === "Z") ||
  match match_shape [Lit x3a; Dig; Dig] s with
  | Some r => (r === "Z") ||
      match r with
      | x2e :: r' => let '(ds, e) := span is_digit r' in truthy ds && (e === "Z")
      | _ => false
      end
  | None => false
  end.

Definition timeLabel (iso : option str) : str :=
  let s := nullish iso [] in
  match match_shape (DATE ++ [Lit x54] ++ CLOCK) s with
  | Some r => if seconds_end r then take 10 s ++ " " ++ take 5 (drop 11 s) ++ " UTC" else s
  | None => s
  end.

(** ** A sentence *)
Definition starts_ws (s : str) : bool := existsb (fun w => starts_with w s) js_whitespace.

(** [^[a-z]+(?=[\s,;]|$)] *)
Definition plain_lead (s : str) : bool :=
  let '(w, r) := span is_lower s in
  truthy w && (negb (truthy r) || starts_ws r || starts_with "," r || starts_with ";" r).

Definition sentence `{Locale} (text : option str) : str :=
  let t := trim (shortDigests text None) in
  if negb (truthy t) then []
  else
    let lead := if plain_lead t then toUpperCase (take 1 t) ++ drop 1 t else t in
    lead ++ (if ends_with "." t || ends_with "!" t || ends_with "?" t then [] else ".").

(** ** A reason without the codes shown beside it *)
Definition shows_code (r : str) (x : option str) : bool :=
  match when_truthy x with Some c => (r === c) || starts_with (c ++ ": ") r | None => false end.

Definition drop_code (r c : str) : str := strip_prefix ": " (drop (length c) r).

Fixpoint without_codes (fuel : nat) (shown : list (option str)) (r : str) : str :=
  match fuel with
  | O => r
  | S fuel' => match List.find (shows_code r) shown with
               | Some (Some c) => without_codes fuel' shown (drop_code r c)
               | _ => r
               end
  end.

Definition reasonAfter (reason : option str) (shown : list (option str)) : str :=
  let r := trim (nullish reason []) in without_codes (length r) shown r.

(** ** A reason code in words *)
Definition REASON_WORDS : list (str * str) :=
  [ ("ApprovalRequired", "Waiting for a person to approve"); ("AwaitingHuman", "Waiting for a person");
    ("AcceptedUnknown", "A person accepted the unknown"); ("RejectedByHuman", "A person rejected it");
    ("VerifyFailed", "A check failed after release"); ("VerifyUnknown", "A check after release ended Unknown");
    ("VerifyUndecided", "The checks after release did not decide"); ("ApplyFailed", "The release did not apply");
    ("RecheckChanged", "A gate no longer passes"); ("Unguarded", "Waiting for the admission policies");
    ("Waiting", "Waiting") ].

Definition is_letter (b : byte) : bool := is_lower b || is_upper b.

(** [^[A-Z][A-Za-z]+$] *)
Definition is_code (r : str) : bool :=
  match r with b :: r' => is_upper b && truthy r' && forallb is_letter r' | [] => false end.

(** [r.replace(/(?<=[a-z])(?=[A-Z])/g, ' ')] *)
Fixpoint split_words (after_lower : bool) (s : str) : str :=
  match s with
  | [] => []
  | b :: s' => (if after_lower && is_upper b then " " else []) ++ b :: split_words (is_lower b) s'
  end.

(** [s.replace(/ ([A-Z])/g, (_, c) => ` ${c.toLowerCase()}`)] *)
Fixpoint lower_words `{Locale} (s : str) : str :=
  match s with
  | x20 :: ((b :: s') as r) => if is_upper b then x20 :: toLowerCase [b] ++ lower_words s' else x20 :: lower_words r
  | b :: s' => b :: lower_words s'
  | [] => []
  end.

Definition reasonWords `{Locale} (reason : option str) : jsval :=
  let r := nullish reason [] in
  if negb (is_code r) then JStr r else get_or REASON_WORDS r (lower_words (split_words false r)).

(** ** Why a change was undone *)

(** [s.split(sep)], for a separator that is not empty. *)
Fixpoint split_str (sep : str) (fuel : nat) (s : str) : list str :=
  match fuel with
  | O => [s]
  | S fuel' =>
      match s with
      | [] => [[]]
      | b :: s' => if starts_with sep s then [] :: split_str sep fuel' (drop (length sep) s)
                   else match split_str sep fuel' s' with
                        | h :: t => (b :: h) :: t
                        | [] => [[b]]
                        end
      end
  end.

Record Undo := { un_by : option str; un_text : option str }.

Definition undo_text (s : str) : Undo := {| un_by := None; un_text := Some s |}.

Definition undoCause (reason message : option str) : Undo :=
  let all := join ": " (omap when_truthy [reason; message]) in
  match split_str ": " (length all) all with
  | code :: rest =>
      if code === "RejectedByHuman" then
        match rest with
        | by_ :: _ => if truthy by_ then {| un_by := Some by_; un_text := None |} else undo_text "a person rejected the unknown"
        | [] => undo_text "a person rejected the unknown"
        end
      else if code === "VerifyFailed" then undo_text "a check failed after release"
      else if code === "ApplyFailed" then undo_text "the release did not apply"
      else {| un_by := None; un_text := None |}
  | [] => {| un_by := None; un_text := None |}
  end.

(** ** A blocker's row *)

(** [^[0-9a-f]{8}-[0-9a-f]{4}-], in either case *)
Definition is_uid (s : str) : bool :=
  forallb is_hex (take 8 s) && starts_with "-" (drop 8 s) && forallb is_hex (take 4 (drop 9 s)) && starts_with "-" (drop 13 s).

Definition blockerService (kind subject : option str) : str :=
  let s := nullish subject [] in
  if negb (truthy s) || (kind === Some "unlabelled-apply-ref") || (kind === Some "no-observed-digest") then []
  else if includes ":" s || is_uid s then [] else s.

(** What is left after [\s+], the longest white space first. *)
Fixpoint after_ws (fuel : nat) (s : str) : list str :=
  match fuel with
  | O => []
  | S fuel' => match List.find (fun w => starts_with w s) js_whitespace with
               | Some w => let r := drop (length w) s in after_ws fuel' r ++ [r]
               | None => []
               end
  end.

(** [(?=$|[\s.,;:])] *)
Definition at_boundary (s : str) : bool :=
  negb (truthy s) || starts_ws s || existsb (fun p => starts_with p s) [".": str; ","; ";"; ":"].

(** [\s+(?:for|of|on|in|by)\s+subject(?=$|[\s.,;:])] at the head of [s]: what follows. *)
Definition clause_at (subject s : str) : option str :=
  head (r1 ← after_ws (length s) s;
        w ← (["for"; "of"; "on"; "in"; "by"] : list str);
        r2 ← (if starts_with w r1 then after_ws (length r1) (drop (length w) r1) else []);
        if starts_with subject r2 && at_boundary (drop (length subject) r2) then [drop (length subject) r2] else []).

Fixpoint cut_clause (subject s : str) : str :=
  match clause_at subject s with
  | Some r => r
  | None => match s with [] => [] | b :: s' => b :: cut_clause subject s' end
  end.

Definition blockerReason (message subject : option str) : str :=
  let m := nullish message [] in
  match when_truthy subject with
  | None => m
  | Some sub =>
      if negb (includes sub m) then m
      else if starts_with (sub ++ " ") m then "It " ++ drop (length sub + 1) m
      else cut_clause sub m
  end.

(** ** Lemmas *)

Lemma span_app p s : (span p s).1 ++ (span p s).2 = s.
Proof. induction s as [|b s IH]; [done|]. simpl. destruct (p b); [|done]. destruct (span p s). simpl in *. by rewrite IH. Qed.

Lemma find_digest_spec s u m v :
  find_digest s = Some (u, m, v) -> s = u ++ m ++ v /\ digest_at (m ++ v) = Some (length m) /\ 19 <= length m.
Proof.
  revert u. induction s as [|b s IH]; intros u; cbn [find_digest]; [done|].
  destruct (digest_at (b :: s)) as [n|] eqn:Ed.
  - intros [= <- <- <-]. rewrite take_drop. cbn [app].
    assert (19 <= n /\ n <= length (b :: s)) as [H1 H2].
    { unfold digest_at in Ed. destruct (starts_with SHA (b :: s)) eqn:E; [|done].
      pose proof (f_equal length (span_app is_lower_hex (drop 7 (b :: s)))) as Hl.
      rewrite length_app, length_drop in Hl.
      destruct (Nat.eqb_spec (length (span is_lower_hex (drop 7 (b :: s))).1) 64); [injection Ed as <-; lia|].
      destruct (Nat.eqb_spec (length (span is_lower_hex (drop 7 (b :: s))).1) 12); [injection Ed as <-; lia|done]. }
    rewrite length_take_le by lia. done.
  - destruct (find_digest s) as [[[u' m'] v']|]; [|done]. intros [= <- <- <-].
    destruct (IH u' eq_refl) as (-> & ? & ?). done.
Qed.

(** It is the first. *)
Lemma find_digest_first s u m v x y :
  find_digest s = Some (u, m, v) -> s = x ++ y -> digest_at y <> None -> length u <= length x.
Proof.
  revert u x. induction s as [|b s IH]; intros u x; cbn [find_digest]; [done|].
  destruct (digest_at (b :: s)) as [n|] eqn:Ed.
  - intros [= <- <- <-] _ _. simpl. lia.
  - destruct (find_digest s) as [[[u' m'] v']|]; [|done]. intros [= <- <- <-] E Hy. destruct x as [|c x].
    + simpl in E. by subst y.
    + injection E as _ E. pose proof (IH u' x eq_refl E Hy). simpl. lia.
Qed.

Lemma find_digest_None s : find_digest s = None -> forall u v, s = u ++ v -> digest_at v = None.
Proof.
  induction s as [|b s IH]; cbn [find_digest].
  - intros _ u v E. symmetry in E. by apply app_eq_nil in E as [_ ->].
  - destruct (digest_at (b :: s)) eqn:Ed; [done|]. destruct (find_digest s) as [[[? ?] ?]|]; [done|]. intros _ [|c u] v E.
    + simpl in E. by subst v.
    + injection E as _ E. by apply (IH eq_refl u).
Qed.

(** What a part stands for in the sentence. *)
Definition part_of (known : list (option str)) (piece : str) (p : DigestPart) : Prop :=
  match dp_full p with
  | None => dp_text p = piece /\ piece <> []
  | Some f => dp_text p = shortDigest (Some f) /\ starts_with SHA piece = true /\
      ((piece = f /\ length f = 71) \/
       (length piece = 19 /\ starts_with piece f = true /\ utf16_length f = 71 /\
        forall k, Some k ∈ known -> utf16_length k = 71 -> starts_with piece k = true -> k = f))
  end.

Lemma text_part_of known s : exists qs, Forall2 (part_of known) qs (text_part s) /\ concat qs = s.
Proof.
  unfold text_part. destruct s as [|b s]; [by exists []|]. exists [b :: s]. split; [|cbn [concat]; by rewrite app_nil_r].
  constructor; [|done]. done.
Qed.

Lemma hits_of_spec known m k :
  length m <> 71 -> k ∈ hits_of known m <-> Some k ∈ known /\ utf16_length k = 71 /\ starts_with m k = true.
Proof.
  intros Hm. unfold hits_of. rewrite (proj2 (Nat.eqb_neq _ _) Hm), elem_of_dedupe, list_elem_of_omap. split.
  - intros ([x|] & Hx & E); [|done]. destruct (Nat.eqb_spec (utf16_length x) 71); [|done].
    destruct (starts_with m x) eqn:Es; [|done]. by injection E as ->.
  - intros (Hk & Hl & Hs). exists (Some k). by rewrite Hl, Hs.
Qed.

Lemma digest_at_head m v : digest_at (m ++ v) = Some (length m) -> starts_with SHA m = true /\ (length m = 71 \/ length m = 19).
Proof.
  unfold digest_at. destruct (starts_with SHA (m ++ v)) eqn:E; [|done]. intros H.
  assert (length m = 71 \/ length m = 19) as Hl.
  { destruct (length (span is_lower_hex (drop 7 (m ++ v))).1 =? 64); [injection H as <-; auto|].
    destruct (length (span is_lower_hex (drop 7 (m ++ v))).1 =? 12); [injection H as <-; auto|done]. }
  split; [|done]. apply starts_with_spec in E as [t Et]. apply starts_with_spec.
  assert (7 <= length m) as H7 by lia. exists (drop 7 m).
  rewrite <- (take_drop 7 m) at 1. f_equal.
  apply (f_equal (take 7)) in Et. rewrite take_app_le in Et by lia. by rewrite Et.
Qed.

Lemma hit_part_of known m v : digest_at (m ++ v) = Some (length m) -> part_of known m (hit_part known m).
Proof.
  intros [Hs Hl]%digest_at_head. unfold hit_part, part_of.
  assert (m <> []) as Hne by (intros ->; simpl in Hl; lia).
  destruct (decide (length m = 71)) as [E|E].
  - unfold hits_of. rewrite E. cbn [Nat.eqb dp_full dp_text]. split_and!; [done..|by left].
  - destruct Hl as [?|Hl]; [done|]. pose proof (hits_of_spec known m) as Hh. destruct (hits_of known m) as [|h [|h' hs]]; try done.
    cbn [dp_full dp_text]. destruct (proj1 (Hh h E)) as (_ & Hlen & Hpre); [left|]. split_and!; [done..|]. right.
    split_and!; [done..|]. intros k Hk Hkl Hks. assert (k ∈ [h]) as Hin by (by apply Hh).
    by apply list_elem_of_singleton in Hin.
Qed.

Lemma parts_from_spec known fuel s :
  length s <= fuel ->
  exists qs, Forall2 (part_of known) qs (parts_from known fuel s) /\ concat qs = s.
Proof.
  revert s. induction fuel as [|fuel IH]; intros s Hf; cbn [parts_from]; [apply text_part_of|].
  destruct (find_digest s) as [[[u m] v]|] eqn:E; [|apply text_part_of].
  apply find_digest_spec in E as (-> & Hd & Hm). rewrite !length_app in Hf.
  destruct (text_part_of known u) as (qu & Hu & Eu). destruct (IH v) as (qv & Hv & Ev); [lia|].
  exists (qu ++ m :: qv). split.
  - apply Forall2_app; [done|]. constructor; [by eapply hit_part_of|done].
  - rewrite concat_app. cbn [concat]. by rewrite Eu, Ev.
Qed.

Lemma span_all p s : forallb p (span p s).1 = true.
Proof. induction s as [|b s IH]; [done|]. simpl. destruct (p b) eqn:E; [|done]. destruct (span p s). simpl in *. by rewrite E. Qed.

(** Past its first letter a match has no [s], so another cannot start inside it. *)
Lemma match_no_s m v : digest_at (m ++ v) = Some (length m) -> x73 ∉ drop 1 m.
Proof.
  intros Hd. destruct (digest_at_head m v Hd) as [Hs Hl]. apply starts_with_spec in Hs as [h ->].
  unfold digest_at in Hd. rewrite <- app_assoc, starts_with_app in Hd.
  replace (drop 7 (SHA ++ h ++ v)) with (h ++ v) in Hd by done.
  assert (h = take (length h) (span is_lower_hex (h ++ v)).1) as Hh.
  { rewrite <- (take_app_le _ (span is_lower_hex (h ++ v)).2), span_app, take_app_le, firstn_all; [done|done|].
    rewrite length_app in Hd. replace (length SHA) with 7 in Hd by done.
    destruct (Nat.eqb_spec (length (span is_lower_hex (h ++ v)).1) 64); [injection Hd as Hd; lia|].
    destruct (Nat.eqb_spec (length (span is_lower_hex (h ++ v)).1) 12); [injection Hd as Hd; lia|done]. }
  assert (x73 ∉ h) as Hn.
  { rewrite Hh. intros Hin%list_elem_of_In. pose proof (span_all is_lower_hex (h ++ v)) as Hall.
    rewrite forallb_forall in Hall. assert (is_lower_hex x73 = true) as Hx; [|done]. apply Hall.
    rewrite <- (firstn_skipn (length h)). apply in_or_app. by left. }
  replace (drop 1 (SHA ++ h)) with ("ha256:" ++ h) by done. intros [H|H]%elem_of_app; [|done].
  by apply (bool_decide_eq_true_2 _) in H; vm_compute in H.
Qed.

Lemma no_match_inside m v x y :
  digest_at (m ++ v) = Some (length m) -> digest_at y <> None -> m ++ v = x ++ y -> length x < length m -> x = [].
Proof.
  intros Hd Hy E Hl. destruct x as [|b x]; [done|]. exfalso. apply (match_no_s m v Hd).
  unfold digest_at in Hy. destruct (starts_with SHA y) eqn:Es; [|done]. apply starts_with_spec in Es as [t ->].
  assert (m !! length (b :: x) = Some x73) as Hin.
  { rewrite <- (lookup_app_l m v) by done. rewrite E, lookup_app_r by done. by rewrite Nat.sub_diag. }
  cbn [length] in Hin. apply (list_elem_of_lookup_2 _ (length x)). by rewrite lookup_drop.
Qed.

Lemma parts_complete known fuel s x d y :
  length s <= fuel -> s = x ++ d ++ y -> length d = 71 -> digest_at (d ++ y) = Some 71 ->
  {| dp_text := shortDigest (Some d); dp_full := Some d |} ∈ parts_from known fuel s.
Proof.
  revert s x. induction fuel as [|fuel IH]; intros s x Hf E Hl Hd; cbn [parts_from].
  { subst s. rewrite !length_app in Hf. lia. }
  destruct (find_digest s) as [[[u m] v]|] eqn:Ef; [|by rewrite (find_digest_None s Ef x _ E) in Hd].
  pose proof (find_digest_first s u m v x (d ++ y) Ef E) as Hfirst. rewrite Hd in Hfirst. specialize (Hfirst ltac:(done)).
  apply find_digest_spec in Ef as (-> & Hm & Hml). apply elem_of_app. right.
  assert (exists x', x = u ++ x') as [x' ->].
  { exists (drop (length u) x). rewrite <- (take_drop (length u) x) at 1. f_equal.
    apply (f_equal (take (length u))) in E. rewrite take_app_length, take_app_le in E by lia. done. }
  rewrite <- app_assoc in E. apply app_inv_head in E.
  destruct (decide (length x' < length m)) as [Hlt|Hge].
  - assert (x' = []) as -> by (eapply (no_match_inside m v x' (d ++ y)); [done|by rewrite Hd|done|done]).
    cbn [app] in E. assert (length m = 71) as Hm71 by (rewrite E, Hd in Hm; by injection Hm).
    apply app_inj_1 in E as [-> ->]; [|lia]. unfold hit_part at 1, hits_of at 1. rewrite Hl. left.
  - right. apply (IH v (drop (length m) x')); [rewrite !length_app in Hf; lia| |done|done].
    apply (f_equal (drop (length m))) in E. rewrite drop_app_length, drop_app_le in E by lia. done.
Qed.

(** Cutting a sentence into parts loses nothing: the pieces the parts stand for make up the
    text. A part without a full digest is shown as it is written; one with a full digest
    stands for that digest, or for a short form only one known digest starts with; and every
    full digest of the text, however the text goes on, is a part of its own. *)
Theorem digestParts_faithful (text : option str) (known : list (option str)) :
  (exists pieces, concat pieces = nullish text [] /\ Forall2 (part_of known) pieces (digestParts text known)) /\
  (forall x d y, nullish text [] = x ++ d ++ y -> length d = 71 -> digest_at (d ++ y) = Some 71 ->
     {| dp_text := shortDigest (Some d); dp_full := Some d |} ∈ digestParts text known).
Proof.
  split.
  - destruct (parts_from_spec known (length (nullish text [])) (nullish text []) ltac:(lia)) as (qs & Hq & Hc). by exists qs.
  - intros x d y E Hl Hd. by apply (parts_complete known _ _ x d y).
Qed.

(** ** Codes are dropped until none is left *)

Lemma drop_code_shorter r x : shows_code r (Some x) = true -> length (drop_code r x) < length r.
Proof.
  unfold shows_code, drop_code. destruct (when_truthy (Some x)) as [c|] eqn:Ec; [|done].
  assert (c = x /\ x <> []) as [-> Hx] by (destruct x; [done|by injection Ec as <-]).
  assert (1 <= length x) as H1 by (destruct x; [done|simpl; lia]). intros H.
  assert (length x <= length r) as Hr.
  { apply orb_true_iff in H as [->%bool_decide_eq_true_1|[t ->]%starts_with_spec]; [done|]. rewrite !length_app. lia. }
  clear H. unfold strip_prefix. destruct (starts_with _ _); rewrite ?length_drop; lia.
Qed.

Lemma drop_code_suffix r c : exists p, r = p ++ drop_code r c.
Proof.
  unfold drop_code, strip_prefix. destruct (starts_with _ _).
  - exists (take (length c + length (": " : str)) r). by rewrite drop_drop, take_drop.
  - exists (take (length c) r). by rewrite take_drop.
Qed.

Lemma without_codes_spec fuel shown r :
  length r <= fuel ->
  (forall x, x ∈ shown -> shows_code (without_codes fuel shown r) x = false) /\
  exists p, r = p ++ without_codes fuel shown r.
Proof.
  revert r. induction fuel as [|fuel IH]; intros r Hf; cbn [without_codes].
  { split; [|by exists []]. destruct r; [|simpl in Hf; lia]. intros [[|c x]|] _; [done| |done].
    unfold shows_code. cbn [when_truthy otruthy truthy]. by rewrite bool_decide_eq_false_2. }
  destruct (List.find (shows_code r) shown) as [[c|]|] eqn:Ef.
  - apply find_some in Ef as [_ Hc]. pose proof (drop_code_shorter r c Hc).
    destruct (IH (drop_code r c)) as [H1 (p & Hp)]; [lia|]. split; [done|].
    destruct (drop_code_suffix r c) as [q Hq]. exists (q ++ p). by rewrite <- app_assoc, <- Hp.
  - apply find_some in Ef as [_ Hc]. done.
  - split; [|by exists []]. intros x Hx. apply (find_none _ _ Ef). by apply list_elem_of_In.
Qed.

(** Dropping codes from a reason ends, with a tail of the reason that opens with none of
    the codes shown beside it. *)
Theorem reasonAfter_done (reason : option str) (shown : list (option str)) :
  (forall c, Some c ∈ shown -> c <> [] -> reasonAfter reason shown <> c /\ starts_with (c ++ ": ") (reasonAfter reason shown) = false) /\
  (exists p, trim (nullish reason []) = p ++ reasonAfter reason shown).
Proof.
  unfold reasonAfter. destruct (without_codes_spec _ shown (trim (nullish reason [])) ltac:(done)) as [H Hp].
  split; [|done]. intros c Hc Hne. specialize (H _ Hc). unfold shows_code in H.
  destruct c as [|b c]; [done|]. cbn [when_truthy otruthy truthy] in H. apply orb_false_iff in H as [H1 H2].
  by apply bool_decide_eq_false_1 in H1.
Qed.

(** ** The functions on the inputs of their tests and comments *)
Example text_examples :
  timeLabel (Some "2026-10-21T11:00:59.123Z") = "2026-10-21 11:00 UTC" /\
  timeLabel (Some "yesterday") = "yesterday" /\
  sentence (Some " waits for orders, then ships ") = "Waits for orders, then ships." /\
  sentence (Some "k8s:pay/x is missing!") = "k8s:pay/x is missing!" /\
  reasonWords (Some "ExecutionDeadline") = JStr "Execution deadline" /\
  reasonWords (Some "VerifyFailed") = JStr "A check failed after release" /\
  reasonAfter (Some "AcceptedUnknown: carol: ok") [Some "AcceptedUnknown"] = "carol: ok" /\
  undoCause (Some "RejectedByHuman") (Some "carol: note") = {| un_by := Some "carol"; un_text := None |} /\
  blockerReason (Some "orders calls cart at runtime") (Some "orders") = "It calls cart at runtime" /\
  blockerReason (Some "incident for orders") (Some "orders") = "incident" /\
  blockerService (Some "incident") (Some "1f0c9a7e-12ab-4def") = [] /\
  blockerService (Some "incident") (Some "orders") = "orders".
Proof. by vm_compute. Qed.
