(* ===== verification/Delivery.v ===== *)
(** * The delivery vocabulary: [src/pkg/dashboard/frontend/src/lib/delivery.ts]

    The words for a change, its checks, its level and its blockers, the decision kept across
    a fresh login, the links into Mira and the count of what ran on its own. A table is read
    the way the code reads it, through [Object.prototype]; a text [JSON.parse] reads is the
    value it reads, or one that does not parse. [string_of] is what [String] makes of a JSON
    value that is no text (none when it throws). *)

From stdpp Require Import base list gmap.
From Stdlib Require Import Init.Byte ZArith NArith Lia.
From S2P Require Import Prelude Uri Format Labels Router Digests Spatial.
Local Open Scope nat_scope.

(** ** Labels *)
Definition TYPE_LABELS : list (str * str) :=
  [ ("delivery.pacto.trianalab.io/promote", "Promote"); ("delivery.pacto.trianalab.io/rollback", "Roll back");
    ("delivery.pacto.trianalab.io/override", "Override"); ("delivery.pacto.trianalab.io/unfreeze", "Unfreeze");
    ("delivery.pacto.trianalab.io/freeze", "Freeze"); ("delivery.pacto.trianalab.io/autonomy", "Level change");
    ("delivery.pacto.trianalab.io/acknowledge", "Acknowledge upstream") ].

Definition typeLabel (type : option str) : jsval := get_or TYPE_LABELS (nullish type []) (or_str type "Change").

Definition DECISION_LABELS : list (str * str) :=
  [ ("approve", "Approve"); ("reject", "Reject"); ("accept-unknown", "Accept the unknown") ].

Definition decisionLabel (d : option str) : jsval := get_or DECISION_LABELS (nullish d []) (or_str d []).

Definition UNKNOWN_DOCS : str := "https://pacto.run/latest/integrations/kubernetes/delivery/#what-unknown-means".
Definition APPROVING_DOCS : str := "https://pacto.run/latest/integrations/kubernetes/delivery-identity/#where-approving-works".

Record Caller := { ca_class : option str; ca_authTime : option str }.

Definition cannotApproveHere (caller : option Caller) : bool :=
  match caller with Some c => (ca_class c === Some "human") && negb (otruthy (ca_authTime c)) | None => false end.

(** A check's verdict, with its citation. *)
Abbreviation Citation := (list (str * str)).
Record Verdict := { vd_gate : option str; vd_result : option str; vd_citation : option Citation }.

(** [v.citation?.k], for a [k] that is no member of [Object.prototype]. *)
Definition cited (c : option Citation) (k : str) : option str :=
  match c with Some c => assoc k c | None => None end.

Definition unknownHelp (v : Verdict) : str :=
  if cited (vd_citation v) "provider" === Some "mira" then
    "Pacto could not read enough traces to judge the release. Send the service's spans to Mira and keep the verify window long enough to collect them."
  else
    let contract := "Pacto could not read the service's contract status. Check that the operator evaluates the Pacto for this service and that its runtime agent reports." in
    oswitch (vd_gate v)
      [ ("pacto.contract", contract); ("pacto.runtime", contract);
        ("pacto.impact", "Pacto could not tell which services this affects. Publish a contract for each service that calls this one, with the versions it accepts.") ]
      "Pacto could not get an answer from this check. Check that it is configured and reachable.".

(** ** The decision a held operation waits for *)
Record OpStatus := { os_applied : bool; os_asked : option str }.

Definition decisionAsked (status : option OpStatus) : str :=
  match status with
  | Some st => if os_applied st then "accept-unknown" else or_str (os_asked st) "accept-unknown"
  | None => "accept-unknown"
  end.

Definition cliDecision (namespace name decision : str) : str :=
  "pacto delivery approve -n " ++ namespace ++ " " ++ name ++ " --decision " ++ decision.

(** ** The decision kept across a fresh login *)
Record PendingDecision := { pd_namespace : str; pd_name : str; pd_decision : str; pd_note : str }.

Definition PENDING_KEY : str := "pacto.delivery.pending".

Definition pending_value (p : PendingDecision) : value :=
  VObj [ ("namespace", VStr (pd_namespace p)); ("name", VStr (pd_name p)); ("decision", VStr (pd_decision p));
         ("note", VStr (pd_note p)) ].

Definition keepPending (p : PendingDecision) (store : Storage) : Storage :=
  <[PENDING_KEY := Parsed (pending_value p)]> store.

Definition has_text (k s : str) (v : value) : bool := match member k v with Some (VStr t) => t === s | _ => false end.

Definition pendingFor (store : Storage) (namespace name : str) : option value :=
  match store !! PENDING_KEY with
  | Some (Parsed p) => if has_text "namespace" namespace p && has_text "name" name p then Some p else None
  | _ => None
  end.

Definition dropPending (store : Storage) : Storage := delete PENDING_KEY store.

(** ** Links into Mira *)
Definition MIRA_OPS : list (str * str) :=
  [ ("eq", "="); ("ne", "!="); ("gt", ">"); ("gte", ">="); ("lt", "<"); ("lte", "<="); ("contains", "~") ].

(** [^https?:\/\/], in either case *)
Definition is_web (url : str) : bool :=
  let l := shift_byte 65 90 32 <$> url in starts_with "http://" l || starts_with "https://" l.

(** [url.replace(/\/+$/, '')] *)
Definition strip_slashes (url : str) : str := rev (span (fun b => b === x2f) (rev url)).2.

(** [!v] is false. *)
Definition value_truthy (v : value) : bool :=
  match v with
  | VNull => false
  | VBool b => b
  | VNum (Fin m _) => negb (m =? 0)%Z
  | VNum (Infinite _) => true
  | VNum Nan => false
  | VStr s => truthy s
  | VArr _ | VObj _ => true
  end.

(** [v ?? w] where a member that is there may be [null]. *)
Definition value_or (v w : option value) : option value :=
  match v with Some VNull | None => w | _ => v end.

Section Text.
Variable string_of : value -> option str.

Definition text_of (v : value) : option str := match v with VStr s => Some s | _ => string_of v end.

(** One condition of the query: no text when it is skipped, none at all when it throws. *)
Definition mira_term (t : value) : option (list str) :=
  match t with
  | VObj o =>
      match value_or (assoc "attr" o) (assoc "field" o), List.find (fun p => map_has p.1 o) MIRA_OPS with
      | Some key, Some (op, sign) =>
          if value_truthy key then
            k ← text_of key;
            v ← match assoc op o with Some (VStr s) => Some ([x22] ++ s ++ [x22]) | Some v => string_of v | None => None end;
            Some [k ++ sign ++ v]
          else Some []
      | _, _ => Some []
      end
  | VArr _ => Some []
  | _ => None
  end.

Definition mira_terms (where_ : option value) : option (list str) :=
  match where_ with
  | None | Some VNull | Some (VStr []) => Some []
  | Some (VArr l) => @concat str <$> mapM mira_term l
  | Some _ => None
  end.

(** None when it throws; the query is what [JSON.parse] makes of the citation's text. *)
Definition miraLink (query : option Item) (miraURL : option str) : option (option str) :=
  match when_truthy miraURL, query with
  | Some url, Some (Parsed q) =>
      if negb (is_web url) then Some None
      else if negb (value_truthy q) then Some None
      else match member "signal" q with
           | Some (VStr signal) =>
               terms ← mira_terms (member "where" q);
               Some (Some (strip_slashes url ++ "/#/" ++ signal ++ "?q=" ++ encodeURIComponent (join " " terms) ++ "&range=all"))
           | _ => Some None
           end
  | _, _ => Some None
  end.

Definition miraServiceLink (name : str) (miraURL : option str) (range : str) : option str :=
  match when_truthy miraURL with
  | Some url =>
      if negb (is_web url) then None
      else Some (strip_slashes url ++ "/#/traces?q=" ++ encodeURIComponent ("service.name=" ++ [x22] ++ name ++ [x22]) ++
                 "&range=" ++ encodeURIComponent range)
  | None => None
  end.

Record Caps := { cp_miraURL : option str; cp_hidden : option bool }.

Definition entityMiraURL (caps : option Caps) : str :=
  match caps with
  | Some c => if negb (nullish (cp_hidden c) false) then nullish (cp_miraURL c) [] else []
  | None => []
  end.

(** ** Where a change stands *)
Definition OUTCOMES : list (str * str) :=
  [ ("Succeeded", "succeeded"); ("Failed", "failed"); ("Rejected", "was rejected"); ("Errored", "could not finish") ].
Definition VERIFICATIONS : list (str * str) :=
  [ ("Verified", "verified"); ("Unverified", "not verified"); ("AcceptedUnknown", "a person accepted the unknown") ].
Definition PHASES : list (str * str) :=
  [ ("Held", "waits for a person"); ("Pending", "waits its turn"); ("Running", "is running");
    ("Verifying", "is being checked"); ([], "is not admitted yet") ].

(** None when it throws: a member of [Object.prototype] has no first character. *)
Definition verificationLabel `{Locale} (v : option str) : option str :=
  match get_or VERIFICATIONS (nullish v []) (nullish v []) with
  | JForeign _ => None
  | JStr w => Some (if truthy w then let '(c, r) := first_char w in toUpperCase c ++ r else [])
  end.

Definition outcomeTone (outcome : option str) : str :=
  if outcome === Some "Succeeded" then "badge-ok"
  else if (outcome === Some "Failed") || (outcome === Some "Errored") || (outcome === Some "Rejected") then "badge-err"
  else "badge-neutral".

Definition AUTONOMY_TYPE : str := "delivery.pacto.trianalab.io/autonomy".

Definition LEVELS : list (str * (str * str)) :=
  [ ("observe", ("Observe", "Pacto plans every change and moves nothing. GitOps applies what git says."));
    ("advise", ("Advise", "Pacto shows each candidate and its plan. A person proposes or approves every promote."));
    ("auto-nonbreaking", ("Auto non-breaking", "Pacto promotes non-breaking changes on its own. A person approves every other change."));
    ("autonomous", ("Autonomous", "Pacto promotes any change the contract graph clears. Unknown still waits for a person.")) ].

Definition levelLabel (level : option str) : str :=
  nullish (get_field LEVELS (nullish level []) fst) (or_str level "Not reported").

Definition levelHelp (level : option str) : str :=
  nullish (get_field LEVELS (nullish level []) snd)
    "This Stage does not report a level. An operator older than the autonomy ladder writes none.".

Definition template (v : jsval) : str := match v with JStr s => s | JForeign k => builtin_text k end.

Record ChangeFacts := {
  cf_type : option str; cf_stage : option str; cf_from : option str; cf_to : option str;
  cf_phase : option str; cf_outcome : option str; cf_verification : option str }.

(** [tbl[k ?? ''] ?? k], kept when it is truthy. *)
Definition end_word (tbl : list (str * str)) (k : option str) : list str :=
  match obj_get tbl (nullish k []) with
  | Own s => [s]
  | Inherited f => [builtin_text f]
  | Missing => match when_truthy k with Some s => [s] | None => [] end
  end.

Definition changeSummary `{Locale} (e : option ChangeFacts) (namespace : str) (versions : option (list (str * str))) : str :=
  match e with
  | None => []
  | Some e =>
      let auto := cf_type e === Some AUTONOMY_TYPE in
      let v d := if negb (truthy d) then [] else if auto then levelLabel (Some d) else template (versionLabel (Some d) versions) in
      let move := match when_truthy (cf_from e), when_truthy (cf_to e) with
                  | Some f, Some t => " from " ++ v f ++ " to " ++ v t
                  | None, Some t => " to " ++ v t
                  | _, None => []
                  end in
      let lead := if auto then "The level of" else template (typeLabel (cf_type e)) in
      let what := lead ++ " " ++ nullish (cf_stage e) [] ++ " in " ++ namespace ++ move in
      if cf_phase e === Some "Concluded" then
        let end_ := join ", " (end_word OUTCOMES (cf_outcome e) ++ end_word VERIFICATIONS (cf_verification e)) in
        what ++ " " ++ (if truthy end_ then "ended: it " ++ end_ else "ended") ++ "."
      else
        what ++ " " ++ template (get_or PHASES (nullish (cf_phase e) []) ("is " ++ toLowerCase (nullish (cf_phase e) []))) ++ "."
  end.
End Text.

Definition ACTOR_BADGES : list (str * (str * str)) :=
  [ ("human", ("Person", "badge-ok")); ("agent", ("Agent", "badge-info")); ("controller", ("Controller", "badge-neutral")) ].

(** A member of [Object.prototype] is passed on as the badge. *)
Definition actorBadge (cls : option str) : slot (str * str) := obj_get ACTOR_BADGES (nullish cls []).

(** ** How far delivery runs on its own *)

(** [approvals] may be absent, [null] or a list of decisions. *)
Record AutonomyEntry := {
  ae_type : option str; ae_kind : option str; ae_phase : option str; ae_actorClass : option str;
  ae_verification : option str; ae_approvals : option (option (list (option str))) }.

Record Autonomy := { au_total : nat; au_noPerson : nat; au_onlyUnknown : nat }.

Definition ended_promotion (e : AutonomyEntry) : bool :=
  (ae_type e === Some "delivery.pacto.trianalab.io/promote") && (ae_kind e !== Some "gap") &&
  (ae_kind e !== Some "unrecordable") && (ae_phase e === Some "Concluded").

Definition approvals_of (e : AutonomyEntry) : list (option str) := nullish (nullish (ae_approvals e) None) [].

Definition decided (d : str) (e : AutonomyEntry) : bool := existsb (fun a => a === Some d) (approvals_of e).

Definition was_unknown (e : AutonomyEntry) : bool :=
  (ae_verification e === Some "AcceptedUnknown") || decided "accept-unknown" e.

Definition no_person (e : AutonomyEntry) : bool :=
  (ae_actorClass e !== Some "human") && (length (approvals_of e) =? 0) && negb (was_unknown e).

Definition only_unknown (e : AutonomyEntry) : bool := was_unknown e && negb (decided "approve" e).

Definition autonomyOf (entries : list AutonomyEntry) : option Autonomy :=
  let done := List.filter ended_promotion entries in
  if existsb (fun e => match ae_approvals e with None => true | Some _ => false end) done then None
  else Some {| au_total := length done; au_noPerson := length (List.filter no_person done);
               au_onlyUnknown := length (List.filter only_unknown done) |}.

Definition PREDICTIONS : list (str * str) :=
  [ ("Proceeds", "It would go ahead with no person involved."); ("Held", "It would wait for a person to decide.");
    ("Rejected", "It would be refused."); ("Waits", "It would wait until a person unfreezes it.") ].

Definition predictionLabel (p : option str) : jsval := get_or PREDICTIONS (nullish p []) (or_str p []).

(** ** What a check concluded *)
Definition EVIDENCE_GATES : list str := ["pacto.diff"; "pacto.impact"; "pacto.environment"].

Definition CLASSIFICATION_CHIPS : list (str * str) := [ ("BREAKING", "Breaking"); ("POTENTIAL_BREAKING", "May break") ].

Record VerdictBadge := { vb_label : str; vb_tone : jsval; vb_chip : jsval }.

Definition VERDICT_TONES : list (str * str) := [ ("Pass", "badge-ok"); ("Fail", "badge-err"); ("Unknown", "badge-warn") ].

Definition verdictBadge (v : Verdict) : VerdictBadge :=
  let chip := get_or CLASSIFICATION_CHIPS (nullish (cited (vd_citation v) "classification") []) [] in
  if cited (vd_citation v) "applicable" === Some "false" then {| vb_label := "N/A"; vb_tone := JStr "badge-neutral"; vb_chip := chip |}
  else if (vd_result v === Some "Pass") && bool_decide (nullish (vd_gate v) [] ∈ EVIDENCE_GATES) then
    {| vb_label := "Checked"; vb_tone := JStr "badge-neutral"; vb_chip := chip |}
  else {| vb_label := nullish (vd_result v) []; vb_tone := get_or VERDICT_TONES (nullish (vd_result v) []) "badge-neutral";
          vb_chip := chip |}.

Definition GATE_LABELS : list (str * str) :=
  [ ("pacto.diff", "Contract diff"); ("pacto.impact", "Consumer impact"); ("pacto.contract", "Contract readable");
    ("pacto.published", "Published and signed"); ("pacto.suites", "Test suites shipped");
    ("pacto.environment", "Environment values"); ("pacto.autonomy", "Level change"); ("pacto.runtime", "Runtime callers");
    ("pacto.preempted", "Superseded") ].

Definition gateLabel (gate : option str) : jsval := get_or GATE_LABELS (nullish gate []) (or_str gate "Check").

Definition isBreaking (verdicts : option (list Verdict)) : bool :=
  existsb (fun v => cited (vd_citation v) "classification" === Some "BREAKING") (nullish verdicts []).

(** ** Lists in a sentence; no [max] is [Infinity] *)
Definition named (names : list str) (max : option nat) : list str :=
  match max with
  | Some m => if m + 1 <? length names
              then take m names ++ [formatCount (Z.of_nat (length names - m)) ++ " others"] else names
  | None => names
  end.

Definition andList (names : list str) (max : option nat) (word : str) : str :=
  let xs := named names max in
  if length xs <? 2 then nullish (head xs) []
  else join ", " (but_last xs) ++ " " ++ word ++ " " ++ List.last xs [].

(** ** The ladder's would-have decisions and blockers *)
Record ShadowFacts := {
  sf_predicted : option str; sf_owners : option (list str); sf_question : option str; sf_observedAt : option str }.

Definition shadowLabel (s : ShadowFacts) : str :=
  oswitch (sf_predicted s)
    [ ("Proceeds", "ship");
      ("Held", match nullish (sf_owners s) [] with
               | [] => "ask: " ++ or_str (sf_question s) "a person decides"
               | owners => "hold for " ++ andList owners (Some 3) "and"
               end);
      ("Rejected", "refuse"); ("Waits", "wait until a person unfreezes it") ]
    (or_str (sf_predicted s) "not planned yet").

Definition heldButRan (s : ShadowFacts) : bool := otruthy (sf_observedAt s) && (sf_predicted s !== Some "Proceeds").

Definition BLOCKERS : list (str * str) :=
  [ ("missing-contract", "No contract"); ("undeclared-range", "No version range declared");
    ("unlabelled-apply-ref", "GitOps can still write the version"); ("no-observed-digest", "The running version is not known");
    ("no-record-store", "Signed records are off"); ("needs-verified", "Needs more verified releases");
    ("needs-cleared-breaking", "Needs a breaking change the graph cleared"); ("incident", "A release failed here");
    ("partial-graph", "The contract graph is partial") ].

Definition blockerLabel (kind : option str) : jsval := get_or BLOCKERS (nullish kind []) (or_str kind "Blocker").

Record Proposal := { pr_level : option str; pr_evidence : option (list str) }.

Definition proposalText (level : option str) (proposal : option Proposal) : str :=
  match proposal with
  | Some p =>
      match when_truthy (pr_level p) with
      | None => "Nothing to propose yet."
      | Some l =>
          let n := length (nullish (pr_evidence p) []) in
          let s := if n =? 1 then [] else "s" in
          let what := if level === Some "observe" then "version" ++ s ++ " GitOps ran that verified" else "verified promotion" ++ s in
          "Pacto proposes " ++ levelLabel (Some l) ++ ": " ++ show_N (N.of_nat n) ++ " " ++ what ++ ", no incident."
      end
  | None => "Nothing to propose yet."
  end.

(** ** What the vocabulary promises *)

(** Counting never makes delivery look more automatic than it was: the promotions no person
    touched and those that waited for an Unknown only are disjoint parts of the promotions
    that ended, and nothing is counted when one of them does not say who approved it. *)
Theorem autonomyOf_honest (entries : list AutonomyEntry) :
  match autonomyOf entries with
  | None => exists e, e ∈ entries /\ ended_promotion e = true /\ ae_approvals e = None
  | Some a =>
      (forall e, e ∈ entries -> ended_promotion e = true -> is_Some (ae_approvals e)) /\
      au_total a = length (List.filter ended_promotion entries) /\
      au_noPerson a + au_onlyUnknown a <= au_total a /\
      (forall e, e ∈ entries -> ended_promotion e = true ->
         ae_actorClass e = Some "human" \/ (exists d, d ∈ approvals_of e) -> no_person e = false)
  end.
Proof.
  unfold autonomyOf. set (done := List.filter ended_promotion entries).
  assert (forall e, e ∈ done <-> e ∈ entries /\ ended_promotion e = true) as Hd by (intros e; apply elem_of_lfilter).
  destruct (existsb _ done) eqn:Ex.
  - apply existsb_exists in Ex as (e & He%list_elem_of_In & Ha). exists e. apply Hd in He as [He He']. split_and!; [done..|].
    by destruct (ae_approvals e).
  - cbn [au_total au_noPerson au_onlyUnknown]. split_and!; [|done| |].
    + intros e He Hp. destruct (ae_approvals e) eqn:Ea; [by eexists|].
      assert (e ∈ done) as Hin by (by apply Hd). exfalso. apply (not_true_iff_false _) in Ex. apply Ex.
      apply existsb_exists. exists e. split; [by apply list_elem_of_In|by rewrite Ea].
    + clear Hd Ex. clearbody done. induction done as [|e l IH]; [done|]. cbn [List.filter].
      assert (no_person e = true -> only_unknown e = true -> False) as Hx.
      { unfold no_person, only_unknown. destruct (was_unknown e); [|done]. by rewrite andb_false_r. }
      destruct (no_person e), (only_unknown e); cbn [length]; try lia; by destruct Hx.
    + intros e _ _ [Hh|[d Hin]]; unfold no_person.
      * by rewrite Hh, eqb_refl.
      * destruct (approvals_of e); [by apply elem_of_nil in Hin|]. cbn [length Nat.eqb]. by rewrite andb_false_r.
Qed.

(** A badge is green exactly when a check that judges, and applies, passed. A check that only
    gathers evidence never shows green. *)
Theorem verdictBadge_green (v : Verdict) :
  vb_tone (verdictBadge v) = JStr "badge-ok" <->
  vd_result v = Some "Pass" /\ nullish (vd_gate v) [] ∉ EVIDENCE_GATES /\ cited (vd_citation v) "applicable" <> Some "false".
Proof.
  unfold verdictBadge. destruct (decide (cited (vd_citation v) "applicable" = Some "false")) as [Ha|Ha].
  { rewrite bool_decide_eq_true_2 by done. split; [done|]. by intros (_ & _ & ?). }
  rewrite (bool_decide_eq_false_2 (cited _ _ = _)) by done.
  destruct (decide (vd_result v = Some "Pass")) as [Hp|Hp].
  - rewrite (bool_decide_eq_true_2 (vd_result v = _)) by done. cbn [andb].
    destruct (decide (nullish (vd_gate v) [] ∈ EVIDENCE_GATES)) as [He|He].
    + rewrite bool_decide_eq_true_2 by done. split; [done|]. by intros (_ & ? & _).
    + rewrite bool_decide_eq_false_2 by done. rewrite Hp. by split.
  - rewrite (bool_decide_eq_false_2 (vd_result v = _)) by done. cbn [andb vb_tone]. split; [|by intros [? _]].
    unfold get_or, obj_get, VERDICT_TONES. cbn [assoc]. destruct (vd_result v) as [r|]; [|done]. cbn [nullish].
    repeat case_bool_decide; try done. by subst r.
Qed.

(** *** Links into Mira are links to the web *)
Definition web_scheme (url : str) : bool :=
  let l := shift_byte 65 90 32 <$> url in starts_with "http:" l || starts_with "https:" l.

Lemma span_tail p s b r : (span p s).2 = b :: r -> p b = false.
Proof.
  induction s as [|c s IH]; [done|]. simpl. destruct (p c) eqn:E; [destruct (span p s); apply IH|].
  intros [= <- <-]. done.
Qed.

Lemma strip_slashes_prefix url : exists t, url = strip_slashes url ++ t /\ forallb (fun b => b === x2f) t = true.
Proof.
  unfold strip_slashes. exists (rev (span (fun b => b === x2f) (rev url)).1). split.
  - rewrite <- rev_app_distr, span_app. by rewrite rev_involutive.
  - rewrite forallb_forall. intros x Hx%in_rev. pose proof (span_all (fun b => b === x2f) (rev url)) as H.
    rewrite forallb_forall in H. by apply H.
Qed.

(** Stripping slashes keeps a text that ends in something else. *)
Lemma strip_keeps p c url : c <> x2f -> starts_with (p ++ [c]) url = true -> starts_with (p ++ [c]) (strip_slashes url) = true.
Proof.
  intros Hc [t Ht]%starts_with_spec. destruct (strip_slashes_prefix url) as (u & Hu & Hs). apply starts_with_spec.
  destruct (decide (length (p ++ [c]) <= length (strip_slashes url))) as [Hl|Hl].
  - exists (drop (length (p ++ [c])) (strip_slashes url)). rewrite <- (take_drop (length (p ++ [c])) (strip_slashes url)) at 1.
    f_equal. assert (take (length (p ++ [c])) url = p ++ [c]) as E by (by rewrite Ht, take_app_length).
    by rewrite Hu, take_app_le in E.
  - exfalso. apply Hc. rewrite length_app in Hl. cbn [length] in Hl.
    assert (url !! length p = Some c) as E1.
    { rewrite Ht, lookup_app_l, lookup_app_r, Nat.sub_diag; [done|done|rewrite length_app; simpl; lia]. }
    rewrite Hu, lookup_app_r in E1 by lia. rewrite forallb_forall in Hs.
    assert (In c u) as Hin by (by apply list_elem_of_In, (list_elem_of_lookup_2 _ (length p - length (strip_slashes url)))).
    apply Hs in Hin. by apply bool_decide_eq_true_1 in Hin.
Qed.

Lemma shift_slash b : shift_byte 65 90 32 b === x2f = (b === x2f).
Proof. by destruct b. Qed.

Lemma strip_lower url : shift_byte 65 90 32 <$> strip_slashes url = strip_slashes (shift_byte 65 90 32 <$> url).
Proof.
  unfold strip_slashes. assert (forall s, shift_byte 65 90 32 <$> (span (fun b => b === x2f) s).2 =
    (span (fun b => b === x2f) (shift_byte 65 90 32 <$> s)).2) as H.
  { induction s as [|b s IH]; [done|]. rewrite fmap_cons. cbn [span]. rewrite shift_slash.
    destruct (b === x2f); [|done]. destruct (span _ s), (span _ (shift_byte 65 90 32 <$> s)). done. }
  assert (forall s, shift_byte 65 90 32 <$> rev s = rev (shift_byte 65 90 32 <$> s)) as Hr.
  { induction s as [|b s IH]; [done|]. rewrite fmap_cons. cbn [rev]. by rewrite fmap_app, IH. }
  by rewrite Hr, H, Hr.
Qed.

Lemma web_link url t : is_web url = true -> web_scheme (strip_slashes url ++ t) = true.
Proof.
  unfold is_web, web_scheme. rewrite fmap_app, strip_lower. set (l := shift_byte 65 90 32 <$> url).
  assert (forall p, starts_with p (strip_slashes l) = true -> starts_with p (strip_slashes l ++ (shift_byte 65 90 32 <$> t)) = true) as Ha.
  { intros p [r ->]%starts_with_spec. rewrite <- app_assoc. apply starts_with_app. }
  intros [H|H]%orb_true_iff; apply orb_true_iff; [left|right]; apply Ha.
  - apply (strip_keeps "http" x3a); [done|]. apply starts_with_spec in H as [r ->]. done.
  - apply (strip_keeps "https" x3a); [done|]. apply starts_with_spec in H as [r ->]. done.
Qed.

Lemma join_utf8 sep l : Utf8 sep -> Forall Utf8 l -> Utf8 (join sep l).
Proof.
  intros Hs. induction 1 as [|x l Hx Hl IH]; [constructor|]. destruct l as [|y l]; [done|].
  rewrite join_cons2. by repeat apply Utf8_app.
Qed.

(** Whatever a citation holds, a link into Mira is an [http] or [https] link, and the
    conditions of the query reach it only percent-encoded: they read back as they were. *)
Theorem miraLink_web (string_of : value -> option str) (query : option Item) (miraURL : option str) (link : str)
    (H : miraLink string_of query miraURL = Some (Some link)) :
  web_scheme link = true /\
  exists base signal terms q, link = base ++ "/#/" ++ signal ++ "?q=" ++ q ++ "&range=all" /\
    forallb component_char q = true /\ (Forall Utf8 terms -> decodeURIComponent q = Some (join " " terms)).
Proof.
  unfold miraLink in H. destruct (when_truthy miraURL) as [url|]; [|done]. destruct query as [[q|]|]; try done.
  destruct (is_web url) eqn:Ew; [|done]. cbn [negb] in H. destruct (value_truthy q); [|done]. cbn [negb] in H.
  destruct (member "signal" q) as [[| | |signal| |]|]; try done.
  destruct (mira_terms string_of (member "where" q)) as [terms|]; [|done]. cbn in H. injection H as <-.
  split; [by apply web_link|]. exists (strip_slashes url), signal, terms, (encodeURIComponent (join " " terms)).
  split_and!; [done| |].
  - rewrite forallb_forall. intros b Hb%list_elem_of_In. by apply (proj1 (Forall_forall _ _) (encode_chars (join " " terms))).
  - intros Hu. apply decode_encode, join_utf8; [by apply valid_utf8_spec|done].
Qed.

Definition demo_query : value :=
  VObj [ ("signal", VStr "traces"); ("where", VArr [VObj [("attr", VStr "service.name"); ("eq", VStr "orders")]; VObj [("field", VStr "x")]]) ].

Lemma miraLink_web_witness :
  exists link, miraLink (fun _ => None) (Some (Parsed demo_query)) (Some "HTTPS://mira.local//") = Some (Some link) /\ web_scheme link = true.
Proof.
  eexists. split; [by vm_compute|].
  by apply (miraLink_web (fun _ => None) (Some (Parsed demo_query)) (Some "HTTPS://mira.local//")); vm_compute.
Defined.

(** *** A remembered decision is shown for its own operation only *)

Lemma pending_own p store ns n :
  pendingFor (keepPending p store) ns n =
    (if (pd_namespace p === ns) && (pd_name p === n) then Some (pending_value p) else None) /\
  pendingFor (dropPending store) ns n = None.
Proof.
  unfold pendingFor, keepPending, dropPending. by rewrite lookup_insert_eq, lookup_delete_eq.
Qed.

(** *** A sentence never lists more than it says it does *)

Lemma named_bounded names m : length (named names (Some m)) <= m + 1 /\ (length names <= m + 1 -> named names (Some m) = names).
Proof.
  unfold named. destruct (Nat.ltb_spec (m + 1) (length names)); [|split; [lia|done]].
  split; [|lia]. rewrite length_app, length_take. simpl. lia.
Qed.

Example andList_examples :
  andList [] None "and" = [] /\ andList ["a"] None "and" = "a" /\ andList ["a"; "b"] None "or" = "a or b" /\
  andList ["a"; "b"; "c"; "d"] (Some 3) "and" = "a, b, c and d" /\
  andList ["a"; "b"; "c"; "d"; "e"] (Some 3) "and" = "a, b, c and 2 others".
Proof. by vm_compute. Qed.

Example changeSummary_examples :
  changeSummary (Some {| cf_type := Some AUTONOMY_TYPE; cf_stage := Some "prod"; cf_from := Some "observe"; cf_to := Some "advise";
      cf_phase := Some "Concluded"; cf_outcome := Some "Succeeded"; cf_verification := Some "Verified" |}) "pay" None
    = "The level of prod in pay from Observe to Advise ended: it succeeded, verified." /\
  changeSummary (Some {| cf_type := Some "delivery.pacto.trianalab.io/promote"; cf_stage := Some "prod"; cf_from := None;
      cf_to := Some "sha256:0123456789abcdef"; cf_phase := Some "Held"; cf_outcome := None; cf_verification := None |}) "pay" None
    = "Promote prod in pay to 0123456789ab waits for a person.".
Proof. by vm_compute. Qed.
