(* ===== verification/ChartData.v ===== *)
(** * What the charts draw: [src/pkg/dashboard/frontend/src/lib/chartData.ts]

    The data of the quadrant, the heatmap and the version timeline. Scores, counts and times
    are integers; a quotient is compared as the fraction it is, which for the counts of a
    fleet orders as the doubles do. [get_time] is what the host's [Date] reads from a text,
    nothing when it is no date. *)

From stdpp Require Import base list gmap sorting.
From Stdlib Require Import Init.Byte ZArith NArith Lia.
From S2P Require Import Prelude Uri Owners.
Local Open Scope Z_scope.

Record ChartCheck := { ck_category : option str; ck_status : option str }.
Record ChartReadiness := { cr_score : option Z; cr_minScore : option Z; cr_checks : option (list ChartCheck) }.
Record ChartService := {
  cs_name : str; cs_contractStatus : option str; cs_blastRadius : option Z; cs_owner : option Owner;
  cs_readiness : option ChartReadiness }.

(** ** The quadrant *)
Record QuadrantItem := { qi_name : str; qi_x : Z; qi_y : Z; qi_status : str }.

Definition quadrant_item (svc : ChartService) : option QuadrantItem :=
  match cs_readiness svc with
  | Some r => match cr_score r with
              | Some sc => Some {| qi_name := cs_name svc; qi_x := sc - nullish (cr_minScore r) 0;
                                   qi_y := nullish (cs_blastRadius svc) 0; qi_status := or_str (cs_contractStatus svc) [] |}
              | None => None
              end
  | None => None
  end.

Definition quadrantData (services : list ChartService) : list QuadrantItem := omap quadrant_item services.

(** ** The heatmap *)
Record HeatmapCell := { hc_owner : str; hc_category : str; hc_score : Z; hc_n : Z }.
Record HeatmapData := { hm_owners : list str; hm_categories : list str; hm_cells : list HeatmapCell }.

Record Tally := { t_done : Z; t_total : Z }.

Definition heat_owner (svc : ChartService) : str := or_s (ownerKey (cs_owner svc)) UNOWNED_KEY.
Definition heat_checks (svc : ChartService) : list ChartCheck :=
  match cs_readiness svc with Some r => nullish (cr_checks r) [] | None => [] end.
Definition heat_category (c : ChartCheck) : str := or_str (ck_category c) "other".

(** The checks the two loops visit, with the owner of each. *)
Definition heat_items (services : list ChartService) : list (str * ChartCheck) :=
  svc ← services; (fun c => (heat_owner svc, c)) <$> heat_checks svc.

Definition cell_key (x : str * ChartCheck) : str := x.1 ++ [x00] ++ heat_category x.2.
Definition new_tally (k : str) : Tally := {| t_done := 0; t_total := 0 |}.
Definition add_check (t : Tally) (x : str * ChartCheck) : Tally :=
  {| t_done := if ck_status x.2 === Some "done" then t_done t + 1 else t_done t; t_total := t_total t + 1 |}.

(** [Math.round((100 * done) / total)], the half rounded up. *)
Definition percent (t : Tally) : Z := if 0 <? t_total t then (200 * t_done t + t_total t) / (2 * t_total t) else 0.

(** [const [owner, category] = key.split('\0')]; a key holds the separator. *)
Definition heat_cell (p : str * Tally) : HeatmapCell :=
  let parts := split_on x00 p.1 in
  {| hc_owner := nth 0 parts []; hc_category := nth 1 parts []; hc_score := percent p.2; hc_n := t_total p.2 |}.

Definition heatmapData (services : list ChartService) : HeatmapData :=
  let items := heat_items services in
  {| hm_owners := sort_str (dedupe (fst <$> items));
     hm_categories := sort_str (dedupe ((fun x => heat_category x.2) <$> items));
     hm_cells := heat_cell <$> group_by cell_key new_tally add_check items |}.

(** *** The teams furthest behind *)
Record Mean := { m_sum : Z; m_n : Z }.
Definition new_mean (o : str) : Mean := {| m_sum := 0; m_n := 0 |}.
Definition add_score (m : Mean) (c : HeatmapCell) : Mean := {| m_sum := m_sum m + hc_score c; m_n := m_n m + 1 |}.
Definition means (cells : list HeatmapCell) : list (str * Mean) := group_by hc_owner new_mean add_score cells.

(** [avg(a) - avg(b)], by its sign; the mean of no cell is 0. *)
Definition mean_of (ms : list (str * Mean)) (o : str) : Mean :=
  match assoc o ms with Some m => if m_n m =? 0 then {| m_sum := 0; m_n := 1 |} else m | None => {| m_sum := 0; m_n := 1 |} end.
Definition cmp_mean (a b : Mean) : Z := m_sum a * m_n b - m_sum b * m_n a.
Definition cmp_owners `{Locale} (ms : list (str * Mean)) (a b : str) : Z :=
  cmp_or (cmp_mean (mean_of ms a) (mean_of ms b)) (localeCompare a b).

Definition worstOwners `{Locale} (data : HeatmapData) (limit : nat) : HeatmapData :=
  if (length (hm_owners data) <=? limit)%nat then data
  else
    let owners := take limit (sort_by (cmp_owners (means (hm_cells data))) (hm_owners data)) in
    {| hm_owners := owners; hm_categories := hm_categories data;
       hm_cells := List.filter (fun c => bool_decide (hc_owner c ∈ owners)) (hm_cells data) |}.

(** ** The version timeline *)
Record VersionTimelineItem := {
  vt_version : str; vt_at : Z; vt_classification : option str; vt_isCurrent : option bool; vt_count : option Z }.

Definition TIMELINE_MAX_MARKERS : nat := 60.
Definition WEEK : Z := 7 * 86400000.
Definition CLASS_RANK : list (str * Z) := [ ("BREAKING", 3); ("POTENTIAL_BREAKING", 2); ("NON_BREAKING", 1) ].

(** [CLASS_RANK[c || ''] ?? 0]; a member of [Object.prototype] is no number. *)
Definition class_rank (c : option str) : option Z :=
  match obj_get CLASS_RANK (or_str c []) with Own r => Some r | Inherited _ => None | Missing => Some 0 end.

Definition outranks (a b : option str) : bool :=
  match class_rank a, class_rank b with Some x, Some y => y <? x | _, _ => false end.

Definition week_of (it : VersionTimelineItem) : Z := it.(vt_at) / WEEK * WEEK.

Definition first_of_week (it : VersionTimelineItem) : VersionTimelineItem :=
  {| vt_version := vt_version it; vt_at := week_of it; vt_classification := vt_classification it;
     vt_isCurrent := vt_isCurrent it; vt_count := Some 1 |}.

Definition join_week (b it : VersionTimelineItem) : VersionTimelineItem :=
  {| vt_version := vt_version it; vt_at := vt_at b;
     vt_classification := if outranks (vt_classification it) (vt_classification b) then vt_classification it else vt_classification b;
     vt_isCurrent := if nullish (vt_isCurrent b) false then vt_isCurrent b else vt_isCurrent it;
     vt_count := (fun n => n + 1) <$> vt_count b |}.

Definition bin_item (weeks : list (Z * VersionTimelineItem)) (it : VersionTimelineItem) : list (Z * VersionTimelineItem) :=
  let w := week_of it in
  match assoc w weeks with
  | None => map_set w (first_of_week it) weeks
  | Some b => map_set w (join_week b it) weeks
  end.

Definition binTimeline (items : list VersionTimelineItem) (max : nat) : list VersionTimelineItem :=
  if (length items <=? max)%nat then items else values (fold_left bin_item items []).

Record VersionEntry := {
  ve_version : option str; ve_createdAt : option str; ve_classification : option str; ve_isCurrent : option bool }.

Section Timeline.
Variable get_time : str -> option Z.

Definition timeline_item (v : VersionEntry) : option VersionTimelineItem :=
  match when_truthy (ve_createdAt v) with
  | Some c => match get_time c with
              | Some ts => Some {| vt_version := or_str (ve_version v) []; vt_at := ts;
                                   vt_classification := Some (or_str (ve_classification v) []);
                                   vt_isCurrent := ve_isCurrent v; vt_count := None |}
              | None => None
              end
  | None => None
  end.

Definition versionTimelineData (versions : list VersionEntry) : list VersionTimelineItem :=
  sort_by (fun a b => vt_at a - vt_at b) (omap timeline_item versions).
End Timeline.

(** ** The heatmap *)

(** The checks of an owner in a category. *)
Definition checks_of (items : list (str * ChartCheck)) (o c : str) : list (str * ChartCheck) :=
  List.filter (fun x => (x.1 === o) && (heat_category x.2 === c)) items.
Definition is_done (x : str * ChartCheck) : bool := ck_status x.2 === Some "done".
Definition tally_of (l : list (str * ChartCheck)) : Tally :=
  {| t_done := Z.of_nat (length (List.filter is_done l)); t_total := Z.of_nat (length l) |}.

(** The separator is in no name. *)
Definition plain_item (x : str * ChartCheck) : Prop := x00 ∉ x.1 /\ x00 ∉ heat_category x.2.

Lemma fold_tally l t :
  fold_left add_check l t = {| t_done := t_done t + t_done (tally_of l); t_total := t_total t + t_total (tally_of l) |}.
Proof.
  revert t. induction l as [|x l IH]; intros [d n]; [simpl; f_equal; lia|]. cbn [fold_left]. rewrite IH.
  unfold add_check, tally_of. cbn [t_done t_total List.filter]. change (ck_status x.2 === Some "done") with (is_done x).
  destruct (is_done x); cbn [length]; f_equal; lia.
Qed.

Lemma cell_key_eq x y : plain_item x -> plain_item y -> cell_key x = cell_key y <-> x.1 = y.1 /\ heat_category x.2 = heat_category y.2.
Proof.
  intros [Hx _] [Hy _]. unfold cell_key. split; [|by intros [-> ->]]. intros E. by apply cut_first in E.
Qed.

Lemma row_tally items x :
  Forall plain_item items -> x ∈ items ->
  group_row cell_key new_tally add_check items (cell_key x) = tally_of (checks_of items x.1 (heat_category x.2)).
Proof.
  intros Hp Hx. unfold group_row. rewrite fold_tally. cbn [new_tally t_done t_total].
  assert (List.filter (fun y => cell_key y === cell_key x) items = checks_of items x.1 (heat_category x.2)) as ->.
  { rewrite Forall_forall in Hp. pose proof (Hp x Hx) as Hpx. clear Hx. unfold checks_of. induction items as [|y l IH]; [done|].
    cbn [List.filter]. rewrite IH by (intros z Hz; apply Hp; by right).
    rewrite <- bool_decide_and.
    by rewrite (bool_decide_ext (cell_key y = cell_key x) (y.1 = x.1 /\ heat_category y.2 = heat_category x.2))
      by (apply cell_key_eq; [apply Hp; left|done]). }
  by destruct (tally_of _).
Qed.

Lemma heat_cell_of x t : plain_item x ->
  heat_cell (cell_key x, t) = {| hc_owner := x.1; hc_category := heat_category x.2; hc_score := percent t; hc_n := t_total t |}.
Proof.
  intros [Ho Hc]. unfold heat_cell, cell_key. cbn [fst snd app]. rewrite split_on_app by done. by rewrite split_on_none.
Qed.

Lemma heat_cells services c :
  Forall plain_item (heat_items services) ->
  c ∈ hm_cells (heatmapData services) <->
  exists x, x ∈ heat_items services /\
    let t := tally_of (checks_of (heat_items services) x.1 (heat_category x.2)) in
    c = {| hc_owner := x.1; hc_category := heat_category x.2; hc_score := percent t; hc_n := t_total t |}.
Proof.
  intros Hp. cbn [heatmapData hm_cells]. rewrite group_by_rows, <- list_fmap_compose, list_elem_of_fmap.
  setoid_rewrite elem_of_dedupe. setoid_rewrite list_elem_of_fmap. unfold compose. split.
  - intros (k & -> & x & -> & Hx). exists x. split; [done|]. rewrite row_tally by done.
    apply heat_cell_of. by eapply Forall_forall in Hp.
  - intros (x & Hx & ->). exists (cell_key x). split; [|by exists x]. rewrite row_tally by done.
    symmetry. apply heat_cell_of. by eapply Forall_forall in Hp.
Qed.

Definition sum_Z (l : list Z) : Z := fold_right Z.add 0 l.

Lemma sum_lengths {A} (ls : list (list A)) : sum_Z ((fun l => Z.of_nat (length l)) <$> ls) = Z.of_nat (length (concat ls)).
Proof. induction ls as [|l ls IH]; [done|]. cbn [concat]. rewrite length_app, Nat2Z.inj_add, <- IH. done. Qed.

(** The groups of a list, counted, add up to it. *)
Lemma sum_groups {A K} `{EqDecision K} (key : A -> K) (l : list A) :
  sum_Z ((fun k => Z.of_nat (length (List.filter (fun x => key x === k) l))) <$> dedupe (key <$> l)) = Z.of_nat (length l).
Proof.
  assert (concat ((fun k => List.filter (fun x => key x === k) l) <$> dedupe (key <$> l)) ≡ₚ l) as Hp.
  { apply groups_Permutation; [apply NoDup_dedupe|]. intros x Hx. rewrite elem_of_dedupe. by apply list_elem_of_fmap_2. }
  by rewrite <- (Permutation_length Hp), <- sum_lengths, <- list_fmap_compose.
Qed.

Lemma heat_total services : sum_Z (hc_n <$> hm_cells (heatmapData services)) = Z.of_nat (length (heat_items services)).
Proof.
  cbn [heatmapData hm_cells]. rewrite group_by_rows, <- !list_fmap_compose, <- (sum_groups cell_key (heat_items services)).
  f_equal. apply list_fmap_ext. intros i k _. unfold compose, heat_cell, group_row. cbn [fst snd hc_n].
  rewrite fold_tally. cbn [new_tally t_total]. by rewrite Z.add_0_l.
Qed.

Lemma NoDup_fmap_on {A B} (f : A -> B) l : NoDup l -> (forall x y, x ∈ l -> y ∈ l -> f x = f y -> x = y) -> NoDup (f <$> l).
Proof.
  induction 1 as [|x l Hx Hn IH]; intros Hf; [constructor|]. rewrite fmap_cons. constructor.
  - intros (y & E & Hy)%list_elem_of_fmap. apply Hx. assert (x = y) as -> by (apply Hf; [left|by right|done]). done.
  - apply IH. intros a b Ha Hb. apply Hf; by right.
Qed.

Lemma heat_cells_distinct services :
  Forall plain_item (heat_items services) ->
  NoDup ((fun c => (hc_owner c, hc_category c)) <$> hm_cells (heatmapData services)).
Proof.
  intros Hp. cbn [heatmapData hm_cells]. rewrite group_by_rows, <- !list_fmap_compose.
  apply NoDup_fmap_on; [apply NoDup_dedupe|]. intros k k'. rewrite !elem_of_dedupe, !list_elem_of_fmap.
  intros (x & -> & Hx) (y & -> & Hy). rewrite Forall_forall in Hp. unfold compose.
  rewrite !heat_cell_of by (by apply Hp). cbn [hc_owner hc_category]. intros [= E1 E2].
  apply cell_key_eq; [by apply Hp..|done].
Qed.

Lemma percent_range l : 0 <= percent (tally_of l) <= 100.
Proof.
  unfold percent, tally_of. cbn [t_done t_total]. pose proof (sublist_length _ _ (filter_sublist is_done l)) as Hl.
  destruct (Z.ltb_spec 0 (Z.of_nat (length l))); [|lia]. split; [apply Z.div_pos; lia|].
  apply Z.lt_succ_r, Z.div_lt_upper_bound; lia.
Qed.

(** When no name holds the separator, the heatmap has exactly one cell per owner and category
    that has a check, it counts that owner's checks of that category and scores the share
    that is done, all cells together count every check once, and the axes are the owners and
    categories that occur, in order. *)
Theorem heatmap_exact (services : list ChartService) (Hp : Forall plain_item (heat_items services)) :
  let items := heat_items services in
  let d := heatmapData services in
  (forall c, c ∈ hm_cells d <-> exists x, x ∈ items /\
     let t := tally_of (checks_of items x.1 (heat_category x.2)) in
     c = {| hc_owner := x.1; hc_category := heat_category x.2; hc_score := percent t; hc_n := t_total t |}) /\
  NoDup ((fun c => (hc_owner c, hc_category c)) <$> hm_cells d) /\
  sum_Z (hc_n <$> hm_cells d) = Z.of_nat (length items) /\
  (forall c, c ∈ hm_cells d -> hc_owner c ∈ hm_owners d /\ hc_category c ∈ hm_categories d /\ 0 <= hc_score c <= 100) /\
  StronglySorted (le_by str_cmp) (hm_owners d) /\ NoDup (hm_owners d).
Proof.
  cbn zeta. split_and!.
  - intros c. by apply heat_cells.
  - by apply heat_cells_distinct.
  - apply heat_total.
  - intros c (x & Hx & ->)%heat_cells; [|done]. cbn [hc_owner hc_category hc_score heatmapData hm_owners hm_categories].
    unfold sort_str. rewrite !elem_of_sort_by, !elem_of_dedupe. split_and!; [by apply list_elem_of_fmap_2| |apply percent_range..].
    by apply (list_elem_of_fmap_2 (fun x : str * ChartCheck => heat_category x.2)).
  - apply sort_str_Sorted.
  - cbn [heatmapData hm_owners]. unfold sort_str. rewrite sort_by_Permutation. apply NoDup_dedupe.
Qed.

(** Two teams, one of which has checks without a category. *)
Definition demo_check (c : option str) (s : str) : ChartCheck := {| ck_category := c; ck_status := Some s |}.
Definition demo_service (t : str) (cs : list ChartCheck) : ChartService :=
  {| cs_name := t; cs_contractStatus := None; cs_blastRadius := None;
     cs_owner := Some {| team := Some t; dri := None; contacts := None |};
     cs_readiness := Some {| cr_score := Some 50; cr_minScore := None; cr_checks := Some cs |} |}.
Definition demo_services : list ChartService :=
  [ demo_service "pay" [demo_check (Some "docs") "done"; demo_check (Some "docs") "todo"; demo_check None "done"];
    demo_service "ops" [demo_check (Some "docs") "todo"] ].

Lemma heatmap_exact_witness :
  sum_Z (hc_n <$> hm_cells (heatmapData demo_services)) = 4 /\
  {| hc_owner := "team:pay"; hc_category := "docs"; hc_score := 50; hc_n := 2 |} ∈ hm_cells (heatmapData demo_services).
Proof.
  destruct (heatmap_exact demo_services) as (H1 & _ & H3 & _).
  { apply Forall_forall. intros x Hx. unfold plain_item. rewrite <- !includes_byte. apply list_elem_of_In in Hx.
    by repeat (destruct Hx as [<-|Hx]; [by vm_compute|]). }
  split; [exact H3|]. apply H1. exists ("team:pay", demo_check (Some "docs") "done"). split; [|by vm_compute].
  apply list_elem_of_In. by left.
Defined.

(** ** The timeline *)

(** The marker of a week's versions. *)
Definition add_to_week (o : option VersionTimelineItem) (it : VersionTimelineItem) : option VersionTimelineItem :=
  Some (match o with None => first_of_week it | Some b => join_week b it end).
Definition week_marker (own : list VersionTimelineItem) : option VersionTimelineItem := fold_left add_to_week own None.
Definition lift_weeks (m : list (Z * VersionTimelineItem)) : list (Z * option VersionTimelineItem) :=
  (fun p => (p.1, Some p.2)) <$> m.

Lemma assoc_lift w m : assoc w (lift_weeks m) = Some <$> assoc w m.
Proof.
  induction m as [|[k b] m IH]; [done|]. unfold lift_weeks in *. rewrite fmap_cons. cbn [assoc fst snd].
  rewrite IH. by destruct (w === k).
Qed.

Lemma map_set_lift w b m : map_set w (Some b) (lift_weeks m) = lift_weeks (map_set w b m).
Proof.
  induction m as [|[k c] m IH]; [done|]. unfold lift_weeks in *. rewrite fmap_cons. cbn [map_set fst snd].
  destruct (w === k); rewrite fmap_cons; [done|]. by rewrite IH.
Qed.

Lemma bin_rows items :
  lift_weeks (fold_left bin_item items []) =
    (fun w => (w, week_marker (List.filter (fun it => week_of it === w) items))) <$> dedupe (week_of <$> items).
Proof.
  transitivity (group_by week_of (fun _ => None) add_to_week items); [|by rewrite group_by_rows].
  unfold group_by. change [] with (lift_weeks []) at 2. generalize ([] : list (Z * VersionTimelineItem)).
  induction items as [|it items IH]; intros m; [done|]. cbn [fold_left]. rewrite IH. f_equal.
  unfold bin_item, group_step. rewrite assoc_lift. destruct (assoc (week_of it) m) as [b|]; symmetry; apply map_set_lift.
Qed.

Definition current (it : VersionTimelineItem) : bool := nullish (vt_isCurrent it) false.
Definition rank (it : VersionTimelineItem) : Z := nullish (class_rank (vt_classification it)) 0.

Record marks (w : Z) (own : list VersionTimelineItem) (b : VersionTimelineItem) : Prop := {
  k_at : vt_at b = w;
  k_count : vt_count b = Some (Z.of_nat (length own));
  k_version : vt_version <$> last own = Some (vt_version b);
  k_current : current b = existsb current own;
  k_ranked : is_Some (class_rank (vt_classification b));
  k_worst : (exists it, it ∈ own /\ vt_classification it = vt_classification b) /\ forall it, it ∈ own -> rank it <= rank b }.

Definition ranked (it : VersionTimelineItem) : Prop := is_Some (class_rank (vt_classification it)).

Lemma marks_first w it : ranked it -> week_of it = w -> marks w [it] (first_of_week it).
Proof.
  intros Hr Hw. constructor; cbn [first_of_week vt_at vt_count vt_version vt_classification]; try done.
  - cbn. by rewrite orb_false_r.
  - split; [exists it; split; [left|done]|]. intros x ->%list_elem_of_singleton. done.
Qed.

Lemma marks_join w own b it : ranked it -> marks w own b -> marks w (own ++ [it]) (join_week b it).
Proof.
  intros Hr [Ha Hc Hv Hcur Hrb [(e & He & Ee) Hw]]. constructor; cbn [join_week vt_at vt_count vt_version vt_classification]; try done.
  - rewrite Hc, length_app. cbn. f_equal. lia.
  - by rewrite last_snoc.
  - rewrite existsb_app, <- Hcur. unfold current. cbn [existsb join_week vt_isCurrent]. rewrite orb_false_r.
    destruct (nullish (vt_isCurrent b) false) eqn:E; [by rewrite E|done].
  - by destruct (outranks _ _).
  - assert (forall x y, ranked x -> is_Some (class_rank (vt_classification y)) ->
      outranks (vt_classification x) (vt_classification y) = (rank y <? rank x)) as Ho.
    { intros x y [a Hx] [c Hy]. unfold outranks, rank. by rewrite Hx, Hy. }
    unfold rank at 2. cbn [join_week vt_classification]. rewrite (Ho it b Hr Hrb).
    destruct (Z.ltb_spec (rank b) (rank it)) as [Hlt|Hge].
    + split; [exists it; split; [set_solver|done]|]. intros x [Hx| ->%list_elem_of_singleton]%elem_of_app; [|done].
      apply Hw in Hx. fold (rank it). lia.
    + split; [exists e; split; [set_solver|done]|]. intros x [Hx| ->%list_elem_of_singleton]%elem_of_app; [by apply Hw|done].
Qed.

Lemma week_marker_marks w own :
  own <> [] -> Forall (fun it => ranked it /\ week_of it = w) own -> exists b, week_marker own = Some b /\ marks w own b.
Proof.
  intros Hne Hf. induction own as [|it own IH] using rev_ind; [done|]. apply Forall_app in Hf as [Hf [[Hr Hw] _]%Forall_cons].
  unfold week_marker in *. rewrite fold_left_app. cbn [fold_left]. destruct own as [|x own].
  - eexists. split; [done|]. by apply marks_first.
  - destruct IH as (b & Hb & Hm); [done|done|]. rewrite Hb. eexists. split; [done|]. by apply marks_join.
Qed.

Lemma values_lift m : Some <$> values m = snd <$> lift_weeks m.
Proof. unfold values, lift_weeks. by rewrite <- !list_fmap_compose. Qed.

(** Past the limit, the timeline has one marker per week that has a version, and each stands
    for all its versions: it counts them, is named by the newest, is current when one of them
    is, and has the class of the worst among them. All markers together count every version. *)
Theorem binTimeline_conserves (items : list VersionTimelineItem) (max : nat)
    (Hmax : (max < length items)%nat) (Hr : Forall ranked items) :
  Forall2 (fun w b => marks w (List.filter (fun it => week_of it === w) items) b)
    (dedupe (week_of <$> items)) (binTimeline items max) /\
  sum_Z ((fun b => nullish (vt_count b) 0) <$> binTimeline items max) = Z.of_nat (length items).
Proof.
  unfold binTimeline. rewrite (proj2 (Nat.leb_gt _ _) Hmax).
  assert (Forall2 (fun w b => marks w (List.filter (fun it => week_of it === w) items) b)
    (dedupe (week_of <$> items)) (values (fold_left bin_item items []))) as H.
  { apply Forall2_same_length_lookup_2.
    - rewrite <- (length_fmap Some (values _)), values_lift, bin_rows, !length_fmap. done.
    - intros i w b Hw Hb. pose proof (f_equal (fun l => l !! i) (values_lift (fold_left bin_item items []))) as E.
      cbn beta in E. rewrite bin_rows, !list_lookup_fmap, Hb, Hw in E. cbn in E. injection E as E.
      destruct (week_marker_marks w (List.filter (fun it => week_of it === w) items)) as (b' & Hb' & Hm).
      + apply list_elem_of_lookup_2 in Hw. rewrite elem_of_dedupe, list_elem_of_fmap in Hw. destruct Hw as (it & -> & Hit).
        intros E0. apply (elem_of_nil (A := VersionTimelineItem) it). rewrite <- E0. apply elem_of_lfilter. by rewrite eqb_refl.
      + apply Forall_forall. intros it [Hit Hw']%elem_of_lfilter. apply bool_decide_eq_true_1 in Hw'.
        rewrite Forall_forall in Hr. by split; [apply Hr|].
      + rewrite Hb' in E. by injection E as ->. }
  split; [done|]. rewrite <- (sum_groups week_of items). f_equal. clear Hmax Hr.
  induction H as [|w b ws bs Hm _ IH]; [done|]. rewrite !fmap_cons, IH. by rewrite (k_count _ _ _ Hm).
Qed.

Definition demo_version (v : str) (t : Z) (c : str) : VersionTimelineItem :=
  {| vt_version := v; vt_at := t; vt_classification := Some c; vt_isCurrent := None; vt_count := None |}.
Definition demo_versions : list VersionTimelineItem :=
  [ demo_version "1.0.0" 5 "NON_BREAKING"; demo_version "2.0.0" 9 "BREAKING"; demo_version "2.0.1" 11 "";
    demo_version "2.1.0" (WEEK + 3) "POTENTIAL_BREAKING" ].

Lemma binTimeline_conserves_witness :
  sum_Z ((fun b => nullish (vt_count b) 0) <$> binTimeline demo_versions 2) = 4 /\
  (vt_version <$> binTimeline demo_versions 2) = ["2.0.1"; "2.1.0"].
Proof.
  split; [|by vm_compute]. apply (binTimeline_conserves demo_versions 2); [by vm_compute; lia|].
  unfold ranked. repeat constructor; by eexists.
Defined.

(** The timeline's versions are oldest first, and all that have a date. *)
Lemma versionTimelineData_sorted get_time versions :
  StronglySorted (fun a b => vt_at a <= vt_at b) (versionTimelineData get_time versions) /\
  versionTimelineData get_time versions ≡ₚ omap (timeline_item get_time) versions.
Proof.
  split; [|apply sort_by_Permutation]. unfold versionTimelineData.
  rewrite <- list_fmap_id. apply (StronglySorted_fmap _ (le_by (fun a b => vt_at a - vt_at b))).
  - unfold le_by. intros a b. cbn. lia.
  - apply sort_by_Sorted; unfold le_by; lia.
Qed.

(** *** The teams furthest behind *)

(** At most [limit] teams, each with all its cells and no cell of another. *)
Lemma worstOwners_spec `{Locale} data limit :
  (limit < length (hm_owners data))%nat ->
  length (hm_owners (worstOwners data limit)) = limit /\
  (forall o, o ∈ hm_owners (worstOwners data limit) -> o ∈ hm_owners data) /\
  forall c, c ∈ hm_cells (worstOwners data limit) <-> c ∈ hm_cells data /\ hc_owner c ∈ hm_owners (worstOwners data limit).
Proof.
  intros Hl. unfold worstOwners. rewrite (proj2 (Nat.leb_gt _ _) Hl). cbn [hm_owners hm_cells]. split_and!.
  - rewrite length_take, length_sort_by. lia.
  - intros o Ho. apply elem_of_take in Ho as (i & Ho & _). apply list_elem_of_lookup_2 in Ho. by apply elem_of_sort_by in Ho.
  - intros c. by rewrite elem_of_lfilter, bool_decide_eq_true.
Qed.

Lemma quadrant_gate svc r sc :
  cs_readiness svc = Some r -> cr_score r = Some sc ->
  exists q, quadrant_item svc = Some q /\ (0 <= qi_x q <-> nullish (cr_minScore r) 0 <= sc).
Proof. intros Hr Hs. unfold quadrant_item. rewrite Hr, Hs. eexists. split; [done|]. cbn [qi_x]. lia. Qed.
