(* ===== verification/JsonText.v ===== *)
(** * JSON text determines the value: the [JSON.stringify] of Canonical.v

    Two values with the same text are the same value, so comparing canonical texts, as
    [deepEqual] of [src/pkg/dashboard/frontend/src/lib/transport.ts] and the hashes of
    [src/release/orchestrator/canonical.mjs] do, compares values: up to the order of the
    keys of an object, and nothing else. *)

From stdpp Require Import base list gmap sorting.
From Stdlib Require Import Init.Byte ZArith NArith Lia.
From S2P Require Import Prelude Canonical.

(** ** Numbers *)
Definition num_byte (b : byte) : bool := is_digit b || (b === x2d).

(** What follows a number is not part of one. *)
Definition stops (s : str) : Prop := match s with b :: _ => num_byte b = false | [] => True end.

Lemma cut_class (p : byte -> bool) (a b s t : str) :
  Forall (fun c => p c = true) a -> Forall (fun c => p c = true) b ->
  match s with c :: _ => p c = false | [] => True end -> match t with c :: _ => p c = false | [] => True end ->
  a ++ s = b ++ t -> a = b /\ s = t.
Proof.
  intros Ha. revert b. induction Ha as [|x a Hx _ IH]; intros [|y b] Hb Hs Ht E; cbn [app] in E.
  - done.
  - apply Forall_cons in Hb as [Hy _]. subst s. congruence.
  - subst t. congruence.
  - apply Forall_cons in Hb as [Hy Hb]. injection E as -> E. by destruct (IH b Hb Hs Ht E) as [-> ->].
Qed.

Lemma show_Z_bytes z : Forall (fun c => num_byte c = true) (show_Z z).
Proof.
  destruct (show_Z_digits z) as (s & ds & -> & Hs & Hd). apply Forall_app. split.
  - destruct Hs as [->| ->]; repeat constructor.
  - eapply Forall_impl; [exact Hd|]. intros c Hc. unfold num_byte. by rewrite Hc.
Qed.

(** ** Quoted text *)
Definition unhex (a b : byte) : option byte :=
  List.find (fun c => (hex_lower (code c / 16) === a) && (hex_lower (code c mod 16) === b))
    [x00; x01; x02; x03; x04; x05; x06; x07; x0b; x0e; x0f; x10; x11; x12; x13; x14; x15; x16; x17; x18; x19; x1a; x1b; x1c;
     x1d; x1e; x1f].

(** The first character of a quoted text, and the rest. *)
Definition unquote (s : str) : option (byte * str) :=
  match s with
  | x22 :: _ => None
  | x5c :: x22 :: r => Some (x22, r)
  | x5c :: x5c :: r => Some (x5c, r)
  | x5c :: x62 :: r => Some (x08, r)
  | x5c :: x66 :: r => Some (x0c, r)
  | x5c :: x6e :: r => Some (x0a, r)
  | x5c :: x72 :: r => Some (x0d, r)
  | x5c :: x74 :: r => Some (x09, r)
  | x5c :: x75 :: _ :: _ :: a :: b :: r => (fun c => (c, r)) <$> unhex a b
  | b :: r => Some (b, r)
  | [] => None
  end.

Lemma unquote_byte b r : unquote (quote_byte b ++ r) = Some (b, r).
Proof. by destruct b. Qed.

Lemma quoted_inj s s' r r' : (s ≫= quote_byte) ++ x22 :: r = (s' ≫= quote_byte) ++ x22 :: r' -> s = s' /\ r = r'.
Proof.
  revert s'. induction s as [|b s IH]; intros [|b' s'] E; rewrite ?bind_cons in E; cbn [app mbind list_bind] in E.
  - by injection E as ->.
  - apply (f_equal unquote) in E. rewrite <- app_assoc, unquote_byte in E. done.
  - apply (f_equal unquote) in E. rewrite <- app_assoc, unquote_byte in E. done.
  - apply (f_equal unquote) in E. rewrite <- !app_assoc, !unquote_byte in E. injection E as -> E.
    by destruct (IH s' E) as [-> ->].
Qed.

Lemma quote_inj s s' r r' : quote s ++ r = quote s' ++ r' -> s = s' /\ r = r'.
Proof. unfold quote. rewrite <- !app_assoc. cbn [app]. intros [= E]. by apply quoted_inj. Qed.

(** ** Lists of items between brackets *)
Section Items.
Context {A : Type} (show : A -> str) (close : byte).
Hypothesis close_stops : num_byte close = false.
Hypothesis close_comma : close <> x2c.
Hypothesis show_head : forall x s, exists b r, show x ++ s = b :: r /\ b <> close.

(** The text of [x] tells [x], and where it ends. *)
Definition readable (x : A) : Prop := forall y s t, stops s -> stops t -> show x ++ s = show y ++ t -> x = y /\ s = t.

Definition tails (l : list A) : str := l ≫= fun y => "," ++ show y.

Lemma join_tails x l : join "," (map show (x :: l)) = show x ++ tails l.
Proof.
  revert x. induction l as [|y l IH]; intros x; [simpl; by rewrite app_nil_r|].
  change (map show (x :: y :: l)) with (show x :: show y :: map show l). rewrite join_cons2.
  change (show y :: map show l) with (map show (y :: l)). rewrite IH. unfold tails. rewrite bind_cons, <- !app_assoc. done.
Qed.

Lemma stops_tails l s : stops (tails l ++ close :: s).
Proof using close_stops. destruct l as [|x l]; [by apply close_stops|]. done. Qed.

Lemma tails_inj l l' s t : Forall readable l -> tails l ++ close :: s = tails l' ++ close :: t -> l = l' /\ s = t.
Proof using close_stops close_comma.
  intros Hl. revert l'. induction Hl as [|x l Hx _ IH]; intros [|y l'] E; unfold tails in E; rewrite ?bind_cons in E; cbn [app] in E.
  - by injection E as ->.
  - injection E as E _. done.
  - injection E as E _. by destruct close_comma.
  - injection E as E. rewrite <- !app_assoc in E. apply Hx in E as [-> E]; [|apply stops_tails..].
    by destruct (IH l' E) as [-> ->].
Qed.

Lemma items_inj l l' s t :
  Forall readable l -> join "," (map show l) ++ close :: s = join "," (map show l') ++ close :: t -> l = l' /\ s = t.
Proof using close_stops close_comma show_head.
  intros Hl E. destruct l as [|x l], l' as [|y l']; rewrite ?join_tails, <- ?app_assoc in E; cbn [map join app] in E.
  - by injection E as ->.
  - destruct (show_head y (tails l' ++ close :: t)) as (b & r & Eb & Hb). rewrite Eb in E. by injection E as E _.
  - destruct (show_head x (tails l ++ close :: s)) as (b & r & Eb & Hb). rewrite Eb in E. by injection E as E _.
  - apply Forall_cons in Hl as [Hx Hl]. apply Hx in E as [-> E]; [|apply stops_tails..].
    by apply tails_inj in E as [-> ->].
Qed.
End Items.

(** ** Every value *)

(** The kind of a value, by the first byte of its text. *)
Definition kind_byte (b : byte) : nat :=
  if b === x6e then 0 else if (b === x74) || (b === x66) then 1 else if num_byte b then 2
  else if b === x22 then 3 else if b === x5b then 4 else if b === x7b then 5 else 6.

Definition kind_of (v : json) : nat :=
  match v with JNull => 0 | JBool _ => 1 | JNumber _ => 2 | JString _ => 3 | JArray _ => 4 | JObject _ => 5 end.

Lemma kind_number b : num_byte b = true -> kind_byte b = 2.
Proof. by destruct b. Qed.

Lemma show_Z_cons z : exists b r, show_Z z = b :: r.
Proof.
  destruct z as [|p|p]; [by do 2 eexists| |by do 2 eexists]. pose proof (show_N_nonempty (Npos p)) as H.
  change (show_Z (Z.pos p)) with (show_N (Npos p)). destruct (show_N (N.pos p)) as [|b r]; [done|]. by exists b, r.
Qed.

Lemma stringify_head v s : exists b r, stringify v ++ s = b :: r /\ kind_byte b = kind_of v.
Proof.
  destruct v as [|[]|z|t|l|o]; [by do 2 eexists..| | | |]; try by do 2 eexists.
  destruct (show_Z_cons z) as (b & r & E). pose proof (show_Z_bytes z) as Hb. cbn [stringify]. rewrite E in *.
  apply Forall_cons in Hb as [Hb _]. exists b, (r ++ s). split; [done|]. by apply kind_number.
Qed.

Definition member_text (p : str * json) : str := let '(k, w) := p in quote k ++ ":" ++ stringify w.

Lemma readable_member k w : readable stringify w -> readable member_text (k, w).
Proof.
  intros Hw [k' w'] s t Hs Ht. unfold member_text. rewrite <- !app_assoc. intros [-> E]%quote_inj. injection E as E.
  by apply Hw in E as [-> ->].
Qed.

Lemma stringify_readable v : readable stringify v.
Proof.
  induction v as [|b|z|x|l Hl|o Ho] using json_strong_ind; intros w s t Hs Ht E;
    pose proof E as Ek; destruct (stringify_head w t) as (bw & rw & Ew & Kw); rewrite Ew in Ek;
    match type of Ek with stringify ?v ++ _ = _ => destruct (stringify_head v s) as (bv & rv & Ev & Kv) end;
    rewrite Ev in Ek; injection Ek as -> _; rewrite Kv in Kw; clear Ew Ev Kv bw rw rv;
    destruct w as [|b'|z'|x'|l'|o']; try done; clear Kw; cbn [stringify] in E.
  - by apply app_inv_head in E.
  - destruct b, b'; try done; by apply app_inv_head in E.
  - apply (cut_class num_byte) in E as [E ->]; [|apply show_Z_bytes..|done|done]. by apply show_Z_inj in E as ->.
  - by apply quote_inj in E as [-> ->].
  - rewrite <- !app_assoc in E. cbn [app] in E. injection E as E.
    apply (items_inj stringify x5d) in E as [-> ->]; try done.
    intros y r. destruct (stringify_head y r) as (b & r' & Eb & Kb). exists b, r'. split; [done|]. intros ->. by destruct y.
  - rewrite <- !app_assoc in E. cbn [app] in E. injection E as E.
    apply (items_inj member_text x7d) in E as [-> ->]; try done.
    + intros [k y] r. by do 2 eexists.
    + eapply Forall_impl; [exact Ho|]. intros [k y]. apply readable_member.
Qed.

Lemma stringify_inj v w : stringify v = stringify w -> v = w.
Proof. intros E. destruct (stringify_readable v w [] []) as [-> _]; [done|done|by rewrite !app_nil_r|done]. Qed.

(** ** Up to the order of keys *)

(** The keys of an object are distinct, at every depth. *)
Fixpoint wf_json (v : json) : Prop :=
  match v with
  | JArray l => fold_right (fun x P => wf_json x /\ P) True l
  | JObject o => NoDup (keys o) /\ fold_right (fun (p : str * json) P => let '(_, w) := p in wf_json w /\ P) True o
  | _ => True
  end.

Lemma wf_array l : wf_json (JArray l) <-> Forall wf_json l.
Proof. cbn [wf_json]. induction l as [|x l IH]; [by split|]. cbn [fold_right]. by rewrite IH, Forall_cons. Qed.

Lemma wf_object o : wf_json (JObject o) <-> NoDup (keys o) /\ Forall (fun p => wf_json p.2) o.
Proof.
  cbn [wf_json]. f_equiv. induction o as [|[k w] o IH]; [by split|]. cbn [fold_right]. by rewrite IH, Forall_cons.
Qed.

(** The same value with the entries of its objects in another order. *)
Inductive same_json : json -> json -> Prop :=
  | SNull : same_json JNull JNull
  | SBool b : same_json (JBool b) (JBool b)
  | SNumber z : same_json (JNumber z) (JNumber z)
  | SString s : same_json (JString s) (JString s)
  | SArray l l' : Forall2 same_json l l' -> same_json (JArray l) (JArray l')
  | SObject o o' o'' : o' ≡ₚ o'' -> Forall2 (fun p q => p.1 = q.1 /\ same_json p.2 q.2) o o'' -> same_json (JObject o) (JObject o').

Lemma stable_same v w : stable v = stable w -> same_json v w.
Proof.
  revert w. induction v as [|b|z|x|l Hl|o Ho] using json_strong_ind; intros w E;
    destruct w as [|b'|z'|x'|l'|o']; try done; rewrite ?stable_object in E; try (injection E as ->; constructor).
  - constructor.
  - cbn [stable] in E. injection E as E. constructor. revert l' E. induction Hl as [|x l Hx _ IH]; intros [|y l'] E; try done.
    injection E as E1 E2. constructor; [by apply Hx|by apply IH].
  - injection E as E. assert (stable_entry <$> o ≡ₚ stable_entry <$> o') as Hp.
    { rewrite <- (sort_by_Permutation cmp_key (stable_entry <$> o)), E. apply sort_by_Permutation. }
    apply Permutation_map_inv in Hp as (o3 & E3 & Hp). apply (SObject _ _ o3 Hp). clear Hp E o'.
    revert o3 E3. induction Ho as [|[k x] o Hx _ IH]; intros [|[k' y] o3] E3; try done.
    unfold stable_entry in E3. cbn in E3. injection E3 as -> E1 E2. constructor; [split; [done|by apply Hx]|by apply IH].
Qed.

Lemma same_array l w : same_json (JArray l) w -> exists l', w = JArray l' /\ Forall2 same_json l l'.
Proof. inversion 1; subst. by eexists. Qed.

Lemma same_object o w :
  same_json (JObject o) w ->
  exists o' o'', w = JObject o' /\ o' ≡ₚ o'' /\ Forall2 (fun p q => p.1 = q.1 /\ same_json p.2 q.2) o o''.
Proof. inversion 1; subst. by do 2 eexists. Qed.

Lemma same_stable v w : wf_json v -> same_json v w -> stable v = stable w.
Proof.
  revert w. induction v as [|b|z|x|l Hl|o Ho] using json_strong_ind; intros w Hw Hs; try by inversion Hs.
  - apply same_array in Hs as (l' & -> & Hs). rewrite wf_array in Hw. cbn [stable]. f_equal. revert Hl Hw.
    induction Hs as [|x y l l' Hxy _ IH]; intros Hl Hw; [done|].
    apply Forall_cons in Hl as [Hx Hl], Hw as [Hwx Hw]. cbn [map]. by rewrite (Hx y Hwx Hxy), IH.
  - apply same_object in Hs as (o' & o'' & -> & Hp & Hs). apply wf_object in Hw as [Hn Hw]. rewrite !stable_object. f_equal.
    assert (stable_entry <$> o = stable_entry <$> o'') as E.
    { clear Hn Hp o'. revert Ho Hw. induction Hs as [|[k x] [k' y] o o' [Hk Hxy] _ IH]; intros Ho Hw; [done|].
      apply Forall_cons in Ho as [Hx Ho], Hw as [Hwx Hw]. cbn in Hk, Hxy, Hx, Hwx. subst k'. rewrite !fmap_cons, IH by done.
      unfold stable_entry at 1 3. cbn [fst snd]. by rewrite (Hx y Hwx Hxy). }
    rewrite E. apply sort_entries_perm; [rewrite <- E, keys_stable; done|]. by rewrite Hp.
Qed.

Lemma canonical_text v w : wf_json v -> stringify (stable v) = stringify (stable w) <-> same_json v w.
Proof.
  intros Hv. split.
  - intros E%stringify_inj. by apply stable_same.
  - intros Hs. by rewrite (same_stable v w).
Qed.
