(* ===== verification/Transport.v ===== *)
(** * The transport seam: [src/pkg/dashboard/frontend/src/lib/transport.ts]

    A static export answers requests from a table of fixtures. A request is its method, the
    path and the query of its URL, and its body's text, which is the value [JSON.parse] reads
    from it or text it refuses. [canon] is the canonical form the release scripts use too.
    [fetch] is the host's, a parameter. *)

From stdpp Require Import base list gmap sorting.
From Stdlib Require Import Init.Byte ZArith NArith Lia.
From S2P Require Import Prelude Uri Canonical JsonText.
Local Open Scope Z_scope.

Record StaticRoute := {
  sr_method : str; sr_path : str; sr_query : option (list (str * str)); sr_body : option json; sr_response : json }.

(** A body: none, a JSON text, or text that is not JSON. *)
Inductive Body := NoBody | JsonBody (v : json) | TextBody (s : str).

Record Request := { rq_method : str; rq_pathname : str; rq_search : str; rq_body : Body }.

Record Response := { rs_status : Z; rs_text : str }.

(** [out[k] = v] for every parameter: the last of a name wins. *)
Definition queryParams (search : str) : list (str * str) :=
  fold_left (fun out p => map_set p.1 p.2 out) (search_params search) [].

Definition sameQuery (a b : list (str * str)) : bool :=
  (length a =? length b)%nat && forallb (fun p => assoc p.1 a === assoc p.1 b) a.

Definition deepEqual (a b : json) : bool := stringify (stable a) === stringify (stable b).

(** What a fixture's body is compared with; [undefined] has no text, so it equals no body. *)
Definition safeParse (body : Body) : option json :=
  match body with NoBody => None | JsonBody v => Some v | TextBody s => Some (JString s) end.

Section Static.
Context `{Locale}.

Definition matches (method path : str) (query : list (str * str)) (body : option json) (r : StaticRoute) : bool :=
  (toUpperCase (sr_method r) === method) && (sr_path r === path) && sameQuery (nullish (sr_query r) []) query &&
  match sr_body r with
  | None => true
  | Some b => match body with Some v => deepEqual b v | None => false end
  end.

Definition ok_response (v : json) : Response := {| rs_status := 200; rs_text := stringify v |}.

Definition unsupported (method path : str) : Response :=
  {| rs_status := 501; rs_text := stringify (JObject [ ("title", JString "Unsupported operation");
       ("detail", JString ("no static fixture for " ++ method ++ " " ++ path)) ]) |}.

Definition staticResponse (routes : list StaticRoute) (req : Request) (body : Body) : Response :=
  let method := toUpperCase (rq_method req) in
  match List.find (matches method (rq_pathname req) (queryParams (rq_search req)) (safeParse body)) routes with
  | Some r => ok_response (sr_response r)
  | None => unsupported method (rq_pathname req)
  end.

Definition dashboardFetch (fetch : Request -> Response) (static : option (list StaticRoute)) (input : Request) : Response :=
  match static with
  | Some routes =>
      let method := toUpperCase (rq_method input) in
      let body := if (method === "GET") || (method === "HEAD") then NoBody else rq_body input in
      staticResponse routes input body
  | None => fetch input
  end.

Definition baseUrl (origin : option str) : str :=
  match when_truthy origin with Some o => if o !== "null" then o else "http://pacto.local" | None => "http://pacto.local" end.

(** ** Lemmas *)

Lemma queryParams_distinct search : NoDup (keys (queryParams search)).
Proof.
  unfold queryParams. assert (NoDup (keys ([] : list (str * str)))) as Hn by constructor.
  revert Hn. generalize ([] : list (str * str)). induction (search_params search) as [|p l IH]; intros m Hn; [done|].
  apply IH. by apply NoDup_map_set.
Qed.

(** Queries are the same when they have the same parameters. *)
Lemma sameQuery_spec a b : NoDup (keys a) -> NoDup (keys b) -> sameQuery a b = true <-> a ≡ₚ b.
Proof.
  intros Ha Hb. unfold sameQuery. rewrite andb_true_iff, Nat.eqb_eq, forallb_forall. split.
  - intros [Hl Hs].
    assert (forall k v, (k, v) ∈ a -> (k, v) ∈ b) as Hin.
    { intros k v Hkv. pose proof (Hs _ (proj1 (list_elem_of_In _ _) Hkv)) as E. apply bool_decide_eq_true_1 in E. cbn [fst] in E.
      rewrite (assoc_unique k v a Ha Hkv) in E. by apply assoc_elem. }
    apply NoDup_fmap_1 in Ha, Hb. apply submseteq_length_Permutation; [|lia].
    apply NoDup_submseteq; [done|]. intros [k v]. apply Hin.
  - intros Hp. split; [by apply Permutation_length|]. intros [k v] Hkv%list_elem_of_In. cbn [fst].
    apply bool_decide_eq_true_2. rewrite (assoc_unique k v a Ha Hkv). symmetry. apply assoc_unique; [done|]. by rewrite <- Hp.
Qed.

Lemma deepEqual_spec a b : wf_json a -> deepEqual a b = true <-> same_json a b.
Proof. intros Ha. unfold deepEqual. rewrite bool_decide_eq_true. by apply canonical_text. Qed.

(** What it means that a fixture stands for a request. *)
Definition stands_for (r : StaticRoute) (req : Request) (body : Body) : Prop :=
  toUpperCase (sr_method r) = toUpperCase (rq_method req) /\ sr_path r = rq_pathname req /\
  nullish (sr_query r) [] ≡ₚ queryParams (rq_search req) /\
  (forall b, sr_body r = Some b -> exists v, safeParse body = Some v /\ same_json b v).

(** A table with objects for objects. *)
Definition wf_route (r : StaticRoute) : Prop :=
  NoDup (keys (nullish (sr_query r) [])) /\ (forall b, sr_body r = Some b -> wf_json b).

Lemma matches_spec r req body :
  wf_route r ->
  matches (toUpperCase (rq_method req)) (rq_pathname req) (queryParams (rq_search req)) (safeParse body) r = true <->
  stands_for r req body.
Proof.
  intros [Hq Hb]. unfold matches, stands_for. rewrite !andb_true_iff, !bool_decide_eq_true.
  rewrite (sameQuery_spec _ _ Hq (queryParams_distinct _)). split.
  - intros [[[Hm Hp] Hs] Hv]. split_and!; [done..|]. intros b Eb. rewrite Eb in Hv. destruct (safeParse body) as [v|]; [|done].
    exists v. split; [done|]. apply deepEqual_spec; [by apply Hb|done].
  - intros (Hm & Hp & Hs & Hv). split_and!; try done. destruct (sr_body r) as [b|]; [|done].
    destruct (Hv b eq_refl) as (v & -> & Hsame). apply deepEqual_spec; [by apply Hb|done].
Qed.

(** A static export answers a request with the first fixture that stands for it: the same
    method in any case, the same path, the same parameters in any order and, when the
    fixture has a body, the same body up to the order of its keys. When none does, the
    answer is an honest 501 that names the operation, never an empty success. *)
Theorem static_semantics (fetch : Request -> Response) (routes : list StaticRoute) (req : Request)
    (Hw : Forall wf_route routes) :
  let body := if (toUpperCase (rq_method req) === "GET") || (toUpperCase (rq_method req) === "HEAD") then NoBody else rq_body req in
  (exists before r after, routes = before ++ r :: after /\ stands_for r req body /\
     Forall (fun r' => ~ stands_for r' req body) before /\
     dashboardFetch fetch (Some routes) req = ok_response (sr_response r)) \/
  (Forall (fun r' => ~ stands_for r' req body) routes /\
     dashboardFetch fetch (Some routes) req = unsupported (toUpperCase (rq_method req)) (rq_pathname req)).
Proof.
  intros body. change (dashboardFetch fetch (Some routes) req) with (staticResponse routes req body). clearbody body.
  unfold staticResponse.
  induction Hw as [|r routes Hr Hw IH]; [right; by split; [constructor|]|]. cbn [List.find].
  pose proof (matches_spec r req body Hr) as Hm. destruct (matches _ _ _ _ r).
  - left. exists [], r, routes. split_and!; [done|by apply Hm|constructor|done].
  - assert (~ stands_for r req body) as Hno by (intros Hs; by apply Hm in Hs).
    destruct IH as [(before & r' & after & -> & Hs & Hb & E)|[Hall E]].
    + left. exists (r :: before), r', after. split_and!; [done|done|by constructor|exact E].
    + right. split; [by constructor|exact E].
Qed.
End Static.

(** A fixture with two parameters and a body, asked for in another order. *)
Definition demo_route : StaticRoute :=
  {| sr_method := "post"; sr_path := "/api/diff"; sr_query := Some [("a", "1"); ("b", "2")];
     sr_body := Some (JObject [("x", JNumber 1); ("y", JArray [JNull])]); sr_response := JString "ok" |}.
Definition demo_request : Request :=
  {| rq_method := "POST"; rq_pathname := "/api/diff"; rq_search := "b=2&a=1";
     rq_body := JsonBody (JObject [("y", JArray [JNull]); ("x", JNumber 1)]) |}.

Lemma static_semantics_witness :
  dashboardFetch (fun _ => unsupported [] []) (Some [demo_route]) demo_request = ok_response (JString "ok") /\
  stands_for demo_route demo_request (rq_body demo_request).
Proof.
  split; [by vm_compute|].
  destruct (static_semantics (fun _ => unsupported [] []) [demo_route] demo_request) as [(b & r & a & E & Hs & _)|[Hf E]].
  - repeat constructor; cbn; try set_solver. intros b [= <-]. cbn. split_and!; [|done..]. by apply (bool_decide_unpack _).
  - destruct b as [|x b]; [by injection E as -> _|]. injection E as _ E. by destruct b.
  - by vm_compute in E.
Defined.
