(* ===== verification/Commands.v ===== *)
(** * The command palette: [src/pkg/dashboard/frontend/src/lib/commands.ts]

    The palette is built from the link builders of Router.v and the owner identity of
    Owners.v; what it promises is checked against the router that reads its links. *)

From stdpp Require Import base list gmap.
From Stdlib Require Import Init.Byte ZArith NArith Lia.
From S2P Require Import Prelude Uri Paging Owners Router.
Local Open Scope nat_scope.

Inductive CommandKind := KView | KService | KOwner | KAction.

Record Command := {
  cmd_kind : CommandKind; cmd_label : str; cmd_hint : option str; cmd_href : option str; cmd_action : option str;
  cmd_query : option str; cmd_keywords : option (list str) }.

Record CommandGroup := { cg_label : str; cg_items : list Command }.

(** [{ kind: 'view', label, href, keywords }] *)
Definition view_cmd (label href : str) (keywords : list str) : Command :=
  {| cmd_kind := KView; cmd_label := label; cmd_hint := None; cmd_href := Some href; cmd_action := None; cmd_query := None;
     cmd_keywords := match keywords with [] => None | _ => Some keywords end |}.

Definition no_attention_query : AttentionQuery :=
  {| aq_category := None; aq_owner := None; aq_ownerKey := None; aq_source := None; aq_service := None;
     aq_businessDomain := None; aq_severity := None; aq_status := None; aq_staleOnly := false; aq_paging := no_paging |}.

(** [fleetEntityListUrl('revision')] is text. *)
Definition revisions_url : str :=
  match fleetEntityListUrl "revision" no_entity_query with JStr s => s | JForeign k => builtin_text k end.

Definition FLEET_VIEWS : list Command :=
  [ view_cmd "Overview" fleetOverviewUrl [];
    view_cmd "Needs attention" (fleetAttentionUrl no_attention_query) [];
    view_cmd "Services" (fleetServicesUrl no_services_query) [];
    view_cmd "Owners" (fleetOwnersUrl None no_paging) [];
    view_cmd "Domains" (fleetDomainsUrl None no_paging) ["business domain"];
    view_cmd "Platform offerings" (fleetOfferingsUrl None no_paging) ["offering"; "platform"; "provider"];
    view_cmd "Operational graph" fleetUrl [];
    view_cmd "Change analysis" (fleetChangesUrl [] no_changes_query) ["compare"; "compare revisions"; "diff"];
    view_cmd "Data sources" (fleetSourcesUrl None None no_paging) [];
    view_cmd "Readiness" revisions_url ["contract revisions"; "assessment"] ].

Definition DELIVERY_VIEWS : list Command :=
  [ view_cmd "Delivery inbox" (deliveryInboxUrl []) ["delivery"; "held"; "waiting"];
    view_cmd "Delivery Stages" (deliveryEnvironmentsUrl []) ["delivery"; "promote"];
    view_cmd "Delivery autonomy" (deliveryAutonomyUrl []) ["delivery"; "level"];
    view_cmd "Delivery history" (deliveryHistoryUrl None None []) ["delivery"; "records"; "audit"];
    view_cmd "Delivery published" (deliveryPublishUrl []) ["delivery"; "versions"] ].

Definition LEGACY_VIEWS : list Command :=
  [ view_cmd "Services" "#/" []; view_cmd "Graph" graphUrl []; view_cmd "Owners" ownersUrl [];
    view_cmd "Readiness" readinessUrl []; view_cmd "Compare" (compareDiffUrl None None None None) [] ].

Definition action_cmd (label action : str) : Command :=
  {| cmd_kind := KAction; cmd_label := label; cmd_hint := None; cmd_href := None; cmd_action := Some action; cmd_query := None;
     cmd_keywords := None |}.

Definition ACTIONS : list Command :=
  [ action_cmd "Toggle theme" "theme"; action_cmd "Refresh data" "refresh"; action_cmd "Toggle auto-reload" "autoreload" ].

(** A service as the legacy lists carry it. *)
Record CmdService := { sv_name : str; sv_version : option str; sv_owner : option Owner }.

Section Palette.
Context `{Locale}.

Definition matches_text (q s : str) : bool := negb (truthy q) || includes q (toLowerCase s).

Definition matches_view (q : str) (v : Command) : bool :=
  matches_text q (cmd_label v) || existsb (matches_text q) (nullish (cmd_keywords v) []).

Definition search_cmd (text : str) : Command :=
  {| cmd_kind := KAction; cmd_label := "Search entities for " ++ [x22] ++ text ++ [x22]; cmd_hint := None; cmd_href := None;
     cmd_action := Some "search"; cmd_query := Some text; cmd_keywords := None |}.

Definition service_cmd (s : CmdService) : Command :=
  {| cmd_kind := KService; cmd_label := sv_name s; cmd_hint := Some (or_str (sv_version s) []);
     cmd_href := Some (serviceUrl (sv_name s)); cmd_action := None; cmd_query := None; cmd_keywords := None |}.

Definition matching_services (q : str) (services : list CmdService) : list Command :=
  service_cmd <$> take 6 (List.filter (fun s => includes q (toLowerCase (sv_name s)) || ownerMatchesFilter (sv_owner s) q) services).

Definition owner_cmd (key : str) : Command :=
  {| cmd_kind := KOwner; cmd_label := ownerKeyLabel key; cmd_hint := Some (ownerKeyKind key); cmd_href := Some (ownerUrl key);
     cmd_action := None; cmd_query := None; cmd_keywords := None |}.

(** The loop over the services, with the keys seen and the room left before it breaks. *)
Fixpoint matching_owners (q : str) (seen : list str) (room : nat) (services : list CmdService) : list Command :=
  match services, room with
  | [], _ | _, O => []
  | s :: rest, S room' =>
      let key := ownerKey (sv_owner s) in
      if negb (truthy key) || bool_decide (key ∈ seen) then matching_owners q seen room rest
      else if negb (includes q (toLowerCase (ownerKeyLabel key))) then matching_owners q seen room rest
      else owner_cmd key :: matching_owners q (seen ++ [key]) room' rest
  end.

(** A group is pushed only when it has items. *)
Definition group_of (label : str) (items : list Command) : list CommandGroup :=
  match items with [] => [] | _ => [{| cg_label := label; cg_items := items |}] end.

Definition buildCommands (query : str) (services : option (list CmdService)) (fleet delivery : bool) : list CommandGroup :=
  let text := trim query in
  let q := toLowerCase text in
  let svcs := nullish services [] in
  group_of "Views" (List.filter (matches_view q)
    ((if fleet then FLEET_VIEWS else LEGACY_VIEWS) ++ (if delivery then DELIVERY_VIEWS else []))) ++
  (if truthy q && fleet then [{| cg_label := "Search"; cg_items := [search_cmd text] |}] else []) ++
  (if truthy q && negb fleet
   then group_of "Services" (matching_services q svcs) ++ group_of "Owners" (matching_owners q [] 4 svcs)
   else []) ++
  group_of "Actions" (List.filter (fun a => matches_text q (cmd_label a)) ACTIONS).

Definition flattenCommands (groups : list CommandGroup) : list Command := groups ≫= cg_items.

(** ** Lemmas *)

Lemma flatten_group label items : flattenCommands (group_of label items) = items.
Proof. destruct items; [done|]. unfold flattenCommands, group_of. cbn. by rewrite app_nil_r. Qed.

(** A product destination: the router knows it, as a view of the product, and no redirect
    takes it anywhere else. *)
Definition product_view (v : View) : bool :=
  match v with
  | VList | VDetail | VDiff | VGraph | VOwners | VOwnerDetail | VReadiness | VForeign _ => false
  | _ => true
  end.

Definition product_href (h : str) : bool :=
  match parseHash (Some h) with Some r => product_view (view r) | None => false end &&
  bool_decide (legacyRedirectTarget (Some h) = Some None).

Definition product_cmd (c : Command) : bool := match cmd_href c with Some h => product_href h | None => true end.

Lemma product_commands : forallb product_cmd (FLEET_VIEWS ++ DELIVERY_VIEWS ++ ACTIONS) = true.
Proof. by vm_compute. Qed.

(** On a product host the palette is no back door to a superseded screen: whatever is typed,
    every link it offers is read by the router as a product view and is not redirected. With
    nothing typed it offers every one of the product's workspaces, and with text it always
    offers the product search. *)
Theorem palette_product_only (query : str) (services : option (list CmdService)) (delivery : bool) :
  let cs := flattenCommands (buildCommands query services true delivery) in
  (forall c h, c ∈ cs -> cmd_href c = Some h ->
     legacyRedirectTarget (Some h) = Some None /\
     exists r, parseHash (Some h) = Some r /\ product_view (view r) = true) /\
  (toLowerCase (trim query) = [] -> forall c, c ∈ FLEET_VIEWS -> c ∈ cs) /\
  (toLowerCase (trim query) <> [] -> search_cmd (trim query) ∈ cs).
Proof.
  unfold flattenCommands, buildCommands. rewrite !bind_app. fold (flattenCommands (group_of "Views"
    (List.filter (matches_view (toLowerCase (trim query))) (FLEET_VIEWS ++ (if delivery then DELIVERY_VIEWS else []))))).
  fold (flattenCommands (group_of "Actions" (List.filter (fun a => matches_text (toLowerCase (trim query)) (cmd_label a)) ACTIONS))).
  rewrite !flatten_group. cbn [negb]. rewrite andb_false_r, andb_true_r. cbn [mbind list_bind app]. cbn zeta. split_and!.
  - intros c h Hc Hh. pose proof product_commands as Hp. rewrite forallb_forall in Hp.
    assert (product_cmd c = true) as Hpc.
    { apply elem_of_app in Hc as [[Hc _]%elem_of_lfilter|[Hc|[Hc _]%elem_of_lfilter]%elem_of_app].
      - apply Hp, list_elem_of_In. rewrite !elem_of_app in *. destruct delivery; [tauto|]. rewrite elem_of_nil in Hc. tauto.
      - destruct (truthy _); [|by apply elem_of_nil in Hc]. apply elem_of_app in Hc as [Hc|Hc]; [|by apply elem_of_nil in Hc].
        apply list_elem_of_singleton in Hc as ->. done.
      - apply Hp, list_elem_of_In. rewrite !elem_of_app. tauto. }
    unfold product_cmd, product_href in Hpc. rewrite Hh in Hpc. apply andb_true_iff in Hpc as [Hv Hr].
    split; [by apply bool_decide_eq_true_1 in Hr|]. destruct (parseHash (Some h)) as [r|]; [|done]. by exists r.
  - intros Hq c Hc. apply elem_of_app. left. apply elem_of_lfilter. split; [apply elem_of_app; by left|].
    unfold matches_view, matches_text. by rewrite Hq.
  - intros Hq. apply elem_of_app. right. apply elem_of_app. left. rewrite (proj2 (truthy_nonempty _) Hq). left.
Qed.

(** On a legacy host at most six services and four owners are offered, no owner twice, and an
    owner's link opens that owner. *)
Lemma owners_offered q seen room services :
  length (matching_owners q seen room services) <= room /\
  (forall c, c ∈ matching_owners q seen room services ->
     exists s, s ∈ services /\ c = owner_cmd (ownerKey (sv_owner s)) /\ ownerKey (sv_owner s) <> [] /\
       ownerKey (sv_owner s) ∉ seen).
Proof.
  revert seen room. induction services as [|s rest IH]; intros seen [|room]; cbn [matching_owners length]; try (split; [lia|by intros c ?%elem_of_nil]).
  assert (forall c, (exists t, t ∈ rest /\ c = owner_cmd (ownerKey (sv_owner t)) /\ ownerKey (sv_owner t) <> [] /\ ownerKey (sv_owner t) ∉ seen) ->
    exists t, t ∈ s :: rest /\ c = owner_cmd (ownerKey (sv_owner t)) /\ ownerKey (sv_owner t) <> [] /\ ownerKey (sv_owner t) ∉ seen) as Hmono.
  { intros c (t & Ht & Hr). exists t. split; [by right|done]. }
  destruct (truthy (ownerKey (sv_owner s))) eqn:Et; cbn [negb orb];
    [|destruct (IH seen (S room)) as [H1 H2]; split; [done|]; intros c Hc; by apply Hmono, H2].
  destruct (decide (ownerKey (sv_owner s) ∈ seen)) as [Hs|Hs].
  { rewrite bool_decide_eq_true_2 by done. destruct (IH seen (S room)) as [H1 H2]. split; [done|]. intros c Hc. by apply Hmono, H2. }
  rewrite bool_decide_eq_false_2 by done. destruct (includes _ _); cbn [negb];
    [|destruct (IH seen (S room)) as [H1 H2]; split; [done|]; intros c Hc; by apply Hmono, H2].
  destruct (IH (seen ++ [ownerKey (sv_owner s)]) room) as [H1 H2]. cbn [length]. split; [lia|].
  intros c [->|Hc]%elem_of_cons.
  - exists s. split_and!; [left|done|by apply truthy_nonempty|done].
  - destruct (H2 c Hc) as (t & Ht & Ec & Hne & Hns). exists t. split_and!; [by right|done|done|]. intros Hin. apply Hns, elem_of_app. by left.
Qed.
End Palette.
