(* ===== verification/Api.v ===== *)
(** * The API facade and the session: [src/pkg/dashboard/frontend/src/lib/api.ts] and
    [src/pkg/dashboard/frontend/src/lib/session.svelte.ts]

    Error translation, the schema check, the narrowing of an entity detail, the token every
    mutating request carries with its one retry, and who the dashboard acts as. A thrown
    error is the left of a sum. The generated client's result is data; the payloads of a
    detail are opaque. One call is followed at a time: its reads of the session are the
    outcomes [session] gives in order, and its answers those [send] gives. *)

From stdpp Require Import base list gmap.
From Stdlib Require Import Init.Byte ZArith NArith Lia.
From S2P Require Import Prelude Uri Canonical.
Local Open Scope Z_scope.

(** ** Errors *)
Inductive ApiThrow :=
  | ApiError (status : Z) (message : json) (code : json) (plan : option json)
  | SchemaCompatibilityError (actual : str)
  | ApiContractError (message : str).

Definition PRODUCT_SCHEMA_VERSION : str := "pacto.dev/fleet-product/v1".

(** The message of a version that does not fit. *)
Definition schema_message (actual : str) : str :=
  "unsupported product schema version " ++ or_s actual "(none)" ++ ": this dashboard expects " ++ PRODUCT_SCHEMA_VERSION ++
  "; reload the page or upgrade the dashboard".

Definition checkProductSchema (schemaVersion : option str) : ApiThrow + unit :=
  let v := nullish schemaVersion [] in
  if v !== PRODUCT_SCHEMA_VERSION then inl (SchemaCompatibilityError v) else inr tt.

(** [v] is truthy. *)
Definition json_truthy (v : json) : bool :=
  match v with
  | JNull => false
  | JBool b => b
  | JNumber z => negb (z =? 0)
  | JString s => truthy s
  | JArray _ | JObject _ => true
  end.

(** [error && typeof error === 'object'], and then [error.k]. *)
Definition error_member (k : str) (error : option json) : option json :=
  match error with Some (JObject o) => assoc k o | _ => None end.

(** [v ?? d], where [null] counts as absent. *)
Definition json_or (v : option json) (d : json) : json :=
  match v with Some JNull | None => d | Some v => v end.

Definition errorCode (error : option json) : json * option json :=
  (json_or (error_member "code" error) (JString []), error_member "plan" error).

Record HttpResponse := { hr_status : Z; hr_statusText : str }.
Definition ok (r : HttpResponse) : bool := (200 <=? hr_status r) && (hr_status r <=? 299).

Definition errorMessage (error : option json) (response : HttpResponse) : json :=
  let truthy_member k := match error_member k error with Some v => if json_truthy v then Some v else None | None => None end in
  match truthy_member "detail" with
  | Some d => d
  | None =>
      match truthy_member "title" with
      | Some t => t
      | None =>
          match error with
          | Some (JString s) => if truthy s then JString s else JString (or_s (hr_statusText response) ("HTTP " ++ show_Z (hr_status response)))
          | _ => JString (or_s (hr_statusText response) ("HTTP " ++ show_Z (hr_status response)))
          end
      end
  end.

Record FetchResult (T : Type) := { fr_data : option T; fr_error : option json; fr_response : HttpResponse }.
Arguments fr_data {T} _.
Arguments fr_error {T} _.
Arguments fr_response {T} _.

(** Data that is absent is [null]. *)
Definition unwrap {T} (r : FetchResult T) : ApiThrow + option T :=
  if negb (ok (fr_response r)) || match fr_error r with Some _ => true | None => false end then
    let '(code, plan) := errorCode (fr_error r) in
    inl (ApiError (hr_status (fr_response r)) (errorMessage (fr_error r) (fr_response r)) code plan)
  else inr (fr_data r).

(** [version] is what [res?.meta?.schemaVersion] reads. *)
Definition productGet {T} (version : T -> option str) (r : FetchResult T) : ApiThrow + option T :=
  match unwrap r with
  | inl e => inl e
  | inr res => match checkProductSchema (match res with Some t => version t | None => None end) with
               | inl e => inl e
               | inr _ => inr res
               end
  end.

(** ** Entity details *)
Definition DETAIL_KINDS : list str := ["service"; "revision"; "target"; "owner"; "source"; "domain"; "offering"].

Section Detail.
Context {Payload : Type}.

(** The entity's kind, when there is an entity, and the payloads by name; a payload that is
    [null] is absent. *)
Record Detail := { dt_entity : option (option str); dt_payload : str -> option Payload }.

Definition present (raw : Detail) : list str :=
  List.filter (fun k => match dt_payload raw k with Some _ => true | None => false end) DETAIL_KINDS.

Definition narrowEntityDetail (raw : Detail) : ApiThrow + Detail :=
  match dt_entity raw with
  | Some (Some kind) =>
      if negb (truthy kind) then inl (ApiContractError "entity-detail response carries no entity")
      else if negb (bool_decide (kind ∈ DETAIL_KINDS)) then
        inl (ApiContractError ("entity-detail response has unsupported kind " ++ quote kind))
      else
        let ps := present raw in
        if negb (length ps =? 1)%nat then
          inl (ApiContractError ("entity-detail response must carry exactly one payload, found " ++ show_N (N.of_nat (length ps)) ++
            (if (length ps =? 0)%nat then [] else " (" ++ join ", " ps ++ ")")))
        else if nth 0 ps [] !== kind then
          inl (ApiContractError ("entity-detail response kind " ++ kind ++ " does not match its payload " ++ nth 0 ps []))
        else inr raw
  | _ => inl (ApiContractError "entity-detail response carries no entity")
  end.

(** The variants of [NarrowedEntityDetail]: the kind, its own payload and no other. *)
Inductive Narrowed : Detail -> Prop :=
  | NarrowedAs raw kind p :
      kind ∈ DETAIL_KINDS -> dt_entity raw = Some (Some kind) -> dt_payload raw kind = Some p ->
      (forall k, k ∈ DETAIL_KINDS -> k <> kind -> dt_payload raw k = None) -> Narrowed raw.

Lemma kinds_distinct : NoDup DETAIL_KINDS.
Proof. by apply (bool_decide_unpack _). Qed.

Lemma present_spec raw k : k ∈ present raw <-> k ∈ DETAIL_KINDS /\ is_Some (dt_payload raw k).
Proof. unfold present. rewrite elem_of_lfilter. f_equiv. by destruct (dt_payload raw k). Qed.

Lemma present_one raw kind :
  kind ∈ DETAIL_KINDS -> is_Some (dt_payload raw kind) ->
  (forall k, k ∈ DETAIL_KINDS -> k <> kind -> dt_payload raw k = None) -> present raw = [kind].
Proof.
  intros Hk Hp Ho. assert (NoDup (present raw)) as Hn by (eapply sublist_NoDup; [apply kinds_distinct|apply filter_sublist]).
  assert (forall k, k ∈ present raw -> k = kind) as Hall.
  { intros k [Hk' [p Hp']]%present_spec. destruct (decide (k = kind)); [done|]. rewrite Ho in Hp' by done. done. }
  assert (kind ∈ present raw) as Hin by (by apply present_spec).
  destruct (present raw) as [|a [|b l]]; [by apply elem_of_nil in Hin| |].
  - by rewrite (Hall a) by left.
  - assert (a = kind) as -> by (apply Hall; left). assert (b = kind) as -> by (apply Hall; right; left).
    apply NoDup_cons in Hn as [Hn _]. destruct Hn. left.
Qed.

(** C18: Narrowing an entity detail is a type check at run time: it succeeds exactly on the
    variants of the discriminated union (a supported kind, that kind's payload, and no other
    payload), hands the detail on unchanged, and any other answer is a contract error. *)
Theorem narrowEntityDetail_typed (raw : Detail) :
  match narrowEntityDetail raw with
  | inr d => d = raw /\ Narrowed raw
  | inl e => ~ Narrowed raw /\ exists m, e = ApiContractError m
  end.
Proof.
  assert (forall m, ~ Narrowed raw -> ~ Narrowed raw /\ exists m', ApiContractError m = ApiContractError m') as Herr
    by (intros m Hn; split; [done|by eexists]).
  unfold narrowEntityDetail. destruct (dt_entity raw) as [[kind|]|] eqn:Ee; [|apply Herr; inversion 1; congruence..].
  destruct (truthy kind) eqn:Et; cbn [negb].
  2:{ apply Herr. inversion 1 as [? k p Hk He]; subst. assert (kind = k) as -> by congruence. destruct k; [|done].
      by apply (bool_decide_eq_true_2 _) in Hk; vm_compute in Hk. }
  destruct (decide (kind ∈ DETAIL_KINDS)) as [Hk|Hk].
  2:{ rewrite bool_decide_eq_false_2 by done. apply Herr. inversion 1; subst. congruence. }
  rewrite bool_decide_eq_true_2 by done. cbn [negb].
  destruct (Nat.eqb_spec (length (present raw)) 1) as [Hl|Hl]; cbn [negb].
  2:{ apply Herr. inversion 1 as [? k p Hk' He Hp Ho]; subst. apply Hl. by rewrite (present_one raw k). }
  destruct (present raw) as [|a [|b l]] eqn:Ep; try done. cbn [nth]. destruct (decide (a = kind)) as [->|Hne].
  - rewrite eqb_refl. cbn [negb]. split; [done|].
    assert (kind ∈ present raw) as [_ [p Hp]]%present_spec by (rewrite Ep; left).
    apply (NarrowedAs raw kind p); [done..|]. intros k Hk' Hne. destruct (dt_payload raw k) as [q|] eqn:Eq; [|done].
    assert (k ∈ present raw) as Hin by (apply present_spec; by split). rewrite Ep in Hin.
    by apply list_elem_of_singleton in Hin.
  - rewrite bool_decide_eq_false_2 by done. cbn [negb]. apply Herr. inversion 1 as [? k p Hk' He Hp Ho]; subst.
    rewrite (present_one raw k) in Ep by done. injection Ep as ->. congruence.
Qed.
End Detail.

(** ** The token of a mutating request *)

(** What the page knows: the token it has (empty for none), and how often it read the session. *)
Record Csrf := { cs_token : str; cs_reads : nat }.

Section Mutating.
(** The outcome of the n-th read of the session: failed, or its token if it has one. *)
Variable session : nat -> option (option str).

(** [csrfHeaders()]: the token the request carries. *)
Definition csrfHeaders (st : Csrf) : Csrf * option str :=
  let st' := if truthy (cs_token st) then st
             else {| cs_token := match session (cs_reads st) with Some t => nullish t [] | None => [] end; cs_reads := S (cs_reads st) |} in
  (st', if truthy (cs_token st') then Some (cs_token st') else None).

Definition mutating (method : str) : bool := (method !== "GET") && (method !== "HEAD").

Definition onRequest (method : str) (st : Csrf) : Csrf * option str :=
  if mutating method then csrfHeaders st else (st, None).

(** The response that stands, or the token to send the kept request again with. *)
Definition onResponse (method : str) (sent : option str) (status : Z) (st : Csrf) : Csrf * option str :=
  if negb (status =? 403) || negb (mutating method) then (st, None)
  else
    let '(st', fresh) := csrfHeaders {| cs_token := []; cs_reads := cs_reads st |} in
    match fresh with
    | Some f => if f === nullish sent [] then (st', None) else (st', Some f)
    | None => (st', None)
    end.

(** A session that ended is announced, unless the session itself was asked for. *)
Definition announces (status : Z) (pathname : str) : bool := (status =? 401) && (pathname !== "/api/session").

Context {Resp : Type} (status_of : Resp -> Z).
(** The answer to the n-th sending of the request with a token. *)
Variable send : nat -> option str -> Resp.

(** One call: what was sent, the answer the caller gets, and the state after. *)
Definition call (method : str) (st : Csrf) : list (option str) * Resp * Csrf :=
  let '(st1, sent) := onRequest method st in
  let r := send 0 sent in
  match onResponse method sent (status_of r) st1 with
  | (st2, Some fresh) => ([sent; Some fresh], send 1 (Some fresh), st2)
  | (st2, None) => ([sent], r, st2)
  end.

Lemma csrf_sound st : match (csrfHeaders st).2 with
  | Some t => t <> [] /\ cs_token (csrfHeaders st).1 = t /\ (cs_token st = t \/ session (cs_reads st) = Some (Some t))
  | None => cs_token (csrfHeaders st).1 = []
  end.
Proof.
  unfold csrfHeaders. cbn [fst snd]. destruct (truthy (cs_token st)) eqn:Et.
  - rewrite Et. split_and!; [by apply truthy_nonempty|done|by left].
  - cbn [cs_token]. destruct (session (cs_reads st)) as [[t|]|]; cbn [nullish]; try done.
    destruct t as [|b t]; [done|]. cbn [truthy]. by split_and!; [| |right].
Qed.

(** C19: A mutating call is sent at most twice, the second time only after a 403, with a token a
    later read of the session gave and other than the one refused; any other answer stands.
    A read carries no token and is never sent again. *)
Theorem csrf_retry_once (method : str) (st : Csrf) :
  let '(sent, resp, st') := call method st in
  (exists t, sent = [t] /\ resp = send 0 t) \/
  (exists t f, sent = [t; Some f] /\ resp = send 1 (Some f) /\ mutating method = true /\
     status_of (send 0 t) = 403 /\ f <> [] /\ Some f <> t /\
     (exists n, (cs_reads st <= n)%nat /\ session n = Some (Some f)) /\ cs_token st' = f).
Proof.
  unfold call, onRequest. destruct (mutating method) eqn:Em.
  2:{ unfold onResponse. rewrite Em, orb_true_r. left. by eexists. }
  destruct (csrfHeaders st) as [st1 sent] eqn:E1. unfold onResponse. rewrite Em, orb_false_r.
  destruct (Z.eqb_spec (status_of (send 0 sent)) 403) as [Hs|Hs]; cbn [negb]; [|left; by eexists].
  pose proof (csrf_sound {| cs_token := []; cs_reads := cs_reads st1 |}) as Hf.
  destruct (csrfHeaders {| cs_token := []; cs_reads := cs_reads st1 |}) as [st2 [f|]]; [|left; by eexists]. cbn [fst snd cs_token cs_reads] in Hf.
  case_bool_decide as Ef; [left; by eexists|]. destruct Hf as (Hne & Htok & Hsrc). right. exists sent, f.
  split_and!; try done.
  - intros <-. done.
  - exists (cs_reads st1). split.
    + unfold csrfHeaders in E1. injection E1 as <- _. destruct (truthy (cs_token st)); cbn; lia.
    + destruct Hsrc as [<-|Hsrc]; [done|exact Hsrc].
Qed.
End Mutating.
