(* ===== verification/Session.v ===== *)
(** * Who the dashboard acts as: [src/pkg/dashboard/frontend/src/lib/session.svelte.ts]

    The store is a record; one read of the session is a function of what the two requests
    answer. Callers that come while it is under way share it, so it is one step. *)

From stdpp Require Import base list gmap.
From Stdlib Require Import Init.Byte ZArith NArith Lia.
From S2P Require Import Prelude Uri Format.
Local Open Scope nat_scope.

Record Session := { se_signedIn : bool; se_user : option str; se_name : option str; se_groups : option (list str) }.

Section Store.
Context {Caller Error : Type}.

Record SessionStore := { ss_data : option Session; ss_caller : option Caller; ss_error : option Error; ss_loaded : bool }.

Definition empty_store : SessionStore := {| ss_data := None; ss_caller := None; ss_error := None; ss_loaded := false |}.

(** [s] is what the session read gave, [None] for [null]; [caller] what delivery answered,
    [None] when that failed. *)
Definition loadSession (st : SessionStore) (s : Error + option Session) (caller : option Caller) : SessionStore :=
  match s with
  | inl e => {| ss_data := ss_data st; ss_caller := ss_caller st; ss_error := Some e; ss_loaded := true |}
  | inr d =>
      {| ss_data := d; ss_caller := if match d with Some x => se_signedIn x | None => false end then caller else None;
         ss_error := None; ss_loaded := true |}
  end.

Record Me := { me_user : option str; me_name : option str; me_groups : option (list str) }.

Definition me (st : SessionStore) : Me :=
  match ss_data st with
  | Some d => {| me_user := se_user d; me_name := se_name d; me_groups := se_groups d |}
  | None => {| me_user := None; me_name := None; me_groups := None |}
  end.

(** A read that succeeded leaves no caller for someone who is not signed in, and no error. *)
Lemma loadSession_caller st d caller :
  ss_error (loadSession st (inr d) caller) = None /\
  (ss_caller (loadSession st (inr d) caller) <> None -> exists x, d = Some x /\ se_signedIn x = true).
Proof. split; [done|]. cbn. destruct d as [x|]; [|done]. destruct (se_signedIn x) eqn:E; [|done]. intros _. by exists x. Qed.
End Store.

Definition TOKEN_DOCS : str := "https://pacto.run/latest/integrations/kubernetes/dashboard-authentication/#token-sign-in".

(** [^system:serviceaccount:[^:]+:(.+)$] *)
Definition service_account (user : str) : option str :=
  if starts_with "system:serviceaccount:" user then
    match span (fun b => b !== x3a) (drop (length ("system:serviceaccount:" : str)) user) with
    | (_ :: _, x3a :: name) => if truthy name && negb (has_line_terminator name) then Some name else None
    | _ => None
    end
  else None.

(** What follows the last [#], when something precedes it and something follows. *)
Definition subject_of (user : str) : option str :=
  let '(tail, before) := span (fun b => b !== x23) (rev user) in
  match before, tail with
  | _ :: _ :: _, _ :: _ => Some (rev tail)
  | _, _ => None
  end.

Definition personLabel (user : option str) (people : option (list (str * str))) (self : option Me) : jsval :=
  match when_truthy user with
  | None => JStr []
  | Some u =>
      let local :=
        match self with
        | Some m => if otruthy (me_name m) && (me_user m === Some u) then Some (nullish (me_name m) []) else None
        | None => None
        end in
      let plain := JStr (match local with
                         | Some n => n
                         | None => match service_account u with
                                   | Some n => n
                                   | None => nullish (subject_of u) u
                                   end
                         end) in
      match match people with Some ps => obj_get ps u | None => Missing end with
      | Own n => if truthy n then JStr n else plain
      | Inherited k => JForeign k
      | Missing => plain
      end
  end.

Definition teamGroups (groups : option (list str)) : list str :=
  List.filter (fun g => negb (starts_with "system:" g)) (nullish groups []).

Definition return_to (hash : str) : str := "/" ++ (if starts_with "#" hash then hash else "#" ++ hash).

Definition loginUrl (hash : str) (fresh : bool) : str :=
  "/auth/login?return=" ++ encodeURIComponent (return_to hash) ++ (if fresh then "&fresh=1" else []).

(** Where signing in goes: to the host's own hook, or to a location. *)
Inductive SignIn := Hook (hash : str) (fresh : bool) | Assign (url : str).
Definition signIn (hook : bool) (hash : str) (fresh : bool) : SignIn :=
  if hook then Hook hash fresh else Assign (loginUrl hash fresh).
Definition hostSignsIn (hook : bool) : bool := hook.

(** Signing in always comes back to this dashboard: the address to return to reads back from
    the login link as a path of the same origin that goes on with the fragment asked for, and
    the fragment cannot add a parameter to the link. *)
Theorem loginUrl_returns_here (hash : str) (fresh : bool) (Hu : Utf8 hash) :
  exists r, loginUrl hash fresh = "/auth/login?return=" ++ r ++ (if fresh then "&fresh=1" else []) /\
    decodeURIComponent r = Some (return_to hash) /\ starts_with "/#" (return_to hash) = true /\
    x26 ∉ r /\ x23 ∉ r.
Proof.
  exists (encodeURIComponent (return_to hash)).
  assert (Utf8 (return_to hash)) as Hr.
  { unfold return_to. apply Utf8_app; [by apply valid_utf8_spec|]. destruct (starts_with "#" hash); [done|].
    apply Utf8_app; [by apply valid_utf8_spec|done]. }
  split_and!; [done|by apply decode_encode| |by apply encode_not_elem..].
  unfold return_to. destruct (starts_with "#" hash) eqn:E; [|done]. by apply starts_with_spec in E as [t ->].
Qed.

Lemma loginUrl_returns_here_witness :
  exists r, loginUrl "#/fleet?a=1&b=2" true = "/auth/login?return=" ++ r ++ "&fresh=1" /\
    decodeURIComponent r = Some "/#/fleet?a=1&b=2".
Proof.
  destruct (loginUrl_returns_here "#/fleet?a=1&b=2" true) as (r & E & Hd & _); [by apply valid_utf8_spec|].
  exists r. by split.
Defined.

Example personLabel_examples :
  personLabel (Some "system:serviceaccount:ops:deployer") None None = JStr "deployer" /\
  personLabel (Some "https://idp#carol") None None = JStr "carol" /\
  personLabel (Some "#carol") None None = JStr "#carol" /\
  personLabel (Some "carol#") None None = JStr "carol#" /\
  personLabel (Some "carol") (Some [("carol", "Carol D.")]) None = JStr "Carol D." /\
  teamGroups (Some ["system:authenticated"; "pay"]) = ["pay"].
Proof. by vm_compute. Qed.
