(* ===== verification/GraphDraw.v ===== *)
(** * Names and subgraphs for the canvas: [fitLines], [buildVersionSubgraph], [boxSize] and
    [extractSubgraph] of [src/pkg/dashboard/frontend/src/lib/graph.ts]

    A name that is cut to lines is a list of UTF-16 code units, of whatever type: only which
    units break a word, and the unit of the ellipsis, matter. *)

From stdpp Require Import base list gmap.
From Stdlib Require Import Init.Byte ZArith NArith Lia.
From S2P Require Import Prelude Uri Neighborhood Subgraph.
Local Open Scope nat_scope.

(** ** Lines of a label *)
Section Lines.
Context {U : Type} (is_break : U -> bool) (ellipsis : U).

(** [raw.split(/(?<=[-_./ ])/)]: a word ends after each break. *)
Fixpoint words (raw : list U) : list (list U) :=
  match raw with
  | [] => []
  | u :: r => if is_break u then [u] :: words r
              else match words r with [] => [[u]] | w :: ws => (u :: w) :: ws end
  end.

(** The inner loop over one word: the finished lines and the current one. *)
Fixpoint fit_word (per fuel : nat) (t : list U) (st : list (list U) * list U) : list (list U) * list U :=
  match fuel, t with
  | O, _ | _, [] => st
  | S fuel', _ =>
      let '(lines, cur) := st in
      let '(lines, cur) := match cur with
                           | _ :: _ => if per <? length cur + length t then (lines ++ [cur], []) else (lines, cur)
                           | [] => (lines, cur)
                           end in
      fit_word per fuel' (drop per t) (lines, cur ++ take per t)
  end.

Definition fit_all (raw : list U) (per : nat) : list (list U) :=
  let '(lines, cur) := fold_left (fun st tok => fit_word per (length tok) tok st) (words raw) ([], []) in
  match cur with [] => lines | _ => lines ++ [cur] end.

Definition fitLines (raw : list U) (per max : nat) : list (list U) :=
  let lines := fit_all raw per in
  if (max =? 0) || (length lines <=? max) then lines
  else take (max - 1) lines ++ [take (per - 1) (concat (drop (max - 1) lines)) ++ [ellipsis]].

Lemma words_concat raw : concat (words raw) = raw.
Proof.
  induction raw as [|u r IH]; [done|]. cbn [words]. destruct (is_break u); [cbn [concat app]; by rewrite IH|].
  destruct (words r) as [|w ws]; cbn [concat app] in *; by rewrite <- IH.
Qed.

Record fits (per : nat) (raw : list U) (st : list (list U) * list U) : Prop := {
  f_lines : Forall (fun l => length l <= per) st.1;
  f_cur : length st.2 <= per;
  f_all : concat st.1 ++ st.2 = raw }.

Lemma fit_word_fits per fuel t raw st :
  1 <= per -> length t <= fuel -> fits per raw st -> fits per (raw ++ t) (fit_word per fuel t st).
Proof.
  intros Hper. revert t raw st. induction fuel as [|fuel IH]; intros t raw st Hf Hst.
  { destruct t; [|cbn in Hf; lia]. cbn. by rewrite app_nil_r. }
  destruct t as [|u t]; [cbn; by rewrite app_nil_r|]. cbn [fit_word]. set (all := u :: t) in *.
  destruct st as [lines cur]. destruct Hst as [H1 H2 H3]. cbn [fst snd] in *.
  assert (length (drop per all) <= fuel) as Hd by (rewrite length_drop; subst all; cbn [length] in *; lia).
  rewrite <- (take_drop per all) at 1. rewrite app_assoc.
  assert (forall lines' cur', Forall (fun l => length l <= per) lines' -> concat lines' ++ cur' = raw ->
    length cur' + length (take per all) <= per -> fits per (raw ++ take per all ++ drop per all)
      (fit_word per fuel (drop per all) (lines', cur' ++ take per all))) as Hgo.
  { intros lines' cur' Hl Hc Hlen. rewrite app_assoc. apply IH; [done|]. constructor; cbn [fst snd]; [done| |].
    - rewrite length_app. lia.
    - by rewrite app_assoc, Hc. }
  rewrite <- app_assoc.
  destruct cur as [|c cur]; [apply Hgo; [done|done|rewrite length_take; cbn; lia]|].
  destruct (Nat.ltb_spec per (length (c :: cur) + length all)).
  - apply Hgo; [apply Forall_app; by repeat constructor| |rewrite length_take; cbn; lia].
    rewrite concat_app. cbn [concat]. by rewrite !app_nil_r.
  - apply Hgo; [done|done|]. rewrite length_take. lia.
Qed.

Lemma fit_all_fits raw per : 1 <= per -> Forall (fun l => length l <= per) (fit_all raw per) /\ concat (fit_all raw per) = raw.
Proof.
  intros Hper. unfold fit_all.
  assert (forall ws pre st, fits per pre st -> fits per (pre ++ concat ws) (fold_left (fun st tok => fit_word per (length tok) tok st) ws st)) as Hf.
  { induction ws as [|w ws IH]; intros pre st Hst; cbn [fold_left concat]; [by rewrite app_nil_r|].
    rewrite app_assoc. apply IH. by apply fit_word_fits. }
  specialize (Hf (words raw) [] ([], [])). destruct (fold_left _ (words raw) ([], [])) as [lines cur].
  destruct Hf as [H1 H2 H3]; [constructor; cbn; [constructor|lia|done]|]. cbn [fst snd app] in *. rewrite words_concat in H3.
  destruct cur as [|c cur]; [by rewrite app_nil_r in H3|]. split.
  - apply Forall_app. by repeat constructor.
  - rewrite concat_app. cbn [concat]. by rewrite app_nil_r.
Qed.

(** A name is broken into lines no longer than asked and no more of them than asked. Nothing
    of it is lost unless it does not fit; then what is shown is the start of the name and an
    ellipsis. *)
Theorem fitLines_fits (raw : list U) (per max : nat) (Hper : 1 <= per) :
  Forall (fun l => length l <= per) (fitLines raw per max) /\
  (max <> 0 -> length (fitLines raw per max) <= max) /\
  (concat (fitLines raw per max) = raw \/
   (max < length (fit_all raw per) /\ exists shown rest, raw = shown ++ rest /\ concat (fitLines raw per max) = shown ++ [ellipsis])) /\
  (max = 0 -> concat (fitLines raw per max) = raw).
Proof.
  destruct (fit_all_fits raw per Hper) as [Hl Hc]. unfold fitLines. destruct (Nat.eqb_spec max 0) as [->|Hm]; cbn [orb]; [by split_and!; [| |left|]|].
  destruct (Nat.leb_spec (length (fit_all raw per)) max) as [Hle|Hgt]; [by split_and!; [| |left|]|].
  split_and!; [| | |done].
  - apply Forall_app. split; [by apply Forall_take|]. constructor; [|done]. rewrite length_app, length_take. cbn [length]. lia.
  - intros _. rewrite length_app, length_take. cbn [length]. lia.
  - right. split; [done|]. set (k := max - 1). set (rest := concat (drop k (fit_all raw per))).
    exists (concat (take k (fit_all raw per)) ++ take (per - 1) rest), (drop (per - 1) rest). split.
    + rewrite <- app_assoc, take_drop. unfold rest. by rewrite <- concat_app, take_drop.
    + rewrite concat_app. cbn [concat]. by rewrite app_nil_r, app_assoc.
Qed.
End Lines.

(** The breaks of the code, on bytes. *)
Definition label_break (b : byte) : bool := bool_decide (b ∈ [x2d; x5f; x2e; x2f; x20]).

Lemma fitLines_fits_witness :
  fitLines label_break x7e "payments-ledger-replica-01" 17 2 = ["payments-ledger-"; "replica-01"] /\
  fitLines label_break x7e "payments-ledger-replica-01" 17 1 = ["payments-ledger-~"] /\
  length (fitLines label_break x7e "payments-ledger-replica-01" 17 1) <= 1.
Proof.
  split_and!; [by vm_compute..|]. apply (fitLines_fits label_break x7e "payments-ledger-replica-01" 17 1); [lia|done].
Defined.

Definition NODE_BOX : Z * Z := (164, 42)%Z.
Definition FOCUS_W : Z := 240.

(** The lines of a label decide the height of the focus. *)
Definition boxSize (label : str) (focus : bool) : Z * Z :=
  if focus then (FOCUS_W, Z.max 42 (Z.of_nat (length (split_on x0a label)) * 18 + 12))%Z else NODE_BOX.

(** ** A service at one version *)
Record VersionDep := { vd_name : option str; vd_required : option bool }.
Record VersionDetail := {
  vt_name : str; vt_contractStatus : option str; vt_version : option str; vt_dependencies : option (list VersionDep) }.
Record FleetEntry := { fe_name : str; fe_contractStatus : option str; fe_version : option str }.
Record VNode := { vn_id : str; vn_status : str; vn_version : str; vn_edges : list (str * option bool) }.

Definition by_name (services : list FleetEntry) : list (str * FleetEntry) :=
  fold_left (fun m s => map_set (fe_name s) s m) services [].

Definition dep_node (fleet : list (str * FleetEntry)) (name : str) : VNode :=
  let svc := assoc name fleet in
  {| vn_id := name; vn_status := match svc with Some s => or_str (fe_contractStatus s) "external" | None => "external" end;
     vn_version := match svc with Some s => or_str (fe_version s) [] | None => [] end; vn_edges := [] |}.

(** The loop over the dependencies: the root's edges, the names seen and the nodes pushed. *)
Definition add_dep (root : str) (fleet : list (str * FleetEntry)) (st : list (str * option bool) * list str * list VNode) (dep : VersionDep)
    : list (str * option bool) * list str * list VNode :=
  let '(es, seen, ns) := st in
  match when_truthy (vd_name dep) with
  | Some n => if n === root then st
              else let es := es ++ [(n, vd_required dep)] in
                   if bool_decide (n ∈ seen) then (es, seen, ns) else (es, seen ++ [n], ns ++ [dep_node fleet n])
  | None => st
  end.

Definition buildVersionSubgraph (detail : VersionDetail) (services : option (list FleetEntry)) (version : str) : list VNode :=
  let '(es, _, ns) := fold_left (add_dep (vt_name detail) (by_name (nullish services []))) (nullish (vt_dependencies detail) [])
                        ([], [vt_name detail], []) in
  {| vn_id := vt_name detail; vn_status := or_str (vt_contractStatus detail) "Unknown";
     vn_version := or_s version (or_str (vt_version detail) []); vn_edges := es |} :: ns.

(** The nodes are distinct, and the root's edges lead to exactly the other nodes. *)
Lemma buildVersionSubgraph_spec detail services version :
  let g := buildVersionSubgraph detail services version in
  NoDup (vn_id <$> g) /\ exists root deps, g = root :: deps /\ vn_id root = vt_name detail /\
    (forall n, n ∈ (vn_edges root).*1 <-> n ∈ vn_id <$> deps).
Proof.
  unfold buildVersionSubgraph. set (fleet := by_name _). set (root := vt_name detail).
  assert (forall l es seen ns, seen = root :: (vn_id <$> ns) -> NoDup seen -> (forall n, n ∈ es.*1 <-> n ∈ vn_id <$> ns) ->
    let '(es', seen', ns') := fold_left (add_dep root fleet) l (es, seen, ns) in
    seen' = root :: (vn_id <$> ns') /\ NoDup seen' /\ (forall n, n ∈ es'.*1 <-> n ∈ vn_id <$> ns')) as Hl.
  { induction l as [|dep l IH]; intros es seen ns Hs Hn He; [done|]. cbn [fold_left]. unfold add_dep at 2.
    destruct (when_truthy (vd_name dep)) as [n|]; [|by apply IH]. case_bool_decide as Er; [by apply IH|].
    case_bool_decide as Es.
    - apply IH; [done|done|]. intros m. rewrite fmap_app, elem_of_app, He. cbn [fst]. split; [|by left].
      intros [?| ->%list_elem_of_singleton]; [done|]. subst seen. apply elem_of_cons in Es as [?|?]; done.
    - apply IH.
      + subst seen. cbn [app]. by rewrite fmap_app.
      + apply NoDup_app. split_and!; [done| |apply NoDup_singleton]. by intros m Hm ->%list_elem_of_singleton.
      + intros m. rewrite !fmap_app, !elem_of_app, He. done. }
  specialize (Hl (nullish (vt_dependencies detail) []) [] [root] []).
  destruct (fold_left _ _ _) as [[es seen] ns]. destruct Hl as (Hs & Hn & He); [done|apply NoDup_singleton|done|].
  cbn zeta. split; [rewrite fmap_cons; cbn [vn_id]; by subst seen|]. by do 2 eexists.
Qed.

(** ** A subgraph around a focus *)
Abbreviation NodeMap := (list (str * GraphNode)).

Definition node_map (nodes : list GraphNode) : NodeMap := fold_left (fun m n => map_set (gid n) n m) nodes [].

(** The targets of a node that are new and known are visited and queued. *)
Definition visit_targets (nm : NodeMap) (n : GraphNode) (st : list str * list str) : list str * list str :=
  fold_left (fun st e => let '(visited, queue) := st in
    if negb (bool_decide (targetId e ∈ visited)) && map_has (targetId e) nm
    then (visited ++ [targetId e], queue ++ [targetId e]) else st) (edges n) st.

Fixpoint bfs (nm : NodeMap) (fuel : nat) (visited queue : list str) : list str :=
  match fuel, queue with
  | S fuel', id :: rest =>
      match assoc id nm with
      | None => bfs nm fuel' visited rest
      | Some n => let '(visited, queue) := visit_targets nm n (visited, rest) in bfs nm fuel' visited queue
      end
  | _, _ => visited
  end.

(** Nodes that point to something visited, in the order of the list, each seeing the ones
    added before it. *)
Definition add_pointing (visited : list str) (n : GraphNode) : list str :=
  fold_left (fun v e => if bool_decide (targetId e ∈ v) then set_add (gid n) v else v) (edges n) visited.

Definition extractSubgraph (nodes : list GraphNode) (focusId : str) : option (list GraphNode) :=
  match nodes with
  | [] => None
  | _ =>
      if negb (truthy focusId) then None
      else
        let nm := node_map nodes in
        if negb (map_has focusId nm) then None
        else
          let visited := fold_left add_pointing nodes (bfs nm (length nodes) [focusId] [focusId]) in
          let sub := List.filter (fun n => bool_decide (gid n ∈ visited)) nodes in
          if 1 <? length sub then Some sub else None
  end.

Section Bfs.
Context (nm : NodeMap) (focus : str).

Definition points (a b : str) : Prop := exists n, assoc a nm = Some n /\ b ∈ targetId <$> edges n /\ b ∈ keys nm.

Record bfs_inv (vis q : list str) : Prop := {
  b_nodup : NoDup vis;
  b_known : forall k, k ∈ vis -> k ∈ keys nm;
  b_queue : forall k, k ∈ q -> k ∈ vis;
  b_focus : focus ∈ vis;
  b_reach : forall k, k ∈ vis -> rtc points focus k;
  b_done : forall k c, k ∈ vis -> k ∉ q -> points k c -> c ∈ vis }.

Lemma visit_targets_spec n vis q :
  NoDup vis ->
  exists new, visit_targets nm n (vis, q) = (vis ++ new, q ++ new) /\ NoDup (vis ++ new) /\
    (forall k, k ∈ new -> k ∈ targetId <$> edges n /\ k ∈ keys nm) /\
    (forall k, k ∈ targetId <$> edges n -> k ∈ keys nm -> k ∈ vis ++ new).
Proof.
  unfold visit_targets. revert vis q. induction (edges n) as [|e es IH]; intros vis q Hn; cbn [fold_left].
  { exists []. rewrite !app_nil_r. split_and!; [done|done|by intros k ?%elem_of_nil|by intros k ?%elem_of_nil]. }
  destruct (decide (targetId e ∈ vis)) as [Hv|Hv].
  { rewrite bool_decide_eq_true_2 by done. cbn [negb andb]. destruct (IH vis q Hn) as (new & E & H1 & H2 & H3). exists new. rewrite E.
    split_and!; [done|done| |].
    - intros k Hk. destruct (H2 k Hk). split; [by right|done].
    - intros k [->|Hk]%elem_of_cons Hkeys; [apply elem_of_app; by left|by apply H3]. }
  rewrite bool_decide_eq_false_2 by done. cbn [negb andb]. destruct (map_has (targetId e) nm) eqn:Em.
  - apply map_has_spec in Em. destruct (IH (vis ++ [targetId e]) (q ++ [targetId e])) as (new & E & H1 & H2 & H3).
    { apply NoDup_app. split_and!; [done| |apply NoDup_singleton]. by intros k Hk ->%list_elem_of_singleton. }
    exists (targetId e :: new). rewrite E. rewrite <- !app_assoc in *. cbn [app] in *. split_and!; [done|done| |].
    + intros k [->|Hk]%elem_of_cons; [split; [by left|done]|]. destruct (H2 k Hk). split; [by right|done].
    + intros k [->|Hk]%elem_of_cons Hkeys; [apply elem_of_app; right; by left|by apply H3].
  - destruct (IH vis q Hn) as (new & E & H1 & H2 & H3). exists new. rewrite E. split_and!; [done|done| |].
    + intros k Hk. destruct (H2 k Hk). split; [by right|done].
    + intros k [->|Hk]%elem_of_cons Hkeys; [|by apply H3]. apply map_has_spec in Hkeys. congruence.
Qed.

Lemma bfs_drains fuel vis q :
  bfs_inv vis q -> length q + length (keys nm) <= fuel + length vis -> bfs_inv (bfs nm fuel vis q) [].
Proof.
  revert vis q. induction fuel as [|fuel IH]; intros vis q Hi Hf.
  { assert (length vis <= length (keys nm)) by (apply submseteq_length, NoDup_submseteq; apply Hi).
    destruct q; [done|cbn in *; lia]. }
  destruct q as [|id q]; [done|]. cbn [bfs]. destruct Hi as [Hn Hk Hq Hfo Hr Hd].
  destruct (assoc id nm) as [n|] eqn:Ea.
  - destruct (visit_targets_spec n vis q Hn) as (new & -> & Hn' & H2 & H3). apply IH.
    + constructor; [done| | | | |].
      * intros k [?|Hnew]%elem_of_app; [by apply Hk|]. by apply H2.
      * intros k [Hkq|Hnew]%elem_of_app; apply elem_of_app; [left; apply Hq; by right|by right].
      * apply elem_of_app. by left.
      * intros k [?|Hnew]%elem_of_app; [by apply Hr|]. destruct (H2 k Hnew) as [Ht Hkk].
        eapply rtc_r; [apply Hr, Hq; by left|]. exists n. done.
      * intros k c Hkv Hkq Hp. destruct (decide (k = id)) as [->|Hne].
        { destruct Hp as (n' & E' & Ht & Hc). assert (n' = n) as -> by congruence. by apply H3. }
        apply elem_of_app in Hkv as [Hkv|Hnew]; [|destruct Hkq; apply elem_of_app; by right].
        apply elem_of_app. left. apply (Hd k c); [done| |done]. intros [->|Hin]%elem_of_cons; [done|].
        apply Hkq, elem_of_app. by left.
    + rewrite !length_app. cbn [length] in Hf. lia.
  - exfalso. assert (id ∈ keys nm) as Hin by (apply Hk, Hq; by left). by apply assoc_None in Ea.
Qed.

Lemma bfs_reaches fuel :
  focus ∈ keys nm -> length (keys nm) <= fuel ->
  forall k, k ∈ bfs nm fuel [focus] [focus] <-> rtc points focus k.
Proof.
  intros Hf Hl. destruct (bfs_drains fuel [focus] [focus]) as [_ _ _ Hfo Hr Hd].
  - constructor; [apply NoDup_singleton|by intros k ->%list_elem_of_singleton|done|by left| |].
    + by intros k ->%list_elem_of_singleton.
    + intros k c ->%list_elem_of_singleton []. by left.
  - cbn [length]. lia.
  - intros k. split; [apply Hr|]. assert (forall a b, rtc points a b -> a ∈ bfs nm fuel [focus] [focus] -> b ∈ bfs nm fuel [focus] [focus]) as Hc.
    { induction 1 as [a|a b c Hab _ IH]; [done|]. intros Ha. apply IH, (Hd a b Ha); [by intros ?%elem_of_nil|done]. }
    intros Hrtc. by apply (Hc focus).
Qed.
End Bfs.

Lemma keys_node_map nodes k : k ∈ keys (node_map nodes) <-> k ∈ gid <$> nodes.
Proof.
  unfold node_map. assert (forall m, k ∈ keys (fold_left (fun m n => map_set (gid n) n m) nodes m) <-> k ∈ keys m \/ k ∈ gid <$> nodes) as H.
  { induction nodes as [|n nodes IH]; intros m; cbn [fold_left]; [rewrite elem_of_nil; tauto|].
    rewrite IH, elem_of_keys_map_set, fmap_cons, elem_of_cons. tauto. }
  rewrite H. cbn. rewrite elem_of_nil. tauto.
Qed.

Lemma length_node_map nodes : length (keys (node_map nodes)) <= length nodes.
Proof.
  assert (NoDup (keys (node_map nodes))) as Hn.
  { unfold node_map. assert (forall m : NodeMap, NoDup (keys m) -> NoDup (keys (fold_left (fun m n => map_set (gid n) n m) nodes m))) as H.
    { induction nodes as [|n l IH]; intros m Hm; [done|]. apply IH. by apply NoDup_map_set. }
    apply H. constructor. }
  rewrite <- (length_fmap gid nodes). apply submseteq_length, NoDup_submseteq; [done|]. intros k. by rewrite keys_node_map.
Qed.

(** One node of the second pass. *)
Lemma add_pointing_spec v n k :
  k ∈ add_pointing v n <-> k ∈ v \/ (k = gid n /\ exists e, e ∈ edges n /\ targetId e ∈ v).
Proof.
  unfold add_pointing. revert v. induction (edges n) as [|e es IH]; intros v; cbn [fold_left].
  { split; [by left|]. intros [?|(_ & e & He & _)]; [done|by apply elem_of_nil in He]. }
  case_bool_decide as E; rewrite IH.
  - rewrite elem_of_set_add. split.
    + intros [[->|?]|[-> _]]; [right|by left|right]; (split; [done|]; exists e; split; [by left|done]).
    + intros [?|[-> _]]; left; [by right|by left].
  - split; (intros [?|(-> & e' & He & Ht)]; [by left|right; split; [done|]]).
    + exists e'. split; [by right|done].
    + apply elem_of_cons in He as [->|He]; [done|]. by exists e'.
Qed.

Lemma pointing_pass nodes v :
  let v' := fold_left add_pointing nodes v in
  (forall k, k ∈ v -> k ∈ v') /\
  (forall n e, n ∈ nodes -> e ∈ edges n -> targetId e ∈ v -> gid n ∈ v') /\
  (forall k, k ∈ v' -> k ∈ v \/ exists n e, n ∈ nodes /\ k = gid n /\ e ∈ edges n /\ targetId e ∈ v').
Proof.
  cbn zeta. revert v. induction nodes as [|n nodes IH]; intros v; cbn [fold_left].
  { split_and!; [done|by intros n e ?%elem_of_nil|by left]. }
  destruct (IH (add_pointing v n)) as (H1 & H2 & H3).
  assert (forall k, k ∈ v -> k ∈ add_pointing v n) as Hm by (intros k Hk; apply add_pointing_spec; by left). split_and!.
  - intros k Hk. by apply H1, Hm.
  - intros n' e [->|Hn]%elem_of_cons He Ht; [|by eapply H2; [..|by apply Hm]].
    apply H1, add_pointing_spec. right. split; [done|]. by exists e.
  - intros k [[?|(-> & e & He & Ht)]%add_pointing_spec|(n' & e & Hn & -> & He & Ht)]%H3; [by left|right..].
    + exists n, e. split_and!; [by left|done|done|by apply H1, Hm].
    + exists n', e. split_and!; [by right|done..].
Qed.

(** The subgraph around a focus holds everything the focus leads to and everything that
    points at any of that; a node is there only because the focus leads to it, or because it
    points at another node that is. Nothing is there when only the focus would be. *)
Theorem extractSubgraph_spec (nodes : list GraphNode) (focusId : str) (sub : list GraphNode)
    (H : extractSubgraph nodes focusId = Some sub) :
  let reach := rtc (points (node_map nodes)) focusId in
  sublist sub nodes /\ 1 < length sub /\
  (forall n, n ∈ nodes -> reach (gid n) -> n ∈ sub) /\
  (forall n e, n ∈ nodes -> e ∈ edges n -> reach (targetId e) -> n ∈ sub) /\
  (forall n, n ∈ sub -> reach (gid n) \/ exists n' e, n' ∈ sub /\ gid n' = gid n /\ e ∈ edges n' /\
     (reach (targetId e) \/ exists m, m ∈ sub /\ gid m = targetId e)).
Proof.
  unfold extractSubgraph in H. destruct nodes as [|n0 nodes0]; [done|]. set (nodes := n0 :: nodes0) in *. clearbody nodes.
  destruct (truthy focusId); [|done]. cbn [negb] in H. destruct (map_has focusId (node_map nodes)) eqn:Em; [|done].
  cbn [negb] in H. apply map_has_spec in Em.
  pose proof (bfs_reaches (node_map nodes) focusId (length nodes) Em (length_node_map nodes)) as Hb.
  destruct (pointing_pass nodes (bfs (node_map nodes) (length nodes) [focusId] [focusId])) as (H1 & H2 & H3).
  set (v := fold_left add_pointing nodes _) in *.
  destruct (Nat.ltb_spec 1 (length (List.filter (fun n => bool_decide (gid n ∈ v)) nodes))) as [Hl|Hl]; [|done]. injection H as <-.
  assert (forall n, n ∈ List.filter (fun n => bool_decide (gid n ∈ v)) nodes <-> n ∈ nodes /\ gid n ∈ v) as Hin.
  { intros n. by rewrite elem_of_lfilter, bool_decide_eq_true. }
  cbn zeta. split_and!; [apply filter_sublist|done| | |].
  - intros n Hn Hr. apply Hin. split; [done|]. by apply H1, Hb.
  - intros n e Hn He Hr. apply Hin. split; [done|]. eapply H2; [done..|by apply Hb].
  - intros n [Hn Hv]%Hin. destruct (H3 _ Hv) as [Hr%Hb|(n' & e & Hn' & E & He & Ht)]; [by left|right].
    exists n', e. split_and!; [apply Hin; by rewrite <- E|done|done|].
    destruct (H3 _ Ht) as [Hr%Hb|(m & e' & Hm & Em' & _)]; [by left|right]. exists m. split; [|done]. apply Hin. by rewrite <- Em'.
Qed.

Definition draw_node (id : str) (ts : list str) : GraphNode :=
  {| gid := id; serviceName := id; status := "Compliant"; version := None; kind := KService;
     edges := (fun t => {| targetId := t; e_type := None; e_state := None; driftStatus := None; refused := false; e_label := None |}) <$> ts;
     depth := None; owner := None; group := None; side := None; lane := false; parent := None |}.

Lemma extractSubgraph_spec_witness :
  exists sub, extractSubgraph [draw_node "web" ["api"]; draw_node "api" ["db"]; draw_node "db" []; draw_node "job" []] "api" = Some sub /\
    draw_node "db" [] ∈ sub /\ draw_node "web" ["api"] ∈ sub.
Proof.
  eexists. split; [by vm_compute|].
  edestruct (extractSubgraph_spec [draw_node "web" ["api"]; draw_node "api" ["db"]; draw_node "db" []; draw_node "job" []] "api")
    as (_ & _ & H3 & H4 & _); [by vm_compute|]. split.
  - apply H3; [by right; right; left|]. apply rtc_once. exists (draw_node "api" ["db"]). split_and!; [by vm_compute|by left|].
    by apply keys_node_map; right; right; left.
  - eapply H4; [by left|by left|]. apply rtc_refl.
Defined.

(** Which dependents of dependents are kept depends on the order of the list. *)
Example extract_order_matters :
  (fmap (M := list) gid <$> extractSubgraph [draw_node "f" []; draw_node "p" ["f"]; draw_node "q" ["p"]] "f") = Some ["f"; "p"; "q"] /\
  (fmap (M := list) gid <$> extractSubgraph [draw_node "f" []; draw_node "q" ["p"]; draw_node "p" ["f"]] "f") = Some ["f"; "p"].
Proof. by vm_compute. Qed.
