(* ===== verification/LaneLayout.v ===== *)
(** * Where a focused neighborhood is drawn: [laneLayout] of
    [src/pkg/dashboard/frontend/src/lib/graph.ts]

    Depths, sides, group sizes and the canvas are integers, and every coordinate is one: a
    row step is even, so half a row is too. Zooms are compared as the fractions they are,
    which for counts and canvas sizes of a screen order as the doubles do. *)

From stdpp Require Import base list gmap sorting.
From Stdlib Require Import Init.Byte ZArith NArith Lia.
From S2P Require Import Prelude Lanes GraphDraw.
Local Open Scope Z_scope.

Definition NODE_W : Z := 164.
Definition NODE_H : Z := 42.
Definition LANE_COL : Z := NODE_W + 20.
Definition LANE_ROW : Z := NODE_H + 20.
Definition LANE_GAP : Z := 60.
Definition LANE_GAP_FAR : Z := 150.

Record LaneNode := {
  ln_id : str; ln_depth : option Z; ln_side : option Z; ln_owner : option str; ln_group : option Z; ln_lane : bool }.

Definition laneRank (n : LaneNode) : Z :=
  let d := Z.max 1 (nullish (ln_depth n) 1) in
  if d =? 1 then 2 else if negb (nullish (ln_group n) 0 =? 0) then 2 * d else 2 * d + 1.

Definition gapBefore (rank : Z) : Z := if (2 <? rank) && (rank mod 2 =? 0) then LANE_GAP_FAR else LANE_GAP.

(** [(n.side || 1) * laneRank(n)] *)
Definition lane_key (n : LaneNode) : Z :=
  (if nullish (ln_side n) 0 =? 0 then 1 else nullish (ln_side n) 0) * laneRank n.

Definition is_focus (n : LaneNode) : bool := Z.max 0 (nullish (ln_depth n) 1) =? 0.

Definition cmp_lane `{Locale} (a b : LaneNode) : Z :=
  cmp_or (localeCompare (or_str (ln_owner a) []) (or_str (ln_owner b) [])) (localeCompare (ln_id a) (ln_id b)).

Definition lane_sorted `{Locale} (nodes : list LaneNode) : list LaneNode :=
  sort_by cmp_lane (List.filter (fun n => negb (ln_lane n)) nodes).

Abbreviation Columns := (list (Z * list str)).

Definition lane_columns (sorted : list LaneNode) : Columns :=
  group_by lane_key (fun _ => []) (fun ids n => ids ++ [ln_id n]) (List.filter (fun n => negb (is_focus n)) sorted).

Definition len (ids : list str) : Z := Z.of_nat (length ids).
Definition max_all (d : Z) (l : list Z) : Z := fold_left Z.max l d.
Definition ceil_div (a b : Z) : Z := - ((- a) / b).

(** *** The rows of a column *)

(** A zoom, [n / d]. *)
Record Zoom := { z_num : Z; z_den : Z }.
Definition zoom_lt (a b : Zoom) : bool := z_num a * z_den b <? z_num b * z_den a.
Definition zoom_min (a b : Zoom) : Zoom := if zoom_lt b a then b else a.

Definition zoom_of (cols : Columns) (w h r : Z) : Zoom :=
  let subs := fold_left (fun t c => t + ceil_div (len c) r) (values cols) 0 in
  let gaps := fold_left (fun t k => t + gapBefore (Z.abs k)) (keys cols) 0 in
  zoom_min {| z_num := w; z_den := (subs + 1) * LANE_COL + gaps |} {| z_num := 2 * h; z_den := (2 * r + 1) * LANE_ROW |}.

(** The loop over the rows from [r], with the best so far. *)
Fixpoint best_rows (zoom : Z -> Zoom) (fuel : nat) (r rows : Z) (best : Zoom) : Z :=
  match fuel with
  | O => rows
  | S fuel' => if zoom_lt best (zoom r) then best_rows zoom fuel' (r + 1) r (zoom r)
               else best_rows zoom fuel' (r + 1) rows best
  end.

Definition choose_rows (cols : Columns) (width height : Z) : Z :=
  let tallest := max_all 1 (len <$> values cols) in
  let w := Z.max 1 (width - 60) in
  let h := Z.max 1 (height - 60) in
  let lane := max_all 0 ((fun p => len p.2) <$> List.filter (fun p => Z.abs p.1 =? 2) cols) in
  let first := if Z.min lane LANE_CAP =? 0 then 1 else Z.min lane LANE_CAP in
  best_rows (zoom_of cols w h) (Z.to_nat (tallest - first + 1)) first tallest {| z_num := -1; z_den := 1 |}.

(** *** Placing *)
Abbreviation Placed := (str * (Z * Z))%type.

(** A chunk of a column at [x], from its [i]-th id of [n]. *)
Fixpoint place_chunk (x off n i : Z) (ids : list str) : list Placed :=
  match ids with
  | [] => []
  | id :: rest => (id, (x, (2 * i - (n - 1)) * (LANE_ROW / 2) + off)) :: place_chunk x off n (i + 1) rest
  end.

(** The sub-columns from the [s]-th on: what is placed, and how far out they reach. *)
Fixpoint place_column (rows : Z) (fuel : nat) (s x : Z) (ids : list str) : list Placed * Z :=
  match fuel, ids with
  | O, _ | _, [] => ([], x)
  | S fuel', _ =>
      let x := x + LANE_COL in
      let chunk := take (Z.to_nat rows) ids in
      let off := if s mod 2 =? 0 then 0 else LANE_ROW / 2 in
      let '(l, x') := place_column rows fuel' (s + 1) x (drop (Z.to_nat rows) ids) in
      (place_chunk x off (len chunk) 0 chunk ++ l, x')
  end.

(** The columns of a side from rank [r] out. *)
Fixpoint place_side (cols : Columns) (side rows : Z) (fuel : nat) (r x : Z) : list Placed :=
  match fuel with
  | O => []
  | S fuel' =>
      match assoc (side * r) cols with
      | None => place_side cols side rows fuel' (r + 1) x
      | Some ids =>
          let '(l, x') := place_column rows (length ids) 0 (x + gapBefore r) ids in
          l ++ place_side cols side rows fuel' (r + 1) x'
      end
  end.

(** [side * x] *)
Definition mirror (side : Z) (p : Placed) : Placed := (p.1, (side * p.2.1, p.2.2)).

Definition all_placed `{Locale} (nodes : list LaneNode) (width height : Z) : list Placed :=
  let sorted := lane_sorted nodes in
  let cols := lane_columns sorted in
  let rows := choose_rows cols width height in
  let ranks := Z.to_nat (max_all 0 (Z.abs <$> keys cols) - 1) in
  ((fun n => (ln_id n, (0, 0))) <$> List.filter is_focus sorted) ++
  (mirror (-1) <$> place_side cols (-1) rows ranks 2 0) ++ (mirror 1 <$> place_side cols 1 rows ranks 2 0).

Definition laneLayout `{Locale} (nodes : list LaneNode) (width height : Z) : list (str * (Z * Z)) :=
  fold_left (fun pos p => map_set p.1 p.2 pos) (all_placed nodes width height) [].

(** ** Boxes stay apart *)
Definition clear (p q : Placed) : Prop :=
  LANE_COL <= Z.abs (p.2.1 - q.2.1) \/ LANE_ROW <= Z.abs (p.2.2 - q.2.2).

Lemma fop_app {A} (R : A -> A -> Prop) l l' :
  ForallOrdPairs R l -> ForallOrdPairs R l' -> (forall x y, x ∈ l -> y ∈ l' -> R x y) -> ForallOrdPairs R (l ++ l').
Proof.
  induction 1 as [|a l Ha Hl IH]; intros Hl' Hx; [done|]. cbn [app]. constructor.
  - apply Forall_app. split; [done|]. apply Forall_forall. intros y Hy. apply Hx; [left|done].
  - apply IH; [done|]. intros x y Hxl Hy. apply Hx; [by right|done].
Qed.

Lemma chunk_elem x off n i ids p :
  p ∈ place_chunk x off n i ids -> p.2.1 = x /\ (2 * i - (n - 1)) * (LANE_ROW / 2) + off <= p.2.2.
Proof.
  revert i. induction ids as [|id ids IH]; intros i; cbn [place_chunk]; [by intros ?%elem_of_nil|].
  intros [->|H]%elem_of_cons; [cbn; lia|]. apply IH in H as [H1 H2]. split; [done|]. change (LANE_ROW / 2) with 31 in *. lia.
Qed.

Lemma chunk_clear x off n i ids : ForallOrdPairs clear (place_chunk x off n i ids).
Proof.
  revert i. induction ids as [|id ids IH]; intros i; cbn [place_chunk]; constructor; [|apply IH].
  apply Forall_forall. intros p [_ Hp]%chunk_elem. right. cbn [fst snd]. change (LANE_ROW / 2) with 31 in *. change LANE_ROW with 62. lia.
Qed.

Lemma chunk_ids x off n i ids : (place_chunk x off n i ids).*1 = ids.
Proof. revert i. induction ids as [|id ids IH]; intros i; [done|]. cbn [place_chunk]. rewrite fmap_cons. cbn [fst]. by rewrite IH. Qed.

Lemma column_spec rows fuel s x ids :
  1 <= rows -> (length ids <= fuel)%nat ->
  let '(l, x') := place_column rows fuel s x ids in
  l.*1 = ids /\ x <= x' /\ ForallOrdPairs clear l /\ (forall p, p ∈ l -> x + LANE_COL <= p.2.1 <= x').
Proof.
  intros Hr. revert s x ids. induction fuel as [|fuel IH]; intros s x ids Hf.
  - destruct ids; [|cbn in Hf; lia]. cbn. split_and!; [done|lia|constructor|by intros p ?%elem_of_nil].
  - destruct ids as [|id ids]; [cbn; split_and!; [done|lia|constructor|by intros p ?%elem_of_nil]|].
    cbn [place_column]. set (all := id :: ids) in *. cbn zeta.
    specialize (IH (s + 1) (x + LANE_COL) (drop (Z.to_nat rows) all)).
    destruct (place_column rows fuel (s + 1) (x + LANE_COL) (drop (Z.to_nat rows) all)) as [l x'].
    destruct IH as (Hi & Hx & Hc & Hb); [rewrite length_drop; unfold all in *; cbn [length] in *; lia|].
    assert (0 < LANE_COL) as H0 by done. split_and!.
    + rewrite fmap_app, chunk_ids, Hi. apply take_drop.
    + lia.
    + apply fop_app; [apply chunk_clear|done|]. intros p q [Hp _]%chunk_elem Hq%Hb. left. rewrite Hp. lia.
    + intros p [[Hp _]%chunk_elem|Hp%Hb]%elem_of_app; lia.
Qed.

Lemma side_spec cols side rows fuel r x :
  1 <= rows -> 0 <= x ->
  ForallOrdPairs clear (place_side cols side rows fuel r x) /\
  (forall p, p ∈ place_side cols side rows fuel r x -> x + LANE_GAP + LANE_COL <= p.2.1) /\
  (forall r' ids id, r <= r' < r + Z.of_nat fuel -> assoc (side * r') cols = Some ids -> id ∈ ids ->
     id ∈ (place_side cols side rows fuel r x).*1).
Proof.
  intros Hr. revert r x. induction fuel as [|fuel IH]; intros r x Hx; cbn [place_side].
  { split_and!; [constructor|by intros p ?%elem_of_nil|lia]. }
  assert (LANE_GAP <= gapBefore r) as Hg by (unfold gapBefore; by destruct (_ && _)). change LANE_GAP with 60 in *.
  destruct (assoc (side * r) cols) as [ids0|] eqn:Ea.
  - pose proof (column_spec rows (length ids0) 0 (x + gapBefore r) ids0 Hr ltac:(lia)) as Hcol.
    destruct (place_column rows (length ids0) 0 (x + gapBefore r) ids0) as [l x'].
    destruct Hcol as (Hi & Hx' & Hc & Hb). destruct (IH (r + 1) x') as (H1 & H2 & H3); [lia|]. split_and!.
    + apply fop_app; [done|done|]. intros p q Hp%Hb Hq%H2. left. unfold LANE_COL, NODE_W in *. lia.
    + intros p [Hp%Hb|Hp%H2]%elem_of_app; lia.
    + intros r' ids id Hrange E Hid. rewrite fmap_app, Hi. apply elem_of_app.
      destruct (decide (r' = r)) as [->|Hne]; [left; congruence|]. right. apply (H3 r' ids); [lia|done|done].
  - destruct (IH (r + 1) x) as (H1 & H2 & H3); [lia|]. split_and!; [done|done|].
    intros r' ids id Hrange E Hid. destruct (decide (r' = r)) as [->|Hne]; [congruence|]. apply (H3 r' ids); [lia|done|done].
Qed.

Lemma best_rows_range zoom fuel r rows best : 1 <= r -> 1 <= rows -> 1 <= best_rows zoom fuel r rows best.
Proof. revert r rows best. induction fuel as [|fuel IH]; intros r rows best Hr Hrows; [done|]. cbn. destruct (zoom_lt _ _); apply IH; lia. Qed.

Lemma max_all_ge d l : d <= max_all d l /\ forall x, x ∈ l -> x <= max_all d l.
Proof.
  revert d. induction l as [|y l IH]; intros d; [split; [done|by intros x ?%elem_of_nil]|]. cbn [max_all fold_left].
  destruct (IH (Z.max d y)) as [H1 H2]. unfold max_all in *. split; [lia|].
  intros x [->|Hx]%elem_of_cons; [lia|]. by apply H2.
Qed.

Lemma rows_positive cols w h : 1 <= choose_rows cols w h.
Proof.
  unfold choose_rows. destruct (max_all_ge 1 (len <$> values cols)) as [H1 _].
  destruct (max_all_ge 0 ((fun p => len p.2) <$> List.filter (fun p => Z.abs p.1 =? 2) cols)) as [H2 _].
  apply best_rows_range; [|done]. unfold LANE_CAP. destruct (Z.eqb_spec (Z.min (max_all 0 ((fun p => len p.2) <$> List.filter (fun p => Z.abs p.1 =? 2) cols)) 8) 0); lia.
Qed.

Lemma laneRank_ge n : 2 <= laneRank n.
Proof. unfold laneRank. cbn zeta. destruct (Z.eqb_spec (Z.max 1 (nullish (ln_depth n) 1)) 1); [done|]. destruct (negb _); lia. Qed.

Lemma lane_key_ge n : 2 <= Z.abs (lane_key n).
Proof.
  unfold lane_key. pose proof (laneRank_ge n). rewrite Z.abs_mul.
  destruct (Z.eqb_spec (nullish (ln_side n) 0) 0) as [E|E]; [change (Z.abs 1) with 1; lia|].
  assert (1 <= Z.abs (nullish (ln_side n) 0)) by lia. nia.
Qed.

Lemma fold_ids l acc : fold_left (fun ids n => ids ++ [ln_id n]) l acc = acc ++ (ln_id <$> l).
Proof. revert acc. induction l as [|n l IH]; intros acc; [cbn; by rewrite app_nil_r|]. cbn [fold_left]. rewrite IH, <- app_assoc. done. Qed.

Lemma column_of sorted n :
  n ∈ sorted -> is_focus n = false ->
  exists ids, assoc (lane_key n) (lane_columns sorted) = Some ids /\ ln_id n ∈ ids /\ lane_key n ∈ keys (lane_columns sorted).
Proof.
  intros Hn Hf. unfold lane_columns. rewrite group_by_rows. set (l := List.filter _ sorted).
  assert (n ∈ l) as Hl by (apply elem_of_lfilter; by rewrite Hf). rewrite assoc_fmap_keys.
  assert (lane_key n ∈ dedupe (lane_key <$> l)) as Hk by (apply elem_of_dedupe; by apply list_elem_of_fmap_2).
  rewrite bool_decide_eq_true_2 by done. eexists. split_and!; [done| |].
  - unfold group_row. rewrite fold_ids. apply list_elem_of_fmap_2, elem_of_lfilter. by rewrite eqb_refl.
  - unfold keys. rewrite <- list_fmap_compose. apply list_elem_of_fmap. by exists (lane_key n).
Qed.

Lemma mirror_clear side l : Z.abs side = 1 -> ForallOrdPairs clear l -> ForallOrdPairs clear (mirror side <$> l).
Proof.
  intros Hs. induction 1 as [|p l Hp _ IH]; [constructor|]. rewrite fmap_cons. constructor; [|done].
  apply Forall_fmap. eapply Forall_impl; [exact Hp|]. intros q [H|H]; [left|by right]. cbn [compose mirror fst snd].
  assert (side = 1 \/ side = -1) as [-> | ->] by lia; lia.
Qed.

Lemma assoc_fold_set (l : list Placed) m k :
  (forall v, assoc k (fold_left (fun pos p => map_set p.1 p.2 pos) l m) = Some v -> (k, v) ∈ l \/ assoc k m = Some v) /\
  (k ∈ l.*1 \/ is_Some (assoc k m) -> is_Some (assoc k (fold_left (fun pos p => map_set p.1 p.2 pos) l m))).
Proof.
  revert m. induction l as [|[k1 v1] l IH]; intros m; cbn [fold_left fst snd].
  - split; [by right|]. by intros [?%elem_of_nil|?].
  - destruct (IH (map_set k1 v1 m)) as [H1 H2]. split.
    + intros v [Hv|Hv]%H1; [left; by right|]. rewrite assoc_map_set in Hv. case_bool_decide as E; [|by right].
      injection Hv as <-. subst. left. left.
    + intros H. apply H2. rewrite fmap_cons, elem_of_cons, assoc_map_set in *. cbn [fst] in H.
      case_bool_decide as E; [right; by eexists|]. destruct H as [[H|H]|H]; [done|by left|by right].
Qed.

(** Every node but the lanes is placed. *)
Lemma placed_all `{Locale} nodes w h n :
  n ∈ nodes -> ln_lane n = false -> ln_id n ∈ (all_placed nodes w h).*1.
Proof.
  intros Hn Hl. assert (n ∈ lane_sorted nodes) as Hs.
  { unfold lane_sorted. apply elem_of_sort_by, elem_of_lfilter. by rewrite Hl. }
  unfold all_placed. cbn zeta. set (cols := lane_columns (lane_sorted nodes)). rewrite !fmap_app, !elem_of_app.
  destruct (is_focus n) eqn:Ef.
  { left. rewrite <- list_fmap_compose. apply list_elem_of_fmap. exists n. split; [done|]. by apply elem_of_lfilter. }
  right. destruct (column_of _ n Hs Ef) as (ids & Ea & Hid & Hk). fold cols in Ea, Hk.
  pose proof (lane_key_ge n) as Hge.
  assert (Z.abs (lane_key n) <= max_all 0 (Z.abs <$> keys cols)) as Hmax.
  { destruct (max_all_ge 0 (Z.abs <$> keys cols)) as [_ Hm]. apply Hm. by apply list_elem_of_fmap_2. }
  assert (forall side, side * Z.abs (lane_key n) = lane_key n ->
    ln_id n ∈ (mirror side <$> place_side cols side (choose_rows cols w h) (Z.to_nat (max_all 0 (Z.abs <$> keys cols) - 1)) 2 0).*1) as Hside.
  { intros side Es. rewrite <- list_fmap_compose. change (fst ∘ mirror side) with (fst : Placed -> str).
    destruct (side_spec cols side (choose_rows cols w h) (Z.to_nat (max_all 0 (Z.abs <$> keys cols) - 1)) 2 0) as (_ & _ & H3);
      [apply rows_positive|done|]. apply (H3 (Z.abs (lane_key n)) ids); [lia|by rewrite Es|done]. }
  destruct (Z.abs_eq_or_opp (lane_key n)) as [E|E]; [right|left]; apply Hside; lia.
Qed.

Lemma placed_clear `{Locale} nodes w h :
  (forall a b, a ∈ nodes -> b ∈ nodes -> is_focus a = true -> is_focus b = true -> a = b) -> NoDup nodes ->
  ForallOrdPairs clear (all_placed nodes w h).
Proof.
  intros Hone Hnd. unfold all_placed. cbn zeta. set (sorted := lane_sorted nodes). set (cols := lane_columns sorted).
  set (ranks := Z.to_nat _). set (rows := choose_rows cols w h).
  assert (forall side, ForallOrdPairs clear (place_side cols side rows ranks 2 0) /\
    forall p, p ∈ place_side cols side rows ranks 2 0 -> LANE_COL <= p.2.1) as Hs.
  { intros side. destruct (side_spec cols side rows ranks 2 0) as (H1 & H2 & _); [apply rows_positive|done|].
    split; [done|]. intros p Hp%H2. unfold LANE_GAP in Hp. lia. }
  apply fop_app; [|apply fop_app|].
  - assert (exists l, List.filter is_focus sorted = l /\ (length l <= 1)%nat) as (l & -> & Hl).
    { eexists. split; [done|].
      assert (NoDup (List.filter is_focus sorted)) as Hn.
      { eapply sublist_NoDup; [|apply filter_sublist]. unfold sorted, lane_sorted. rewrite sort_by_Permutation.
        eapply sublist_NoDup; [exact Hnd|apply filter_sublist]. }
      assert (forall a, a ∈ List.filter is_focus sorted -> a ∈ nodes /\ is_focus a = true) as Hin.
      { intros a [Ha Hf]%elem_of_lfilter. split; [|done]. unfold sorted, lane_sorted in Ha.
        rewrite elem_of_sort_by in Ha. by apply elem_of_lfilter in Ha as [Ha _]. }
      destruct (List.filter is_focus sorted) as [|a [|b l]]; [cbn; lia|cbn; lia|].
      destruct (Hin a) as [Ha1 Ha2]; [left|]. destruct (Hin b) as [Hb1 Hb2]; [right; left|].
      apply NoDup_cons in Hn as [Hn _]. destruct Hn. rewrite (Hone a b); [left|done..]. }
    destruct l as [|a [|b l]]; [constructor| |cbn in Hl; lia]. rewrite fmap_cons. repeat constructor.
  - apply mirror_clear; [done|apply Hs].
  - apply mirror_clear; [done|apply Hs].
  - intros p q (p' & -> & Hp)%list_elem_of_fmap (q' & -> & Hq)%list_elem_of_fmap. apply Hs in Hp, Hq. left. cbn [mirror fst snd].
    unfold LANE_COL, NODE_W in *. lia.
  - intros p q (n & -> & _)%list_elem_of_fmap [(q' & -> & Hq)%list_elem_of_fmap|(q' & -> & Hq)%list_elem_of_fmap]%elem_of_app;
      apply Hs in Hq; left; cbn [mirror fst snd]; lia.
Qed.

(** *** The rows chosen are the best *)
Definition zoom_pos (z : Zoom) : Prop := 0 < z_den z.
Definition zoom_le (a b : Zoom) : Prop := zoom_lt b a = false.

Lemma zoom_le_trans a b c : zoom_pos a -> zoom_pos b -> zoom_pos c -> zoom_le a b -> zoom_le b c -> zoom_le a c.
Proof. unfold zoom_pos, zoom_le, zoom_lt. rewrite !Z.ltb_ge. intros. nia. Qed.

Lemma zoom_lt_le a b : zoom_lt a b = true -> zoom_le a b.
Proof. unfold zoom_le, zoom_lt. rewrite Z.ltb_lt, Z.ltb_ge. lia. Qed.

Lemma best_rows_best zoom fuel r rows :
  (forall q, 1 <= q -> zoom_pos (zoom q)) -> 1 <= r -> 1 <= rows ->
  zoom_le (zoom rows) (zoom (best_rows zoom fuel r rows (zoom rows))) /\
  (forall q, r <= q < r + Z.of_nat fuel -> zoom_le (zoom q) (zoom (best_rows zoom fuel r rows (zoom rows)))).
Proof.
  intros Hpos. revert r rows. induction fuel as [|fuel IH]; intros r rows Hr Hrows.
  { cbn. split; [unfold zoom_le, zoom_lt; apply Z.ltb_irrefl|lia]. }
  cbn [best_rows]. destruct (zoom_lt (zoom rows) (zoom r)) eqn:E.
  - destruct (IH (r + 1) r) as [H1 H2]; [lia|lia|]. pose proof (best_rows_range zoom fuel (r + 1) r (zoom r) ltac:(lia) Hr).
    split.
    + eapply zoom_le_trans; [..|by apply zoom_lt_le|exact H1]; by apply Hpos.
    + intros q Hq. destruct (decide (q = r)) as [->|Hne]; [done|]. apply H2. lia.
  - destruct (IH (r + 1) rows) as [H1 H2]; [lia|lia|].
    pose proof (best_rows_range zoom fuel (r + 1) rows (zoom rows) ltac:(lia) Hrows). split; [done|].
    intros q Hq. destruct (decide (q = r)) as [->|Hne]; [|apply H2; lia].
    eapply zoom_le_trans; [..|exact E|exact H1]; by apply Hpos.
Qed.

Lemma zoom_of_pos cols w h r : 1 <= r -> 1 <= w -> 1 <= h -> zoom_pos (zoom_of cols w h r) /\ 0 < z_num (zoom_of cols w h r).
Proof.
  intros Hr Hw Hh. unfold zoom_of, zoom_pos. set (subs := fold_left _ (values cols) 0). set (gaps := fold_left _ (keys cols) 0).
  assert (0 <= subs) as Hs.
  { subst subs. cut (forall l t, 0 <= t -> 0 <= fold_left (fun t (c : list str) => t + ceil_div (len c) r) l t); [intros H; by apply H|].
    induction l as [|c l IH]; intros t Ht; [done|]. cbn [fold_left]. apply IH.
    unfold ceil_div, len. assert (- Z.of_nat (length c) / r <= 0); [|lia]. apply Z.div_le_upper_bound; lia. }
  assert (0 <= gaps) as Hg.
  { subst gaps. cut (forall l t, 0 <= t -> 0 <= fold_left (fun t k => t + gapBefore (Z.abs k)) l t); [intros H; by apply H|].
    induction l as [|k l IH]; intros t Ht; [done|]. cbn [fold_left]. apply IH. unfold gapBefore. destruct (_ && _); unfold LANE_GAP_FAR, LANE_GAP; lia. }
  unfold zoom_min. destruct (zoom_lt _ _); cbn [z_den z_num]; unfold LANE_COL, NODE_W, LANE_ROW, NODE_H; lia.
Qed.

(** No other number of rows the loop tries fits the canvas at a larger zoom. *)
Lemma choose_rows_best cols width height r :
  let tallest := max_all 1 (len <$> values cols) in
  let lane := max_all 0 ((fun p => len p.2) <$> List.filter (fun p => Z.abs p.1 =? 2) cols) in
  let first := if Z.min lane LANE_CAP =? 0 then 1 else Z.min lane LANE_CAP in
  let zoom := zoom_of cols (Z.max 1 (width - 60)) (Z.max 1 (height - 60)) in
  first <= r <= tallest -> zoom_le (zoom r) (zoom (choose_rows cols width height)).
Proof.
  cbn zeta. unfold choose_rows. set (tallest := max_all 1 _). set (lane := max_all 0 _).
  set (first := if Z.min lane LANE_CAP =? 0 then 1 else Z.min lane LANE_CAP).
  set (zoom := zoom_of cols (Z.max 1 (width - 60)) (Z.max 1 (height - 60))). intros Hr.
  assert (forall q, 1 <= q -> zoom_pos (zoom q) /\ 0 < z_num (zoom q)) as Hpos by (intros q Hq; apply zoom_of_pos; lia).
  assert (1 <= first) as Hf.
  { destruct (max_all_ge 0 ((fun p => len p.2) <$> List.filter (fun p => Z.abs p.1 =? 2) cols)) as [H0 _]. fold lane in H0.
    unfold first, LANE_CAP. destruct (Z.eqb_spec (Z.min lane 8) 0); lia. }
  destruct (Z.to_nat (tallest - first + 1)) as [|fuel] eqn:Ef; [lia|]. cbn [best_rows].
  assert (zoom_lt {| z_num := -1; z_den := 1 |} (zoom first) = true) as E.
  { unfold zoom_lt. cbn [z_num z_den]. apply Z.ltb_lt. destruct (Hpos first Hf) as [H1 H2]. unfold zoom_pos in H1. lia. }
  rewrite E. destruct (best_rows_best zoom fuel (first + 1) first) as [H1 H2]; [intros q Hq; by apply Hpos|lia|done|].
  destruct (decide (r = first)) as [->|Hne]; [done|]. apply H2. lia.
Qed.

(** *** What is at the middle and what is beside it *)
Lemma side_ids cols side rows fuel r x id : 1 <= rows ->
  id ∈ (place_side cols side rows fuel r x).*1 -> exists k ids, assoc k cols = Some ids /\ id ∈ ids.
Proof.
  intros Hr. revert r x. induction fuel as [|fuel IH]; intros r x; cbn [place_side]; [by intros ?%elem_of_nil|].
  destruct (assoc (side * r) cols) as [ids0|] eqn:Ea; [|apply IH].
  pose proof (column_spec rows (length ids0) 0 (x + gapBefore r) ids0 Hr ltac:(lia)) as Hcol.
  destruct (place_column rows (length ids0) 0 (x + gapBefore r) ids0) as [l x']. destruct Hcol as (Hi & _).
  rewrite fmap_app, Hi. intros [?|?]%elem_of_app; [by exists (side * r), ids0|by eapply IH].
Qed.

Lemma column_ids sorted k ids id : assoc k (lane_columns sorted) = Some ids -> id ∈ ids ->
  exists n, n ∈ sorted /\ is_focus n = false /\ ln_id n = id.
Proof.
  unfold lane_columns. rewrite group_by_rows, assoc_fmap_keys. case_bool_decide; [|done]. intros [= <-].
  unfold group_row. rewrite fold_ids. intros (n & -> & [[Hn Hf]%elem_of_lfilter _]%elem_of_lfilter)%list_elem_of_fmap.
  exists n. split_and!; [done| |done]. by apply negb_true_iff.
Qed.

Lemma lane_sorted_in `{Locale} nodes n : n ∈ lane_sorted nodes -> n ∈ nodes.
Proof. unfold lane_sorted. rewrite elem_of_sort_by. by intros [Hn _]%elem_of_lfilter. Qed.

(** The focus is at the origin, and every other node a column and the gap away from it. *)
Lemma placed_where `{Locale} nodes w h id p : (id, p) ∈ all_placed nodes w h ->
  exists n, n ∈ nodes /\ ln_id n = id /\ if is_focus n then p = (0, 0) else LANE_GAP + LANE_COL <= Z.abs p.1.
Proof.
  unfold all_placed. cbn zeta. set (cols := lane_columns (lane_sorted nodes)). set (rows := choose_rows cols w h).
  set (ranks := Z.to_nat _).
  assert (forall side, Z.abs side = 1 -> (id, p) ∈ mirror side <$> place_side cols side rows ranks 2 0 ->
    exists n, n ∈ nodes /\ ln_id n = id /\ if is_focus n then p = (0, 0) else LANE_GAP + LANE_COL <= Z.abs p.1) as Hside.
  { intros side Hs ([id' q] & E & Hq)%list_elem_of_fmap. injection E as -> ->.
    destruct (side_spec cols side rows ranks 2 0) as (_ & H2 & _); [apply rows_positive|done|]. pose proof (H2 _ Hq) as Hx. cbn in Hx.
    apply (list_elem_of_fmap_2 fst) in Hq. apply side_ids in Hq as (k & ids & Hk & Hi); [|apply rows_positive].
    destruct (column_ids _ _ _ _ Hk Hi) as (n & Hn%lane_sorted_in & Hf & E). exists n. rewrite Hf. cbn [mirror fst snd] in *.
    split_and!; [done..|]. rewrite Z.abs_mul, Hs. unfold LANE_GAP, LANE_COL, NODE_W in *. lia. }
  rewrite !elem_of_app. intros [(n & E & [Hn%lane_sorted_in Hf]%elem_of_lfilter)%list_elem_of_fmap|[Hp|Hp]].
  - injection E as -> ->. exists n. by rewrite Hf.
  - by apply (Hside (-1)).
  - by apply (Hside 1).
Qed.

Lemma same_id nodes (a b : LaneNode) : NoDup (ln_id <$> nodes) -> a ∈ nodes -> b ∈ nodes -> ln_id a = ln_id b -> a = b.
Proof.
  intros Hnd (i & Hi)%list_elem_of_lookup (j & Hj)%list_elem_of_lookup E.
  assert (i = j) as ->; [|congruence]. eapply NoDup_lookup; [exact Hnd|..]; rewrite list_lookup_fmap; [by rewrite Hi|by rewrite Hj, E].
Qed.

(** The box a node is drawn with, around its position. *)
Definition box (label : LaneNode -> str) (n : LaneNode) : Z * Z := boxSize (label n) (is_focus n).

(** C20: A focused neighborhood is drawn whole and apart. Every node but the lane boxes gets a
    place, the focus at the origin; and whatever the labels, so however tall the wider box of
    the focus is, no two boxes meet. *)
Theorem laneLayout_apart `{Locale} (nodes : list LaneNode) (width height : Z) (label : LaneNode -> str)
    (Hone : forall a b, a ∈ nodes -> b ∈ nodes -> is_focus a = true -> is_focus b = true -> a = b)
    (Hnd : NoDup (ln_id <$> nodes)) :
  let pos := laneLayout nodes width height in
  (forall n, n ∈ nodes -> ln_lane n = false -> exists p, assoc (ln_id n) pos = Some p /\ (is_focus n = true -> p = (0, 0))) /\
  (forall a b p q, a ∈ nodes -> b ∈ nodes -> a <> b -> assoc (ln_id a) pos = Some p -> assoc (ln_id b) pos = Some q ->
     (box label a).1 + (box label b).1 < 2 * Z.abs (p.1 - q.1) \/ (box label a).2 + (box label b).2 < 2 * Z.abs (p.2 - q.2)).
Proof.
  cbn zeta.
  assert (forall a p, a ∈ nodes -> assoc (ln_id a) (laneLayout nodes width height) = Some p ->
    (ln_id a, p) ∈ all_placed nodes width height /\
    (if is_focus a then p = (0, 0) else LANE_GAP + LANE_COL <= Z.abs p.1)) as Hp.
  { intros a p Ha Hp. destruct (assoc_fold_set (all_placed nodes width height) [] (ln_id a)) as [H1 _].
    apply H1 in Hp as [Hp|?]; [|done]. split; [done|].
    destruct (placed_where _ _ _ _ _ Hp) as (n & Hn & E & Hx). by rewrite (same_id nodes n a) in Hx. }
  split.
  - intros n Hn Hl. destruct (assoc_fold_set (all_placed nodes width height) [] (ln_id n)) as [_ H2].
    destruct H2 as [p E]; [left; by apply placed_all|]. exists p. split; [done|]. intros Hf.
    destruct (Hp n p Hn E) as [_ Hx]. by rewrite Hf in Hx.
  - intros a b p q Ha Hb Hab [Pa Xa]%(Hp a) [Pb Xb]%(Hp b); [|done..].
    destruct (ForallOrdPairs_In (placed_clear nodes width height Hone (NoDup_fmap_1 _ _ Hnd)) (ln_id a, p) (ln_id b, q)) as [E|Hc];
      [by apply list_elem_of_In..|by injection E as E _; apply (same_id nodes) in E|].
    assert (LANE_COL <= Z.abs (p.1 - q.1) \/ LANE_ROW <= Z.abs (p.2 - q.2)) as Hc'.
    { unfold clear in Hc. cbn [fst snd] in Hc. lia. }
    unfold box, boxSize, NODE_BOX. destruct (is_focus a) eqn:Fa, (is_focus b) eqn:Fb; [by destruct Hab; apply Hone|..];
      cbn [fst snd]; unfold FOCUS_W, LANE_GAP, LANE_COL, LANE_ROW, NODE_W, NODE_H in *.
    + left. subst p. cbn [fst]. lia.
    + left. subst q. cbn [fst]. lia.
    + lia.
Qed.

Definition demo_lane_node (id : str) (d side : Z) : LaneNode :=
  {| ln_id := id; ln_depth := Some d; ln_side := Some side; ln_owner := None; ln_group := None; ln_lane := false |}.
Definition demo_lanes : list LaneNode :=
  [ demo_lane_node "focus" 0 0; demo_lane_node "a" 1 (-1); demo_lane_node "b" 1 (-1); demo_lane_node "c" 2 (-1); demo_lane_node "d" 1 1 ].

Lemma laneLayout_apart_witness :
  laneLayout demo_lanes 800 600 = [("focus", (0, 0)); ("a", (-244, -31)); ("b", (-244, 31)); ("c", (-488, 0)); ("d", (244, 0))] /\
  forall p q, assoc "focus" (laneLayout demo_lanes 800 600) = Some p -> assoc "b" (laneLayout demo_lanes 800 600) = Some q ->
    240 + 164 < 2 * Z.abs (p.1 - q.1) \/ 66 + 42 < 2 * Z.abs (p.2 - q.2).
Proof.
  split; [by vm_compute|]. intros p q Hp Hq.
  refine (proj2 (laneLayout_apart demo_lanes 800 600 (fun _ => ["a"; x0a; "b"; x0a; "c"]%byte) _ _)
    (demo_lane_node "focus" 0 0) (demo_lane_node "b" 1 (-1)) p q _ _ _ Hp Hq).
  - intros a b Ha Hb. apply list_elem_of_In in Ha, Hb.
    repeat (destruct Ha as [<-|Ha]; [repeat (destruct Hb as [<-|Hb]; [by vm_compute|]); by destruct Hb|]). by destruct Ha.
  - apply (bool_decide_unpack _). vm_compute. exact I.
  - left.
  - right. right. left.
  - done.
Defined.
