(* ===== verification/Behavior.v ===== *)
(** * Words for behavior and time: [src/pkg/dashboard/frontend/src/lib/behavior.ts] and
    [src/pkg/dashboard/frontend/src/lib/dateFormat.ts]

    Guarantees, lifecycles, environments and validation stages, and the age of a timestamp.
    What the host's [Date] and locale data decide are parameters: [parse] reads a time in
    milliseconds from a text, [formatDate] prints a calendar date. *)

From stdpp Require Import base list gmap.
From Stdlib Require Import Init.Byte ZArith NArith Lia.
From S2P Require Import Prelude Uri Router.
Local Open Scope Z_scope.

Inductive Tone := TOk | TWarn | TErr | TInfo | TNeutral.
#[export] Instance Tone_eq_dec : EqDecision Tone.
Proof. solve_decision. Defined.

(** ** Guarantees *)

(** A guarantee's value: a flag or a text. *)
Inductive GValue := GFlag (b : bool) | GText (s : str).
Definition g_truthy (v : GValue) : bool := match v with GFlag b => b | GText s => truthy s end.

(** [yes(v)] *)
Definition yes (v : GValue) : str :=
  match v with
  | GFlag true => "yes"
  | GFlag false => "false"
  | GText s => if s === "true" then "yes" else s
  end.

Definition TERMS : list (str * (str * str)) :=
  [ ("delivery", ("Delivery", [])); ("ordering", ("Ordering", [])); ("dedupeWindow", ("Dedupe window", "at least "));
    ("retention", ("Retention", "at least ")); ("timeout", ("Timeout", "at most ")); ("idempotent", ("Idempotent", [])) ].
Definition LABEL : list (str * str) := (fun t => (t.1, t.2.1)) <$> TERMS.
Definition BOUND : list (str * str) := (fun t => (t.1, t.2.2)) <$> TERMS.

Record Term := { tm_label : str; tm_bound : str; tm_value : str }.

(** A guarantee that is absent or falsy is not listed. *)
Definition guaranteeTerms (g : option (list (str * GValue))) (required : bool) : list Term :=
  match g with
  | None => []
  | Some g => omap (fun t => match assoc t.1 g with
                             | Some v => if g_truthy v
                                         then Some {| tm_label := t.2.1; tm_bound := if required then trim t.2.2 else []; tm_value := yes v |}
                                         else None
                             | None => None
                             end) TERMS
  end.

Record Mismatch := { mm_interface : str; mm_guarantee : str; mm_required : str; mm_offered : option str }.

(** [tbl[k] ?? d] in a template. *)
Definition in_template (tbl : list (str * str)) (k d : str) : str :=
  match get_or tbl k d with JStr s => s | JForeign f => builtin_text f end.

Definition mismatchText (m : Mismatch) : str :=
  if mm_guarantee m === "interface" then mm_interface m ++ ": the provider declares no such interface"
  else mm_interface m ++ ": " ++ in_template LABEL (mm_guarantee m) (mm_guarantee m) ++ " " ++
       in_template BOUND (mm_guarantee m) [] ++ yes (GText (mm_required m)) ++ " required, " ++
       (match when_truthy (mm_offered m) with Some o => yes (GText o) ++ " offered" | None => "nothing offered" end).

Record Badge := { bd_label : str; bd_tone : Tone; bd_title : str }.

Definition GUARANTEE : list (str * Badge) :=
  [ ("met", {| bd_label := "Guarantees met"; bd_tone := TOk; bd_title := "The provider offers everything this dependency requires." |});
    ("unmet", {| bd_label := "Refused"; bd_tone := TErr; bd_title := "The provider does not offer what this dependency requires." |});
    ("unknown", {| bd_label := "Not verified"; bd_tone := TNeutral; bd_title := "Pacto could not check what this dependency requires." |}) ].

(** A status that names a member of [Object.prototype] passes that member on. *)
Definition guaranteeBadge (status : option str) (reason : str) : slot Badge :=
  match when_truthy status with
  | None => Missing
  | Some s => match obj_get GUARANTEE s with
              | Own b => if (s === "unknown") && truthy reason
                         then Own {| bd_label := bd_label b; bd_tone := bd_tone b; bd_title := "Not verified: " ++ reason ++ "." |}
                         else Own b
              | o => o
              end
  end.

(** A refusal is shown for a refusal only: a check that could not run is not one. *)
Lemma refused_only_unmet status reason b :
  guaranteeBadge status reason = Own b -> (bd_tone b = TErr <-> status = Some "unmet") /\ (bd_tone b = TOk <-> status = Some "met").
Proof.
  unfold guaranteeBadge. destruct status as [s|]; [|done]. destruct s as [|c s]; [done|]. cbn [when_truthy otruthy truthy].
  generalize (c :: s) as t. intros t. unfold obj_get, GUARANTEE. cbn [assoc].
  destruct (decide (t = "met")) as [->|H1]; [intros [= <-]; by split|]. rewrite (bool_decide_eq_false_2 (t = "met")) by done.
  destruct (decide (t = "unmet")) as [->|H2]; [intros [= <-]; by split|]. rewrite (bool_decide_eq_false_2 (t = "unmet")) by done.
  destruct (decide (t = "unknown")) as [->|H3]; [destruct (truthy reason); intros [= <-]; by split|].
  rewrite (bool_decide_eq_false_2 (t = "unknown")) by done. by destruct (bool_decide _).
Qed.

(** ** Lifecycles; dates are YYYY-MM-DD and compare as text *)
Record Lifecycle := { lc_deprecated : option str; lc_sunset : option str; lc_successor : option str }.

Definition sunsetPassed (l : option Lifecycle) (today : str) : bool :=
  match l with Some l => match when_truthy (lc_sunset l) with Some s => 0 <=? str_cmp today s | None => false end | None => false end.

Section Dates.
Variable formatDate : option str -> str.
Variable parse : str -> option Z.

Definition lifecycleText (l : Lifecycle) : str :=
  let shown d := or_s (formatDate d) (nullish d "undefined") in
  join " · " ([("Deprecated " ++ shown (lc_deprecated l)) : str] ++
    (match when_truthy (lc_sunset l) with Some s => [("sunset " ++ shown (Some s)) : str] | None => [] end) ++
    (match when_truthy (lc_successor l) with Some s => [("successor " ++ s) : str] | None => [] end)).

Definition lifecycleBadge (l : option Lifecycle) (today : str) : option Badge :=
  match l with
  | Some lc =>
      if negb (otruthy (lc_deprecated lc)) then None
      else if sunsetPassed l today
      then Some {| bd_label := "Past sunset"; bd_tone := TErr; bd_title := lifecycleText lc ++ ". It may be removed in any release." |}
      else Some {| bd_label := "Deprecated"; bd_tone := TWarn; bd_title := lifecycleText lc ++ "." |}
  | None => None
  end.

(** [Math.round(a / b)] for [b > 0], the half rounded up. *)
Definition round_div (a b : Z) : Z := (2 * a + b) / (2 * b).

Definition ago (n : Z) (unit : str) : str := show_Z n ++ " " ++ unit ++ (if n =? 1 then [] else "s") ++ " ago".

Inductive Age := JustNow | Minutes (n : Z) | Hours (n : Z) | Days (n : Z) | OnDate.

(** The branches of [formatRelative], by the milliseconds gone. *)
Definition age (ms : Z) : Age :=
  let secs := Z.max 0 (round_div ms 1000) in
  if secs <? 45 then JustNow
  else let mins := round_div secs 60 in
  if mins <? 60 then Minutes mins
  else let hours := round_div mins 60 in
  if hours <? 22 then Hours hours
  else let days := round_div hours 24 in
  if days <? 7 then Days days else OnDate.

Definition formatRelative (iso : option str) (now : Z) : str :=
  match when_truthy iso with
  | None => []
  | Some s =>
      match parse s with
      | None => []
      | Some t => match age (now - t) with
                  | JustNow => "just now"
                  | Minutes n => ago n "minute"
                  | Hours n => ago n "hour"
                  | Days n => ago n "day"
                  | OnDate => formatDate iso
                  end
      end
  end.

Lemma round_div_spec a b : 0 < b -> 2 * b * round_div a b <= 2 * a + b < 2 * b * round_div a b + 2 * b.
Proof. intros Hb. unfold round_div. pose proof (Z.div_mod (2 * a + b) (2 * b)). pose proof (Z.mod_pos_bound (2 * a + b) (2 * b)). lia. Qed.

(** The interface is louder exactly from its sunset on, and stays so. *)
Lemma sunset_stays l today later :
  sunsetPassed l today = true -> 0 <= str_cmp later today -> sunsetPassed l later = true.
Proof.
  unfold sunsetPassed. destruct l as [l|]; [|done]. destruct (when_truthy (lc_sunset l)) as [s|]; [|done].
  rewrite !Z.leb_le. intros H1 H2. pose proof (str_cmp_trans s today later) as Ht. unfold le_by in Ht.
  pose proof (str_cmp_antisym s today). pose proof (str_cmp_antisym today later). pose proof (str_cmp_antisym s later). lia.
Qed.

(** An age is never counted in zeroes or in the future: a timestamp is just now, or 1 to 59
    minutes, 1 to 21 hours or 1 to 6 days ago, and past that it is a date. A clock that runs
    ahead reads just now, and an older timestamp never reads in a smaller unit. *)
Theorem age_sensible (ms : Z) :
  match age ms with
  | JustNow => ms < 44500
  | Minutes n => 1 <= n <= 59 /\ 44500 <= ms < 3569500
  | Hours n => 1 <= n <= 21 /\ 3569500 <= ms < 77369500
  | Days n => 1 <= n <= 6 /\ 77369500 <= ms < 559769500
  | OnDate => 559769500 <= ms
  end.
Proof.
  unfold age. cbn zeta. pose proof (round_div_spec ms 1000 ltac:(lia)) as H1. set (s0 := round_div ms 1000) in *.
  pose proof (round_div_spec (Z.max 0 s0) 60 ltac:(lia)) as H2. set (mins := round_div (Z.max 0 s0) 60) in *.
  pose proof (round_div_spec mins 60 ltac:(lia)) as H3. set (hours := round_div mins 60) in *.
  pose proof (round_div_spec hours 24 ltac:(lia)) as H4. set (days := round_div hours 24) in *. clearbody s0 mins hours days.
  destruct (Z.ltb_spec (Z.max 0 s0) 45); [lia|]. destruct (Z.ltb_spec mins 60); [lia|].
  destruct (Z.ltb_spec hours 22); [lia|]. destruct (Z.ltb_spec days 7); lia.
Qed.
End Dates.

(** ** Environments, stages and locations *)
Definition ENVIRONMENT : list (str * (str * Tone)) :=
  [ ("pass", ("Passed", TOk)); ("fail", ("Failed", TErr)); ("unverified", ("Not verified", TNeutral)); ("skip", ("Not checked", TNeutral)) ].

Definition environmentBadge (status : option str) : slot (str * Tone) :=
  match obj_get ENVIRONMENT (nullish status []) with Missing => Own ("Unknown", TNeutral) | o => o end.

Definition STAGE : list (str * (str * Tone)) := [ ("pass", ("passed", TOk)); ("fail", ("failed", TErr)); ("skip", ("not run", TNeutral)) ].
Definition STAGE_NAME : list (str * str) :=
  [ ("structural", "Structure"); ("cross-field", "Cross-field"); ("policy", "Policy");
    ("configuration-refs", "Configuration references"); ("environments", "Environments") ].

Record StageLike := { sl_name : str; sl_status : str; sl_reason : option str; sl_unverified : bool }.

(** The word and tone of a stage; a member of [Object.prototype] has neither. *)
Definition stage_word (st : StageLike) : str * option Tone :=
  if sl_unverified st then ("not verified", Some TNeutral)
  else match obj_get STAGE (sl_status st) with
       | Own (w, t) => (w, Some t)
       | Inherited _ => ("undefined", None)
       | Missing => (sl_status st, Some TNeutral)
       end.

Definition stageBadge (st : StageLike) : str * option Tone * str :=
  let '(word, tone) := stage_word st in
  let name := in_template STAGE_NAME (sl_name st) (sl_name st) in
  (name ++ " " ++ word, tone,
   match when_truthy (sl_reason st) with Some r => name ++ ": " ++ r | None => name ++ " " ++ word end).

Definition locationText (file : option str) (line column : option Z) : str :=
  let num n := match n with Some z => if z =? 0 then None else Some z | None => None end in
  match when_truthy file with
  | None => []
  | Some f => f ++ match num line with
                   | Some l => ":" ++ show_Z l ++ match num column with Some c => ":" ++ show_Z c | None => [] end
                   | None => []
                   end
  end.

Example behavior_examples :
  mismatchText {| mm_interface := "orders"; mm_guarantee := "timeout"; mm_required := "2s"; mm_offered := Some "5s" |}
    = "orders: Timeout at most 2s required, 5s offered" /\
  locationText (Some "envs/prod.yaml") (Some 3) (Some 5) = "envs/prod.yaml:3:5" /\
  ago 1 "hour" = "1 hour ago" /\ age 90000 = Minutes 2 /\ age (-5000) = JustNow.
Proof. by vm_compute. Qed.
