(* ===== verification/Tour.v ===== *)
(** * The guided tour: [src/examples/demo/tour.js]

    The runner of the demo's guided tours: the spotlight and bubble that follow a step's
    target, and the machine that moves from step to step when a gate has been seen to
    open. The runner's variables are a record, the controls of its bubble another, and each
    function and event handler a definition on both and on the page. The page itself (its
    elements, its boxes, its location) is a class; the page changes between events in any
    way. Times are those of [Date.now()], in milliseconds. *)

From stdpp Require Import base list sets.
From Stdlib Require Import Init.Byte ZArith QArith Qround Lia Lqa.
From S2P Require Import Prelude.
Open Scope Z_scope.

(** ** Geometry: the cut-out and the bubble

    Client rectangles have fractional coordinates; they are rationals. *)
Definition Qltb (a b : Q) : bool := negb (Qle_bool b a).

Definition clamp (v lo hi : Q) : Q :=
  if Qltb hi lo then lo else if Qltb v lo then lo else if Qltb hi v then hi else v.

(** [Math.round] *)
Definition math_round (x : Q) : Z := Qfloor (x + (1 # 2)).

Definition SPOT_PAD : Q := 6.
Definition BUBBLE_GAP : Q := 12.
Definition DIM_RIM : Q := 16.

Record Rect := { r_left : Q; r_top : Q; r_right : Q; r_bottom : Q }.

(** The cut-out, absent while the spotlight is hidden, and the bubble's corner. *)
Record Spot := { spot_left : Q; spot_top : Q; spot_width : Q; spot_height : Q }.
Record Placement := { p_spot : option Spot; p_left : Z; p_top : Z }.

(** One axis of the hole: the visible part of [lo, hi] padded, with a rim kept when it
    reaches both edges of a window of the size [v]. *)
Definition hole_axis (lo hi v : Q) : Q * Q :=
  let x0 := clamp (lo - SPOT_PAD) 0 v in
  let x1 := clamp (hi + SPOT_PAD) 0 v in
  if Qle_bool v (x1 - x0) then (DIM_RIM, v - DIM_RIM)%Q else (x0, x1).

Definition hole (vw vh : Q) (t : option Rect) : (Q * Q) * (Q * Q) :=
  match t with
  | Some r => (hole_axis (r_left r) (r_right r) vw, hole_axis (r_top r) (r_bottom r) vh)
  | None => ((0, 0), (0, 0))%Q
  end.

Definition place (vw vh : Z) (b : Q * Q) (t : option Rect) : Placement :=
  let w := inject_Z vw in
  let h := inject_Z vh in
  let '((x0, x1), (y0, y1)) := hole w h t in
  let '(spot, x, y) :=
    if negb (bool_decide (is_Some t)) || Qle_bool x1 x0 || Qle_bool y1 y0
    then (None, (w - b.1) / 2, (h - b.2) / 2)%Q
    else (Some {| spot_left := x0; spot_top := y0; spot_width := x1 - x0; spot_height := y1 - y0 |}, x0,
          if Qle_bool (y1 + BUBBLE_GAP + b.2) (h - BUBBLE_GAP) then y1 + BUBBLE_GAP
          else y0 - BUBBLE_GAP - b.2)%Q in
  {| p_spot := spot;
     p_left := math_round (clamp x BUBBLE_GAP (w - b.1 - BUBBLE_GAP));
     p_top := math_round (clamp y BUBBLE_GAP (h - b.2 - BUBBLE_GAP)) |}.

(** ** What the bubble shows *)
Record Ui := {
  stepNum : str; title : str; title_hidden : bool; text : str;
  hint : str; hint_ok : bool; auto_hidden : bool; back_disabled : bool;
  next_hidden : bool; next_text : str; skip_hidden : bool; skip_disabled : bool;
  more_href : str; more_text : str; more_hidden : bool; pre_hidden : bool; pre_text : str;
  explore_hidden : bool; explore : list (str * str); placed : Placement }.

(** The elements as [buildOverlay] makes them. *)
Definition buildOverlay : Ui :=
  {| stepNum := ""; title := ""; title_hidden := false; text := "";
     hint := ""; hint_ok := false; auto_hidden := false; back_disabled := false;
     next_hidden := false; next_text := "Continue"; skip_hidden := false; skip_disabled := false;
     more_href := ""; more_text := ""; more_hidden := true; pre_hidden := true; pre_text := "";
     explore_hidden := true; explore := [];
     placed := {| p_spot := None; p_left := 0; p_top := 0 |} |}.

Definition set_placed (u : Ui) (p : Placement) : Ui :=
  {| stepNum := stepNum u; title := title u; title_hidden := title_hidden u; text := text u;
     hint := hint u; hint_ok := hint_ok u; auto_hidden := auto_hidden u; back_disabled := back_disabled u;
     next_hidden := next_hidden u; next_text := next_text u; skip_hidden := skip_hidden u;
     skip_disabled := skip_disabled u; more_href := more_href u; more_text := more_text u;
     more_hidden := more_hidden u; pre_hidden := pre_hidden u; pre_text := pre_text u;
     explore_hidden := explore_hidden u; explore := explore u; placed := p |}.

(** The hint is written only when it changes. *)
Definition write_hint (u : Ui) (msg : str) (ok : bool) : Ui :=
  if hint u === msg then u
  else
  {| stepNum := stepNum u; title := title u; title_hidden := title_hidden u; text := text u;
     hint := msg; hint_ok := ok; auto_hidden := auto_hidden u; back_disabled := back_disabled u;
     next_hidden := next_hidden u; next_text := next_text u; skip_hidden := skip_hidden u;
     skip_disabled := skip_disabled u; more_href := more_href u; more_text := more_text u;
     more_hidden := more_hidden u; pre_hidden := pre_hidden u; pre_text := pre_text u;
     explore_hidden := explore_hidden u; explore := explore u; placed := placed u |}.

Definition reveal_next (u : Ui) : Ui :=
  {| stepNum := stepNum u; title := title u; title_hidden := title_hidden u; text := text u;
     hint := hint u; hint_ok := hint_ok u; auto_hidden := auto_hidden u; back_disabled := back_disabled u;
     next_hidden := false; next_text := next_text u; skip_hidden := true;
     skip_disabled := skip_disabled u; more_href := more_href u; more_text := more_text u;
     more_hidden := more_hidden u; pre_hidden := pre_hidden u; pre_text := pre_text u;
     explore_hidden := explore_hidden u; explore := explore u; placed := placed u |}.

Definition disable_skip (u : Ui) : Ui :=
  {| stepNum := stepNum u; title := title u; title_hidden := title_hidden u; text := text u;
     hint := hint u; hint_ok := hint_ok u; auto_hidden := auto_hidden u; back_disabled := back_disabled u;
     next_hidden := next_hidden u; next_text := next_text u; skip_hidden := skip_hidden u;
     skip_disabled := true; more_href := more_href u; more_text := more_text u;
     more_hidden := more_hidden u; pre_hidden := pre_hidden u; pre_text := pre_text u;
     explore_hidden := explore_hidden u; explore := explore u; placed := placed u |}.

(** ** The page the tour runs over *)
Class Page := {
  World : Type;
  Elem : Type;
  #[global] Elem_eq_dec :: EqDecision Elem;
  querySelector : World -> str -> option Elem;
  ancestors : World -> Elem -> list Elem;         (* the element first, then outwards *)
  folded : World -> Elem -> bool;                 (* a [details] that is not open *)
  unfold_details : Elem -> World -> World;
  getBoundingClientRect : World -> Elem -> Rect;
  bubble_size : World -> Ui -> Q * Q;
  clientWidth : World -> Z;
  clientHeight : World -> Z;
  scrollIntoView : Elem -> World -> World;
  location_hash : World -> str;
  set_location_hash : str -> World -> World }.

Definition SETTLE_MS : Z := 750.
Definition CONFIRM_MS : Z := 350.
Definition SKIP_WAIT : Z := 6000.
Definition GATE_OPEN : str := "Done. Moving on.".
Definition HOLD_OPEN : str := "Done. That is the answer. Read it, then press Continue.".

Section Tour.
Context `{Page}.

(** A step. A text the source leaves out is empty. A gate and a computed route read the
    page, and may ask it for fresh facts as they do. *)
Record Step := {
  s_title : str; s_text : str; s_hash : option (World -> str * World); s_target : list str;
  s_wait : str; s_gate : option (World -> bool * World); s_hold : bool; s_observe : bool;
  s_skip : option (World -> World); s_href : str; s_linkText : str;
  s_pre : option (World -> str); s_links : option (list (str * str)) }.

Record Hooks := { docsHref : str; onStart : World -> World; onExit : World -> World }.

Record St := {
  TOUR : list Step; hooks : Hooks; ui : Ui; step : Z; running : bool; raf : bool;
  lastTarget : option Elem; skipUntil : Z; armed : bool; forward : bool; openSince : Z;
  confirmAt : Z; lastInput : Z; visit : Z; leftVisit : Z }.

Definition st0 : St :=
  {| TOUR := []; hooks := {| docsHref := ""; onStart := id; onExit := id |}; ui := buildOverlay;
     step := 0; running := false; raf := false; lastTarget := None; skipUntil := 0; armed := false;
     forward := false; openSince := 0; confirmAt := 0; lastInput := 0; visit := 0; leftVisit := -1 |}.

Definition hashPath (w : World) : str := (cut x3f (location_hash w)).1.

(** The last selector that resolves, and every closed fold around it opened. *)
Fixpoint open_folds (es : list Elem) (w : World) : World :=
  match es with
  | [] => w
  | e :: es' => open_folds es' (if folded w e then unfold_details e w else w)
  end.

Definition resolve (sel : list str) (w : World) : option Elem * World :=
  let found := fold_left (fun f s => match querySelector w s with Some e => Some e | None => f end) sel None in
  (found, match found with Some e => open_folds (ancestors w e) w | None => w end).

Definition ensureVisible (e : Elem) (w : World) : World :=
  let r := getBoundingClientRect w e in
  if Qltb (r_top r) 0 || Qltb (inject_Z (clientHeight w)) (r_bottom r) then scrollIntoView e w else w.

Definition place_ui (u : Ui) (w : World) (t : option Elem) : Ui :=
  set_placed u (place (clientWidth w) (clientHeight w) (bubble_size w u) (getBoundingClientRect w <$> t)).

Definition step_at (st : St) (i : Z) : option Step := if i <? 0 then None else TOUR st !! Z.to_nat i.
Definition current (st : St) : option Step := step_at st (step st).

Definition gated (s : Step) : bool := bool_decide (is_Some (s_gate s)).

(** The bubble of step [i], before it is placed. *)
Definition step_ui (u : Ui) (n : nat) (i : Z) (s : Step) (w : World) : Ui :=
  {| stepNum := show_Z (i + 1) ++ " / " ++ show_Z (Z.of_nat n);
     title := s_title s; title_hidden := negb (truthy (s_title s)); text := s_text s;
     hint := if gated s then s_wait s else ""; hint_ok := false;
     auto_hidden := negb (gated s) || s_hold s; back_disabled := i =? 0;
     next_hidden := gated s; next_text := if i =? Z.of_nat n - 1 then "Done" else "Continue";
     skip_hidden := negb (gated s); skip_disabled := false;
     more_href := if truthy (s_href s) then s_href s else more_href u;
     more_text := if truthy (s_href s) then s_linkText s else more_text u;
     more_hidden := negb (truthy (s_href s));
     pre_hidden := negb (bool_decide (is_Some (s_pre s)));
     pre_text := match s_pre s with Some f => f w | None => "" end;
     explore_hidden := negb (bool_decide (is_Some (s_links s)));
     explore := nullish (s_links s) []; placed := placed u |}.

(** The route a step needs, unless the page is there already. *)
Definition step_route (s : Step) (w : World) : World :=
  match s_hash s with
  | None => w
  | Some f =>
      let '(h, w1) := f w in
      if truthy h && (if includes "?" h then location_hash w1 !== h else hashPath w1 !== h)
      then set_location_hash h w1 else w1
  end.

Definition goStep (i : Z) (st : St) (w : World) : St * World :=
  if (i <? 0) || (Z.of_nat (length (TOUR st)) <=? i) || negb (running st) then (st, w)
  else match step_at st i with
  | None => (st, w)
  | Some s =>
      let w1 := step_route s w in
      let u := step_ui (ui st) (length (TOUR st)) i s w1 in
      let '(t, w2) := resolve (s_target s) w1 in
      ({| TOUR := TOUR st; hooks := hooks st; ui := place_ui u w2 t; step := i; running := running st;
          raf := raf st; lastTarget := None; skipUntil := 0; armed := false; forward := step st <? i;
          openSince := 0; confirmAt := 0; lastInput := lastInput st; visit := visit st + 1;
          leftVisit := leftVisit st |}, w2)
  end.

Definition leave_visit (st : St) : St :=
  {| TOUR := TOUR st; hooks := hooks st; ui := ui st; step := step st; running := running st;
     raf := raf st; lastTarget := lastTarget st; skipUntil := skipUntil st; armed := armed st;
     forward := forward st; openSince := openSince st; confirmAt := confirmAt st;
     lastInput := lastInput st; visit := visit st; leftVisit := visit st |}.

Definition advance (st : St) (w : World) : St * World :=
  if negb (running st) || (leftVisit st =? visit st) then (st, w)
  else goStep (step st + 1) (leave_visit st) w.

Definition noteInput (now : Z) (st : St) : St :=
  {| TOUR := TOUR st; hooks := hooks st; ui := ui st; step := step st; running := running st;
     raf := raf st; lastTarget := lastTarget st; skipUntil := skipUntil st; armed := armed st;
     forward := forward st; openSince := openSince st; confirmAt := confirmAt st;
     lastInput := now; visit := visit st; leftVisit := leftVisit st |}.

Definition skipStep (now : Z) (st : St) (w : World) : St * World :=
  if negb (skipUntil st =? 0) then (st, w)
  else
  ({| TOUR := TOUR st; hooks := hooks st; ui := disable_skip (ui st); step := step st;
      running := running st; raf := raf st; lastTarget := lastTarget st; skipUntil := now + SKIP_WAIT;
      armed := armed st; forward := forward st; openSince := openSince st; confirmAt := confirmAt st;
      lastInput := lastInput st; visit := visit st; leftVisit := leftVisit st |},
   match current st ≫= s_skip with Some f => f w | None => w end).

(** The part of a frame before the gate: the light follows its target. *)
Definition follow (s : Step) (st : St) (w : World) : St * World :=
  let '(t, w1) := resolve (s_target s) w in
  let w2 := if t !== lastTarget st
            then match t with Some e => ensureVisible e w1 | None => w1 end else w1 in
  ({| TOUR := TOUR st; hooks := hooks st; ui := place_ui (ui st) w2 t; step := step st;
      running := running st; raf := true; lastTarget := t; skipUntil := skipUntil st;
      armed := armed st; forward := forward st; openSince := openSince st; confirmAt := confirmAt st;
      lastInput := lastInput st; visit := visit st; leftVisit := leftVisit st |}, w2).

(** What a frame makes of the gate: when it was seen shut, since when it is open, and
    when that had settled. *)
Definition watch (s : Step) (now : Z) (open : bool) (st : St) : St :=
  let armed' := if open then armed st else true in
  let open' := if open then if (armed st || forward st || s_observe s) && (openSince st =? 0) then now else openSince st
               else 0 in
  let confirm0 := if open then confirmAt st else 0 in
  let confirm' := if negb (open' =? 0) && (confirm0 =? 0) && (SETTLE_MS <=? now - open') &&
                     (SETTLE_MS <=? now - lastInput st) then now else confirm0 in
  let confirmed := negb (confirm' =? 0) in
  let msg := if confirmed then if s_hold s then HOLD_OPEN else GATE_OPEN else s_wait s in
  {| TOUR := TOUR st; hooks := hooks st; ui := write_hint (ui st) msg confirmed; step := step st;
     running := running st; raf := raf st; lastTarget := lastTarget st; skipUntil := skipUntil st;
     armed := armed'; forward := forward st; openSince := open'; confirmAt := confirm';
     lastInput := lastInput st; visit := visit st; leftVisit := leftVisit st |}.

(** A settled gate of a holding step hands over the forward control, once per visit. *)
Definition hand_over (st : St) : St :=
  if next_hidden (ui st) then
  {| TOUR := TOUR st; hooks := hooks st; ui := reveal_next (ui st); step := step st;
     running := running st; raf := raf st; lastTarget := lastTarget st; skipUntil := 0;
     armed := armed st; forward := forward st; openSince := openSince st; confirmAt := confirmAt st;
     lastInput := lastInput st; visit := visit st; leftVisit := leftVisit st |}
  else st.

Definition tick (now : Z) (st : St) (w : World) : St * World :=
  if negb (running st) then (st, w)
  else match current st with
  | None => (st, w)
  | Some s =>
      let '(st1, w1) := follow s st w in
      match s_gate s with
      | None => (st1, w1)
      | Some g =>
          let '(open, w2) := g w1 in
          let st2 := watch s now open st1 in
          if negb (confirmAt st2 =? 0) && s_hold s then (hand_over st2, w2)
          else if negb (confirmAt st2 =? 0) && (CONFIRM_MS <=? now - confirmAt st2) then advance st2 w2
          else if negb (skipUntil st2 =? 0) && (skipUntil st2 <? now) then advance st2 w2
          else (st2, w2)
      end
  end.

Definition startTour (tour : list Step) (h : Hooks) (st : St) (w : World) : St * World :=
  if running st then (st, w)
  else
    let st1 := {| TOUR := tour; hooks := h; ui := buildOverlay; step := step st; running := true;
                  raf := raf st; lastTarget := lastTarget st; skipUntil := skipUntil st;
                  armed := armed st; forward := forward st; openSince := openSince st;
                  confirmAt := confirmAt st; lastInput := lastInput st; visit := visit st;
                  leftVisit := leftVisit st |} in
    let '(st2, w2) := goStep 0 st1 w in
    ({| TOUR := TOUR st2; hooks := hooks st2; ui := ui st2; step := step st2; running := running st2;
        raf := true; lastTarget := lastTarget st2; skipUntil := skipUntil st2; armed := armed st2;
        forward := forward st2; openSince := openSince st2; confirmAt := confirmAt st2;
        lastInput := lastInput st2; visit := visit st2; leftVisit := leftVisit st2 |}, onStart h w2).

Definition exitTour (st : St) (w : World) : St * World :=
  if negb (running st) then (st, w)
  else
  ({| TOUR := TOUR st; hooks := hooks st; ui := ui st; step := step st; running := false; raf := false;
      lastTarget := None; skipUntil := 0; armed := false; forward := false; openSince := 0;
      confirmAt := 0; lastInput := lastInput st; visit := visit st; leftVisit := leftVisit st |},
   onExit (hooks st) w).

(** ** Events

    A frame comes only while one is requested, a click only on a control that is shown and
    enabled, a key or a pointer press is noted only while the tour listens. *)
Inductive Event :=
  | EStart (tour : list Step) (h : Hooks)
  | ETick (now : Z)
  | EInput (now : Z)
  | EBack
  | ENext
  | ESkip (now : Z)
  | EExit
  | EPage (w : World).

Definition handle (e : Event) (s : St * World) : St * World :=
  let '(st, w) := s in
  match e with
  | EStart tour h => startTour tour h st w
  | ETick now => if raf st then tick now st w else s
  | EInput now => if running st then (noteInput now st, w) else s
  | EBack => if running st && negb (back_disabled (ui st)) then goStep (step st - 1) st w else s
  | ENext => if running st && negb (next_hidden (ui st))
             then if step st =? Z.of_nat (length (TOUR st)) - 1 then exitTour st w else advance st w
             else s
  | ESkip now => if running st && negb (skip_hidden (ui st)) && negb (skip_disabled (ui st))
                 then skipStep now st w else s
  | EExit => exitTour st w
  | EPage w' => (st, w')
  end.
End Tour.

(** ** The placement stays in the window *)
Lemma Qle_bool_spec a b : reflect (a <= b)%Q (Qle_bool a b).
Proof.
  destruct (Qle_bool a b) eqn:E; constructor; [by apply Qle_bool_iff|].
  intros H%Qle_bool_iff. congruence.
Qed.

Lemma Qltb_spec a b : reflect (a < b)%Q (Qltb a b).
Proof. unfold Qltb. destruct (Qle_bool_spec b a); simpl; constructor; lra. Qed.

Ltac q_cases :=
  repeat match goal with
  | |- context [Qltb ?a ?b] => destruct (Qltb_spec a b)
  | |- context [Qle_bool ?a ?b] => destruct (Qle_bool_spec a b)
  end.

Lemma clamp_range v lo hi : (lo <= hi -> lo <= clamp v lo hi /\ clamp v lo hi <= hi)%Q.
Proof. intros. unfold clamp. q_cases; lra. Qed.

Lemma clamp_crossed v lo hi : (hi < lo)%Q -> clamp v lo hi = lo.
Proof. intros. unfold clamp. q_cases; [done|lra|lra|lra]. Qed.

Lemma clamp_inside v lo hi : (lo <= v -> v <= hi -> clamp v lo hi == v)%Q.
Proof. intros. unfold clamp. q_cases; lra. Qed.

Lemma clamp_mono v v' lo hi : (lo <= hi -> v <= v' -> clamp v lo hi <= clamp v' lo hi)%Q.
Proof. intros. unfold clamp. q_cases; lra. Qed.

Lemma math_round_near x : (x - (1 # 2) < inject_Z (math_round x) /\ inject_Z (math_round x) <= x + (1 # 2))%Q.
Proof.
  unfold math_round. pose proof (Qfloor_le (x + (1 # 2))). pose proof (Qlt_floor (x + (1 # 2))) as G.
  rewrite inject_Z_plus in G. change (inject_Z 1) with 1%Q in G. lra.
Qed.

Lemma math_round_Z (z : Z) : math_round (inject_Z z) = z.
Proof.
  destruct (math_round_near (inject_Z z)) as [A B].
  assert (inject_Z z < inject_Z (math_round (inject_Z z) + 1))%Q as C
    by (rewrite inject_Z_plus; change (inject_Z 1) with 1%Q; lra).
  assert (inject_Z (math_round (inject_Z z)) < inject_Z (z + 1))%Q as D
    by (rewrite inject_Z_plus; change (inject_Z 1) with 1%Q; lra).
  rewrite <- Zlt_Qlt in C, D. lia.
Qed.

Lemma math_round_ge (z : Z) x : (inject_Z z <= x)%Q -> z <= math_round x.
Proof.
  intros L. destruct (math_round_near x) as [A _].
  assert (inject_Z z < inject_Z (math_round x + 1))%Q as C
    by (rewrite inject_Z_plus; change (inject_Z 1) with 1%Q; lra).
  rewrite <- Zlt_Qlt in C. lia.
Qed.

(** One axis of the hole: inside the window and the padded target, and no wider than leaves a
    dim rim; it covers what of the target is on screen, unless it is the rim kept inside a
    target that reaches both edges. *)
Lemma hole_axis_spec lo hi v x0 x1 :
  hole_axis lo hi v = (x0, x1) -> (0 <= v)%Q -> (x0 < x1)%Q ->
  (0 <= x0 /\ x1 <= v /\ x1 - x0 < v)%Q /\ (lo - SPOT_PAD <= x0 /\ x1 <= hi + SPOT_PAD)%Q /\
  ((x0 == DIM_RIM /\ x1 == v - DIM_RIM /\ lo - SPOT_PAD <= 0 /\ v <= hi + SPOT_PAD)%Q \/
   forall x, (lo <= x -> x <= hi -> 0 <= x -> x <= v -> x0 <= x /\ x <= x1)%Q).
Proof.
  unfold hole_axis. intros E V L.
  destruct (clamp_range (lo - SPOT_PAD) 0 v V) as [A1 A2]. destruct (clamp_range (hi + SPOT_PAD) 0 v V) as [B1 B2].
  destruct (Qle_bool_spec v (clamp (hi + SPOT_PAD) 0 v - clamp (lo - SPOT_PAD) 0 v)) as [W|W]; simplify_eq.
  - assert (clamp (lo - SPOT_PAD) 0 v == 0 /\ clamp (hi + SPOT_PAD) 0 v == v)%Q as [C1 C2] by (split; lra).
    unfold DIM_RIM in *.
    assert (lo - SPOT_PAD <= 0 /\ v <= hi + SPOT_PAD)%Q as [D1 D2].
    { revert C1 C2. unfold clamp, Qltb. q_cases; simpl; lra. }
    split; [lra|]. split; [lra|]. left. split_and!; lra.
  - split; [lra|]. split.
    + revert L. unfold clamp, Qltb. q_cases; simpl; lra.
    + right. intros x X1 X2 X3 X4.
      pose proof (clamp_mono (lo - SPOT_PAD) x 0 v V) as G1. pose proof (clamp_mono x (hi + SPOT_PAD) 0 v V) as G2.
      pose proof (clamp_inside x 0 v X3 X4). unfold SPOT_PAD in *. lra.
Qed.

(** Nothing of the padded target is in a window of the size [v]; or the target reaches both
    edges of a window that has no room for more than its rims. *)
Definition off_axis (lo hi v : Q) : Prop :=
  (hi + SPOT_PAD <= 0 \/ v <= lo - SPOT_PAD \/ hi + SPOT_PAD <= lo - SPOT_PAD \/
   v <= DIM_RIM + DIM_RIM /\ lo - SPOT_PAD <= 0 /\ v <= hi + SPOT_PAD)%Q.

Lemma hole_axis_empty lo hi v x0 x1 :
  hole_axis lo hi v = (x0, x1) -> (0 <= v)%Q -> (x1 <= x0)%Q <-> off_axis lo hi v.
Proof.
  unfold hole_axis, off_axis. intros E V.
  destruct (Qle_bool_spec v (clamp (hi + SPOT_PAD) 0 v - clamp (lo - SPOT_PAD) 0 v)) as [W|W]; simplify_eq;
    revert W; unfold clamp, Qltb, DIM_RIM, SPOT_PAD; q_cases; simpl; intros W; lra.
Qed.

(** The bubble's coordinate on one axis: inside the window with its gap when it fits, at
    the near edge when it does not. *)
Lemma bubble_axis (v : Z) (b x : Q) (p := math_round (clamp x BUBBLE_GAP (inject_Z v - b - BUBBLE_GAP))) :
  (b + BUBBLE_GAP + BUBBLE_GAP <= inject_Z v ->
     12 <= inject_Z p /\ inject_Z p + b <= inject_Z v - BUBBLE_GAP + (1 # 2))%Q /\
  ((inject_Z v < b + BUBBLE_GAP + BUBBLE_GAP)%Q -> p = 12).
Proof.
  subst p. split; intros F.
  - destruct (clamp_range x BUBBLE_GAP (inject_Z v - b - BUBBLE_GAP)) as [A B]; [unfold BUBBLE_GAP in *; lra|].
    split; [change 12%Q with (inject_Z 12); rewrite <- Zle_Qle; apply (math_round_ge 12); exact A|].
    destruct (math_round_near (clamp x BUBBLE_GAP (inject_Z v - b - BUBBLE_GAP))). lra.
  - rewrite clamp_crossed by (unfold BUBBLE_GAP in *; lra). apply (math_round_Z 12).
Qed.

(** The bubble keeps clear of the hole where there is room below or above it. *)
Lemma bubble_clear (v : Z) (b y0 y1 : Q)
  (y := if Qle_bool (y1 + BUBBLE_GAP + b) (inject_Z v - BUBBLE_GAP) then (y1 + BUBBLE_GAP)%Q
        else (y0 - BUBBLE_GAP - b)%Q)
  (p := inject_Z (math_round (clamp y BUBBLE_GAP (inject_Z v - b - BUBBLE_GAP)))) :
  (0 <= b -> 0 <= y0 -> y0 < y1 -> y1 <= inject_Z v ->
   y1 + BUBBLE_GAP + b <= inject_Z v - BUBBLE_GAP \/ BUBBLE_GAP <= y0 - BUBBLE_GAP - b ->
   y1 < p \/ p + b < y0)%Q.
Proof.
  intros B Y0 L V R. subst p y.
  set (z := if Qle_bool _ _ then _ else _).
  assert (BUBBLE_GAP <= z /\ z <= inject_Z v - b - BUBBLE_GAP)%Q as [Z1 Z2].
  { subst z. unfold BUBBLE_GAP in *. q_cases; lra. }
  pose proof (clamp_inside z BUBBLE_GAP (inject_Z v - b - BUBBLE_GAP) Z1 Z2) as C.
  destruct (math_round_near (clamp z BUBBLE_GAP (inject_Z v - b - BUBBLE_GAP))) as [N1 N2].
  subst z. unfold BUBBLE_GAP in *.
  destruct (Qle_bool_spec (y1 + 12 + b) (inject_Z v - 12)); [left|right]; lra.
Qed.

(** The bubble's coordinate where it is meant to be, to half a pixel of rounding, when it fits. *)
Lemma bubble_there (v : Z) (b x : Q) (p := math_round (clamp x BUBBLE_GAP (inject_Z v - b - BUBBLE_GAP))) :
  (BUBBLE_GAP <= x -> x <= inject_Z v - b - BUBBLE_GAP -> x - (1 # 2) <= inject_Z p /\ inject_Z p <= x + (1 # 2))%Q.
Proof.
  intros A B. subst p. pose proof (clamp_inside x BUBBLE_GAP (inject_Z v - b - BUBBLE_GAP) A B) as C.
  destruct (math_round_near (clamp x BUBBLE_GAP (inject_Z v - b - BUBBLE_GAP))). lra.
Qed.

(** C23: Whatever the window and the target, the bubble is on screen with its gap (to half a
    pixel of rounding) on every axis it fits on. A cut-out is shown exactly when there is a
    target of which something, with its padding, is in the window, and the window has room for
    the rims; without one the bubble takes the middle. A cut-out is a proper part of the window
    on both axes, so that some of the page is dimmed beside it, and of the padded target; it
    holds all of the target that is on screen on each axis the target does not overhang at both
    ends; and the bubble keeps off it wherever there is room for that. *)
Theorem place_in_view (vw vh : Z) (b : Q * Q) (t : option Rect) :
  0 <= vw -> 0 <= vh -> (0 <= b.1)%Q -> (0 <= b.2)%Q ->
  let p := place vw vh b t in
  let w := inject_Z vw in let h := inject_Z vh in
  ((b.1 + 24 <= w -> 12 <= inject_Z (p_left p) /\ inject_Z (p_left p) + b.1 <= w - 12 + (1 # 2)) /\
   (b.2 + 24 <= h -> 12 <= inject_Z (p_top p) /\ inject_Z (p_top p) + b.2 <= h - 12 + (1 # 2)) /\
   (p_spot p = None <->
      match t with Some r => off_axis (r_left r) (r_right r) w \/ off_axis (r_top r) (r_bottom r) h | None => True end) /\
   match p_spot p with
   | None =>
       (b.1 + 24 <= w -> (w - b.1) / 2 - (1 # 2) <= inject_Z (p_left p) /\ inject_Z (p_left p) <= (w - b.1) / 2 + (1 # 2)) /\
       (b.2 + 24 <= h -> (h - b.2) / 2 - (1 # 2) <= inject_Z (p_top p) /\ inject_Z (p_top p) <= (h - b.2) / 2 + (1 # 2))
   | Some s =>
       let x1 := spot_left s + spot_width s in
       let y1 := spot_top s + spot_height s in
       0 <= spot_left s /\ 0 < spot_width s /\ spot_width s < w /\ x1 <= w /\
       0 <= spot_top s /\ 0 < spot_height s /\ spot_height s < h /\ y1 <= h /\
       (exists r, t = Some r /\
         r_left r - 6 <= spot_left s /\ x1 <= r_right r + 6 /\ r_top r - 6 <= spot_top s /\ y1 <= r_bottom r + 6 /\
         (spot_width s == w - 32 /\ r_left r <= 6 /\ w <= r_right r + 6 \/
          forall x, r_left r <= x -> x <= r_right r -> 0 <= x -> x <= w -> spot_left s <= x /\ x <= x1) /\
         (spot_height s == h - 32 /\ r_top r <= 6 /\ h <= r_bottom r + 6 \/
          forall y, r_top r <= y -> y <= r_bottom r -> 0 <= y -> y <= h -> spot_top s <= y /\ y <= y1)) /\
       (y1 + 12 + b.2 <= h - 12 \/ 12 <= spot_top s - 12 - b.2 ->
        y1 < inject_Z (p_top p) \/ inject_Z (p_top p) + b.2 < spot_top s)
   end)%Q.
Proof.
  intros Hw Hh B1 B2 p w h. subst p w h. unfold place.
  rewrite Zle_Qle in Hw, Hh. change (inject_Z 0) with 0%Q in Hw, Hh.
  destruct (hole (inject_Z vw) (inject_Z vh) t) as [[x0 x1] [y0 y1]] eqn:Eh.
  destruct (negb (bool_decide (is_Some t)) || Qle_bool x1 x0 || Qle_bool y1 y0) eqn:Ec; cbn [p_spot p_left p_top].
  - destruct (bubble_axis vw b.1 ((inject_Z vw - b.1) / 2)) as [A _].
    destruct (bubble_axis vh b.2 ((inject_Z vh - b.2) / 2)) as [C _].
    pose proof (bubble_there vw b.1 ((inject_Z vw - b.1) / 2)) as A'. pose proof (bubble_there vh b.2 ((inject_Z vh - b.2) / 2)) as C'.
    unfold BUBBLE_GAP in *.
    assert (forall q : Q, q / 2 == q * (1 # 2))%Q as Half by (intros q; field).
    assert (0 <= inject_Z vw)%Q by done. split_and!; [intros ?; apply A; lra|intros ?; apply C; lra| | |].
    + split; [|done]. intros _. destruct t as [r|]; [|done]. simpl in Eh. injection Eh as Ex Ey.
      destruct (Qle_bool_spec x1 x0) as [Lx|Lx]; [left; by eapply hole_axis_empty|].
      destruct (Qle_bool_spec y1 y0) as [Ly|Ly]; [right; by eapply hole_axis_empty|done].
    + intros ?. apply A'; rewrite Half; lra.
    + intros ?. apply C'; rewrite Half; lra.
  - rewrite !orb_false_iff in Ec. destruct Ec as [[Et E1] E2].
    destruct t as [r|]; [|done]. simpl in Eh. injection Eh as Ex Ey.
    assert (x0 < x1)%Q as Lx by (destruct (Qle_bool_spec x1 x0); [done|lra]).
    assert (y0 < y1)%Q as Ly by (destruct (Qle_bool_spec y1 y0); [done|lra]).
    destruct (hole_axis_spec _ _ _ _ _ Ex Hw Lx) as ((X1 & X2 & X3) & (X5 & X6) & X4).
    destruct (hole_axis_spec _ _ _ _ _ Ey Hh Ly) as ((Y1 & Y2 & Y3) & (Y5 & Y6) & Y4).
    destruct (bubble_axis vw b.1 x0) as [A _].
    set (yb := if Qle_bool (y1 + BUBBLE_GAP + b.2) (inject_Z vh - BUBBLE_GAP) then (y1 + BUBBLE_GAP)%Q else (y0 - BUBBLE_GAP - b.2)%Q).
    destruct (bubble_axis vh b.2 yb) as [C _].
    pose proof (bubble_clear vh b.2 y0 y1 B2 Y1 Ly Y2) as G. fold yb in G.
    cbn [spot_left spot_top spot_width spot_height]. unfold BUBBLE_GAP, DIM_RIM, SPOT_PAD in *.
    split_and!; try lra.
    { split; [done|]. intros [O|O]; [eapply hole_axis_empty in O; [|exact Ex|done]|eapply hole_axis_empty in O; [|exact Ey|done]]; lra. }
    exists r. split; [done|]. split_and!; try lra.
    + destruct X4 as [?|X4]; [left; split_and!; lra|]. right; intros z ? ? ? ?. destruct (X4 z); try done; lra.
    + destruct Y4 as [?|Y4]; [left; split_and!; lra|]. right; intros z ? ? ? ?. destruct (Y4 z); try done; lra.
Qed.

(** ** What was seen during a visit

    The record of one visit to a step: the frames at which its gate was read and what it
    said, the inputs, and the presses of Skip. *)
Section Runs.
Context `{Page}.

Inductive Seen :=
  | SawGate (now : Z) (open : bool)
  | SawInput (now : Z)
  | PressedSkip (now : Z).

Definition gate_seen (now : Z) (st : St) (w : World) : list Seen :=
  match current st with
  | Some s => match s_gate s with Some g => [SawGate now (g (follow s st w).2).1] | None => [] end
  | None => []
  end.

Definition seen (e : Event) (s : St * World) : list Seen :=
  match e with
  | ETick now => if raf s.1 && running s.1 then gate_seen now s.1 s.2 else []
  | EInput now => if running s.1 then [SawInput now] else []
  | ESkip now => if running s.1 && negb (skip_hidden (ui s.1)) && negb (skip_disabled (ui s.1)) &&
                    (skipUntil s.1 =? 0) then [PressedSkip now] else []
  | _ => []
  end.

Definition next_log (e : Event) (s : St * World) (log : list Seen) : list Seen :=
  if visit (handle e s).1 =? visit s.1 then log ++ seen e s else [].

Definition time_of (e : Event) : option Z :=
  match e with ETick t | EInput t | ESkip t => Some t | _ => None end.

(** The clock runs forward from a positive time, and a tour has a step. *)
Definition event_ok (c : Z) (e : Event) : Prop :=
  match time_of e with Some t => 0 < t /\ c <= t | None => True end /\
  match e with EStart tour _ => tour <> [] | _ => True end.

Definition next_clock (c : Z) (e : Event) : Z := nullish (time_of e) c.

Inductive reach : St * World -> list Seen -> Z -> Prop :=
  | reach_init w : reach (st0, w) [] 0
  | reach_step s log c e :
      reach s log c -> event_ok c e -> reach (handle e s) (next_log e s log) (next_clock c e).

Definition all_open (l : list Seen) : Prop := forall t, SawGate t false ∉ l.

(** Why an open gate counts: it was seen shut before, the reader arrived by moving forward,
    or the step only observes. *)
Definition cause (s : Step) (st : St) (before : list Seen) : Prop :=
  (exists t, SawGate t false ∈ before) \/ forward st = true \/ s_observe s = true.

(** The gate was open from [o] on without a break, for [SETTLE_MS] up to [c], with no input
    in the [SETTLE_MS] before [c]. *)
Definition settled (s : Step) (st : St) (log : list Seen) (o c : Z) : Prop :=
  exists l0 l1 l2, log = l0 ++ SawGate o true :: l1 ++ SawGate c true :: l2 /\ all_open (l1 ++ l2) /\
    cause s st l0 /\ SETTLE_MS <= c - o /\ (forall t, SawInput t ∈ l0 ++ l1 -> SETTLE_MS <= c - t).

Record Watched (log : list Seen) (st : St) : Prop := {
  w_armed : armed st = true -> exists t, SawGate t false ∈ log;
  w_open : openSince st <> 0 -> exists s l0 l1, current st = Some s /\
    log = l0 ++ SawGate (openSince st) true :: l1 /\ all_open l1 /\ cause s st l0;
  w_confirm : confirmAt st <> 0 -> openSince st <> 0 /\
    exists s, current st = Some s /\ settled s st log (openSince st) (confirmAt st);
  w_skip : skipUntil st <> 0 -> PressedSkip (skipUntil st - SKIP_WAIT) ∈ log;
  w_input : forall t, SawInput t ∈ log -> t <= lastInput st }.

(** A visit that has observed nothing. *)
Lemma watched_fresh log st :
  armed st = false -> openSince st = 0 -> confirmAt st = 0 -> skipUntil st = 0 ->
  (forall t, SawInput t ∈ log -> t <= lastInput st) -> Watched log st.
Proof. intros A B C D E. constructor; rewrite ?A, ?B, ?C, ?D; done. Qed.

Lemma all_open_app l l' : all_open (l ++ l') <-> all_open l /\ all_open l'.
Proof. unfold all_open. setoid_rewrite elem_of_app. naive_solver. Qed.

Lemma all_open_one x : (forall t, x <> SawGate t false) -> all_open [x].
Proof. intros N t. rewrite list_elem_of_singleton. intros E. by eapply N. Qed.

Lemma settled_app s st log o c x :
  (forall t, x <> SawGate t false) -> settled s st log o c -> settled s st (log ++ [x]) o c.
Proof.
  intros N (l0 & l1 & l2 & -> & O & C & S & Q). exists l0, l1, (l2 ++ [x]).
  split_and!; try done; [by rewrite <- !app_assoc; simpl; rewrite <- app_assoc|].
  rewrite app_assoc, all_open_app. split; [done|by apply all_open_one].
Qed.

(** Something other than a shut gate is seen, and the fields the record is about stay. *)
Lemma watched_snoc log st st' x :
  Watched log st -> (forall t, x <> SawGate t false) ->
  armed st' = armed st -> openSince st' = openSince st -> confirmAt st' = confirmAt st ->
  forward st' = forward st -> current st' = current st ->
  (skipUntil st' = skipUntil st \/ x = PressedSkip (skipUntil st' - SKIP_WAIT)) ->
  (forall t, SawInput t ∈ log ++ [x] -> t <= lastInput st') ->
  Watched (log ++ [x]) st'.
Proof.
  intros W N A O C F U K I. constructor; rewrite ?A, ?O, ?C, ?U; [| | | |done].
  - intros E. destruct (w_armed _ _ W E) as [t ?]. exists t. set_solver.
  - intros E. destruct (w_open _ _ W E) as (s & l0 & l1 & E1 & -> & E2 & E3).
    exists s, l0, (l1 ++ [x]). split_and!; [done|by rewrite <- app_assoc| |by unfold cause; rewrite F].
    apply all_open_app. split; [done|by apply all_open_one].
  - intros E. destruct (w_confirm _ _ W E) as (Z & s & E1 & E2). split; [done|]. exists s. split; [done|].
    assert (settled s st' log (openSince st) (confirmAt st)) by (revert E2; unfold settled, cause; by rewrite F).
    by apply settled_app.
  - intros E. destruct K as [K| ->]; [|set_solver].
    rewrite K in *. pose proof (w_skip _ _ W E). set_solver.
Qed.

Lemma current_eq (st st' : St) : TOUR st' = TOUR st -> step st' = step st -> current st' = current st.
Proof. unfold current, step_at. by intros -> ->. Qed.

(** A frame extends the record. *)
Lemma watched_tick log st s now open :
  Watched log st -> 0 < now -> current st = Some s ->
  Watched (log ++ [SawGate now open]) (watch s now open st).
Proof.
  intros W T U.
  assert (I : forall t, SawInput t ∈ log ++ [SawGate now open] -> t <= lastInput st).
  { intros t. rewrite elem_of_app, list_elem_of_singleton. intros [?|?]; [by apply (w_input _ _ W)|done]. }
  destruct open; [|by constructor; simpl; [eexists; rewrite elem_of_app; right; apply list_elem_of_singleton; reflexivity|done|done|intros E; pose proof (w_skip _ _ W E); set_solver|]].
  set (o := if (armed st || forward st || s_observe s) && (openSince st =? 0) then now else openSince st).
  assert (O : o <> 0 -> exists l0 l1, log ++ [SawGate now true] = l0 ++ SawGate o true :: l1 /\
                         all_open l1 /\ cause s st l0).
  { subst o. destruct (_ && _) eqn:E.
    - intros _. exists log, []. split_and!; [done|unfold all_open; set_solver|].
      apply andb_true_iff in E as [[[E|E]%orb_true_iff|E]%orb_true_iff _]; [left|by right; left|by right; right].
      by apply (w_armed _ _ W).
    - intros Z. destruct (w_open _ _ W Z) as (s' & l0 & l1 & E1 & -> & E2 & E3). simplify_eq.
      exists l0, (l1 ++ [SawGate now true]). split_and!; [by rewrite <- app_assoc| |done].
      apply all_open_app. split; [done|by apply all_open_one]. }
  constructor; simpl; fold o; [| | | |done].
  - intros E. destruct (w_armed _ _ W E) as [t ?]. exists t. set_solver.
  - intros E. destruct (O E) as (l0 & l1 & ? & ? & ?). by exists s, l0, l1.
  - destruct (negb (o =? 0) && _ && _ && _) eqn:E.
    + intros _. rewrite !andb_true_iff, negb_true_iff in E. destruct E as (((E1 & E2) & E3) & E4).
      apply Z.eqb_neq in E1. apply Z.leb_le in E3, E4. split; [done|].
      exists s. split; [done|].
      assert (o = openSince st) as Eo by (subst o; destruct (_ && _); [unfold SETTLE_MS in *; lia|done]).
      rewrite Eo in *. destruct (w_open _ _ W E1) as (s' & l0 & l1 & E5 & El & E6 & E7). assert (s' = s) as -> by congruence.
      exists l0, l1, []. split_and!; [by rewrite El, <- app_assoc|by rewrite app_nil_r|done|done|].
      intros t Ht. assert (t <= lastInput st) by (apply (w_input _ _ W); rewrite El; set_solver). lia.
    + intros Z. destruct (w_confirm _ _ W Z) as (Z1 & s' & E1 & E2). simplify_eq.
      assert (o = openSince st) as -> by (subst o; apply Z.eqb_neq in Z1; by rewrite Z1, andb_false_r).
      split; [done|]. exists s. split; [done|]. by apply (settled_app s st).
  - intros E1. pose proof (w_skip _ _ W E1). set_solver.
Qed.
(** *** Arriving at a step *)
Record Arrived (i : Z) (s : Step) (st st' : St) : Prop := {
  a_step : step st' = i; a_visit : visit st' = visit st + 1; a_left : leftVisit st' = leftVisit st;
  a_tour : TOUR st' = TOUR st; a_running : running st' = running st; a_raf : raf st' = raf st;
  a_input : lastInput st' = lastInput st; a_current : current st' = Some s;
  a_fresh : armed st' = false /\ openSince st' = 0 /\ confirmAt st' = 0 /\ skipUntil st' = 0;
  a_next : next_hidden (ui st') = gated s; a_skip : skip_hidden (ui st') = negb (gated s);
  a_enabled : skip_disabled (ui st') = false }.

Lemma step_at_Some st i s : step_at st i = Some s -> 0 <= i < Z.of_nat (length (TOUR st)).
Proof.
  unfold step_at. destruct (Z.ltb_spec i 0); [done|]. intros L%lookup_lt_Some. lia.
Qed.

Lemma step_at_range st i : 0 <= i < Z.of_nat (length (TOUR st)) -> exists s, step_at st i = Some s.
Proof.
  intros R. unfold step_at. destruct (Z.ltb_spec i 0); [lia|]. apply lookup_lt_is_Some. lia.
Qed.

Lemma goStep_spec i st w :
  running st = true ->
  match step_at st i with
  | Some s => Arrived i s st (goStep i st w).1
  | None => goStep i st w = (st, w)
  end.
Proof.
  intros R. unfold goStep. rewrite R.
  destruct (step_at st i) as [s|] eqn:E; [|by destruct (_ || _ || _)].
  pose proof (step_at_Some _ _ _ E). destruct (Z.ltb_spec i 0); [lia|].
  destruct (Z.leb_spec (Z.of_nat (length (TOUR st))) i); [lia|]. simpl.
  destruct (resolve (s_target s) (step_route s w)) as [t w2]. constructor; done.
Qed.

(** *** The shape of a running tour *)
Record Shape (st : St) : Prop := {
  sh_idle : running st = false -> raf st = false;
  sh_step : 0 <= step st;
  sh_left : leftVisit st <= visit st;
  sh_run : running st = true -> raf st = true /\
    (leftVisit st = visit st -> step st = Z.of_nat (length (TOUR st)) - 1) /\
    exists s, current st = Some s /\
      (next_hidden (ui st) = true -> gated s = true /\ skip_hidden (ui st) = false /\
        (skip_disabled (ui st) = true -> skipUntil st <> 0)) }.

Lemma arrived_shape i s st st' :
  Arrived i s st st' -> step_at st i = Some s -> Shape st -> (raf st = true) -> Shape st'.
Proof.
  intros [] E S R. pose proof (step_at_Some _ _ _ E). pose proof (sh_left _ S).
  assert (running st = true) by (pose proof (sh_idle _ S); destruct (running st); [done|intuition congruence]).
  constructor; [congruence|lia|lia|].
  intros Hr. split_and!; [congruence|lia|]. exists s. split; [done|].
  intros N. split_and!; [congruence| |congruence].
  rewrite a_skip0. by rewrite a_next0 in N; rewrite N.
Qed.

(** A change that keeps what the shape is about. *)
Lemma shape_same st st' :
  Shape st -> TOUR st' = TOUR st -> step st' = step st -> running st' = running st -> raf st' = raf st ->
  visit st' = visit st -> leftVisit st' = leftVisit st ->
  (next_hidden (ui st') = true -> next_hidden (ui st) = true /\ skip_hidden (ui st') = skip_hidden (ui st) /\
     (skip_disabled (ui st') = true -> skipUntil st' = 0 -> skip_disabled (ui st) = true /\ skipUntil st = 0)) ->
  Shape st'.
Proof.
  intros S T P R F V L N. constructor; rewrite ?P, ?R, ?F, ?V, ?L, ?T; try apply S.
  intros Hr. destruct (sh_run _ S Hr) as (A & B & s & C & D). split_and!; [done|done|].
  exists s. split; [by rewrite (current_eq st st')|]. intros E.
  destruct (N E) as (E1 & E2 & E3). destruct (D E1) as (G1 & G2 & G3).
  split_and!; [done|congruence|]. intros E4 E5. by destruct (E3 E4 E5) as [?%G3 ?].
Qed.
(** *** Every event keeps both *)
Definition Inv (log : list Seen) (c : Z) (st : St) : Prop :=
  Watched log st /\ Shape st /\ lastInput st <= c.

Lemma watched_same log st st' :
  Watched log st -> armed st' = armed st -> openSince st' = openSince st -> confirmAt st' = confirmAt st ->
  forward st' = forward st -> current st' = current st -> (skipUntil st' = skipUntil st \/ skipUntil st' = 0) ->
  lastInput st' = lastInput st -> Watched log st'.
Proof.
  intros [] A O C F U K I. constructor; unfold settled, cause in *; rewrite ?A, ?O, ?C, ?F, ?U, ?I; try done.
  destruct K as [K|K]; rewrite K; done.
Qed.

Lemma arrived_inv i s st st' log c :
  Arrived i s st st' -> step_at st i = Some s -> Inv log c st -> raf st = true -> Inv [] c st'.
Proof.
  intros A E (_ & S & L) R. split_and!; [|by eapply arrived_shape|by rewrite (a_input _ _ _ _ A)].
  destruct (a_fresh _ _ _ _ A) as (? & ? & ? & ?). apply watched_fresh; try done. set_solver.
Qed.

(** Where [goStep] leads, and the record it starts. *)
Definition log_after (st st' : St) (log : list Seen) : list Seen :=
  if visit st' =? visit st then log else [].

Lemma inv_goStep i st w log c :
  Inv log c st -> running st = true -> Inv (log_after st (goStep i st w).1 log) c (goStep i st w).1.
Proof.
  intros I R. pose proof (goStep_spec i st w R) as G. unfold log_after.
  destruct (step_at st i) as [s|] eqn:E; [|by rewrite G; simpl; rewrite Z.eqb_refl].
  rewrite (a_visit _ _ _ _ G). destruct (Z.eqb_spec (visit st + 1) (visit st)); [lia|].
  eapply arrived_inv; [done..|]. by apply (sh_run _ (proj1 (proj2 I))).
Qed.

Lemma inv_advance st w log c :
  Inv log c st -> running st = true -> Inv (log_after st (advance st w).1 log) c (advance st w).1.
Proof.
  intros I R. unfold advance. rewrite R. simpl.
  destruct (Z.eqb_spec (leftVisit st) (visit st)) as [E|E]; [unfold log_after; by rewrite Z.eqb_refl|].
  pose proof (goStep_spec (step st + 1) (leave_visit st) w R) as G. unfold log_after.
  destruct I as (W & S & L).
  destruct (step_at (leave_visit st) (step st + 1)) as [s|] eqn:Es.
  - rewrite (a_visit _ _ _ _ G). simpl. destruct (Z.eqb_spec (visit st + 1) (visit st)); [lia|].
    split_and!; [|constructor|by rewrite (a_input _ _ _ _ G)]; destruct G; simpl in *.
    + destruct a_fresh0 as (? & ? & ? & ?). apply watched_fresh; try done. set_solver.
    + congruence.
    + pose proof (sh_step _ S). lia.
    + lia.
    + intros _. destruct (sh_run _ S R) as (Rr & _). split_and!; [congruence|lia|]. exists s. split; [done|].
      intros N. split_and!; [congruence| |congruence]. rewrite a_skip0. rewrite a_next0 in N. by rewrite N.
  - rewrite G. simpl. rewrite Z.eqb_refl. split_and!; [by eapply watched_same; eauto|constructor; simpl; try apply S|done].
    + lia.
    + intros _. destruct (sh_run _ S R) as (Rr & Rl & s & Rc & Rd). split_and!; [done| |eauto].
      intros _. pose proof (step_at_Some _ _ _ Rc) as B.
      destruct (Z_lt_dec (step st + 1) (Z.of_nat (length (TOUR st)))); [|lia].
      destruct (step_at_range (leave_visit st) (step st + 1)) as [s' ?]; [simpl; lia|]. congruence.
Qed.

Lemma inv_follow st w log c s :
  Inv log c st -> running st = true -> current st = Some s -> Inv log c (follow s st w).1.
Proof.
  intros (W & S & L) R U. unfold follow. destruct (resolve (s_target s) w) as [t w1]. simpl.
  split_and!; [eapply watched_same; eauto|eapply shape_same; eauto; simpl|done].
  symmetry. by apply (sh_run _ S).
Qed.

Lemma write_hint_same u m ok :
  next_hidden (write_hint u m ok) = next_hidden u /\ skip_hidden (write_hint u m ok) = skip_hidden u /\
  skip_disabled (write_hint u m ok) = skip_disabled u.
Proof. unfold write_hint. by destruct (_ === _). Qed.

Lemma inv_watch st log c s now open :
  Inv log c st -> 0 < now -> current st = Some s -> Inv (log ++ [SawGate now open]) c (watch s now open st).
Proof.
  intros (W & S & L) T U. split_and!; [by apply watched_tick| |done].
  eapply shape_same; eauto. unfold watch. cbn [ui skipUntil]. intros N.
  match type of N with context [write_hint ?u ?m ?b] => destruct (write_hint_same u m b) as (A & B & C) end.
  rewrite A in N. rewrite B, C. done.
Qed.

Lemma inv_hand_over st log c : Inv log c st -> Inv log c (hand_over st).
Proof.
  intros (W & S & L). unfold hand_over. destruct (next_hidden (ui st)) eqn:E; [|done].
  split_and!; [eapply watched_same; eauto|eapply shape_same; eauto; done|done].
Qed.

Lemma follow_same s st w :
  current (follow s st w).1 = current st /\ visit (follow s st w).1 = visit st /\
  running (follow s st w).1 = running st.
Proof. unfold follow. by destruct (resolve (s_target s) w). Qed.

(** A frame on a gated step: the state the gate was watched in, and what is done then. *)
Definition frame (now : Z) (st : St) (w : World) (s : Step) (g : World -> bool * World) : St * World :=
  let r := g (follow s st w).2 in (watch s now r.1 (follow s st w).1, r.2).

Lemma tick_gated now st w s g (f := frame now st w s g) :
  running st = true -> current st = Some s -> s_gate s = Some g ->
  tick now st w =
    if negb (confirmAt f.1 =? 0) && s_hold s then (hand_over f.1, f.2)
    else if negb (confirmAt f.1 =? 0) && (CONFIRM_MS <=? now - confirmAt f.1) then advance f.1 f.2
    else if negb (skipUntil f.1 =? 0) && (skipUntil f.1 <? now) then advance f.1 f.2
    else f.
Proof.
  intros R U G. unfold tick. rewrite R, U, G. cbn [negb]. subst f. unfold frame.
  destruct (follow s st w) as [st1 w1]. cbn [fst snd]. by destruct (g w1) as [open w2].
Qed.

Lemma frame_inv now st w s g log c :
  Inv log c st -> running st = true -> 0 < now -> current st = Some s -> s_gate s = Some g ->
  Inv (log ++ gate_seen now st w) c (frame now st w s g).1.
Proof.
  intros I R T U G. unfold gate_seen. rewrite U, G. destruct (follow_same s st w) as (E & _).
  apply inv_watch; [by apply inv_follow|done|by rewrite E].
Qed.

Lemma frame_same now st w s g :
  visit (frame now st w s g).1 = visit st /\ running (frame now st w s g).1 = running st /\
  current (frame now st w s g).1 = current st.
Proof.
  unfold frame. simpl. destruct (follow_same s st w) as (E & V & R).
  split_and!; [done|done|]. by rewrite <- E.
Qed.

Lemma inv_tick now st w log c :
  Inv log c st -> running st = true -> 0 < now ->
  Inv (log_after st (tick now st w).1 (log ++ gate_seen now st w)) c (tick now st w).1.
Proof.
  intros I R T. destruct (sh_run _ (proj1 (proj2 I)) R) as (F & _ & s & U & _).
  destruct (s_gate s) as [g|] eqn:G.
  - pose proof (frame_inv now st w s g log c I R T U G) as J.
    destruct (frame_same now st w s g) as (V & Rr & _).
    rewrite (tick_gated now st w s g R U G).
    assert (A := inv_advance (frame now st w s g).1 (frame now st w s g).2 _ _ J (eq_trans Rr R)).
    unfold log_after in *. rewrite V in A.
    destruct (negb _ && s_hold s).
    { cbn [fst]. replace (visit (hand_over (frame now st w s g).1)) with (visit st) by (unfold hand_over; by destruct (next_hidden _)).
      rewrite Z.eqb_refl. by apply inv_hand_over. }
    destruct (_ && _); [done|]. destruct (_ && _); [done|]. rewrite V, Z.eqb_refl. done.
  - assert (tick now st w = follow s st w) as -> by (unfold tick; rewrite R, U, G; by destruct (follow s st w)).
    unfold log_after, gate_seen. destruct (follow_same s st w) as (_ & -> & _). rewrite Z.eqb_refl, U, G, app_nil_r.
    by apply inv_follow.
Qed.

Lemma inv_exit st w log c : Inv log c st -> Inv log c (exitTour st w).1.
Proof.
  intros (W & S & L). unfold exitTour. destruct (running st); simpl; [|done].
  split_and!; [apply watched_fresh; try done; apply (w_input _ _ W)|constructor; simpl; try done; apply S|done].
Qed.

Lemma tour_inv_start tour h st w log c :
  tour <> [] -> Inv log c st ->
  Inv (log_after st (startTour tour h st w).1 log) c (startTour tour h st w).1.
Proof.
  intros N (W & S & L). unfold startTour. destruct (running st) eqn:R; [unfold log_after; by rewrite Z.eqb_refl|].
  set (st1 := {| TOUR := tour |}). pose proof (goStep_spec 0 st1 w eq_refl) as G.
  destruct (step_at_range st1 0) as [s E]; [destruct tour; [done|simpl; lia]|]. rewrite E in G.
  destruct (goStep 0 st1 w) as [st2 w2]. simpl in *. unfold log_after. simpl.
  destruct G; simpl in *. rewrite a_visit0. destruct (Z.eqb_spec (visit st + 1) (visit st)); [lia|].
  destruct a_fresh0 as (? & ? & ? & ?). pose proof (sh_left _ S).
  split_and!; [apply watched_fresh; try done; set_solver|constructor; simpl|simpl; congruence].
  - congruence.
  - lia.
  - lia.
  - intros _. split_and!; [done|lia|]. exists s. split; [done|].
    intros Hn. split_and!; [congruence| |congruence]. rewrite a_skip0. rewrite a_next0 in Hn. by rewrite Hn.
Qed.

Lemma inv_input now st w log c :
  Inv log c st -> c <= now -> Inv (next_log (EInput now) (st, w) log) now (handle (EInput now) (st, w)).1.
Proof.
  intros (W & S & L) T. unfold next_log, seen. simpl. destruct (running st); simpl; rewrite Z.eqb_refl.
  - split_and!; [|eapply shape_same; eauto; done|done].
    eapply watched_snoc; eauto; simpl; try done. intros t. rewrite elem_of_app, list_elem_of_singleton.
    intros [Ht|Ht]; [pose proof (w_input _ _ W t Ht); lia|]. simplify_eq. lia.
  - rewrite app_nil_r. split_and!; [done|done|lia].
Qed.

Lemma inv_skip now st w log c :
  Inv log c st -> 0 < now -> Inv (next_log (ESkip now) (st, w) log) c (handle (ESkip now) (st, w)).1.
Proof.
  intros I T. unfold next_log, seen. simpl.
  destruct (running st && _ && _) eqn:R; simpl; [|by rewrite Z.eqb_refl, app_nil_r].
  unfold skipStep. destruct (Z.eqb_spec (skipUntil st) 0) as [E|E]; simpl; [|by rewrite Z.eqb_refl, app_nil_r].
  rewrite Z.eqb_refl. destruct I as (W & S & L). split_and!; [|eapply shape_same; eauto; simpl|done].
  - eapply watched_snoc; eauto; simpl; try done; [right; f_equal; lia|].
    intros t. rewrite elem_of_app, list_elem_of_singleton. intros [Ht|Ht]; [by apply (w_input _ _ W)|done].
  - intros Hn. split_and!; [done|done|]. intros _ Z. unfold SKIP_WAIT in Z. lia.
Qed.

Lemma inv_later log c c' st : Inv log c st -> c <= c' -> Inv log c' st.
Proof. intros (W & S & L) ?. split_and!; [done|done|lia]. Qed.

Lemma inv_handle e s log c :
  Inv log c s.1 -> event_ok c e -> Inv (next_log e s log) (next_clock c e) (handle e s).1.
Proof.
  destruct s as [st w]. intros I [T N]. change (Inv log c st) in I. unfold next_clock.
  destruct e as [tour h|now|now| | |now| |w']; cbn [time_of nullish] in *.
  - unfold next_log, seen. rewrite app_nil_r. by apply tour_inv_start.
  - apply (inv_later _ c); [|lia]. unfold next_log, seen. simpl.
    destruct (raf st) eqn:F; simpl; [|by rewrite Z.eqb_refl, app_nil_r].
    assert (running st = true) as R.
    { destruct (running st) eqn:R; [done|]. by rewrite (sh_idle _ (proj1 (proj2 I)) R) in F. }
    rewrite R. apply inv_tick; [done|done|lia].
  - apply (inv_input _ _ _ _ c); [done|lia].
  - unfold next_log, seen. simpl. rewrite app_nil_r. destruct (running st && _) eqn:R; simpl; [|by rewrite Z.eqb_refl].
    apply andb_true_iff in R as [R _]. by apply inv_goStep.
  - unfold next_log, seen. simpl. rewrite app_nil_r. destruct (running st && _) eqn:R; simpl; [|by rewrite Z.eqb_refl].
    apply andb_true_iff in R as [R _]. destruct (_ =? _ - 1); [|by apply inv_advance].
    unfold exitTour at 1. rewrite R. simpl. rewrite Z.eqb_refl. by apply inv_exit.
  - apply (inv_later _ c); [|lia]. apply inv_skip; [done|lia].
  - unfold next_log, seen. simpl. rewrite app_nil_r. unfold exitTour at 1.
    destruct (running st) eqn:R; simpl; rewrite Z.eqb_refl; by apply inv_exit.
  - unfold next_log, seen. simpl. by rewrite Z.eqb_refl, app_nil_r.
Qed.

Lemma reach_inv s log c : reach s log c -> Inv log c s.1.
Proof.
  induction 1 as [w|s log c e R IH E]; [|by apply inv_handle].
  split_and!; [apply watched_fresh; try done; set_solver|constructor; simpl; try done; lia|done].
Qed.

(** *** Moving on *)
Lemma advance_spec st w :
  running st = true ->
  (visit (advance st w).1 = visit st /\ step (advance st w).1 = step st /\ TOUR (advance st w).1 = TOUR st /\
   ui (advance st w).1 = ui st /\ skipUntil (advance st w).1 = skipUntil st /\ running (advance st w).1 = true /\
   (leftVisit st = visit st \/ Z.of_nat (length (TOUR st)) <= step st + 1 \/ step st < 0)) \/
  (exists s, Arrived (step st + 1) s (leave_visit st) (advance st w).1).
Proof.
  intros R. unfold advance. rewrite R. simpl.
  destruct (Z.eqb_spec (leftVisit st) (visit st)); [by left; eauto 10|].
  pose proof (goStep_spec (step st + 1) (leave_visit st) w R) as G.
  destruct (step_at (leave_visit st) (step st + 1)) as [s|] eqn:E; [by right; exists s|]. left. rewrite G. simpl.
  split_and!; try done. right.
  destruct (Z_lt_dec (step st) 0); [by right|]. left.
  destruct (Z_lt_dec (step st + 1) (Z.of_nat (length (TOUR st)))); [|lia].
  destruct (step_at_range (leave_visit st) (step st + 1)) as [s' ?]; [simpl; lia|]. congruence.
Qed.

Lemma tick_moves now st w log c :
  Inv log c st -> running st = true -> 0 < now -> visit (tick now st w).1 <> visit st ->
  exists s g, current st = Some s /\ s_gate s = Some g /\ step (tick now st w).1 = step st + 1 /\
    let f := (frame now st w s g).1 in
    (s_hold s = false /\ confirmAt f <> 0 /\ CONFIRM_MS <= now - confirmAt f \/
     skipUntil f <> 0 /\ skipUntil f < now).
Proof.
  intros I R T V. destruct (sh_run _ (proj1 (proj2 I)) R) as (F & _ & s & U & _).
  destruct (s_gate s) as [g|] eqn:G.
  2:{ assert (tick now st w = follow s st w) as E by (unfold tick; rewrite R, U, G; by destruct (follow s st w)).
      rewrite E in V. destruct (follow_same s st w) as (_ & ? & _). done. }
  exists s, g. rewrite (tick_gated now st w s g R U G) in *.
  destruct (frame_same now st w s g) as (Vf & Rf & _).
  assert (step (frame now st w s g).1 = step st) as Sf by done.
  set (f := (frame now st w s g).1) in *. set (fw := (frame now st w s g).2) in *.
  assert (visit (advance f fw).1 <> visit st -> step (advance f fw).1 = step st + 1) as A.
  { intros N. destruct (advance_spec f fw) as [(? & _)|[s' G']]; [congruence|congruence|].
    rewrite (a_step _ _ _ _ G'). lia. }
  destruct (negb (confirmAt f =? 0) && s_hold s) eqn:E1.
  { exfalso. apply V. cbn [fst]. unfold hand_over. by destruct (next_hidden (ui f)). }
  destruct (negb (confirmAt f =? 0) && (CONFIRM_MS <=? now - confirmAt f)) eqn:E2.
  { apply andb_true_iff in E2 as [E2 E3]. rewrite E2 in E1. simpl in E1.
    apply negb_true_iff, Z.eqb_neq in E2. apply Z.leb_le in E3. split_and!; [done|done|by apply A|by left]. }
  destruct (negb (skipUntil f =? 0) && (skipUntil f <? now)) eqn:E3; [|done].
  apply andb_true_iff in E3 as [E3 E4]. apply negb_true_iff, Z.eqb_neq in E3. apply Z.ltb_lt in E4.
  split_and!; [done|done|by apply A|by right].
Qed.

(** C13: A frame moves the tour only from a gated step to the next one, and only for one of
    two reasons that the visit's own record shows: the gate was seen to open (from shut, or
    on a step reached by moving forward, or on one that only observes), stayed open in
    every frame since, for at least [SETTLE_MS] with no key or pointer press in that last
    stretch, and the confirmation was up for [CONFIRM_MS], on a step that does not hold for
    the reader; or Skip was pressed during this visit more than [SKIP_WAIT] ago. *)
Theorem tour_moves_when_done s log c now :
  reach s log c -> event_ok c (ETick now) -> visit (handle (ETick now) s).1 <> visit s.1 ->
  exists sp, current s.1 = Some sp /\ s_gate sp <> None /\
    step (handle (ETick now) s).1 = step s.1 + 1 /\
    ((s_hold sp = false /\ exists o k,
        settled sp s.1 (log ++ seen (ETick now) s) o k /\ CONFIRM_MS <= now - k) \/
     exists t, PressedSkip t ∈ log /\ t + SKIP_WAIT < now).
Proof.
  intros I%reach_inv [[T _] _] V. destruct s as [st w]. simpl in *.
  destruct (raf st) eqn:F; [|done].
  assert (running st = true) as R.
  { destruct (running st) eqn:R; [done|]. by rewrite (sh_idle _ (proj1 (proj2 I)) R) in F. }
  rewrite R. simpl. destruct (tick_moves _ _ _ _ _ I R T V) as (sp & g & U & G & S & D).
  pose proof (frame_inv now st w sp g log c I R T U G) as (W & _ & _).
  destruct (frame_same now st w sp g) as (_ & _ & Cf).
  assert (forward (frame now st w sp g).1 = forward st /\ skipUntil (frame now st w sp g).1 = skipUntil st) as [Ff Kf] by done.
  exists sp. split_and!; [done|by rewrite G|done|].
  destruct D as [(Hh & Z & K)|(Z & K)]; [left|right].
  - split; [done|]. destruct (w_confirm _ _ W Z) as (Zo & sp' & U' & Se). rewrite Cf in U'. simplify_eq.
    eexists _, _. split; [|done]. revert Se. unfold settled, cause. by rewrite Ff.
  - rewrite Kf in *. exists (skipUntil st - SKIP_WAIT). split; [by apply (w_skip _ _ (proj1 I))|lia].
Qed.

(** A running tour always shows a step of its own, and always offers a way on: either the
    forward button is shown, or Skip is, and Skip is either enabled or already counting down. *)
Theorem tour_way_on s log c :
  reach s log c -> running s.1 = true ->
  0 <= step s.1 < Z.of_nat (length (TOUR s.1)) /\
  (next_hidden (ui s.1) = false \/
   skip_hidden (ui s.1) = false /\ (skip_disabled (ui s.1) = false \/ skipUntil s.1 <> 0)).
Proof.
  intros (_ & S & _)%reach_inv R. destruct (sh_run _ S R) as (_ & _ & sp & U & N).
  split; [by eapply step_at_Some|]. destruct (next_hidden (ui s.1)); [right|by left].
  destruct N as (_ & ? & K); [done|]. split; [done|]. destruct (skip_disabled (ui s.1)); [right|left]; auto.
Qed.

(** *** A press of Skip is honoured *)
Definition Waits (log : list Seen) (st : St) : Prop :=
  forall t, PressedSkip t ∈ log ->
    0 < t /\ (running st = true -> skipUntil st = t + SKIP_WAIT \/ next_hidden (ui st) = false).

Lemma waits_same log log' st st' :
  Waits log st -> (forall t, PressedSkip t ∈ log' -> PressedSkip t ∈ log) ->
  (running st' = true -> running st = true) ->
  (skipUntil st' = skipUntil st \/ next_hidden (ui st') = false) ->
  (next_hidden (ui st) = false -> next_hidden (ui st') = false) -> Waits log' st'.
Proof.
  intros W L R K N t [T D]%L%W. split; [done|]. intros [E|E]%R%D; [|by right; apply N].
  destruct K as [-> |K]; [by left|by right].
Qed.

Lemma frame_ui now st w s g : next_hidden (ui (frame now st w s g).1) = next_hidden (ui st).
Proof.
  unfold frame, watch. cbn [fst ui].
  match goal with |- context [write_hint ?u ?m ?b] => by destruct (write_hint_same u m b) as (-> & _) end.
Qed.

(** What a frame leaves: it moves to the next step, or the step is kept and its controls
    only ever appear. *)
Lemma tick_still now st w s :
  running st = true -> raf st = true -> current st = Some s ->
  (exists s', Arrived (step st + 1) s' (leave_visit st) (tick now st w).1) \/
  (visit (tick now st w).1 = visit st /\ running (tick now st w).1 = true /\ TOUR (tick now st w).1 = TOUR st /\
   step (tick now st w).1 = step st /\
   (skipUntil (tick now st w).1 = skipUntil st \/ next_hidden (ui (tick now st w).1) = false) /\
   (next_hidden (ui st) = false -> next_hidden (ui (tick now st w).1) = false)).
Proof.
  intros R F U. destruct (s_gate s) as [g|] eqn:G.
  2:{ assert (tick now st w = follow s st w) as -> by (unfold tick; rewrite R, U, G; by destruct (follow s st w)).
      right. split_and!; try done. by left. }
  rewrite (tick_gated now st w s g R U G). pose proof (frame_ui now st w s g) as N.
  set (f := frame now st w s g) in *. assert (running f.1 = true) as Rf by done. assert (raf f.1 = true) by done.
  assert (visit f.1 = visit st /\ step f.1 = step st /\ TOUR f.1 = TOUR st /\ skipUntil f.1 = skipUntil st) as (V & S & T & K) by done.
  assert (A : (exists s', Arrived (step st + 1) s' (leave_visit st) (advance f.1 f.2).1) \/
    (visit (advance f.1 f.2).1 = visit st /\ running (advance f.1 f.2).1 = true /\ TOUR (advance f.1 f.2).1 = TOUR st /\
     step (advance f.1 f.2).1 = step st /\
     (skipUntil (advance f.1 f.2).1 = skipUntil st \/ next_hidden (ui (advance f.1 f.2).1) = false) /\
     (next_hidden (ui st) = false -> next_hidden (ui (advance f.1 f.2).1) = false))).
  { destruct (advance_spec f.1 f.2 Rf) as [(E1 & E2 & E3 & E4 & E5 & E6 & _)|[s' [] ]].
    - right. rewrite E4, N. split_and!; try congruence. left. congruence.
    - left. exists s'. constructor; simpl in *; first [assumption|congruence]. }
  destruct (negb (confirmAt f.1 =? 0) && s_hold s).
  { right. cbn [fst]. unfold hand_over. destruct (next_hidden (ui f.1)) eqn:E; simpl; split_and!; try congruence; eauto. }
  destruct (_ && _); [done|]. destruct (_ && _); [done|]. right. rewrite N. split_and!; try done. by left.
Qed.

Lemma waits_handle e s log c :
  Inv log c s.1 -> Waits log s.1 -> event_ok c e -> Waits (next_log e s log) (handle e s).1.
Proof.
  destruct s as [st w]. intros I W [T N]. simpl in I, W.
  unfold next_log. destruct (Z.eqb_spec (visit (handle e (st, w)).1) (visit (st, w).1)) as [V|V]; [|intros t; set_solver].
  assert (forall i, running st = true -> visit (goStep i st w).1 = visit st -> (goStep i st w).1 = st) as Go.
  { intros i R E. pose proof (goStep_spec i st w R) as G. destruct (step_at st i); [|by rewrite G].
    rewrite (a_visit _ _ _ _ G) in E. lia. }
  assert (Waits (log ++ []) (exitTour st w).1) as Ex.
  { rewrite app_nil_r. unfold exitTour. destruct (running st); simpl; [|done]. intros t Ht. by destruct (W t Ht). }
  destruct e as [tour h|now|now| | |now| |w']; simpl in *.
  - rewrite app_nil_r. unfold startTour in *. destruct (running st) eqn:R; [done|]. exfalso. revert V.
    set (st1 := {| TOUR := tour |}). pose proof (goStep_spec 0 st1 w eq_refl) as G.
    destruct (step_at_range st1 0) as [s E]; [destruct tour; [done|simpl; lia]|]. rewrite E in G.
    destruct (goStep 0 st1 w) as [st2 w2]. simpl in *. destruct G. simpl in *. lia.
  - assert (forall t, PressedSkip t ∈ log ++ (if raf st && running st then gate_seen now st w else []) -> PressedSkip t ∈ log) as L.
    { intros t. rewrite elem_of_app. intros [?|Hg]; [done|]. exfalso. revert Hg. unfold gate_seen.
      destruct (_ && _); [|set_solver]. destruct (current st) as [s|]; [|set_solver].
      destruct (s_gate s); [|set_solver]. rewrite list_elem_of_singleton. done. }
    destruct (raf st) eqn:F; [|by intros t Ht%L; apply W].
    destruct (running st) eqn:R; [|by rewrite (sh_idle _ (proj1 (proj2 I)) R) in F].
    destruct (sh_run _ (proj1 (proj2 I)) R) as (_ & _ & s & U & _).
    destruct (tick_still now st w s R F U) as [[s' [] ]|(_ & _ & _ & _ & K & Nh)]; [simpl in *; lia|].
    eapply waits_same; [exact W|exact L|done|done|done].
  - destruct (running st) eqn:R; (eapply waits_same; [exact W| |simpl; try done..]); try (by left);
      intros t; rewrite elem_of_app; intros [?|Hx]; try done; [by rewrite list_elem_of_singleton in Hx|set_solver].
  - rewrite app_nil_r. destruct (running st && _) eqn:R; [|done]. apply andb_true_iff in R as [R _]. by rewrite Go.
  - destruct (running st && _) eqn:R; [|by rewrite app_nil_r]. apply andb_true_iff in R as [R _].
    destruct (_ =? _ - 1); [done|]. rewrite app_nil_r.
    destruct (advance_spec st w R) as [(_ & _ & _ & E4 & E5 & _)|[s' [] ]]; [|simpl in *; lia].
    eapply waits_same; [exact W|done|done|by left|by rewrite E4].
  - destruct (running st && _ && _) eqn:R; simpl; [|by rewrite app_nil_r]. unfold skipStep.
    destruct (Z.eqb_spec (skipUntil st) 0) as [E|E]; simpl; [|by rewrite app_nil_r].
    intros t. rewrite elem_of_app, list_elem_of_singleton. intros [Ht|Ht]; simpl; [|simplify_eq; split; [lia|by left]].
    destruct (W t Ht) as [P D]. split; [done|]. intros [D'|D']%D; [unfold SKIP_WAIT in *; lia|by right].
  - done.
  - by rewrite app_nil_r.
Qed.

Lemma reach_waits s log c : reach s log c -> Waits log s.1.
Proof.
  induction 1 as [w|s log c e R IH E]; [intros t; set_solver|].
  eapply waits_handle; [by apply reach_inv|done|done].
Qed.

Lemma skip_honoured s log c t now :
  reach s log c -> PressedSkip t ∈ log -> running s.1 = true ->
  step s.1 < Z.of_nat (length (TOUR s.1)) - 1 -> event_ok c (ETick now) -> t + SKIP_WAIT < now ->
  step (handle (ETick now) s).1 = step s.1 + 1 \/ next_hidden (ui (handle (ETick now) s).1) = false.
Proof.
  intros Re P R L _ D. pose proof (reach_inv _ _ _ Re) as I. destruct (reach_waits _ _ _ Re t P) as [T W].
  destruct s as [st w]. simpl in *. destruct (sh_run _ (proj1 (proj2 I)) R) as (F & Lv & s & U & N). rewrite F.
  destruct (tick_still now st w s R F U) as [[s' G]|(V & R' & T' & _ & K & Nh)]; [left; apply G|].
  destruct (W R) as [E|E]; [|by right; apply Nh]. right.
  destruct (next_hidden (ui st)) eqn:Nx; [|by apply Nh]. destruct N as (Gt & _); [done|].
  unfold gated in Gt. apply bool_decide_eq_true in Gt as [g G].
  revert V. rewrite (tick_gated now st w s g R U G). set (f := frame now st w s g).
  assert (skipUntil f.1 = skipUntil st /\ visit f.1 = visit st /\ step f.1 = step st /\ TOUR f.1 = TOUR st /\
          leftVisit f.1 = leftVisit st /\ running f.1 = true) as (K1 & K2 & K3 & K4 & K5 & K6) by done.
  assert (visit (advance f.1 f.2).1 <> visit st) as A.
  { destruct (advance_spec f.1 f.2 K6) as [(_ & _ & _ & _ & _ & _ & X)|[s' [] ]]; [|simpl in *; lia].
    pose proof (step_at_Some _ _ _ U). rewrite K2, K3, K4, K5 in X. exfalso. destruct X as [X%Lv|[X|X]]; lia. }
  destruct (negb (confirmAt f.1 =? 0) && s_hold s).
  { intros _. cbn [fst]. unfold hand_over. destruct (next_hidden (ui f.1)) eqn:E'; done. }
  destruct (_ && _); [done|]. rewrite K1, E.
  destruct (Z.eqb_spec (t + SKIP_WAIT) 0); [unfold SKIP_WAIT in *; lia|].
  destruct (Z.ltb_spec (t + SKIP_WAIT) now); [|lia]. done.
Qed.

(** C21: A press of Skip never strands the reader: on a step that is not the last, the first
    frame later than [SKIP_WAIT] after the press, whatever the gate did meanwhile, moves
    the tour to the next step or finds the forward button shown. *)
Theorem skip_never_strands s log c t now :
  reach s log c -> PressedSkip t ∈ log -> running s.1 = true ->
  step s.1 < Z.of_nat (length (TOUR s.1)) - 1 -> event_ok c (ETick now) -> t + SKIP_WAIT < now ->
  step (handle (ETick now) s).1 = step s.1 + 1 \/ next_hidden (ui (handle (ETick now) s).1) = false.
Proof. exact (skip_honoured s log c t now). Qed.

(** *** Every tour can be walked to its end *)
Definition run (es : list Event) (s : St * World) : St * World := fold_left (fun s e => handle e s) es s.

Fixpoint ok_run (c : Z) (es : list Event) : Prop :=
  match es with
  | [] => True
  | e :: es' => event_ok c e /\ ok_run (next_clock c e) es'
  end.

Definition clock_after (c : Z) (es : list Event) : Z := fold_left next_clock es c.

Lemma ok_run_app c es es' : ok_run c (es ++ es') <-> ok_run c es /\ ok_run (clock_after c es) es'.
Proof. revert c. induction es as [|e es IH]; intros c; simpl; [tauto|]. rewrite IH. tauto. Qed.

Fixpoint run_log (es : list Event) (s : St * World) (log : list Seen) : list Seen :=
  match es with
  | [] => log
  | e :: es' => run_log es' (handle e s) (next_log e s log)
  end.

Lemma reach_run es s log c :
  reach s log c -> ok_run c es -> reach (run es s) (run_log es s log) (clock_after c es).
Proof.
  revert s log c. induction es as [|e es IH]; intros s log c R O; [done|].
  destruct O as [E O]. apply IH; [by apply reach_step|done].
Qed.

(** What a reader who only watches and presses the tour's own buttons does. *)
Definition by_buttons (e : Event) : Prop :=
  match e with ETick _ | ENext | ESkip _ => True | _ => False end.

Definition goes_on (es : list Event) (c : Z) (s : St * World) (i : Z) : Prop :=
  Forall by_buttons es /\ ok_run c es /\ running (run es s).1 = true /\
  TOUR (run es s).1 = TOUR s.1 /\ step (run es s).1 = i.

Lemma press_next s log c :
  reach s log c -> running s.1 = true -> step s.1 < Z.of_nat (length (TOUR s.1)) - 1 ->
  next_hidden (ui s.1) = false -> goes_on [ENext] c s (step s.1 + 1).
Proof.
  intros I%reach_inv R L N. destruct s as [st w]. simpl in *. destruct (sh_run _ (proj1 (proj2 I)) R) as (_ & Lv & s & U & _).
  pose proof (step_at_Some _ _ _ U).
  assert (handle ENext (st, w) = advance st w) as E.
  { simpl. rewrite R, N. simpl. destruct (Z.eqb_spec (step st) (Z.of_nat (length (TOUR st)) - 1)); [lia|done]. }
  unfold goes_on, run. cbn [fold_left]. rewrite E.
  split_and!; [by constructor|by repeat split|..];
    (destruct (advance_spec st w R) as [(_ & _ & _ & _ & _ & _ & X)|[s' [] ]];
     [exfalso; destruct X as [X%Lv|[X|X]]; lia|simpl in *; congruence]).
Qed.

(** The deadline of a pressed Skip passes. *)
Lemma wait_skip s log c t :
  reach s log c -> running s.1 = true -> step s.1 < Z.of_nat (length (TOUR s.1)) - 1 -> PressedSkip t ∈ log ->
  exists es, goes_on es c s (step s.1 + 1).
Proof.
  intros Re R L P. set (now := Z.max (Z.max 1 c) (t + SKIP_WAIT + 1)).
  assert (event_ok c (ETick now)) as O by (subst now; repeat split; lia).
  pose proof (skip_honoured s log c t now Re P R L O ltac:(subst now; lia)) as D.
  pose proof (reach_step _ _ _ _ Re O) as Re'.
  destruct (reach_inv _ _ _ Re) as (_ & S & _). destruct s as [st w]. cbn [fst snd] in *.
  destruct (sh_run _ S R) as (F & _ & s & U & _).
  assert (handle (ETick now) (st, w) = tick now st w) as E by (simpl; by rewrite F). rewrite E in *.
  destruct (tick_still now st w s R F U) as [[s' [] ]|(V & R' & T' & S' & K & Nh)].
  - exists [ETick now]. unfold goes_on, run. cbn [fold_left]. rewrite E.
    split_and!; [by constructor|by split|by rewrite a_running0|done|done].
  - destruct D as [D|D]; [lia|].
    destruct (press_next _ _ _ Re') as (E1 & E2 & E3 & E4 & E5); [done|by rewrite T', S'|done|].
    exists (ETick now :: [ENext]). unfold goes_on, run in *. cbn [fold_left] in *. rewrite E in *.
    split_and!; [by constructor|by split|done|by rewrite E4, T'|by rewrite E5, S'].
Qed.

Lemma one_step_on s log c :
  reach s log c -> running s.1 = true -> step s.1 < Z.of_nat (length (TOUR s.1)) - 1 ->
  exists es, goes_on es c s (step s.1 + 1).
Proof.
  intros Re R L. destruct (reach_inv _ _ _ Re) as (W & S & _).
  destruct (next_hidden (ui s.1)) eqn:N; [|exists [ENext]; by eapply press_next].
  destruct (Z.eq_dec (skipUntil s.1) 0) as [Z|Z]; [|by eapply wait_skip; [..|apply (w_skip _ _ W Z)]].
  destruct (sh_run _ S R) as (_ & _ & sp & U & Nx). destruct (Nx N) as (_ & Hs & Hd).
  assert (skip_disabled (ui s.1) = false) as Hd' by (destruct (skip_disabled (ui s.1)); [by destruct Hd|done]).
  set (t := Z.max 1 c). assert (event_ok c (ESkip t)) as O by (subst t; repeat split; lia).
  pose proof (reach_step _ _ _ _ Re O) as Re'. destruct s as [st w]. cbn [fst snd] in *.
  assert (handle (ESkip t) (st, w) = skipStep t st w) as E by (simpl; by rewrite R, Hs, Hd').
  assert (PressedSkip t ∈ next_log (ESkip t) (st, w) log) as P.
  { unfold next_log. rewrite E. unfold skipStep, seen. cbn [fst]. apply Z.eqb_eq in Z. rewrite R, Hs, Hd', Z.
    simpl. rewrite Z.eqb_refl. set_solver. }
  rewrite E in Re'. unfold skipStep in *. apply Z.eqb_eq in Z. rewrite Z in *. cbn [negb] in *.
  destruct (wait_skip _ _ _ t Re' R L P) as (es & E1 & E2 & E3 & E4 & E5).
  exists (ESkip t :: es). unfold goes_on, run in *. cbn [fold_left]. rewrite E.
  split_and!; [by constructor|by split|done|done|done].
Qed.

Lemma walk_to_end s log c :
  reach s log c -> running s.1 = true ->
  exists es, goes_on es c s (Z.of_nat (length (TOUR s.1)) - 1).
Proof.
  intros Re R. remember (Z.to_nat (Z.of_nat (length (TOUR s.1)) - 1 - step s.1)) as n eqn:En.
  revert s log c Re R En. induction n as [|n IH]; intros s log c Re R En.
  - destruct (reach_inv _ _ _ Re) as (_ & S & _). destruct (sh_run _ S R) as (_ & _ & sp & U & _).
    pose proof (step_at_Some _ _ _ U). exists []. repeat split; try done. simpl. lia.
  - destruct (one_step_on _ _ _ Re R) as (es & E1 & E2 & E3 & E4 & E5); [lia|].
    pose proof (reach_run _ _ _ _ Re E2) as Re'.
    destruct (IH _ _ _ Re' E3) as (es' & G1 & G2 & G3 & G4 & G5); [rewrite E4; lia|].
    exists (es ++ es'). unfold goes_on, run in *. rewrite fold_left_app.
    split_and!; [by apply Forall_app|by apply ok_run_app|done|congruence|congruence].
Qed.

(** C22: Whatever the gates say and however far the tour has come, a reader who presses only
    the tour's own buttons can walk it to its last step: on each step either Continue is
    there, or pressing Skip and waiting is enough. *)
Theorem tour_can_be_finished s log c :
  reach s log c -> running s.1 = true ->
  exists es, goes_on es c s (Z.of_nat (length (TOUR s.1)) - 1).
Proof. exact (walk_to_end s log c). Qed.
End Runs.

(** ** A small page and tour the theorems apply to *)
Module Sample.
Record page := { gate_open : bool; at_hash : str }.

#[export] Instance sample_page : Page := {|
  World := page; Elem := unit; querySelector _ _ := Some tt; ancestors _ _ := []; folded _ _ := false;
  unfold_details _ w := w;
  getBoundingClientRect _ _ := {| r_left := 20; r_top := 30; r_right := 120; r_bottom := 60 |}%Q;
  bubble_size _ _ := (300, 120)%Q; clientWidth _ := 800; clientHeight _ := 600;
  scrollIntoView _ w := w; location_hash := at_hash;
  set_location_hash h w := {| gate_open := gate_open w; at_hash := h |} |}.

Definition read_step (t : str) : Step :=
  {| s_title := ""; s_text := t; s_hash := None; s_target := ["#a" : str]; s_wait := ""; s_gate := None;
     s_hold := false; s_observe := false; s_skip := None; s_href := ""; s_linkText := ""; s_pre := None;
     s_links := None |}.

Definition do_step (t : str) : Step :=
  {| s_title := ""; s_text := t; s_hash := Some (fun w => ("#/b" : str, w)); s_target := ["#b" : str];
     s_wait := "Waiting."; s_gate := Some (fun w => (gate_open w, w)); s_hold := false; s_observe := false;
     s_skip := Some (fun w => w); s_href := ""; s_linkText := ""; s_pre := None; s_links := None |}.

Definition sample_tour : list Step := [read_step "Read this."; do_step "Do this."; read_step "Done."].
Definition start : Event := EStart sample_tour {| docsHref := ""; onStart := id; onExit := id |}.
Definition w0 : page := {| gate_open := false; at_hash := "#/a" |}.
Definition w1 : page := {| gate_open := true; at_hash := "#/b" |}.

(** The reader continues, does the step, and the gate settles. *)
Definition done_run : list Event := [start; ENext; ETick 1000; EPage w1; ETick 1100; ETick 1900].
(** The reader continues, and presses Skip with no effect. *)
Definition skip_run : list Event := [start; ENext; ETick 1000; ESkip 1500].
End Sample.

Import Sample.

Lemma sample_reach es : ok_run 0 es -> reach (run es (st0, w0)) (run_log es (st0, w0) []) (clock_after 0 es).
Proof. exact (reach_run es (st0, w0) [] 0 (@reach_init sample_page w0)). Qed.

Definition sample_rect : Rect := {| r_left := 20; r_top := 30; r_right := 120; r_bottom := 60 |}%Q.

Lemma place_in_view_witness :
  let p := place 800 600 (300, 120)%Q (Some sample_rect) in
  p_spot p <> None /\ (12 <= inject_Z (p_left p) /\ inject_Z (p_left p) + 300 <= 800 - 12 + (1 # 2))%Q.
Proof.
  destruct (place_in_view 800 600 (300, 120)%Q (Some sample_rect)) as (A & _);
    [lia|lia|by apply Qle_bool_iff|by apply Qle_bool_iff|].
  split; [done|]. apply A. by apply Qle_bool_iff.
Defined.

Lemma tour_moves_when_done_witness :
  exists sp, current (run done_run (st0, w0)).1 = Some sp /\ s_gate sp <> None.
Proof.
  destruct (tour_moves_when_done (run done_run (st0, w0)) (run_log done_run (st0, w0) [])
              (clock_after 0 done_run) 2300) as (sp & A & B & _).
  - apply sample_reach. repeat split; done.
  - repeat split; done.
  - vm_compute. done.
  - exists sp. split; [exact A|exact B].
Defined.

Lemma tour_way_on_witness : 0 <= step (run skip_run (st0, w0)).1 < 3.
Proof.
  apply (tour_way_on (run skip_run (st0, w0)) (run_log skip_run (st0, w0) []) (clock_after 0 skip_run)).
  - apply sample_reach. repeat split; done.
  - vm_compute. done.
Defined.

Lemma skip_never_strands_witness :
  step (handle (ETick 7501) (run skip_run (st0, w0))).1 = 2 \/
  next_hidden (ui (handle (ETick 7501) (run skip_run (st0, w0))).1) = false.
Proof.
  apply (skip_never_strands (run skip_run (st0, w0)) (run_log skip_run (st0, w0) []) (clock_after 0 skip_run) 1500 7501).
  - apply sample_reach. repeat split; done.
  - vm_compute. right. left.
  - vm_compute. done.
  - vm_compute. done.
  - repeat split; done.
  - vm_compute. done.
Defined.

Lemma tour_can_be_finished_witness :
  exists es, goes_on es (clock_after 0 skip_run) (run skip_run (st0, w0)) 2.
Proof.
  apply (tour_can_be_finished (run skip_run (st0, w0)) (run_log skip_run (st0, w0) []) (clock_after 0 skip_run)).
  - apply sample_reach. repeat split; done.
  - vm_compute. done.
Defined.
