(* ===== verification/Tours.v ===== *)
(** * The demo's tours and their facts: [src/examples/demo/tours.js]

    The two guided tours as data for the runner of [Tour.v], and the simulated delivery
    world their gates read: facts asked of the engine at most twice a second, with answers
    that may arrive after they were forgotten, and the person signed in. The dashboard's
    elements and the engine's promises are the page's (a class); a promise chain a step
    starts is a job put on the page's queue. *)

From stdpp Require Import base list sets.
From Stdlib Require Import Init.Byte ZArith QArith Lia.
From S2P Require Import Prelude Uri Router Digests Tour.
Open Scope Z_scope.

(** ** The facts the gates read *)
Record EnvRow := {
  er_environment : str; er_service : str; er_version : str; er_candidate : str;
  er_candidateVersion : str; er_autoHold : bool }.

(** A field the engine left out is empty. *)
Record HistEntry := { he_type : str; he_operation : str; he_phase : str; he_verification : str }.

Record Facts := {
  f_at : Z; f_rows : list (str * EnvRow); f_held : str; f_question : str; f_latest : str; f_accepted : bool }.

Definition noFacts : Facts :=
  {| f_at := 0; f_rows := []; f_held := ""; f_question := ""; f_latest := ""; f_accepted := false |}.

Definition PROMOTE : str := "delivery.pacto.trianalab.io/promote".

(** One entry of the history, newest first: the first promote and the first held one count. *)
Definition read_entry (f : Facts) (e : HistEntry) : Facts :=
  let promote := (he_type e === PROMOTE) && truthy (he_operation e) && negb (truthy (f_latest f)) in
  {| f_at := f_at f; f_rows := f_rows f;
     f_held := if (he_phase e === "Held") && negb (truthy (f_held f)) then he_operation e else f_held f;
     f_question := f_question f;
     f_latest := if promote then he_operation e else f_latest f;
     f_accepted := if promote then he_verification e === "AcceptedUnknown" else f_accepted f |}.

Definition set_rows (f : Facts) (rows : list (str * EnvRow)) : Facts :=
  {| f_at := f_at f; f_rows := rows; f_held := f_held f; f_question := f_question f;
     f_latest := f_latest f; f_accepted := f_accepted f |}.

Definition read_rows (rows : list EnvRow) : list (str * EnvRow) :=
  fold_left (fun m r => map_set (er_environment r ++ "/" ++ er_service r) r m) rows [].

(** The first answers: the environments and the history of prod/payments. *)
Definition facts_of (env : list EnvRow) (entries : list HistEntry) : Facts :=
  fold_left read_entry entries (set_rows noFacts (read_rows env)).

(** The second answer: the question of the held change, when one is held. *)
Definition with_question (f : Facts) (q : str) : Facts :=
  {| f_at := f_at f; f_rows := f_rows f; f_held := f_held f; f_question := q; f_latest := f_latest f;
     f_accepted := f_accepted f |}.

Definition stamp_facts (f : Facts) (now : Z) : Facts :=
  {| f_at := now; f_rows := f_rows f; f_held := f_held f; f_question := f_question f;
     f_latest := f_latest f; f_accepted := f_accepted f |}.

Record Demo := { facts : Facts; factsAsked : Z; persona : str }.
Definition demo0 : Demo := {| facts := noFacts; factsAsked := 0; persona := "pay-agent" |}.

(** [fact()]: the last answer, and the stamp of the read it starts, if it starts one. *)
Definition fact (now : Z) (d : Demo) : Facts * Demo * option Z :=
  if (now - f_at (facts d) <? 500) || (now - factsAsked d <? 500) then (facts d, d, None)
  else (facts d, {| facts := facts d; factsAsked := now; persona := persona d |}, Some now).

Definition resetFacts (d : Demo) : Demo :=
  {| facts := stamp_facts (facts d) 0; factsAsked := 0; persona := persona d |}.

(** The read stamped [asked] has all its answers. *)
Definition on_facts (asked now : Z) (f : Facts) (d : Demo) : Demo :=
  if factsAsked d =? asked then {| facts := stamp_facts f now; factsAsked := factsAsked d; persona := persona d |}
  else d.

(** The engine answered a switch of person; [err] is empty when it agreed. *)
Definition on_persona (name err : str) (d : Demo) : Demo :=
  if truthy err then d
  else resetFacts {| facts := facts d; factsAsked := factsAsked d; persona := name |}.

(** [digestOf]: the candidate of the first row of the service at the version. *)
Fixpoint digestOf (rows : list EnvRow) (svc version : str) : str :=
  match rows with
  | [] => ""
  | r :: rows' => if (er_service r === svc) && (er_candidateVersion r === version) then er_candidate r
                  else digestOf rows' svc version
  end.

(** *** Reads, resets and answers in any order

    The reads in flight are kept by their turn and their stamp; the network answers or fails
    them in any order. [barrier] is the first turn after the last reset. The clock moves
    between two reads: the stamp of a read is what tells its answer apart. *)
Record Sys := { demo : Demo; inflight : list (nat * Z); turn : nat; barrier : nat }.
Definition sys0 : Sys := {| demo := demo0; inflight := []; turn := 0; barrier := 0 |}.

Inductive facts_step : Z -> Sys -> Z -> Sys -> Prop :=
  | FCached c now s f :
      c <= now -> fact now (demo s) = (f, demo s, None) -> facts_step c s now s
  | FAsk c now s f d t :
      c < now -> fact now (demo s) = (f, d, Some t) ->
      facts_step c s now {| demo := d; inflight := (turn s, t) :: inflight s; turn := S (turn s); barrier := barrier s |}
  | FReset c s :
      facts_step c s c {| demo := resetFacts (demo s); inflight := inflight s; turn := turn s; barrier := turn s |}
  | FAnswer c now s n t a b f :
      c <= now -> inflight s = a ++ (n, t) :: b ->
      facts_step c s now {| demo := on_facts t now f (demo s); inflight := a ++ b; turn := turn s; barrier := barrier s |}
  | FFail c s n t a b :
      inflight s = a ++ (n, t) :: b ->
      facts_step c s c {| demo := demo s; inflight := a ++ b; turn := turn s; barrier := barrier s |}
  | FPersona c s name err :
      facts_step c s c {| demo := on_persona name err (demo s); inflight := inflight s; turn := turn s;
                          barrier := if truthy err then barrier s else turn s |}.

Inductive facts_reach : Z -> Sys -> Prop :=
  | facts_init c : 0 <= c -> facts_reach c sys0
  | facts_next c s c' s' : facts_reach c s -> facts_step c s c' s' -> facts_reach c' s'.

(** Stamps tell the reads apart, and only the newest read, with no reset since, is current. *)
Record Reads (c : Z) (s : Sys) : Prop := {
  rd_clock : 0 <= c;
  rd_barrier : (barrier s <= turn s)%nat;
  rd_stamps : forall n t, (n, t) ∈ inflight s -> 0 < t <= c;
  rd_current : forall n, (n, factsAsked (demo s)) ∈ inflight s -> turn s = S n /\ (barrier s <= n)%nat }.

Lemma fact_asks now d f d' t :
  fact now d = (f, d', Some t) -> t = now /\ factsAsked d' = now /\ 500 <= now - factsAsked d.
Proof.
  unfold fact. destruct (Z.ltb_spec (now - f_at (facts d)) 500), (Z.ltb_spec (now - factsAsked d) 500); simpl; intros; simplify_eq.
  split_and!; done || lia.
Qed.

Lemma reads_forget c s s' :
  Reads c s -> inflight s' = inflight s -> factsAsked (demo s') = 0 -> barrier s' = turn s' -> Reads c s'.
Proof.
  intros [C B S K] I Z T. constructor; rewrite ?I, ?Z; [done|lia|done|]. intros n Hn%S. lia.
Qed.

Lemma reads_step c s c' s' : facts_step c s c' s' -> Reads c s -> Reads c' s'.
Proof.
  intros St R. pose proof R as [C B S K].
  destruct St as [c now s f L E|c now s f d t L E|c s|c now s n t a b f L E|c s n t a b E|c s name err]; simpl in *.
  - constructor; [lia|done| |done]. intros n t Hn%S. lia.
  - apply fact_asks in E as (-> & Ed & _). constructor; simpl; [lia|lia| |].
    + intros n t. rewrite elem_of_cons. intros [?|Hn%S]; simplify_eq; lia.
    + intros n. rewrite Ed, elem_of_cons. intros [?|Hn%S]; [|lia]. simplify_eq. split; [done|lia].
  - by eapply reads_forget.
  - assert (forall p, p ∈ a ++ b -> p ∈ inflight s) as Sub by (rewrite E; set_solver).
    constructor; simpl; [lia|lia| |].
    + intros n' t' Hn%Sub%S. lia.
    + intros n'. replace (factsAsked (on_facts t now f (demo s))) with (factsAsked (demo s)) by (unfold on_facts; by destruct (_ =? _)).
      intros Hn%Sub. by apply K.
  - assert (forall p, p ∈ a ++ b -> p ∈ inflight s) as Sub by (rewrite E; set_solver).
    constructor; simpl; [lia|lia|by intros n' t' Hn%Sub%S|intros n' Hn%Sub; by apply K].
  - unfold on_persona. destruct (truthy err); [done|]. by eapply reads_forget.
Qed.

Lemma facts_reads c s : facts_reach c s -> Reads c s.
Proof.
  induction 1 as [c C|c s c' s' R IH S]; [|by eapply reads_step].
  constructor; simpl; [done|lia|set_solver|set_solver].
Qed.

(** In whatever order the engine answers, an answer to a read asked before the last
    reset, or before another read, never replaces the facts: a gate that asked afresh after
    a change was made cannot be opened by what was true before it. *)
Theorem facts_never_stale c s n t a b f now :
  facts_reach c s -> inflight s = a ++ (n, t) :: b -> (n < barrier s \/ S n < turn s)%nat ->
  on_facts t now f (demo s) = demo s.
Proof.
  intros R%facts_reads I O. unfold on_facts. destruct (Z.eqb_spec (factsAsked (demo s)) t) as [E|]; [|done].
  destruct (rd_current _ _ R n) as [E1 E2]; [|lia]. rewrite I, E. set_solver.
Qed.

(** The stamp is a time in milliseconds: two reads in one millisecond share it, and the
    older of them can then be installed over the newer. *)
Example same_millisecond (old : Facts) :
  let asked1 := (fact 1000 demo0).1.2 in
  let asked2 := (fact 1000 (resetFacts asked1)).1.2 in
  facts (on_facts 1000 1200 old asked2) = stamp_facts old 1200.
Proof. reflexivity. Qed.

(** What a read finds in the history, as a reference definition: the first promote that
    names its operation, and the first held change that does. *)
Definition is_promote (e : HistEntry) : bool := (he_type e === PROMOTE) && truthy (he_operation e).
Definition is_held (e : HistEntry) : bool := (he_phase e === "Held") && truthy (he_operation e).

Lemma read_entries_rows entries f : f_rows (fold_left read_entry entries f) = f_rows f.
Proof. revert f. induction entries as [|e l IH]; intros f; simpl; [done|]. by rewrite IH. Qed.

Lemma read_entries_latest entries f :
  f_latest (fold_left read_entry entries f) =
    (if truthy (f_latest f) then f_latest f else match List.find is_promote entries with Some e => he_operation e | None => f_latest f end) /\
  f_accepted (fold_left read_entry entries f) =
    (if truthy (f_latest f) then f_accepted f
     else match List.find is_promote entries with Some e => he_verification e === "AcceptedUnknown" | None => f_accepted f end).
Proof.
  revert f. induction entries as [|e l IH]; intros f; simpl; [by destruct (truthy (f_latest f))|].
  destruct (IH (read_entry f e)) as [-> ->]. unfold read_entry, is_promote. simpl.
  destruct (he_type e === PROMOTE), (truthy (he_operation e)) eqn:Eo, (truthy (f_latest f)) eqn:El; simpl; rewrite ?Eo, ?El; done.
Qed.

Lemma read_entries_held entries f :
  truthy (f_held f) = true -> f_held (fold_left read_entry entries f) = f_held f.
Proof.
  revert f. induction entries as [|e l IH]; intros f E; simpl; [done|].
  rewrite IH; unfold read_entry; simpl; rewrite E; by rewrite andb_false_r.
Qed.

Lemma read_entries_hold entries f :
  truthy (f_held f) = false ->
  f_held (fold_left read_entry entries f) = match List.find is_held entries with Some e => he_operation e | None => "" end.
Proof.
  revert f. induction entries as [|e l IH]; intros f E; simpl; [by destruct (f_held f)|]. unfold is_held at 1.
  destruct (he_phase e === "Held") eqn:Ep; simpl; [|apply IH; unfold read_entry; simpl; by rewrite Ep].
  destruct (truthy (he_operation e)) eqn:Eo.
  - rewrite read_entries_held; unfold read_entry; simpl; rewrite Ep, E; done.
  - apply IH. unfold read_entry. simpl. by rewrite Ep, E.
Qed.

(** ** The page the tours drive *)

(** A promise chain a step starts: a read of the facts, a proposal (of a version the
    environments name, or of a rollback), a switch of person, a decision, a retry. *)
Inductive Job :=
  | JFacts (stamp : Z)
  | JPropose (stage service version : str) (open_it : bool)
  | JRollback (undoes : str)
  | JPersona (name : str) (fresh : bool)
  | JDecide (operation decision note : str)
  | JRetryAccept.

(** The recorded plan of [pacto init], as [JSON.parse] reads it; a list left out is empty. *)
Record PlanFile := { pf_path : str; pf_action : str; pf_content : str }.
Record PactifyPlan := { pp_files : list PlanFile; pp_found : list str; pp_unknown : list str; pp_next : list str }.

Class DemoPage `{Page} := {
  demo_of : World -> Demo;
  set_demo : Demo -> World -> World;
  enqueue : Job -> World -> World;
  date_now : World -> Z;
  elem_value : World -> Elem -> str;
  elem_options : World -> Elem -> option (list str);
  elem_text : World -> Elem -> str;
  elem_form : World -> Elem -> option Elem;
  set_elem_value : Elem -> str -> World -> World;
  dispatchEvent : Elem -> str -> World -> World;
  click : Elem -> World -> World;
  requestSubmit : Elem -> World -> World;
  blur : Elem -> World -> World;
  showPopover : Elem -> option (World -> World);
  pactify_plan : World -> option PactifyPlan }.   (* the recorded plan, [None] when it does not parse *)

(** Attribute selectors. *)
Definition attr (name value : str) : str := "[" ++ name ++ "=" ++ [x22] ++ value ++ [x22] ++ "]".
Definition testid (v : str) : str := attr "data-testid" v.
Definition aria (v : str) : str := attr "aria-label" v.

Definition PROPOSE_BTN : str := testid "propose-panel" ++ " button[type=submit]".
Definition PERSON_MENU : str := testid "identity-trigger".
Definition SWITCH_BTN : str := "#navbar-identity:popover-open " ++ testid "sign-out".
Definition NOTE : str := testid "decision-panel" ++ " textarea".
Definition APPROVE : str := testid "decide-approve".
Definition RAISE_FRAUD : str := aria "Propose Advise for fraud in test".
Definition CAROL : str := testid "demo-persona-carol".

Definition NOTICE : str := "Demo: a made-up fleet of services, running entirely in your browser. Two things that look like bugs are deliberate.".
Definition NOTE_APPROVE : str := "orders 1.4 is ready for payments 3".
Definition NOTE_ACCEPT : str := "traffic is low at night; the error ratio is watched by hand".

(** [/[?&]text=[^&]/.test(h)] *)
Fixpoint has_text_param (h : str) : bool :=
  match h with
  | [] => false
  | c :: r => ((c === x3f) || (c === x26)) && starts_with "text=" r &&
              (match drop 5 r with x26 :: _ | [] => false | _ => true end) || has_text_param r
  end.

(** A titled list of the plan's text, absent when there is nothing to list. *)
Definition plan_list (title : str) (xs : list str) : str :=
  match xs with
  | [] => []
  | _ => title ++ [x0a] ++ join [x0a] (map (fun x => "  - " ++ x) xs) ++ [x0a]
  end.

Definition pactify_text (plan : option PactifyPlan) : str :=
  match plan with
  | None => "The recorded plan did not load."
  | Some p =>
      let file := List.find (fun f => pf_path f === "pacto.yaml") (pp_files p) in
      "Recorded: what `pacto init --plan --owner risk` prints for the plain fraud service. A test keeps it current." ++
      [x0a; x0a] ++
      plan_list "Found:" (pp_found p) ++ plan_list "Left as Unknown:" (pp_unknown p) ++
      plan_list "Still yours to do:" (pp_next p) ++
      [x0a] ++ "pacto.yaml (" ++ or_str (pf_action <$> file) "add" ++ "):" ++ [x0a] ++ or_str (pf_content <$> file) ""
  end.

Section Tours.
Context `{DemoPage}.

Definition pactifyText (w : World) : str := pactify_text (pactify_plan w).

Definition found (sel : str) (w : World) : bool := bool_decide (is_Some (querySelector w sel)).

Definition clickOn (sel : str) (w : World) : World :=
  match querySelector w sel with Some e => click e w | None => w end.

(** Both events: a text input binds on one, a selector commits on the other. *)
Definition setValue (e : Elem) (v : str) (w : World) : World :=
  dispatchEvent e "change" (dispatchEvent e "input" (set_elem_value e v w)).

Definition paymentsLink : str :=
  testid "service-list" ++ " a[href$=" ++ [x22] ++ "/fleet/services/payments-service" ++ [x22] ++ "]".

Definition oldest_option (w : World) (e : Elem) : option str :=
  match elem_options w e with
  | Some (a :: b :: l) => last (a :: b :: l)
  | _ => None
  end.

Definition oldestChosen (w : World) : bool :=
  match querySelector w "#impact-old-rev" with
  | Some s => match oldest_option w s with Some v => elem_value w s === v | None => false end
  | None => false
  end.

(** [fact()] over the page: a read it starts is put on the queue. *)
Definition fact_of (w : World) : Facts * World :=
  let '(f, d, asked) := fact (date_now w) (demo_of w) in
  (f, match asked with Some t => enqueue (JFacts t) (set_demo d w) | None => w end).

Definition row (env svc : str) (f : Facts) : option EnvRow := assoc (env ++ "/" ++ svc) (f_rows f).

Definition change_prefix : str := "#/delivery/changes/prod/".

Definition changeHash (w : World) : str * World :=
  let '(f, w1) := fact_of w in (change_prefix ++ or_s (f_held f) (f_latest f), w1).

Definition onChange (w : World) : bool := starts_with change_prefix (hashPath w).

Definition planOpen (stage : str) (w : World) : bool :=
  match querySelector w "#pp-title" with Some h => includes stage (elem_text w h) | None => false end.

Definition noteText (w : World) : str :=
  match querySelector w NOTE with Some t => trim (elem_value w t) | None => "" end.

Definition noted (w : World) : bool := (3 <=? utf16_length (noteText w))%nat.

Definition version_is (env svc v : str) (f : Facts) : bool :=
  match row env svc f with Some r => er_version r === v | None => false end.

Definition setPersona (name : str) (fresh : bool) (w : World) : World := enqueue (JPersona name fresh) w.

Definition decide_held (decision note : str) (w : World) : World :=
  let '(f, w1) := fact_of w in
  if truthy (f_held f) then enqueue (JDecide (f_held f) decision note) w1 else w1.

(** Gates: a test of the page, a test of the facts, and [!], [&&] and [||], which ask for
    facts only as far as they are evaluated. *)
Definition Gate : Type := World -> bool * World.
Definition gate_page (p : World -> bool) : Gate := fun w => (p w, w).
Definition gate_fact (p : Facts -> bool) : Gate := fun w => let '(f, w1) := fact_of w in (p f, w1).
Definition gate_and (a b : Gate) : Gate := fun w => let '(x, w1) := a w in if x then b w1 else (false, w1).
Definition gate_or (a b : Gate) : Gate := fun w => let '(x, w1) := a w in if x then (true, w1) else b w1.

Definition held : Gate := gate_fact (fun f => truthy (f_held f)).
Definition not_held : Gate := gate_fact (fun f => negb (truthy (f_held f))).
Definition settled_unknown : Gate := gate_and not_held (gate_fact f_accepted).
Definition is_carol : Gate := gate_page (fun w => persona (demo_of w) === "carol").

(** *** Steps *)
Definition reading (title text hash : str) (target : list str) : Step :=
  {| s_title := title; s_text := text; s_hash := Some (fun w => (hash, w)); s_target := target; s_wait := "";
     s_gate := None; s_hold := false; s_observe := false; s_skip := None; s_href := ""; s_linkText := "";
     s_pre := None; s_links := None |}.

Definition doing (title text : str) (hash : World -> str * World) (target : list str) (wait : str)
  (hold : bool) (gate : World -> bool * World) (skip : World -> World) : Step :=
  {| s_title := title; s_text := text; s_hash := Some hash; s_target := target; s_wait := wait;
     s_gate := Some gate; s_hold := hold; s_observe := false; s_skip := Some skip; s_href := "";
     s_linkText := ""; s_pre := None; s_links := None |}.

Definition recap (text href linkText : str) (links : option (list (str * str))) : Step :=
  {| s_title := "Recap"; s_text := text; s_hash := None; s_target := []; s_wait := ""; s_gate := None;
     s_hold := false; s_observe := false; s_skip := None; s_href := href; s_linkText := linkText;
     s_pre := None; s_links := links |}.

Definition at_ (h : str) : World -> str * World := fun w => (h, w).

(** *** The fleet tour *)
Definition skip_search (w : World) : World :=
  match querySelector w (testid "svc-search") with
  | None => set_location_hash "#/fleet/services?text=payments" w
  | Some i =>
      let w1 := blur i (setValue i "payments" w) in
      match elem_form w1 i with Some f => requestSubmit f w1 | None => w1 end
  end.

Definition skip_payments (w : World) : World :=
  match querySelector w paymentsLink with
  | Some a => click a w
  | None => set_location_hash "#/fleet/services/payments-service" w
  end.

Definition skip_oldest (w : World) : World :=
  match querySelector w "#impact-old-rev" with
  | Some s => match oldest_option w s with Some v => setValue s v w | None => w end
  | None => w
  end.

Definition skip_compare (w : World) : World :=
  match querySelector w "#sec-revisions" with Some f => requestSubmit f w | None => w end.

Definition DISCOVERY : str := testid "graph-discovery" ++ " input[type=search]".

Definition skip_orders (w : World) : World :=
  match querySelector w DISCOVERY with
  | Some i => setValue i "orders" w
  | None => set_location_hash "#/fleet/graph/service/orders-service" w
  end.

Definition skip_focus (w : World) : World :=
  match querySelector w (testid "graph-focus-link") with
  | Some a => click a w
  | None => set_location_hash "#/fleet/graph/service/orders-service" w
  end.

Definition FLEET_TOUR : list Step :=
  [ reading "The guided tour"
      (NOTICE ++ " The tour asks five questions about this fleet and opens the screen that answers each one, so press Continue to start.")
      "#/fleet" ["#ov-answer" : str];
    doing "What is running?"
      "This list is every service Pacto found in its contracts, with its owner: type payments in the search box and press Enter."
      (at_ "#/fleet/services") [testid "svc-search"]
      "Waiting for a search that narrows the list to payments-service." false
      (gate_page (fun w => has_text_param (location_hash w) && found paymentsLink w)) skip_search;
    doing "What state is it in?"
      "To see one service in full, open payments-service from the list: what it declares, every revision it has published and what was observed about the targets running it."
      (at_ "#/fleet/services") [paymentsLink; "#sec-operational-summary"]
      "Waiting for the payments-service page to open." true
      (gate_page (fun w => hashPath w === "#/fleet/services/payments-service")) skip_payments;
    doing "Will this change break anyone?"
      "Change analysis compares two revisions of payments-service field by field, so first set Earlier revision to the oldest one, 1.0.0."
      (at_ "#/fleet/changes/payments-service") ["#impact-old-rev" : str]
      "Waiting for the oldest revision to be chosen as the earlier one." false
      (gate_page oldestChosen) skip_oldest;
    doing "Will this change break anyone?"
      "Now press Compare revisions and look for the verdict: removing an API path is breaking, while adding an optional one is not."
      (at_ "#/fleet/changes/payments-service") ["#sec-revisions button[type=submit]"; testid "changes-answer"]
      "Waiting for the comparison to run." true
      (gate_page (found (testid "changes-answer"))) skip_compare;
    doing "Who does a change reach?"
      "The operational graph shows who calls whom, from what contracts declare and from what Pacto observed, so start by typing orders in the search box."
      (at_ "#/fleet/graph") [DISCOVERY] "Waiting for a search that finds orders." false
      (gate_page (found (testid "graph-focus-link"))) skip_orders;
    doing "Who does a change reach?"
      "Open orders-service from the results to see its neighborhood: what it calls, what calls it and what was only observed."
      (at_ "#/fleet/graph") [testid "graph-focus-link"; testid "neighborhood-canvas"]
      "Waiting for a focused neighborhood to render." true
      (gate_page (found (testid "neighborhood-canvas"))) skip_focus;
    reading "What does a provider promise?"
      "Each service that uses inventory-service shows whether it gets the guarantees it requires (met, refused or not verified), and its stock-feed interface is marked past its sunset."
      "#/fleet/services/inventory-service" ["#sec-observed-traffic-and-differences" : str];
    recap "You have now seen what runs, what state it is in, whether a change breaks anyone, who it reaches and what a provider promises, all from contracts and observations."
      "../examples/demo-tour/" "The same questions from a terminal" None ].

(** *** The delivery tour *)
Definition skip_accept (w : World) : World :=
  let '(f, w1) := fact_of w in
  if truthy (f_held f) then decide_held "accept-unknown" NOTE_ACCEPT w1 else enqueue JRetryAccept w1.

Definition skip_note (note : str) (w : World) : World :=
  match querySelector w NOTE with Some t => setValue t note w | None => w end.

Definition skip_menu (w : World) : World :=
  match querySelector w "#navbar-identity" ≫= showPopover with Some f => f w | None => w end.

Definition skip_carol (w : World) : World :=
  match querySelector w CAROL with Some b => click b w | None => setPersona "carol" false w end.

Definition skip_rollback (w : World) : World :=
  let '(f, w1) := fact_of w in
  clickOn (testid "propose-panel" ++ " .pp-btns button[type=button]") (enqueue (JRollback (f_latest f)) w1).

Definition promote_btn (svc version : str) : str := aria ("Promote " ++ svc ++ " in prod to " ++ version).

Definition BOARD : str := testid "environments-board".
Definition ENVIRONMENTS : str := "#/delivery/environments".
Definition AUTONOMY : str := "#/delivery/autonomy".
Definition autonomy_stage (s : str) : str := testid "autonomy-stages" ++ " " ++ attr "data-stage" s.

Definition observing (s : Step) : Step :=
  {| s_title := s_title s; s_text := s_text s; s_hash := s_hash s; s_target := s_target s; s_wait := s_wait s;
     s_gate := s_gate s; s_hold := s_hold s; s_observe := true; s_skip := s_skip s; s_href := s_href s;
     s_linkText := s_linkText s; s_pre := s_pre s; s_links := s_links s |}.

Definition showing (f : World -> str) (s : Step) : Step :=
  {| s_title := s_title s; s_text := s_text s; s_hash := s_hash s; s_target := s_target s; s_wait := s_wait s;
     s_gate := s_gate s; s_hold := s_hold s; s_observe := s_observe s; s_skip := s_skip s; s_href := s_href s;
     s_linkText := s_linkText s; s_pre := Some f; s_links := s_links s |}.

Definition DELIVERY_TOUR : list Step :=
  [ reading "The delivery story"
      "Follow payments and the services around it from a first contract to changes that ship on their own, simulated in your browser by Pacto's own code with nothing sent to a cluster."
      ENVIRONMENTS [BOARD];
    showing pactifyText (reading "A contract, written for you"
      "pacto init read the files of fraud, a service with no contract yet, and wrote one for it: below is what it found and what is left for its team."
      ENVIRONMENTS [BOARD; testid "env-row-fraud"]);
    reading "A safe change ships by itself"
      "This history shows payments 2.4.0 reaching prod with nobody involved, because checkout and orders, the services that call it, accept any payments 2.x."
      "#/delivery/history?namespace=prod&stage=payments" [aria "History of prod/payments"];
    reading "A bad release rolls back"
      "The health check failed after 2.4.0 shipped, so Pacto went back to 2.3.0 by itself and will not try 2.4.0 in prod again."
      "#/delivery/changes/prod/payments-promote-2" [attr "aria-labelledby" "cd-actual"];
    doing "A breaking change asks first"
      "You are pay-agent, an AI agent that may propose changes but not decide them, so press Promote on payments 3.0.0 in prod, a breaking release."
      (at_ ENVIRONMENTS) [promote_btn "payments" "3.0.0"]
      "Waiting for the plan of payments 3.0.0 to open." false
      (gate_page (planOpen "prod/payments")) (clickOn (promote_btn "payments" "3.0.0"));
    doing "A breaking change asks first"
      "The plan asks only checkout and orders, the two callers that accept nothing past 2.x, so press Propose promote."
      (at_ ENVIRONMENTS) [PROPOSE_BTN; testid "decision-safer"]
      "Waiting for payments 3.0.0 to be proposed for prod." true
      (gate_and held (gate_page onChange)) (enqueue (JPropose "payments" "payments" "3.0.0" true));
    doing "Update a caller first"
      "The plan suggested updating a caller first, so press Promote on checkout 1.9.0 in prod."
      (at_ ENVIRONMENTS) [promote_btn "checkout" "1.9.0"]
      "Waiting for the plan of checkout 1.9.0 to open." false
      (gate_page (planOpen "prod/checkout")) (clickOn (promote_btn "checkout" "1.9.0"));
    doing "Update a caller first"
      "Press Propose promote: checkout ships with nobody asked, and now only orders is asked about payments 3.0.0, because checkout 1.9 accepts it."
      (at_ ENVIRONMENTS) [PROPOSE_BTN; ".page-hd-sub"]
      "Waiting for checkout 1.9.0 to ship to prod." true
      (gate_and (gate_fact (version_is "prod" "checkout" "1.9.0"))
                (gate_fact (fun f => includes "Asked of: orders" (f_question f))))
      (enqueue (JPropose "checkout" "checkout" "1.9.0" false));
    doing "Decide as team orders"
      "Only a person on an asked team can decide, so open the person menu at the top right."
      changeHash [PERSON_MENU] "Waiting for the person menu to open." false
      (gate_or (gate_page (found SWITCH_BTN)) (gate_or (gate_page (found CAROL)) is_carol)) skip_menu;
    doing "Decide as team orders" "Press Switch person."
      changeHash [PERSON_MENU; SWITCH_BTN] "Waiting for the list of people to open." false
      (gate_or (gate_page (found CAROL)) is_carol) (setPersona "carol" false);
    doing "Decide as team orders" "Pick Carol, who is on team orders."
      changeHash [PERSON_MENU; SWITCH_BTN; CAROL] "Waiting for Carol to be picked." false
      is_carol skip_carol;
    doing "Decide as team orders"
      "Write in the note why 3.0.0 should ship, because approving a breaking change needs a reason."
      changeHash [NOTE] "Waiting for a note." false
      (gate_or (gate_page noted) (gate_fact (version_is "prod" "payments" "3.0.0"))) (skip_note NOTE_APPROVE);
    doing "Decide as team orders" "Press Approve shipping 3.0.0, then watch 3.0.0 ship."
      changeHash [APPROVE] "Waiting for 3.0.0 to ship." false
      (gate_fact (version_is "prod" "payments" "3.0.0")) (decide_held "approve" NOTE_APPROVE);
    observing (doing "When Pacto cannot tell"
      "Only 3 traces arrived after 3.0.0 shipped, too few to judge, so the check says Unknown and the change waits for a person."
      changeHash [testid "verdict-unknown"] "Waiting for the checks after release to end." true
      (gate_or (gate_page (found (testid "decision-unknown"))) settled_unknown) id);
    doing "When Pacto cannot tell" "Write in the note why accepting the unknown is safe."
      changeHash [NOTE] "Waiting for a note." false
      (gate_or (gate_page noted) settled_unknown) (skip_note NOTE_ACCEPT);
    doing "When Pacto cannot tell"
      "Press Accept the unknown and keep 3.0.0: the record says a person accepted it, and the check stays Unknown."
      changeHash [APPROVE] "Waiting for Carol to accept the unknown." false
      (gate_fact (fun f => negb (truthy (f_held f)) && f_accepted f)) skip_accept;
    doing "Undo it" "Changed your mind? As Carol, press Roll back this change."
      changeHash [testid "change-rollback"] "Waiting for the rollback plan to open." false
      (gate_page (planOpen "Roll back prod/payments")) (clickOn (testid "change-rollback"));
    doing "Undo it"
      "Press Propose roll back: payments goes back to 2.3.0, and automation holds off because a person chose this."
      changeHash [PROPOSE_BTN; ".page-hd-sub"] "Waiting for the rollback to finish." true
      (gate_and (gate_fact (fun f => match row "prod" "payments" f with Some r => er_autoHold r | None => false end))
                (gate_fact (version_is "prod" "payments" "2.3.0"))) skip_rollback;
    reading "Every step is a signed record"
      "History reads every step back from records signed in this tab, including a deliberate gap in test and a record signed by a key nobody trusts."
      "#/delivery/history" [attr "data-stage" "prod/payments"];
    reading "How much runs on its own"
      "Each Stage, one service in one environment, has a level for how much ships without a person: fraud is new, so it observes, and Pacto only noted it would have shipped 1.0.0 to test."
      AUTONOMY [autonomy_stage "test/fraud"];
    reading "How much runs on its own"
      "payments in prod stepped down a level by itself when 2.4.0 failed there, so only non-breaking changes ship there on their own now."
      AUTONOMY [autonomy_stage "prod/payments"];
    doing "Moving up a level"
      "One verified version earned fraud a proposal to move up a level, so press Propose on fraud's row."
      (at_ AUTONOMY) [RAISE_FRAUD] "Waiting for the plan of fraud's raise to open." false
      (gate_page (planOpen "test/fraud")) (clickOn RAISE_FRAUD);
    reading "Moving up a level"
      "The plan asks team risk, which owns fraud: every raise is one level, earned by evidence and confirmed by a person on the service's team."
      AUTONOMY [testid "propose-panel"];
    reading "An AI agent ships like a service"
      "pay-agent, the agent you started as, ships like any other service: its runner ran the eval suite and signed the count, and 1.1.0 passed only 1 of 2, so it rolled back in test."
      "#/delivery/changes/test/pay-agent-promote-17" [testid "verdict-runner"];
    recap "You saw pacto init write a contract, safe changes ship and roll back by themselves, a breaking change wait for the teams it breaks and autonomy earned one level at a time, all kept as signed records; the links below explore more."
      "../examples/kubernetes-demo/" "The same story on a real cluster"
      (Some [ ("#/delivery/publish", "The refused 2.4.3 and the bump it needed");
              ("#/delivery/history?namespace=test&stage=payments", "The claim check that caught payments calling fraud");
              ("#/delivery/changes/prod/payments-promote-6", "Why prod held payments 2.4.1: it declares no prod environment");
              ("#/delivery/autonomy", "What stands in the way of each next level") ]) ].
End Tours.

(** ** Where the tours lead *)
Section Walks.
Context `{DemoPage}.

(** The view the router shows for a step's route, at the page [w]. *)
Definition step_view (w : World) (s : Step) : option View :=
  match s_hash s with Some h => view <$> parseHash (Some (h w).1) | None => None end.

(** The name of an operation, as the cluster allows it. *)
Definition operation_name (o : str) : Prop := o <> [] /\ Forall (fun b => uri_unreserved b = true) o.

Lemma encode_unreserved (o : str) : Forall (fun b => uri_unreserved b = true) o -> encodeURIComponent o = o.
Proof.
  unfold encodeURIComponent. induction 1 as [|b o Hb Ho IH]; [done|]. cbn. rewrite <- IH at 2. unfold encode_byte.
  by rewrite Hb.
Qed.

Lemma utf8_unreserved (o : str) : Forall (fun b => uri_unreserved b = true) o -> Utf8 o.
Proof.
  induction 1 as [|b o Hb Ho IH]; [constructor|]. apply (Utf8_cons [b]); [|done]. by apply uri_unreserved_ascii.
Qed.

Lemma change_route (o : str) :
  operation_name o -> view <$> parseHash (Some (change_prefix ++ o)) = Some VDeliveryChange.
Proof.
  intros [N U]. pose proof (deliveryChangeUrl_roundtrip "prod" o ltac:(done) N ltac:(by_decide) (utf8_unreserved o U)) as R.
  unfold deliveryChangeUrl, enc in R. rewrite (encode_unreserved o U) in R.
  change (change_prefix ++ o) with ("#/delivery/changes/" ++ encodeURIComponent "prod" ++ "/" ++ o). by rewrite R.
Qed.

(** The operation the breaking-change steps are about, at the page [w]. *)
Definition story_operation (w : World) : str := let f := (fact_of w).1 in or_s (f_held f) (f_latest f).

Lemma changeHash_route w : (changeHash w).1 = change_prefix ++ story_operation w.
Proof. unfold changeHash, story_operation. by destruct (fact_of w). Qed.

(** Every step of both tours leads to a screen the dashboard has: at any page where the
    story's change is named, the router reads each step's route as the view the step is
    about, and only the two recaps have none. *)
Theorem tours_routed (w : World) :
  operation_name (story_operation w) ->
  step_view w <$> FLEET_TOUR =
    [ Some VFleetOverview; Some VFleetServices; Some VFleetServices; Some VChanges; Some VChanges;
      Some VFleet; Some VFleet; Some VFleetEntity; None ] /\
  step_view w <$> DELIVERY_TOUR =
    [ Some VDeliveryEnvironments; Some VDeliveryEnvironments; Some VDeliveryHistory; Some VDeliveryChange;
      Some VDeliveryEnvironments; Some VDeliveryEnvironments; Some VDeliveryEnvironments;
      Some VDeliveryEnvironments ] ++ replicate 10 (Some VDeliveryChange) ++
    [ Some VDeliveryHistory; Some VDeliveryAutonomy; Some VDeliveryAutonomy; Some VDeliveryAutonomy;
      Some VDeliveryAutonomy; Some VDeliveryChange; None ].
Proof.
  intros O%change_route. split; [vm_compute; reflexivity|].
  assert (view <$> parseHash (Some (changeHash w).1) = Some VDeliveryChange) as C by by rewrite changeHash_route.
  unfold DELIVERY_TOUR. cbn [fmap list_fmap step_view s_hash doing reading recap observing showing at_ fst].
  rewrite !C. vm_compute. reflexivity.
Qed.

(** A step that waits says for what, and can be skipped. *)
Definition step_ok (s : Step) : bool :=
  if gated s then truthy (s_wait s) && bool_decide (is_Some (s_skip s)) else negb (s_hold s).

(** Both tours end for every reader: each step that waits says what for and can be
    skipped; and from whatever point a tour has reached, pressing its own buttons walks it
    through its last step, where Done closes it. *)
Theorem tours_walkable (tour : list Step) :
  tour = FLEET_TOUR \/ tour = DELIVERY_TOUR ->
  Forall (fun s => step_ok s = true) tour /\
  forall s log c, reach s log c -> running s.1 = true -> TOUR s.1 = tour ->
    exists es, Forall by_buttons es /\ ok_run c (es ++ [ENext]) /\ running (run es s).1 = true /\
      running (run (es ++ [ENext]) s).1 = false.
Proof.
  intros T. split; [destruct T as [-> | ->]; repeat constructor|]. intros s log c Re R E.
  destruct (walk_to_end _ _ _ Re R) as (es & B & O & R' & T' & S').
  exists es. split_and!; [done|apply ok_run_app; split; [done|by repeat split]|done|].
  unfold run in *. rewrite fold_left_app. cbn [fold_left].
  destruct (reach_inv _ _ _ (reach_run _ _ _ _ Re O)) as (_ & Sh & _). unfold run in Sh.
  set (s' := fold_left (fun s e => handle e s) es s) in *. destruct s' as [st w]. cbn [fst] in *.
  destruct (sh_run _ Sh R') as (_ & _ & sp & U & N).
  assert (gated sp = false) as G.
  { revert U. unfold current, step_at. rewrite T', S', E. destruct (Z.ltb_spec (Z.of_nat (length tour) - 1) 0); [done|].
    destruct T as [-> | ->]; simpl; intros [= <-]; done. }
  assert (next_hidden (ui st) = false) as Nh.
  { destruct (next_hidden (ui st)); [|done]. destruct N as [N _]; [done|congruence]. }
  unfold handle. rewrite R', Nh. cbn [negb andb]. rewrite S', T', E, Z.eqb_refl. unfold exitTour. by rewrite R'.
Qed.
End Walks.

(** ** A page and a run the theorems apply to *)
Module DemoSample.
Record world := { hash_of : str; demo_state : Demo; jobs : list Job; clock : Z }.

#[export] Instance demo_page : Page := {|
  World := world; Elem := unit; querySelector _ _ := None; ancestors _ _ := []; folded _ _ := false;
  unfold_details _ w := w;
  getBoundingClientRect _ _ := {| r_left := 0; r_top := 0; r_right := 0; r_bottom := 0 |}%Q;
  bubble_size _ _ := (300, 120)%Q; clientWidth _ := 800; clientHeight _ := 600; scrollIntoView _ w := w;
  location_hash := hash_of;
  set_location_hash h w := {| hash_of := h; demo_state := demo_state w; jobs := jobs w; clock := clock w |} |}.

#[export] Instance demo_demo : DemoPage := {|
  demo_of := demo_state;
  set_demo d w := {| hash_of := hash_of w; demo_state := d; jobs := jobs w; clock := clock w |};
  enqueue j w := {| hash_of := hash_of w; demo_state := demo_state w; jobs := j :: jobs w; clock := clock w |};
  date_now := clock; elem_value _ _ := ""; elem_options _ _ := None; elem_text _ _ := ""; elem_form _ _ := None;
  set_elem_value _ _ w := w; dispatchEvent _ _ w := w; click _ w := w; requestSubmit _ w := w; blur _ w := w;
  showPopover _ := None; pactify_plan _ := None |}.

Definition entry : HistEntry :=
  {| he_type := PROMOTE; he_operation := "payments-promote-9"; he_phase := "Held"; he_verification := "" |}.

Definition w_story : world :=
  {| hash_of := "#/fleet"; jobs := []; clock := 5000;
     demo_state := on_facts 4000 4500 (facts_of [] [entry])
                     {| facts := noFacts; factsAsked := 4000; persona := "pay-agent" |} |}.
End DemoSample.

Import DemoSample.

Lemma tours_routed_witness : take 1 (step_view w_story <$> FLEET_TOUR) = [Some VFleetOverview].
Proof.
  destruct (@tours_routed demo_page demo_demo w_story) as [E _]; [split; [done|by_decide]|]. by rewrite E.
Defined.

Definition fleet_start : list Event := [EStart FLEET_TOUR {| docsHref := ""; onStart := id; onExit := id |}].

Lemma tours_walkable_witness :
  exists es, Forall by_buttons es /\ running (run (es ++ [ENext]) (run fleet_start (st0, w_story))).1 = false.
Proof.
  destruct (@tours_walkable demo_page demo_demo FLEET_TOUR (or_introl eq_refl)) as [_ W].
  destruct (W (run fleet_start (st0, w_story)) (run_log fleet_start (st0, w_story) []) 0) as (es & A & _ & _ & B).
  - apply (reach_run fleet_start (st0, w_story) [] 0 (@reach_init demo_page w_story)). repeat split; done.
  - vm_compute. reflexivity.
  - vm_compute. reflexivity.
  - exists es. split; [exact A|exact B].
Defined.

(** The facts are asked for, forgotten, and asked for again; the first answer comes last. *)
Definition after_reset : Sys :=
  {| demo := {| facts := noFacts; factsAsked := 3000; persona := "pay-agent" |};
     inflight := [(1%nat, 3000); (0%nat, 2000)]; turn := 2; barrier := 1 |}.

Lemma after_reset_reach : facts_reach 3000 after_reset.
Proof.
  eapply facts_next; [eapply facts_next; [eapply facts_next; [apply (facts_init 1000); done|]|]|].
  - by eapply (FAsk 1000 2000 sys0).
  - apply FReset.
  - by eapply (FAsk 2000 3000).
Qed.

Lemma facts_never_stale_witness :
  on_facts 2000 3500 (facts_of [] [entry]) (demo after_reset) = demo after_reset.
Proof.
  apply (facts_never_stale 3000 after_reset 0 2000 [(1%nat, 3000)] []).
  - exact after_reset_reach.
  - reflexivity.
  - left. simpl. lia.
Defined.
