(* ===== verification/Boot.v ===== *)
(** * The demo's bootstrap: [src/examples/demo/boot.js] and [engine.js]

    The entry hash, the bridge to the engine's worker (calls matched to answers by id over
    two message queues), the fetch shim that routes the dashboard's requests into it, and
    the status strip that offers the tours, with its events in any order. *)

From stdpp Require Import base list sets.
From Stdlib Require Import Init.Byte ZArith Lia.
From S2P Require Import Prelude Uri Paging Router Tours.

Lemma keys_delete_head {K A} `{EqDecision K} (k : K) (a : A) (m : list (K * A)) :
  NoDup (keys ((k, a) :: m)) -> keys (map_delete k ((k, a) :: m)) = keys m.
Proof.
  unfold keys, map_delete. simpl. rewrite eqb_refl. simpl. intros [N _]%NoDup_cons.
  induction m as [|[j y] m IH]; [done|]. simpl in *. apply not_elem_of_cons in N as [N1 N2].
  rewrite bool_decide_eq_false_2 by done. simpl. f_equal. by apply IH.
Qed.

(** ** The entry *)
Definition LEGACY : list (str * str) :=
  [ ("#/services", "#/fleet/services"); ("#/graph", "#/fleet/graph"); ("#/owners", "#/fleet/owners") ].

(** The hash [canonicalizeDemoEntry] replaces the entry's with, if it does. *)
Definition canonicalizeDemoEntry (h : str) : option str :=
  if (h === "") || (h === "#") || (h === "#/") then Some "#/fleet"
  else match obj_get LEGACY (cut x3f h).1 with Own t => Some t | _ => None end.

(** ** The bridge to the engine *)
Section Bridge.
Context {Call Result : Type}.

(** A message to the worker and one back; the answer is a result or an error's text. *)
Record Msg := { m_id : nat; m_call : Call }.
Record Reply := { r_id : nat; r_outcome : Result + str }.

(** The promises waiting for their answer, by id; the two message queues; and, for the
    record, what the worker answered and what each promise was settled with. *)
Record Bridge := {
  calls : list (nat * Call); nextCall : nat; to_worker : list Msg; to_page : list Reply;
  answered : list (nat * Call * (Result + str)); settled : list (nat * Call * (Result + str)) }.

Definition bridge0 : Bridge :=
  {| calls := []; nextCall := 0; to_worker := []; to_page := []; answered := []; settled := [] |}.

Definition call (c : Call) (b : Bridge) : Bridge :=
  let id := S (nextCall b) in
  {| calls := map_set id c (calls b); nextCall := id;
     to_worker := to_worker b ++ [{| m_id := id; m_call := c |}]; to_page := to_page b;
     answered := answered b; settled := settled b |}.

(** The worker takes a message: the engine answers, or throws and the error is answered. *)
Definition worker_onmessage (o : Result + str) (b : Bridge) : Bridge :=
  match to_worker b with
  | [] => b
  | m :: q =>
      {| calls := calls b; nextCall := nextCall b; to_worker := q;
         to_page := to_page b ++ [{| r_id := m_id m; r_outcome := o |}];
         answered := (m_id m, m_call m, o) :: answered b; settled := settled b |}
  end.

(** The page takes an answer and settles the promise it names; [None] is the exception for
    an id no promise waits under. *)
Definition onmessage (b : Bridge) : option Bridge :=
  match to_page b with
  | [] => Some b
  | m :: q =>
      match assoc (r_id m) (calls b) with
      | Some c =>
          Some {| calls := map_delete (r_id m) (calls b); nextCall := nextCall b; to_worker := to_worker b;
                  to_page := q; answered := answered b; settled := (r_id m, c, r_outcome m) :: settled b |}
      | None => None
      end
  end.

Inductive bridge_reach : Bridge -> Prop :=
  | bridge_init : bridge_reach bridge0
  | bridge_call c b : bridge_reach b -> bridge_reach (call c b)
  | bridge_worker o b : bridge_reach b -> bridge_reach (worker_onmessage o b)
  | bridge_page b b' : bridge_reach b -> onmessage b = Some b' -> bridge_reach b'.

(** The ids under way, oldest first: answered and on their way back, then not yet answered. *)
Definition under_way (b : Bridge) : list nat := (r_id <$> to_page b) ++ (m_id <$> to_worker b).

Definition settled_ids (b : Bridge) : list nat := map (fun x => x.1.1) (settled b).

Record Bridged (b : Bridge) : Prop := {
  br_waiting : keys (calls b) = under_way b;
  br_ids : NoDup (under_way b ++ settled_ids b);
  br_range : forall i, i ∈ under_way b ++ settled_ids b <-> (1 <= i <= nextCall b)%nat;
  br_worker : forall m, m ∈ to_worker b -> (m_id m, m_call m) ∈ calls b;
  br_page : forall m, m ∈ to_page b -> exists c, (r_id m, c) ∈ calls b /\ (r_id m, c, r_outcome m) ∈ answered b;
  br_settled : forall x, x ∈ settled b -> x ∈ answered b }.

Lemma under_way_call c b : under_way (call c b) = under_way b ++ [S (nextCall b)].
Proof. unfold under_way, call. simpl. by rewrite fmap_app, app_assoc. Qed.

Lemma bridged_call c b : Bridged b -> Bridged (call c b).
Proof.
  intros [W I R Wk P S].
  assert (Fr : Datatypes.S (nextCall b) ∉ keys (calls b)).
  { rewrite W. intros E. destruct (R (Datatypes.S (nextCall b))) as [R' _]. rewrite elem_of_app in R'. specialize (R' (or_introl E)). lia. }
  assert (Cs : calls (call c b) = calls b ++ [(Datatypes.S (nextCall b), c)]) by (simpl; by rewrite map_set_fresh).
  assert (Pm : under_way (call c b) ++ settled_ids b ≡ₚ Datatypes.S (nextCall b) :: under_way b ++ settled_ids b).
  { rewrite under_way_call, <- app_assoc. simpl. by rewrite <- Permutation_middle. }
  constructor.
  - rewrite Cs, under_way_call. unfold keys in *. by rewrite fmap_app, W.
  - change (settled_ids (call c b)) with (settled_ids b). rewrite Pm. constructor; [|done].
    intros E%R. lia.
  - intros i. change (settled_ids (call c b)) with (settled_ids b). rewrite Pm, elem_of_cons, R. simpl. lia.
  - intros m. rewrite Cs. simpl. rewrite !elem_of_app, !list_elem_of_singleton. intros [E%Wk| ->]; [by left|by right].
  - intros m E%P. rewrite Cs. destruct E as (c' & E1 & E2). exists c'. split; [set_solver|done].
  - done.
Qed.

Lemma bridged_worker o b : Bridged b -> Bridged (worker_onmessage o b).
Proof.
  intros B. unfold worker_onmessage. destruct (to_worker b) as [|m q] eqn:Q; [done|].
  destruct B as [W I R Wk P S]. unfold under_way, settled_ids in *. rewrite Q in *. simpl in *.
  assert (E : (r_id <$> to_page b ++ [{| r_id := m_id m; r_outcome := o |}]) ++ (m_id <$> q) =
              (r_id <$> to_page b) ++ m_id m :: (m_id <$> q)) by (rewrite fmap_app, <- app_assoc; done).
  constructor; unfold under_way, settled_ids; simpl; rewrite ?E; try done.
  - intros m' Hm. apply Wk. by right.
  - intros m'. rewrite elem_of_app, list_elem_of_singleton. intros [Hm%P| ->].
    + destruct Hm as (c & E1 & E2). exists c. split; [done|by right].
    + exists (m_call m). split; [apply Wk; by left|by left].
  - intros x Hx%S. by right.
Qed.

(** An answer always finds its promise waiting, so the page never throws. *)
Lemma onmessage_total b : Bridged b -> exists b', onmessage b = Some b'.
Proof.
  intros B. unfold onmessage. destruct (to_page b) as [|m q] eqn:Q; [eauto|].
  destruct (br_page _ B m) as (c & E & _); [rewrite Q; by left|].
  assert (is_Some (assoc (r_id m) (calls b))) as [c' ->]; [|eauto].
  destruct (assoc (r_id m) (calls b)) eqn:A; [eauto|]. apply assoc_None in A. exfalso. apply A.
  apply list_elem_of_fmap. by exists (r_id m, c).
Qed.

Lemma bridged_page b b' : Bridged b -> onmessage b = Some b' -> Bridged b'.
Proof.
  intros B. pose proof B as [W I R Wk P S]. unfold onmessage. destruct (to_page b) as [|m q] eqn:Q; [by intros [= <-]|].
  destruct (assoc (r_id m) (calls b)) as [c|] eqn:A; [|done]. intros [= <-].
  pose proof (assoc_elem _ _ _ A) as Ac.
  unfold under_way, settled_ids in W, I, R. rewrite Q in W, I, R. simpl in W, I, R.
  assert (N : NoDup (keys (calls b))) by (rewrite W; rewrite app_comm_cons in I; by apply NoDup_app in I as [? _]).
  assert (K : keys (map_delete (r_id m) (calls b)) = (r_id <$> q) ++ (m_id <$> to_worker b)).
  { revert W N. generalize (calls b). intros l W N. destruct l as [|[i x] l]; [done|]. simpl in W. injection W as -> W.
    rewrite keys_delete_head by done. exact W. }
  assert (Keep : forall i x, (i, x) ∈ calls b -> i <> r_id m -> (i, x) ∈ map_delete (r_id m) (calls b)).
  { intros i x Hi Ne. apply elem_of_lfilter. split; [done|]. simpl. by rewrite bool_decide_eq_false_2. }
  apply NoDup_cons in I as [I1 I2].
  assert (Pm : ((r_id <$> q) ++ (m_id <$> to_worker b)) ++ r_id m :: map (fun x => x.1.1) (settled b) ≡ₚ
               r_id m :: ((r_id <$> q) ++ (m_id <$> to_worker b)) ++ map (fun x => x.1.1) (settled b))
    by (symmetry; apply Permutation_middle).
  constructor; unfold under_way, settled_ids; simpl; try done.
  - rewrite Pm. by constructor.
  - intros i. rewrite Pm. apply R.
  - intros m' Hm. apply Keep; [by apply Wk|]. intros E. apply I1. rewrite !elem_of_app. left. right.
    apply list_elem_of_fmap. by exists m'.
  - intros m' Hm. destruct (P m') as (c' & E1 & E2); [by right|]. exists c'. split; [|done]. apply Keep; [done|].
    intros E. apply I1. rewrite !elem_of_app. do 2 left. apply list_elem_of_fmap. by exists m'.
  - intros x [-> |Hx%S]%elem_of_cons; [|done]. destruct (P m) as (c' & E1 & E2); [by left|].
    by rewrite (assoc_unique _ _ _ N E1) in A; simplify_eq.
Qed.

Lemma bridge_bridged b : bridge_reach b -> Bridged b.
Proof.
  induction 1 as [|c b _ IH|o b _ IH|b b' _ IH E].
  - constructor; simpl; try set_solver; [by constructor|]. intros i. split; [set_solver|lia].
  - by apply bridged_call.
  - by apply bridged_worker.
  - by eapply bridged_page.
Qed.

(** C24: However the page's calls, the engine's answers and the deliveries of both queues
    interleave: no answer is ever unexpected; each call is settled at most once, and with
    what the engine answered to that very call; a call not yet settled is still under way;
    and once both queues are drained every call has been settled. *)
Theorem calls_answered (b : Bridge) :
  bridge_reach b ->
  (exists b', onmessage b = Some b') /\ NoDup (settled_ids b) /\
  (forall x, x ∈ settled b -> x ∈ answered b) /\
  (forall i, (1 <= i <= nextCall b)%nat <-> i ∈ under_way b \/ i ∈ settled_ids b) /\
  (to_worker b = [] -> to_page b = [] ->
     calls b = [] /\ forall i, (1 <= i <= nextCall b)%nat -> i ∈ settled_ids b).
Proof.
  intros B%bridge_bridged. pose proof B as [W I R _ _ S]. split_and!; [by apply onmessage_total| |done| |].
  - by apply NoDup_app in I as (_ & _ & ?).
  - intros i. by rewrite <- R, elem_of_app.
  - intros E1 E2. unfold under_way in *. rewrite E1, E2 in *. simpl in *. split; [|intros i; apply R].
    destruct (calls b); done.
Qed.
End Bridge.
Arguments Bridge : clear implicits.

(** ** The fetch shim *)
Definition isApiPath (pathname : str) : bool :=
  starts_with "/api/" pathname || (pathname === "/health") || (pathname === "/metrics").

(** Header lists carry lower-case names, as [Headers] yields them. *)
Record FetchRequest := { fr_url : str; fr_method : str; fr_headers : list (str * str); fr_body : str }.
Inductive FetchInput := InText (url : str) | InRequest (r : FetchRequest).
Record FetchInit := { fi_method : option str; fi_headers : list (str * str); fi_body : option str }.

Inductive Routed :=
  | ToNetwork
  | ToEngine (method path : str) (body : option str) (headers : list (str * str)).

Definition merge_headers (h1 h2 : list (str * str)) : list (str * str) :=
  fold_left (fun m p => map_set p.1 p.2 m) h2 (fold_left (fun m p => map_set p.1 p.2 m) h1 []).

Section Shim.
Context `{Locale}.

(** [new URL(url, base)], as its path and its query; [None] is the exception. *)
Variable parse_url : str -> option (str * str).

Definition fetch (input : FetchInput) (init : FetchInit) : option Routed :=
  '(pathname, search) ← parse_url (match input with InText u => u | InRequest r => fr_url r end);
  if negb (isApiPath pathname) then Some ToNetwork
  else
    let method := toUpperCase (or_str (fi_method init)
                    (or_s (match input with InRequest r => fr_method r | InText _ => "GET" end) "GET")) in
    let body := match fi_body init with
                | Some b => Some b
                | None => match input with
                          | InRequest r => if (method !== "GET") && (method !== "HEAD") then Some (fr_body r) else None
                          | InText _ => None
                          end
                end in
    Some (ToEngine method (pathname ++ search) (match body with Some b => if truthy b then Some b else None | None => None end)
            (merge_headers (match input with InRequest r => fr_headers r | InText _ => [] end) (fi_headers init))).
End Shim.

(** ** The status strip *)
Definition LOADING : str := "Loading the Pacto engine. The panels fill in when it lands.".
Definition FAILED : str := "The Pacto engine did not load, so every panel will stay empty. Try reloading.".
Definition DELIVERY_NOTICE : str := "Simulated delivery: no cluster and no promoter. Plans, checks and signatures are Pacto's own code on the payments story's fixed data (the health results and what the node agent saw are recorded too), records are signed with a key made in this tab, and what you do here is lost on reload.".

(** What the strip says: the message held, its label once mounted, and the counter. *)
Record Texts := { pending : str; label : option str; meter : option str; sizeText : str; finished : bool }.

Definition paint (t0 now : Z) (t : Texts) : Texts :=
  match meter t with
  | Some _ => if finished t then t else
      {| pending := pending t; label := label t; finished := finished t; sizeText := sizeText t;
         meter := Some (sizeText t ++ show_Z ((now - t0 + 500) / 1000)%Z ++ "s") |}
  | None => t
  end.

Definition say (s : str) (t : Texts) : Texts :=
  {| pending := s; label := (fun _ => s) <$> label t; meter := meter t; sizeText := sizeText t; finished := finished t |}.

(** The transfer's size, when the response told one. *)
Definition demo_size (t0 now : Z) (bytes : Z) (t : Texts) : Texts :=
  if (0 <? bytes)%Z then
    paint t0 now {| pending := pending t; label := label t; meter := meter t; finished := finished t;
                    sizeText := show_Z ((bytes + 500000) / 1000000)%Z ++ " MB · " |}
  else t.

Definition finish (t : Texts) : Texts :=
  {| pending := pending t; label := label t; meter := (fun _ => []) <$> meter t; sizeText := sizeText t; finished := true |}.

Definition notice (hash key : str) (t : Texts) : Texts :=
  say (if starts_with "#/delivery" hash then DELIVERY_NOTICE ++ " Signing key: " ++ or_s key "none" ++ "." else NOTICE) t.

Definition mount_texts (t0 now : Z) (t : Texts) : Texts :=
  paint t0 now {| pending := pending t; label := Some (pending t); meter := Some []; sizeText := sizeText t; finished := finished t |}.

(** The tours the strip offers and starts. [checks] counts the reads of the world a start of
    the delivery tour is waiting for, [asks] the switches of person that follow one, and
    [replays] the starts the strip made by itself. *)
Inductive Kind := KFleet | KDelivery.

Record Offer := {
  mounted : bool; ready : bool; strip_hidden : bool; start_hidden : bool; delivery_hidden : bool;
  tour_on : option Kind; checks : nat; asks : nat; world_at_load : str; replayPending : bool;
  flag : bool; reloading : bool; replays : nat }.

Definition offer0 (flagged : bool) : Offer :=
  {| mounted := false; ready := false; strip_hidden := false; start_hidden := true; delivery_hidden := true;
     tour_on := None; checks := 0; asks := 0; world_at_load := ""; replayPending := false; flag := flagged;
     reloading := false; replays := 0 |}.

Definition startTour (k : Kind) (checked : bool) (o : Offer) : Offer :=
  if bool_decide (is_Some (tour_on o)) || negb (mounted o) then o
  else match k, checked with
  | KDelivery, false =>
      {| mounted := mounted o; ready := ready o; strip_hidden := strip_hidden o; start_hidden := start_hidden o;
         delivery_hidden := delivery_hidden o; tour_on := tour_on o; checks := S (checks o); asks := asks o;
         world_at_load := world_at_load o; replayPending := replayPending o; flag := flag o;
         reloading := reloading o; replays := replays o |}
  | _, _ =>
      {| mounted := mounted o; ready := ready o; strip_hidden := true; start_hidden := start_hidden o;
         delivery_hidden := delivery_hidden o; tour_on := Some k; checks := checks o; asks := asks o;
         world_at_load := world_at_load o; replayPending := replayPending o; flag := flag o;
         reloading := reloading o; replays := replays o |}
  end.

Definition replayTour (o : Offer) : Offer :=
  if ready o && mounted o && replayPending o then
    startTour KDelivery false
      {| mounted := mounted o; ready := ready o; strip_hidden := strip_hidden o; start_hidden := start_hidden o;
         delivery_hidden := delivery_hidden o; tour_on := tour_on o; checks := checks o; asks := asks o;
         world_at_load := world_at_load o; replayPending := false; flag := flag o;
         reloading := reloading o; replays := S (replays o) |}
  else o.

(** Both buttons exist once the strip is mounted. *)
Definition offerTour (persona : bool) (o : Offer) : Offer :=
  if mounted o then
    {| mounted := mounted o; ready := ready o; strip_hidden := strip_hidden o; start_hidden := false;
       delivery_hidden := negb persona; tour_on := tour_on o; checks := checks o; asks := asks o;
       world_at_load := world_at_load o; replayPending := replayPending o; flag := flag o;
       reloading := reloading o; replays := replays o |}
  else o.

Definition mount (persona : bool) (o : Offer) : Offer :=
  let o1 := {| mounted := true; ready := ready o; strip_hidden := false; start_hidden := true; delivery_hidden := true;
               tour_on := tour_on o; checks := checks o; asks := asks o; world_at_load := world_at_load o;
               replayPending := replayPending o; flag := flag o; reloading := reloading o; replays := replays o |} in
  replayTour (if ready o then offerTour persona o1 else o1).

Definition on_ready (persona : bool) (o : Offer) : Offer :=
  offerTour persona
    {| mounted := mounted o; ready := true; strip_hidden := strip_hidden o; start_hidden := start_hidden o;
       delivery_hidden := delivery_hidden o; tour_on := tour_on o; checks := checks o; asks := asks o;
       world_at_load := world_at_load o; replayPending := replayPending o; flag := flag o;
       reloading := reloading o; replays := replays o |}.

(** The world read at load: the record to compare with, and the tour a reload was for. With
    no storage there is no replay. *)
Definition on_world (w : str) (storage : bool) (o : Offer) : Offer :=
  replayTour
    {| mounted := mounted o; ready := ready o; strip_hidden := strip_hidden o; start_hidden := start_hidden o;
       delivery_hidden := delivery_hidden o; tour_on := tour_on o; checks := checks o; asks := asks o;
       world_at_load := w; replayPending := if storage then flag o else replayPending o;
       flag := if storage then false else flag o; reloading := reloading o; replays := replays o |}.

(** A start's own read of the world: anything that moved it asks for a reload, else the
    agent signs in and the tour starts. *)
Definition on_check (w : str) (storage : bool) (o : Offer) : Offer :=
  let moved := w !== world_at_load o in
  {| mounted := mounted o; ready := ready o; strip_hidden := strip_hidden o; start_hidden := start_hidden o;
     delivery_hidden := delivery_hidden o; tour_on := tour_on o; checks := pred (checks o);
     asks := if moved then asks o else S (asks o); world_at_load := world_at_load o;
     replayPending := replayPending o; flag := flag o || moved && storage; reloading := reloading o || moved;
     replays := replays o |}.

Definition on_signed_in (o : Offer) : Offer :=
  startTour KDelivery true
    {| mounted := mounted o; ready := ready o; strip_hidden := strip_hidden o; start_hidden := start_hidden o;
       delivery_hidden := delivery_hidden o; tour_on := tour_on o; checks := checks o; asks := pred (asks o);
       world_at_load := world_at_load o; replayPending := replayPending o; flag := flag o;
       reloading := reloading o; replays := replays o |}.

Definition on_tour_exit (o : Offer) : Offer :=
  {| mounted := mounted o; ready := ready o; strip_hidden := false; start_hidden := start_hidden o;
     delivery_hidden := delivery_hidden o; tour_on := None; checks := checks o; asks := asks o;
     world_at_load := world_at_load o; replayPending := replayPending o; flag := flag o;
     reloading := reloading o; replays := replays o |}.

Definition on_failed (o : Offer) : Offer :=
  if mounted o then
    {| mounted := mounted o; ready := ready o; strip_hidden := false; start_hidden := true; delivery_hidden := true;
       tour_on := tour_on o; checks := checks o; asks := asks o; world_at_load := world_at_load o;
       replayPending := replayPending o; flag := flag o; reloading := reloading o; replays := replays o |}
  else o.

Definition on_close (o : Offer) : Offer :=
  {| mounted := mounted o; ready := ready o; strip_hidden := true; start_hidden := start_hidden o;
     delivery_hidden := delivery_hidden o; tour_on := tour_on o; checks := checks o; asks := asks o;
     world_at_load := world_at_load o; replayPending := replayPending o; flag := flag o;
     reloading := reloading o; replays := replays o |}.

(** *** The strip's events, in any order

    Mounting, the engine's readiness and the read of the world it starts each happen once,
    the read after readiness; a start's own read is asked later than that one, and the
    engine answers in order. [due] is what the read of the world found: whether this load
    is a reload the delivery tour asked for. *)
Inductive strip (flagged : bool) : Offer -> option bool -> Prop :=
  | strip_init : strip flagged (offer0 flagged) None
  | strip_mount p o due : strip flagged o due -> mounted o = false -> strip flagged (mount p o) due
  | strip_ready p o : strip flagged o None -> ready o = false -> strip flagged (on_ready p o) None
  | strip_world w storage o : strip flagged o None -> ready o = true ->
      strip flagged (on_world w storage o) (Some (storage && flagged))
  | strip_click k o due : strip flagged o due -> mounted o = true -> strip_hidden o = false ->
      (if k is KFleet then start_hidden o else delivery_hidden o) = false -> strip flagged (startTour k false o) due
  | strip_check w storage o d : strip flagged o (Some d) -> (0 < checks o)%nat -> strip flagged (on_check w storage o) (Some d)
  | strip_signed_in o d : strip flagged o (Some d) -> (0 < asks o)%nat -> strip flagged (on_signed_in o) (Some d)
  | strip_exit o due : strip flagged o due -> is_Some (tour_on o) -> strip flagged (on_tour_exit o) due
  | strip_failed o due : strip flagged o due -> strip flagged (on_failed o) due
  | strip_close o due : strip flagged o due -> mounted o = true -> strip flagged (on_close o) due.

Record Stripped (flagged : bool) (o : Offer) (due : option bool) : Prop := {
  st_flag : due = None -> flag o = flagged /\ replayPending o = false;
  st_ready : due <> None -> ready o = true;
  st_pending : replayPending o = true -> mounted o = false /\ due = Some true;
  st_replays : replays o = if bool_decide (due = Some true) && mounted o then 1%nat else 0%nat;
  st_late : due = Some true -> mounted o = false -> replayPending o = true;
  st_offer : start_hidden o = false \/ delivery_hidden o = false -> ready o = true /\ mounted o = true }.

Lemma startTour_same k c o :
  flag (startTour k c o) = flag o /\ replayPending (startTour k c o) = replayPending o /\
  ready (startTour k c o) = ready o /\ mounted (startTour k c o) = mounted o /\
  replays (startTour k c o) = replays o /\ start_hidden (startTour k c o) = start_hidden o /\
  delivery_hidden (startTour k c o) = delivery_hidden o.
Proof. unfold startTour. destruct (_ || _); [done|]. by destruct k, c. Qed.

Lemma stripped_same flagged o o' due :
  Stripped flagged o due -> (due = None -> flag o' = flag o) -> replayPending o' = replayPending o -> ready o' = ready o ->
  mounted o' = mounted o -> replays o' = replays o ->
  (start_hidden o' = false \/ delivery_hidden o' = false -> start_hidden o = false \/ delivery_hidden o = false) ->
  Stripped flagged o' due.
Proof.
  intros [F R P N L O] E1 E2 E3 E4 E5 E6. constructor; rewrite ?E2, ?E3, ?E4, ?E5; try done; [|by intros ?%E6%O].
  intros ->. by rewrite E1; [apply F|].
Qed.

Lemma strip_stripped flagged o due : strip flagged o due -> Stripped flagged o due.
Proof.
  induction 1 as [|p o due _ IH M|p o _ IH Rd|w storage o _ IH Rd|k o due _ IH _ _ _|w storage o d _ IH _|o d _ IH _|o due _ IH _|o due _ IH|o due _ IH _].
  - constructor; try done. simpl. intros [?|?]; done.
  - destruct IH as [F R P N L O]. rewrite M, andb_false_r in N.
    unfold mount, replayTour, offerTour. destruct (ready o) eqn:Er; simpl.
    + destruct (replayPending o) eqn:Ep; simpl.
      * destruct (P eq_refl) as [_ ->].
        match goal with |- Stripped _ (startTour ?k ?c ?x) _ => destruct (startTour_same k c x) as (A1 & A2 & A3 & A4 & A5 & A6 & A7) end.
        constructor; rewrite ?A1, ?A2, ?A3, ?A4, ?A5, ?A6, ?A7; simpl; try done. by rewrite N.
      * constructor; simpl; try done. rewrite N, andb_true_r. case_bool_decide as E; [|done]. specialize (L E M). congruence.
    + assert (due = None) as -> by (destruct due; [|done]; specialize (R ltac:(discriminate)); congruence).
      destruct (F eq_refl) as [? Ep]. rewrite Ep. constructor; simpl; try done. by intros [?|?].
  - destruct IH as [F R P N L O]. destruct (F eq_refl) as [? ?]. unfold on_ready, offerTour. simpl.
    destruct (mounted o) eqn:M; constructor; simpl; try done; rewrite ?M; try done. intros G. destruct (O G). congruence.
  - destruct IH as [F R P N L O]. destruct (F eq_refl) as [Ef Ep]. rewrite bool_decide_eq_false_2 in N by done. simpl in N.
    unfold on_world, replayTour. simpl. rewrite Rd. destruct (mounted o) eqn:M; simpl.
    + destruct storage; simpl; rewrite ?Ef, ?Ep; destruct flagged; simpl;
        try (match goal with |- Stripped _ (startTour ?k ?c ?x) _ => destruct (startTour_same k c x) as (A1 & A2 & A3 & A4 & A5 & A6 & A7) end);
        constructor; rewrite ?A1, ?A2, ?A3, ?A4, ?A5, ?A6, ?A7; simpl; rewrite ?N; try done; intros ?; by destruct O.
    + destruct storage; simpl; rewrite ?Ef, ?Ep; constructor; simpl; try done; rewrite ?N, ?andb_false_r; try done;
        try (destruct flagged; done); intros ?; by destruct O.
  - destruct (startTour_same k false o) as (A1 & A2 & A3 & A4 & A5 & A6 & A7).
    eapply stripped_same; eauto. by rewrite A6, A7.
  - eapply stripped_same; eauto; done.
  - unfold on_signed_in.
    match goal with |- Stripped _ (startTour ?k ?c ?x) _ => destruct (startTour_same k c x) as (A1 & A2 & A3 & A4 & A5 & A6 & A7) end.
    eapply stripped_same; eauto. by rewrite A6, A7.
  - eapply stripped_same; eauto; done.
  - unfold on_failed. destruct (mounted o) eqn:M; [|done]. eapply stripped_same; eauto. simpl. by intros [?|?].
  - eapply stripped_same; eauto; done.
Qed.

(** Whichever of the engine and the page is ready first, and whatever the reader does: a
    tour is offered only once the engine is up and the strip is mounted; and the delivery
    tour a reload was made for is started by itself exactly once, from whichever of the two
    comes second, and never on a load that no tour asked for. *)
Theorem replay_once (flagged : bool) (o : Offer) (due : option bool) :
  strip flagged o due ->
  (start_hidden o = false \/ delivery_hidden o = false -> ready o = true /\ mounted o = true) /\
  replays o = (if bool_decide (due = Some true) && mounted o then 1 else 0)%nat /\
  (due = Some true -> mounted o = false -> replayPending o = true).
Proof. intros [F R P N L O]%strip_stripped. done. Qed.

Lemma replay_once_witness :
  replays (mount true (on_world "w" true (on_ready true (offer0 true)))) = 1%nat.
Proof.
  destruct (replay_once true (mount true (on_world "w" true (on_ready true (offer0 true)))) (Some true)) as (_ & E & _).
  - apply strip_mount; [|reflexivity]. apply (strip_world true "w" true); [|reflexivity].
    apply strip_ready; [apply strip_init|reflexivity].
  - rewrite E. reflexivity.
Defined.

(** The label shows the message held, from the moment there is one. *)
Lemma say_shown s t : label t <> None -> label (say s t) = Some s.
Proof. unfold say. simpl. by destruct (label t). Qed.

(** An initialiser's header wins over the request's. *)
Lemma merge_headers_spec h1 h2 k :
  NoDup h1.*1 -> NoDup h2.*1 ->
  assoc k (merge_headers h1 h2) = match assoc k h2 with Some v => Some v | None => assoc k h1 end.
Proof.
  assert (G : forall (h m : list (str * str)), NoDup h.*1 ->
    assoc k (fold_left (fun m p => map_set p.1 p.2 m) h m) = match assoc k h with Some v => Some v | None => assoc k m end).
  { induction h as [|[k' v'] h IH]; intros m N; [done|]. apply NoDup_cons in N as [N1 N2]. simpl.
    rewrite IH by done. rewrite assoc_map_set. simpl. case_bool_decide as E; [subst|done].
    assert (assoc k' h = None) as -> by (by apply assoc_None). done. }
  intros N1 N2. unfold merge_headers. rewrite !G by done. simpl. destruct (assoc k h2); [done|]. by destruct (assoc k h1).
Qed.

(** The demo's entry agrees with the application: wherever the bootstrap replaces the
    entry's hash, it replaces it with what the dashboard's own redirect would, and that is a
    product view the router reads and does not redirect again; any other entry is kept. *)
Theorem demo_entry_agrees (h t : str) :
  canonicalizeDemoEntry h = Some t ->
  legacyRedirectTarget (Some h) = Some (Some t) /\
  legacyRedirectTarget (Some t) = Some None /\ canonicalizeDemoEntry t = None /\
  exists r, parseHash (Some t) = Some r /\ view r ∈ [VFleetOverview; VFleetServices; VFleet; VFleetOwners].
Proof.
  unfold canonicalizeDemoEntry at 1.
  destruct ((h === "") || (h === "#") || (h === "#/")) eqn:E.
  - intros [= <-]. rewrite !orb_true_iff, !bool_decide_eq_true in E.
    split_and!; [by destruct E as [[-> | ->]| ->]|done|done|].
    eexists. split; [vm_compute; reflexivity|]. simpl. set_solver.
  - destruct (obj_get LEGACY (cut x3f h).1) as [t'|k|] eqn:G; [|done|done]. intros [= <-].
    assert (((cut x3f h).1, t') ∈ LEGACY) as L.
    { revert G. unfold obj_get. destruct (assoc _ LEGACY) eqn:A; [|intros G; exfalso; destruct (bool_decide ((cut x3f h).1 ∈ object_prototype_keys)); discriminate G]. intros [= <-]. by apply assoc_elem. }
    destruct (cut x3f h) as [p q] eqn:C. apply cut_inv in C as [_ C]. simpl in L.
    subst h. clear E G. unfold LEGACY in L. rewrite !elem_of_cons, elem_of_nil in L.
    destruct L as [L|[L|[L|[]]]]; simplify_eq;
      (split_and!; [destruct q; lazy; reflexivity|done|done|
                    eexists; split; [vm_compute; reflexivity|simpl; set_solver]]).
Qed.

Lemma demo_entry_agrees_witness : legacyRedirectTarget (Some "#/services?x=1") = Some (Some ("#/fleet/services" : str)).
Proof. apply (demo_entry_agrees "#/services?x=1" "#/fleet/services"). reflexivity. Defined.

Definition sample_bridge : Bridge nat nat :=
  worker_onmessage (inr "refused") (worker_onmessage (inl 7%nat) (call 2%nat (call 1%nat bridge0))).

Lemma calls_answered_witness : NoDup (settled_ids sample_bridge).
Proof.
  apply (calls_answered sample_bridge). unfold sample_bridge. do 2 apply bridge_worker. do 2 apply bridge_call. apply bridge_init.
Defined.
