(* ===== verification/GraphElements.v ===== *)
(** * The labels of the graph: [nodeLabel] and [graphLabels] of
    [src/pkg/dashboard/frontend/src/lib/graph.ts]

    A name is a list of UTF-16 code units, of whatever type, as in [GraphDraw.v]; lengths that
    the code halves are compared doubled. *)

From stdpp Require Import base list sets.
From Stdlib Require Import Init.Byte ZArith Lia.
From S2P Require Import Prelude Neighborhood GraphDraw.
Local Open Scope nat_scope.

Definition LINE : nat := 17.
Definition FOCUS_LINE : nat := 25.

(** ** Labels told apart *)
Section Labels.
Context {U : Type} `{EqDecision U} (is_break : U -> bool) (ellipsis newline : U).

(** A node as the labels see it: its id, its name and its version, empty when it has none. *)
Record LNode := { l_id : str; l_name : list U; l_version : list U }.

Fixpoint join_lines (ls : list (list U)) : list U :=
  match ls with
  | [] => []
  | [l] => l
  | l :: ls' => l ++ newline :: join_lines ls'
  end.

(** Lines a name may take: one when the version takes the other. *)
Definition name_lines (n : LNode) : nat := match l_version n with [] => 2 | _ => 1 end.

Definition nodeLabel (n : LNode) (focus : bool) : list U :=
  join_lines (if focus then fitLines is_break ellipsis (l_name n) FOCUS_LINE 0
              else fitLines is_break ellipsis (l_name n) LINE (name_lines n)).

Definition label_text (n : LNode) (name : list U) : list U :=
  match l_version n with [] => name | v => name ++ newline :: v end.

(** Where two names part. *)
Fixpoint common (a b : list U) : nat :=
  match a, b with
  | x :: a', y :: b' => if decide (x = y) then S (common a' b') else 0
  | _, _ => 0
  end.

(** The place after the last break at or before index [i]. *)
Fixpoint after_break (i : nat) (s : list U) : nat :=
  match s with
  | [] => 0
  | u :: r =>
      match i with
      | O => if is_break u then 1 else 0
      | S i' => match after_break i' r with
                | O => if is_break u then 1 else 0
                | k => S k
                end
      end
  end.

(** As much of the start as leaves room, word by word; [room2] is twice the room. *)
Fixpoint take_words (room2 : nat) (head : list U) (ws : list (list U)) : list U :=
  match ws with
  | [] => head
  | t :: ws' => if room2 <? 2 * (length head + length t) then head else take_words room2 (head ++ t) ws'
  end.

(** The name cut so that it tells [raw] from the name it shares [d] units with. *)
Definition tell_apart (raw : list U) (d max : nat) : list U :=
  let from0 := after_break (d - 1) raw in
  let from := if LINE * max <? 2 * (length raw - from0) then Nat.max from0 (d - 2) else from0 in
  let room2 := Nat.max (LINE * max) (2 * (LINE * max - 1 - (length raw - from))) in
  let head := take_words room2 [] (words is_break (take from raw)) in
  (match head with [] => take (room2 / 2) raw | _ => head end) ++ ellipsis :: drop from raw.

(** The furthest any other name of the group follows [raw]. *)
Definition parting (raw : list U) (raws : list (list U)) : nat :=
  foldr Nat.max 0 (map (fun o => common o raw) (List.filter (fun o => bool_decide (o <> raw)) raws)).

Definition relabel (raws : list (list U)) (n : LNode) : list U :=
  let max := name_lines n in
  label_text n (join_lines (fitLines is_break ellipsis (tell_apart (l_name n) (parting (l_name n) raws) max) LINE max)).

Context (focused : LNode -> bool).

Definition first_label (n : LNode) : list U := label_text n (nodeLabel n (focused n)).

(** One group of nodes that were cut to the same words. *)
Definition relabel_group (out : list (str * list U)) (same : list LNode) : list (str * list U) :=
  let raws := map l_name same in
  if length (dedupe raws) <? 2 then out
  else fold_left (fun out n => map_set (l_id n) (relabel raws n) out) same out.

Definition label_groups (ns : list LNode) : list (list U * list LNode) :=
  group_by first_label (fun _ => []) (fun g n => g ++ [n]) ns.

Definition graphLabels (ns : list LNode) : list (str * list U) :=
  fold_left relabel_group (values (label_groups ns))
    (fold_left (fun out n => map_set (l_id n) (first_label n) out) ns []).

(** *** Every node has its label *)
Lemma assoc_fold_label {A V} (f : A -> str) (g : A -> V) (l : list A) m k :
  NoDup (f <$> l) ->
  assoc k (fold_left (fun m x => map_set (f x) (g x) m) l m) =
    match List.find (fun x => f x === k) l with Some x => Some (g x) | None => assoc k m end.
Proof.
  revert m. induction l as [|x l IH]; intros m N; [done|]. apply NoDup_cons in N as [Nx N]. simpl. rewrite IH by done.
  rewrite assoc_map_set. destruct (decide (f x = k)) as [<-|E].
  - rewrite eqb_refl. destruct (List.find _ l) as [y|] eqn:F; [|done].
    apply List.find_some in F as [F1 F2]. apply bool_decide_eq_true in F2. exfalso. apply Nx.
    rewrite <- F2. apply list_elem_of_fmap. exists y. by rewrite list_elem_of_In.
  - by rewrite (bool_decide_eq_false_2 (f x = k)), (bool_decide_eq_false_2 (k = f x)) by congruence.
Qed.

Lemma find_id (l : list LNode) n :
  NoDup (l_id <$> l) -> n ∈ l -> List.find (fun x => l_id x === l_id n) l = Some n.
Proof.
  induction l as [|x l IH]; intros N E; [set_solver|]. apply NoDup_cons in N as [Nx N]. simpl.
  apply elem_of_cons in E as [->|E]; [by rewrite eqb_refl|].
  rewrite bool_decide_eq_false_2, IH by (done || intros Ex; apply Nx; rewrite Ex; by apply list_elem_of_fmap_2). done.
Qed.

Lemma find_id_none (l : list LNode) k :
  k ∉ l_id <$> l -> List.find (fun x => l_id x === k) l = None.
Proof.
  induction l as [|x l IH]; [done|]. rewrite fmap_cons, not_elem_of_cons. intros [E N]. simpl.
  by rewrite bool_decide_eq_false_2, IH by congruence.
Qed.

(** Whether a group holds two names. *)
Definition ambiguous (same : list LNode) : bool := 2 <=? length (dedupe (map l_name same)).

Lemma relabel_groups (gs : list (list LNode)) out n :
  NoDup (l_id <$> concat gs) -> n ∈ concat gs ->
  exists g, g ∈ gs /\ n ∈ g /\
  assoc (l_id n) (fold_left relabel_group gs out) =
    if ambiguous g then Some (relabel (map l_name g) n) else assoc (l_id n) out.
Proof.
  revert out. induction gs as [|g gs IH]; intros out N E; [set_solver|]. simpl in *.
  rewrite fmap_app in N. apply NoDup_app in N as (N1 & D & N2). apply elem_of_app in E as [E|E].
  - exists g. split_and!; [by left|done|].
    assert (forall out', assoc (l_id n) (fold_left relabel_group gs out') = assoc (l_id n) out') as ->.
    { assert (l_id n ∉ l_id <$> concat gs) as Ni by (apply D; by apply list_elem_of_fmap_2).
      clear -Ni. induction gs as [|h gs IH]; intros out'; [done|]. simpl in *. rewrite fmap_app, not_elem_of_app in Ni.
      rewrite IH by tauto. unfold relabel_group. destruct (_ <? 2); [done|].
      clear IH. destruct Ni as [Ni _]. revert out' Ni. generalize (map l_name h). intros raws.
      induction h as [|x h IH]; intros out' Ni; [done|]. simpl in *. apply not_elem_of_cons in Ni as [Ne Ni]. rewrite IH by done.
      rewrite assoc_map_set. by rewrite bool_decide_eq_false_2. }
    unfold relabel_group, ambiguous. destruct (Nat.ltb_spec (length (dedupe (map l_name g))) 2), (Nat.leb_spec 2 (length (dedupe (map l_name g)))); try lia; [done|].
    rewrite (assoc_fold_label l_id (relabel (map l_name g))) by done. by rewrite find_id.
  - destruct (IH (relabel_group out g) N2 E) as (h & H1 & H2 & H3). exists h. split_and!; [by right|done|]. rewrite H3.
    destruct (ambiguous h); [done|]. unfold relabel_group. destruct (_ <? 2); [done|].
    rewrite (assoc_fold_label l_id (relabel (map l_name g))) by done. rewrite find_id_none; [done|].
    intros Hg. apply (D _ Hg). by apply list_elem_of_fmap_2.
Qed.

(** The nodes cut to the same words as [n]. *)
Definition cut_alike (ns : list LNode) (n : LNode) : list LNode :=
  List.filter (fun m => first_label m === first_label n) ns.

Lemma label_groups_values ns :
  values (label_groups ns) = (fun k => List.filter (fun m => first_label m === k) ns) <$> dedupe (first_label <$> ns).
Proof.
  unfold label_groups. rewrite group_by_rows. unfold values. rewrite <- list_fmap_compose. apply list_fmap_ext.
  intros i k _. simpl. unfold group_row. generalize (List.filter (fun m => first_label m === k) ns). intros l.
  induction l as [|x l IH] using rev_ind; [done|]. rewrite fold_left_app. simpl. by rewrite IH.
Qed.

Lemma graphLabels_eq (ns : list LNode) (n : LNode) :
  NoDup (l_id <$> ns) -> n ∈ ns ->
  assoc (l_id n) (graphLabels ns) =
    Some (if ambiguous (cut_alike ns n) then relabel (map l_name (cut_alike ns n)) n else first_label n).
Proof.
  intros N E. unfold graphLabels.
  assert (concat (values (label_groups ns)) ≡ₚ ns) as P.
  { rewrite label_groups_values. apply groups_Permutation; [apply NoDup_dedupe|].
    intros x Hx. rewrite elem_of_dedupe. by apply list_elem_of_fmap_2. }
  destruct (relabel_groups (values (label_groups ns))
    (fold_left (fun out n => map_set (l_id n) (first_label n) out) ns []) n) as (g & G1 & G2 & ->).
  - by rewrite P.
  - by rewrite P.
  - rewrite label_groups_values in G1. apply list_elem_of_fmap in G1 as (k & -> & _).
    apply elem_of_lfilter in G2 as [_ G2]. apply bool_decide_eq_true in G2 as <-. fold (cut_alike ns n).
    destruct (ambiguous _); [done|]. rewrite (assoc_fold_label l_id first_label) by done. by rewrite find_id.
Qed.

(** *** When two names are told apart *)
Lemma fit_word_short per fuel (t cur : list U) :
  length t <= fuel -> length cur + length t <= per ->
  fit_word per fuel t ([], cur) = ([] : list (list U), cur ++ t).
Proof.
  destruct t as [|u t]; intros F L; [destruct fuel; cbn; by rewrite app_nil_r|].
  destruct fuel as [|fuel]; [cbn in F; lia|]. cbn [fit_word].
  destruct cur as [|c cur]; [|rewrite (proj2 (Nat.ltb_ge _ _)) by done]; rewrite take_ge, drop_ge by (cbn in *; lia); by destruct fuel.
Qed.

(** Words that all fit on one line are that line. *)
Lemma fit_all_short raw per : raw <> [] -> length raw <= per -> fit_all is_break raw per = [raw].
Proof.
  intros N L. unfold fit_all.
  assert (forall (ws : list (list U)) (cur : list U), length cur + length (concat ws) <= per ->
    fold_left (fun st tok => fit_word per (length tok) tok st) ws ([], cur) = ([] : list (list U), cur ++ concat ws)) as G.
  { induction ws as [|w ws IH]; intros cur Hl; cbn [fold_left concat] in *; [by rewrite app_nil_r|].
    rewrite length_app in Hl. rewrite fit_word_short by lia. rewrite IH by (rewrite length_app; lia). by rewrite app_assoc. }
  rewrite G by (rewrite words_concat; cbn; lia). rewrite words_concat. by destruct raw.
Qed.

Lemma fitLines_short raw per max : raw <> [] -> length raw <= per -> fitLines is_break ellipsis raw per (S max) = [raw].
Proof. intros N L. unfold fitLines. rewrite fit_all_short by done. done. Qed.

Lemma take_words_length room2 head ws : 2 * length head <= room2 -> 2 * length (take_words room2 head ws) <= room2.
Proof.
  revert head. induction ws as [|t ws IH]; intros head L; cbn [take_words]; [done|].
  destruct (Nat.ltb_spec room2 (2 * (length head + length t))); [done|]. apply IH. rewrite length_app. lia.
Qed.

Lemma take_words_sub room2 head ws u : u ∈ take_words room2 head ws -> u ∈ head \/ u ∈ concat ws.
Proof.
  revert head. induction ws as [|t ws IH]; intros head E; cbn [take_words concat] in *; [by left|].
  destruct (_ <? _); [by left|]. apply IH in E as [E|E]; set_solver.
Qed.

Lemma common_take (a b : list U) : take (common a b) a = take (common a b) b.
Proof.
  revert b. induction a as [|x a IH]; intros [|y b]; cbn; try done. destruct (decide (x = y)); [|done]. cbn. subst. by rewrite IH.
Qed.

Lemma after_break_take i (a b : list U) : take (S i) a = take (S i) b -> after_break i a = after_break i b.
Proof.
  revert a b. induction i as [|i IH]; intros [|x a] [|y b]; cbn; try done; intros E.
  - by injection E as ->.
  - injection E as -> E. by rewrite (IH a b).
Qed.

Lemma after_break_le i (s : list U) : after_break i s <= S i.
Proof.
  revert s. induction i as [|i IH]; intros [|u r]; cbn; try lia; [by destruct (is_break u); lia|].
  specialize (IH r). destruct (after_break i r); [destruct (is_break u)|]; lia.
Qed.

(** The end of a name from the last break before the place it parts at. *)
Definition tail_length (raw : list U) (d : nat) : nat := length raw - after_break (d - 1) raw.

(** The cut of a name whose end is short: a start of the name, the ellipsis, and that end,
    short enough for one line. *)
Lemma tell_apart_short raw d :
  2 * tail_length raw d <= LINE ->
  exists head, tell_apart raw d 1 = head ++ ellipsis :: drop (after_break (d - 1) raw) raw /\
    (forall u, u ∈ head -> u ∈ raw) /\ length head + 1 + tail_length raw d <= LINE.
Proof.
  intros T. unfold tell_apart, tail_length in *. set (f := after_break (d - 1) raw) in *. rewrite Nat.mul_1_r.
  destruct (Nat.ltb_spec LINE (2 * (length raw - f))); [lia|].
  set (room2 := Nat.max LINE (2 * (LINE - 1 - (length raw - f)))).
  pose proof (take_words_length room2 [] (words is_break (take f raw))) as L. cbn in L.
  pose proof (fun u => take_words_sub room2 [] (words is_break (take f raw)) u) as S.
  rewrite words_concat in S.
  assert (length raw - f <= 8) by (unfold LINE in *; lia).
  assert (forall n, 2 * n <= room2 -> n + 1 + (length raw - f) <= LINE) as R by (intros n; subst room2; unfold LINE in *; lia).
  destruct (take_words room2 [] (words is_break (take f raw))) as [|h head].
  - exists (take (room2 / 2) raw). split_and!; [done|intros u (i & Hu & _)%elem_of_take; by eapply list_elem_of_lookup_2|].
    apply R. rewrite length_take. pose proof (Nat.Div0.mul_div_le room2 2). lia.
  - exists (h :: head). split_and!; [done| |apply R, L; lia].
    intros u Hu%S. destruct Hu as [Hu|Hu]; [set_solver|]. apply elem_of_take in Hu as (i & Hu & _). by eapply list_elem_of_lookup_2.
Qed.

Lemma split_at_ellipsis (a b x y : list U) :
  ellipsis ∉ a -> ellipsis ∉ b -> a ++ ellipsis :: x = b ++ ellipsis :: y -> a = b /\ x = y.
Proof.
  revert b. induction a as [|u a IH]; intros [|v b] Na Nb E; cbn in E; simplify_eq; [done|set_solver|set_solver|].
  apply not_elem_of_cons in Na as [_ Na], Nb as [_ Nb]. by destruct (IH b Na Nb) as [-> ->].
Qed.

Lemma relabel_apart raws (n m : LNode) d :
  l_version n <> [] -> l_version m = l_version n -> l_name n <> l_name m -> 1 <= d ->
  ellipsis ∉ l_name n -> ellipsis ∉ l_name m ->
  common (l_name n) (l_name m) = d -> parting (l_name n) raws = d -> parting (l_name m) raws = d ->
  2 * tail_length (l_name n) d <= LINE -> 2 * tail_length (l_name m) d <= LINE ->
  relabel raws n <> relabel raws m.
Proof.
  intros V Vm Ne D En Em C Pn Pm Tn Tm E.
  destruct (tell_apart_short _ _ Tn) as (hn & An & Sn & Ln). destruct (tell_apart_short _ _ Tm) as (hm & Am & Sm & Lm).
  unfold tail_length in *.
  assert (after_break (d - 1) (l_name m) = after_break (d - 1) (l_name n)) as F.
  { symmetry. apply after_break_take. replace (S (d - 1)) with d by lia. subst d. apply common_take. }
  revert E. unfold relabel, label_text, name_lines. rewrite Vm. destruct (l_version n) as [|v vs]; [done|].
  rewrite Pn, Pm, An, Am, F.
  rewrite !fitLines_short by (try (by destruct hn); try (by destruct hm); rewrite length_app; cbn [length]; rewrite length_drop; rewrite ?F in *; lia).
  cbn [join_lines]. intros E. apply app_inv_tail in E.
  apply split_at_ellipsis in E as [_ E]; [|by intros X%Sn|by intros X%Sm]. apply Ne.
  set (f := after_break (d - 1) (l_name n)) in *.
  rewrite <- (take_drop f (l_name n)), <- (take_drop f (l_name m)), E. f_equal.
  assert (f <= d) as Hf by (pose proof (after_break_le (d - 1) (l_name n)); lia).
  rewrite <- (Nat.min_l f d Hf), <- !take_take, <- C, common_take. done.
Qed.

(** Every node of a graph has exactly one label. A node no other is cut to the same
    words as keeps its own: its name, cut at the end, and its version. Two versioned nodes
    cut to the same words are told apart whenever each is the closest name to the other and
    what follows the last word break before they part takes at most half a line. *)
Theorem graphLabels_spec (ns : list LNode) :
  NoDup (l_id <$> ns) ->
  (forall n, n ∈ ns -> exists l, assoc (l_id n) (graphLabels ns) = Some l /\
     ((forall m, m ∈ ns -> first_label m = first_label n -> l_name m = l_name n) -> l = first_label n)) /\
  (forall n m d, n ∈ ns -> m ∈ ns -> l_version n <> [] -> l_version m = l_version n ->
     first_label n = first_label m -> l_name n <> l_name m -> ellipsis ∉ l_name n -> ellipsis ∉ l_name m ->
     1 <= d -> common (l_name n) (l_name m) = d ->
     parting (l_name n) (map l_name (cut_alike ns n)) = d -> parting (l_name m) (map l_name (cut_alike ns n)) = d ->
     2 * tail_length (l_name n) d <= LINE -> 2 * tail_length (l_name m) d <= LINE ->
     assoc (l_id n) (graphLabels ns) <> assoc (l_id m) (graphLabels ns)).
Proof.
  intros N. split.
  - intros n En. rewrite graphLabels_eq by done. eexists. split; [done|]. intros Al.
    destruct (ambiguous (cut_alike ns n)) eqn:A; [exfalso|done]. unfold ambiguous in A. apply Nat.leb_le in A.
    assert (forall x, x ∈ dedupe (map l_name (cut_alike ns n)) -> x = l_name n) as One.
    { intros x. rewrite elem_of_dedupe. intros (m & -> & Em)%list_elem_of_fmap. apply elem_of_lfilter in Em as [Em Eq].
      apply bool_decide_eq_true in Eq. by apply Al. }
    pose proof (NoDup_dedupe (map l_name (cut_alike ns n))) as Nd.
    destruct (dedupe (map l_name (cut_alike ns n))) as [|x [|y l]]; cbn in A; try lia.
    apply NoDup_cons in Nd as [Nd _]. apply Nd. rewrite (One x), (One y) by set_solver. by left.
  - intros n m d En Em V Vm F Ne Xn Xm D C Pn Pm Tn Tm. rewrite !graphLabels_eq by done.
    assert (cut_alike ns m = cut_alike ns n) as -> by (unfold cut_alike; by rewrite F).
    assert (ambiguous (cut_alike ns n) = true) as ->.
    { unfold ambiguous. apply Nat.leb_le.
      assert (l_name n ∈ dedupe (map l_name (cut_alike ns n)) /\ l_name m ∈ dedupe (map l_name (cut_alike ns n))) as [I1 I2].
      { rewrite !elem_of_dedupe. split; apply list_elem_of_fmap_2; apply elem_of_lfilter; split; try done; by apply bool_decide_eq_true. }
      destruct (dedupe (map l_name (cut_alike ns n))) as [|x [|y l]]; cbn; [set_solver|set_solver|lia]. }
    intros [= E]. by eapply relabel_apart.
Qed.
End Labels.

(** Bytes as units: the tilde stands for the ellipsis. *)
Definition byte_labels : list (@LNode byte) -> list (str * str) := graphLabels label_break x7e x0a (fun _ => false).
Definition unversioned (i name : str) : @LNode byte := {| l_id := i; l_name := name; l_version := [] |}.
Definition versioned (i name : str) : @LNode byte := {| l_id := i; l_name := name; l_version := "1.0" |}.

(** Names whose words fill more than half a line each are cut to the same words again. *)
Example not_told_apart_words :
  byte_labels [unversioned "a" "payments-accounts-replicas-01"; unversioned "b" "payments-accounts-replicas-02"] =
    [("a", "payments-" ++ [x0a] ++ "accounts-replica~"); ("b", "payments-" ++ [x0a] ++ "accounts-replica~")].
Proof. vm_compute. reflexivity. Qed.

(** A last word of a whole line loses its end to the ellipsis put before it. *)
Example not_told_apart_long_word :
  byte_labels [unversioned "a" "payments-ledgers-replicas-abcdefghijklmnop1";
               unversioned "b" "payments-ledgers-replicas-abcdefghijklmnop2"] =
    [("a", "payments-ledgers-" ++ [x0a] ++ "~abcdefghijklmno~"); ("b", "payments-ledgers-" ++ [x0a] ++ "~abcdefghijklmno~")].
Proof. vm_compute. reflexivity. Qed.

(** Names that part in two places show only the later one. *)
Example not_told_apart_twice :
  assoc ("a" : str) (byte_labels [unversioned "a" "payments-ledger-shared-east-alpha-replica-1";
    unversioned "b" "payments-ledger-shared-east-alpha-replica-2"; unversioned "c" "payments-ledger-shared-east-beta1-replica-1";
    unversioned "d" "payments-ledger-shared-east-beta1-replica-2"]) =
  assoc ("c" : str) (byte_labels [unversioned "a" "payments-ledger-shared-east-alpha-replica-1";
    unversioned "b" "payments-ledger-shared-east-alpha-replica-2"; unversioned "c" "payments-ledger-shared-east-beta1-replica-1";
    unversioned "d" "payments-ledger-shared-east-beta1-replica-2"]).
Proof. vm_compute. reflexivity. Qed.

Definition replicas : list (@LNode byte) :=
  [versioned "a" "payments-accounts-replica-01"; versioned "b" "payments-accounts-replica-02"].

Lemma graphLabels_spec_witness :
  assoc ("a" : str) (byte_labels replicas) <> assoc ("b" : str) (byte_labels replicas).
Proof.
  destruct (graphLabels_spec label_break x7e x0a (fun _ => false) replicas) as [_ T].
  - by_decide.
  - apply (T (versioned "a" "payments-accounts-replica-01") (versioned "b" "payments-accounts-replica-02") 27).
    + by left.
    + by right; left.
    + done.
    + done.
    + by vm_compute.
    + done.
    + by_decide.
    + by_decide.
    + lia.
    + by vm_compute.
    + by vm_compute.
    + by vm_compute.
    + vm_compute. lia.
    + vm_compute. lia.
Defined.
