(* ===== verification/GraphCanvas.v ===== *)
(** * The canvas: [buildElements], [patchData], [applyTopology], [placeNewNodes],
    [restoreSavedPositions] of [src/pkg/dashboard/frontend/src/lib/graph.ts]

    The elements given to Cytoscape, and how a refresh is applied to a graph that is already
    drawn. Cytoscape is a class: its elements' data and positions are observed, its calls
    change them as its documentation says, and the laws state just that; [Drawn] is an
    instance. Coordinates are rationals; the sine and cosine of a ring are parameters, as is
    the layout, of which only that it moves nodes is used. *)

From stdpp Require Import base list sets gmap.
From Stdlib Require Import Init.Byte ZArith QArith Qabs Qminmax Lqa Lia.
From S2P Require Import Prelude LaneLayout GraphDraw GraphElements.
Local Close Scope Q_scope.

(** ** The graph, and its elements *)
Record GraphEdge := {
  targetId : str; required : bool; type : option str; driftStatus : option str; edgeState : option str;
  refused : bool; label : option str }.

Record GraphNode := {
  id : str; serviceName : str; status : str; version : option str; reason : option str; kind : option str;
  edges : list GraphEdge; depth : option Z; owner : option str; group : option Z; side : option Z;
  lane : bool; parent : option str }.

Record NodeData := {
  n_id : str; n_serviceName : str; n_label : str; n_box : Z * Z; n_fullName : str; n_owner : str; n_depth : Z;
  n_group : bool; n_lane : bool; n_side : Z; n_parent : option str; n_status : str; n_reason : str; n_kind : str;
  n_external : bool; n_isFocus : bool }.

Record EdgeData := {
  e_id : str; e_source : str; e_target : str; e_etype : str; e_required : bool; e_drift : bool; e_state : str;
  e_refused : bool; e_label : option str }.

Inductive Element := ENode (d : NodeData) | EEdge (d : EdgeData).
Definition el_id (e : Element) : str := match e with ENode d => n_id d | EEdge d => e_id d end.

Definition isFocusNode (n : GraphNode) (focusId : option str) : bool :=
  match focusId with
  | Some f => truthy f && ((serviceName n === f) || (id n === f))
  | None => false
  end.

(** A group's size is shown; a group of none is no group. *)
Definition group_of (n : GraphNode) : option Z :=
  match group n with Some 0%Z | None => None | g => g end.

Definition fullName (n : GraphNode) : str :=
  let raw := or_s (serviceName n) (id n) in
  match group_of n with
  | Some g => or_str (owner n) raw ++ ": " ++ show_Z g ++ " entities. Select to show them."
  | None => match version n with
            | Some v => if truthy v then raw ++ " " ++ v else raw
            | None => raw
            end
  end.

Definition etype_of (e : GraphEdge) : str := or_str (type e) "dependency".
Definition state_of (e : GraphEdge) : str :=
  or_str (edgeState e) (if driftStatus e === Some ("drift" : str) then "drift" else "").
Definition edge_id (n : GraphNode) (e : GraphEdge) : str := id n ++ "→" ++ targetId e ++ ":" ++ etype_of e.

(** A text that is set when it is not empty. *)
Definition some_text (o : option str) : option str :=
  match o with Some s => if truthy s then Some s else None | None => None end.

Definition node_data_of (focusId : option str) (label : str) (n : GraphNode) : NodeData :=
  {| n_id := id n; n_serviceName := serviceName n; n_label := label; n_box := boxSize label (isFocusNode n focusId);
     n_fullName := fullName n; n_owner := or_str (owner n) ""; n_depth := nullish (depth n) (-1)%Z;
     n_group := bool_decide (is_Some (group_of n)); n_lane := lane n; n_side := nullish (side n) 0%Z;
     n_parent := some_text (parent n); n_status := status n; n_reason := or_str (reason n) "";
     n_kind := or_str (kind n) "service"; n_external := status n === "external"; n_isFocus := isFocusNode n focusId |}.

Definition edge_data_of (n : GraphNode) (e : GraphEdge) : EdgeData :=
  {| e_id := edge_id n e; e_source := id n; e_target := targetId e; e_etype := etype_of e; e_required := required e;
     e_drift := state_of e === "drift"; e_state := state_of e; e_refused := refused e; e_label := some_text (label e) |}.

Section Elements.
(** The labels of [GraphElements.graphLabels], by id; names are coded as UTF-16 units. *)
Context {U : Type} `{EqDecision U} (is_break : U -> bool) (ellipsis newline : U) (units : str -> list U) (text : list U -> str).

Definition lnode (n : GraphNode) : @LNode U :=
  {| l_id := id n; l_name := units (or_s (serviceName n) (id n)); l_version := units (or_str (version n) "") |}.

Definition focused_in (ns : list GraphNode) (focusId : option str) (l : @LNode U) : bool :=
  existsb (fun n => (id n === l_id l) && isFocusNode n focusId) ns.

Definition labels_of (focusId : option str) (ns : list GraphNode) : list (str * str) :=
  map (fun p => (p.1, text p.2))
      (graphLabels is_break ellipsis newline (focused_in ns focusId) (map lnode ns)).

Definition label_in (ls : list (str * str)) (i : str) : str := nullish (assoc i ls) "".

Definition node_elements (focusId : option str) (ns : list GraphNode) : list Element :=
  let labels := labels_of focusId ns in
  map (fun n => ENode (node_data_of focusId (label_in labels (id n)) n)) ns.

Definition edge_elements (ns : list GraphNode) : list Element :=
  concat (map (fun n => map (fun e => EEdge (edge_data_of n e))
                            (List.filter (fun e => bool_decide (targetId e ∈ map id ns)) (edges n))) ns).

Definition buildElements (focusId : option str) (ns : list GraphNode) : list Element :=
  node_elements focusId ns ++ edge_elements ns.
End Elements.

(** ** Cytoscape *)
Definition Pos : Type := Q * Q.

Class Cytoscape := {
  Core : Type;
  node_data : Core -> str -> option NodeData;
  edge_data : Core -> str -> option EdgeData;
  node_ids : Core -> list str;
  edge_ids : Core -> list str;
  position : Core -> str -> Pos;
  neighborhood : Core -> str -> list str;             (* the nodes an edge joins it to *)
  boundingBox : Core -> list str -> Pos * (Q * Q);    (* its corner, and how wide and high *)
  add : list Element -> Core -> Core;
  move : str -> option str -> Core -> Core;           (* re-home a node *)
  remove : (str -> bool) -> Core -> Core;             (* every element chosen by its id *)
  set_node : NodeData -> Core -> Core;                (* [data(...)] on the node of that id *)
  set_edge : EdgeData -> Core -> Core;
  set_position : str -> Pos -> Core -> Core }.

Definition with_parent (p : option str) (d : NodeData) : NodeData :=
  {| n_id := n_id d; n_serviceName := n_serviceName d; n_label := n_label d; n_box := n_box d;
     n_fullName := n_fullName d; n_owner := n_owner d; n_depth := n_depth d; n_group := n_group d; n_lane := n_lane d;
     n_side := n_side d; n_parent := p; n_status := n_status d; n_reason := n_reason d; n_kind := n_kind d;
     n_external := n_external d; n_isFocus := n_isFocus d |}.

Definition node_in (els : list Element) (i : str) : option NodeData :=
  match List.find (fun e => el_id e === i) els with Some (ENode d) => Some d | _ => None end.
Definition edge_in (els : list Element) (i : str) : option EdgeData :=
  match List.find (fun e => el_id e === i) els with Some (EEdge d) => Some d | _ => None end.

(** A node that is no box holds nothing: its place is its own, where a box's is that of what
    it holds. *)
Definition leaf `{Cytoscape} (c : Core) (j : str) : Prop := forall i d, node_data c i = Some d -> n_parent d <> Some j.

(** What the code relies on: elements added are there as given, a moved node only changes
    its parent, which [data(...)] cannot, and removing an element takes with it the edges at a
    removed node and what is still in a removed box, and nothing else. No call but the one that
    places it moves a node that is no box. *)
Class CytoscapeLaws `{Cytoscape} := {
  node_data_id c i d : node_data c i = Some d -> n_id d = i;
  edge_data_id c i d : edge_data c i = Some d -> e_id d = i;
  node_ids_spec c i : i ∈ node_ids c <-> is_Some (node_data c i);
  add_node els c i : NoDup (map el_id els) -> (forall e, e ∈ els -> node_data c (el_id e) = None /\ edge_data c (el_id e) = None) ->
    node_data (add els c) i = match node_in els i with Some d => Some d | None => node_data c i end;
  add_edge els c i : NoDup (map el_id els) -> (forall e, e ∈ els -> node_data c (el_id e) = None /\ edge_data c (el_id e) = None) ->
    edge_data (add els c) i = match edge_in els i with Some d => Some d | None => edge_data c i end;
  add_position els c i : NoDup (map el_id els) -> (forall e, e ∈ els -> node_data c (el_id e) = None /\ edge_data c (el_id e) = None) ->
    node_data c i <> None -> leaf c i -> leaf (add els c) i -> position (add els c) i = position c i;
  move_node i p c j :
    node_data (move i p c) j = if i === j then with_parent p <$> node_data c j else node_data c j;
  move_edge i p c j : edge_data (move i p c) j = edge_data c j;
  move_position i p c j : leaf c j -> leaf (move i p c) j -> position (move i p c) j = position c j;
  remove_gone r c i : r i = true -> node_data (remove r c) i = None /\ edge_data (remove r c) i = None;
  remove_less_node r c i d : node_data (remove r c) i = Some d -> node_data c i = Some d;
  remove_less_edge r c i d : edge_data (remove r c) i = Some d -> edge_data c i = Some d;
  remove_keeps_node r c i d : node_data c i = Some d -> r i = false ->
    (forall p, n_parent d = Some p -> r p = false /\ forall d', node_data c p = Some d' -> n_parent d' = None) ->
    node_data (remove r c) i = Some d;
  remove_keeps_edge r c i d : edge_data c i = Some d -> r i = false ->
    node_data (remove r c) (e_source d) <> None -> node_data (remove r c) (e_target d) <> None ->
    edge_data (remove r c) i = Some d;
  remove_position r c i : leaf c i -> node_data (remove r c) i <> None -> position (remove r c) i = position c i;
  set_node_data d c i :
    node_data (set_node d c) i = if n_id d === i then (fun d0 => with_parent (n_parent d0) d) <$> node_data c i else node_data c i;
  set_node_edge d c i : edge_data (set_node d c) i = edge_data c i;
  set_node_position d c i : leaf c i -> position (set_node d c) i = position c i;
  set_edge_data d c i :
    edge_data (set_edge d c) i = if e_id d === i then (fun _ => d) <$> edge_data c i else edge_data c i;
  set_edge_node d c i : node_data (set_edge d c) i = node_data c i;
  set_edge_position d c i : leaf c i -> position (set_edge d c) i = position c i;
  set_position_node i p c j : node_data (set_position i p c) j = node_data c j;
  set_position_edge i p c j : edge_data (set_position i p c) j = edge_data c j;
  set_position_same i p c : is_Some (node_data c i) -> leaf c i -> position (set_position i p c) i = p;
  edge_ids_spec c i : i ∈ edge_ids c <-> is_Some (edge_data c i);
  set_position_ids i p c : node_ids (set_position i p c) = node_ids c /\ edge_ids (set_position i p c) = edge_ids c;
  set_position_other i p c j : i <> j -> leaf c i -> leaf c j -> position (set_position i p c) j = position c j }.

(** ** Refreshing what is drawn *)
Section Refresh.
Context `{Cy : Cytoscape} {U : Type} `{EqDecision U} (is_break : U -> bool) (ellipsis newline : U)
  (units : str -> list U) (text : list U -> str) (focusId : option str).

Notation build := (buildElements is_break ellipsis newline units text focusId).
Notation labels := (labels_of is_break ellipsis newline units text focusId).

Definition has (c : Core) (i : str) : bool :=
  bool_decide (is_Some (node_data c i)) || bool_decide (is_Some (edge_data c i)).

(** The fields of a drawn node a refresh writes. *)
Definition patch_node (l : str) (n : GraphNode) (d : NodeData) : NodeData :=
  {| n_id := n_id d; n_serviceName := serviceName n; n_label := l; n_box := boxSize l (isFocusNode n focusId);
     n_fullName := fullName n; n_owner := or_str (owner n) ""; n_depth := nullish (depth n) (-1)%Z; n_group := n_group d;
     n_lane := n_lane d; n_side := nullish (side n) 0%Z; n_parent := n_parent d; n_status := status n;
     n_reason := n_reason d; n_kind := or_str (kind n) "service"; n_external := n_external d; n_isFocus := n_isFocus d |}.

Definition patch_edge (e : GraphEdge) (d : EdgeData) : EdgeData :=
  {| e_id := e_id d; e_source := e_source d; e_target := e_target d; e_etype := e_etype d; e_required := e_required d;
     e_drift := state_of e === "drift"; e_state := state_of e; e_refused := refused e; e_label := some_text (label e) |}.

(** Each node the next graph names that is drawn, then each edge. *)
Definition patch_one_node (ls : list (str * str)) (c : Core) (n : GraphNode) : Core :=
  match node_data c (id n) with
  | Some d => set_node (patch_node (label_in ls (id n)) n d) c
  | None => c
  end.

Definition patch_one_edge (c : Core) (x : GraphNode * GraphEdge) : Core :=
  match edge_data c (edge_id x.1 x.2) with
  | Some d => set_edge (patch_edge x.2 d) c
  | None => c
  end.

Definition all_edges (ns : list GraphNode) : list (GraphNode * GraphEdge) :=
  concat (map (fun n => map (pair n) (edges n)) ns).

Definition patchData (next : list GraphNode) (c : Core) : Core :=
  fold_left patch_one_edge (all_edges next) (fold_left (patch_one_node (labels next)) next c).

(** Re-home a node whose box changed. *)
Definition rehome (c : Core) (e : Element) : Core :=
  match e with
  | EEdge _ => c
  | ENode d => match node_data c (n_id d) with
               | Some d0 => if n_parent d0 !== n_parent d then move (n_id d) (n_parent d) c else c
               | None => c
               end
  end.

(** Add, then re-home, then remove. *)
Definition reconcile (els : list Element) (c : Core) : Core :=
  let keep := map el_id els in
  let added := List.filter (fun e => negb (has c (el_id e))) els in
  remove (fun i => negb (bool_decide (i ∈ keep)))
    (fold_left rehome els (match added with [] => c | _ => add added c end)).

(** The part of [applyTopology] every refresh goes through. *)
Definition refresh (next : list GraphNode) (c : Core) : Core := patchData next (reconcile (build next) c).

Definition is_lane (c : Core) (i : str) : bool := match node_data c i with Some d => n_lane d | None => false end.

(** The entities drawn: a lane's box is scaffolding. *)
Definition entityNodes (c : Core) : list str := List.filter (fun i => negb (is_lane c i)) (node_ids c).
Definition hasLanes (c : Core) : bool := existsb (is_lane c) (node_ids c).

(** The entities that were not drawn before. *)
Definition arrivals (before : list str) (c : Core) : list str :=
  List.filter (fun i => negb (bool_decide (i ∈ before))) (entityNodes c).

(** *** Where an arrival goes *)
Context (cos sin : Q -> Q) (pi : Q) (layout : Core -> Core).

Definition NEW_NODE_OFFSET : Q := 150%Q.

Definition sum_Q (l : list Q) : Q := fold_left Qplus l 0%Q.
Definition count_Q {A} (l : list A) : Q := inject_Z (Z.of_nat (length l)).

(** The centre of what is settled, and the radius of the ring around it. *)
Definition ring_of (settled : list str) (c : Core) : Pos * Q :=
  match settled with
  | [] => ((0, 0), 200)%Q
  | _ => let '((x1, y1), (w, h)) := boundingBox c settled in
         ((x1 + w / 2, y1 + h / 2), Qmax 200 (w / 2 + 140))%Q
  end.

Definition beside (fresh : list str) (ring : Pos * Q) (k n : nat) (c : Core) (i : str) : Pos :=
  let angle := (inject_Z (Z.of_nat k) * 2 * pi / inject_Z (Z.of_nat n))%Q in
  match List.filter (fun m => negb (bool_decide (m ∈ fresh))) (neighborhood c i) with
  | [] => (ring.1.1 + cos angle * ring.2, ring.1.2 + sin angle * ring.2)%Q
  | anchors => (sum_Q (map (fun m => (position c m).1) anchors) / count_Q anchors + cos angle * NEW_NODE_OFFSET,
                sum_Q (map (fun m => (position c m).2) anchors) / count_Q anchors + sin angle * NEW_NODE_OFFSET)%Q
  end.

Definition side_at (c : Core) (i : str) : Z := match node_data c i with Some d => n_side d | None => 0%Z end.
Definition depth_at (c : Core) (i : str) : Z := match node_data c i with Some d => n_depth d | None => (-1)%Z end.
Definition same_column (c : Core) (i m : str) : bool := (side_at c m =? side_at c i)%Z && (depth_at c m =? depth_at c i)%Z.

(** The lowest of some nodes: the first of the greatest [y]. *)
Definition lower (c : Core) (best m : str) : str :=
  if Qlt_le_dec (position c best).2 (position c m).2 then m else best.
Definition lowest (c : Core) (m : str) (ms : list str) : str := fold_left (lower c) ms m.

Definition outermost (c : Core) (side : Z) (settled : list str) : Q :=
  fold_left Qmax (map (fun m => Qabs (position c m).1) (List.filter (fun m => (side_at c m =? side)%Z) settled)) 0%Q.

Definition lane_spot (settled : list str) (c : Core) (i : str) : Pos :=
  match List.filter (same_column c i) settled with
  | m :: ms => let low := lowest c m ms in ((position c low).1, (position c low).2 + inject_Z LANE_ROW)%Q
  | [] => let side := if (side_at c i =? 0)%Z then 1%Z else side_at c i in
          (inject_Z side * (outermost c side settled + inject_Z LANE_GAP + inject_Z LANE_COL), 0)%Q
  end.

Definition lane_step (st : list str * Core) (i : str) : list str * Core :=
  (st.1 ++ [i], set_position i (lane_spot st.1 st.2 i) st.2).

(** Each arrival under the lowest of its column, the arrivals before it included. *)
Definition placeInLanes (fresh : list str) (c : Core) : Core :=
  (fold_left lane_step (sort_str fresh)
     (List.filter (fun i => negb (bool_decide (i ∈ fresh))) (entityNodes c), c)).2.

Definition ring_step (fresh : list str) (ring : Pos * Q) (n : nat) (st : nat * Core) (i : str) : nat * Core :=
  (S st.1, match node_data st.2 i with
           | Some _ => set_position i (beside fresh ring st.1 n st.2 i) st.2
           | None => st.2
           end).

Definition placeNewNodes (fresh : list str) (c : Core) : Core :=
  match fresh with
  | [] => c
  | _ => if hasLanes c then placeInLanes fresh c
         else let settled := List.filter (fun i => negb (bool_decide (i ∈ fresh))) (node_ids c) in
              (fold_left (ring_step fresh (ring_of settled c) (length fresh)) (sort_str fresh) (O, c)).2
  end.

(** What is kept of an arrangement, and how it is put back: a position that is no number is
    left out. *)
Definition snapshotPositions (c : Core) : list (str * Pos) := map (fun i => (i, position c i)) (entityNodes c).

Definition finite_pos (o : option (option Q * option Q)) : option Pos :=
  match o with Some (Some x, Some y) => Some (x, y) | _ => None end.

Definition restore_step (saved : str -> option (option Q * option Q)) (st : list str * Core) (i : str) : list str * Core :=
  match finite_pos (saved i) with
  | Some p => (st.1 ++ [i], set_position i p st.2)
  | None => st
  end.

Definition restoreSavedPositions (saved : option (str -> option (option Q * option Q))) (c : Core) : list str * Core :=
  match saved with
  | None => ([], c)
  | Some s => fold_left (restore_step s) (entityNodes c) ([], c)
  end.

Definition group_prefix : str := "group:".

(** A team opened or folded: a group that vanished, or one that arrived. *)
Definition regrouped (next : list GraphNode) (before fresh : list str) : bool :=
  existsb (fun i => starts_with group_prefix i && negb (bool_decide (i ∈ map el_id (build next)))) before ||
  existsb (starts_with group_prefix) fresh.

(** Lanes are laid out again when a team was opened or folded, or nobody arranged them. *)
Definition relaid (next : list GraphNode) (userAdjusted : bool) (before : list str) (c : Core) : bool :=
  hasLanes c && (regrouped next before (arrivals before c) || negb userAdjusted).

Definition applyTopology (next : list GraphNode) (userAdjusted : bool) (c : Core) : Core :=
  let before := node_ids c in
  let c1 := refresh next c in
  let fresh := arrivals before c1 in
  if relaid next userAdjusted before c1 then layout c1 else placeNewNodes fresh c1.

(** A pin on what left the graph is dropped. *)
Definition pin_after (c : Core) (pin : option str) : option str :=
  match pin with Some p => if truthy p && negb (has c p) then None else Some p | None => None end.

(** *** What the laws give *)
Context `{!CytoscapeLaws}.

Lemma node_in_spec els i d : NoDup (map el_id els) -> node_in els i = Some d <-> ENode d ∈ els /\ n_id d = i.
Proof.
  unfold node_in. induction els as [|e els IH]; intros N; simpl; [set_solver|]. apply NoDup_cons in N as [Ne N].
  rewrite elem_of_cons. destruct (decide (el_id e = i)) as [<-|E].
  - rewrite eqb_refl. destruct e as [d'|d']; simpl; split.
    + intros [= ->]. auto.
    + intros [[[= ->]|I] E]; [done|]. exfalso. apply Ne. simpl. rewrite <- E. by apply (list_elem_of_fmap_2 el_id _ (ENode d)).
    + done.
    + intros [[?|I] E]; [done|]. exfalso. apply Ne. simpl. rewrite <- E. by apply (list_elem_of_fmap_2 el_id _ (ENode d)).
  - rewrite bool_decide_eq_false_2 by done. rewrite IH by done. split; [tauto|]. intros [[<-|?] ?]; [done|tauto].
Qed.

Lemma edge_in_spec els i d : NoDup (map el_id els) -> edge_in els i = Some d <-> EEdge d ∈ els /\ e_id d = i.
Proof.
  unfold edge_in. induction els as [|e els IH]; intros N; simpl; [set_solver|]. apply NoDup_cons in N as [Ne N].
  rewrite elem_of_cons. destruct (decide (el_id e = i)) as [<-|E].
  - rewrite eqb_refl. destruct e as [d'|d']; simpl; split.
    + done.
    + intros [[?|I] E]; [done|]. exfalso. apply Ne. simpl. rewrite <- E. by apply (list_elem_of_fmap_2 el_id _ (EEdge d)).
    + intros [= ->]. auto.
    + intros [[[= ->]|I] E]; [done|]. exfalso. apply Ne. simpl. rewrite <- E. by apply (list_elem_of_fmap_2 el_id _ (EEdge d)).
  - rewrite bool_decide_eq_false_2 by done. rewrite IH by done. split; [tauto|]. intros [[<-|?] ?]; [done|tauto].
Qed.

Lemma has_false c i : has c i = false <-> node_data c i = None /\ edge_data c i = None.
Proof.
  unfold has. rewrite orb_false_iff, !bool_decide_eq_false. rewrite !eq_None_not_Some. done.
Qed.

(** The elements given agree with what is drawn: an id drawn as a node (an edge) is given as
    one, and a drawn edge runs where the given one does. *)
Record agrees (els : list Element) (c : Core) : Prop := {
  ag_ids : NoDup (map el_id els);
  ag_node : forall d, ENode d ∈ els -> edge_data c (n_id d) = None;
  ag_edge : forall d, EEdge d ∈ els -> node_data c (e_id d) = None;
  ag_ends : forall d d0, EEdge d ∈ els -> edge_data c (e_id d) = Some d0 ->
    e_source d0 = e_source d /\ e_target d0 = e_target d;
  ag_closed : forall d, EEdge d ∈ els -> exists a b, ENode a ∈ els /\ ENode b ∈ els /\ n_id a = e_source d /\ n_id b = e_target d;
  ag_parent : forall d p, ENode d ∈ els -> n_parent d = Some p -> exists q, ENode q ∈ els /\ n_id q = p /\ n_parent q = None }.

Definition added_to (els : list Element) (c : Core) : Core :=
  match List.filter (fun e => negb (has c (el_id e))) els with [] => c | added => add added c end.

Lemma nodup_filter (p : Element -> bool) els : NoDup (map el_id els) -> NoDup (map el_id (List.filter p els)).
Proof. intros N. eapply sublist_NoDup; [exact N|]. apply (fmap_sublist el_id), filter_sublist. Qed.

Lemma added_law els c :
  (forall e, e ∈ List.filter (fun e => negb (has c (el_id e))) els -> node_data c (el_id e) = None /\ edge_data c (el_id e) = None).
Proof. intros e [_ E]%elem_of_lfilter. apply negb_true_iff in E. by apply has_false. Qed.

Lemma added_node els c i :
  agrees els c ->
  node_data (added_to els c) i = match node_data c i with Some d => Some d | None => node_in els i end.
Proof.
  intros A. set (l := List.filter (fun e => negb (has c (el_id e))) els).
  assert (Hl : match node_in l i with Some d => Some d | None => node_data c i end =
               match node_data c i with Some d => Some d | None => node_in els i end).
  { destruct (node_in l i) as [d|] eqn:E.
    - apply node_in_spec in E as [E Ei]; [|apply nodup_filter, A]. apply elem_of_lfilter in E as [E Hn].
      apply negb_true_iff, has_false in Hn as [Hn _]. simpl in Hn. rewrite Ei in Hn. rewrite Hn. symmetry.
      apply node_in_spec; [apply A|done].
    - destruct (node_data c i) as [d|] eqn:Ec; [done|]. symmetry. destruct (node_in els i) as [d|] eqn:Ed; [|done].
      apply node_in_spec in Ed as [Ed Ei]; [|apply A]. rewrite <- E. symmetry. apply node_in_spec; [apply nodup_filter, A|].
      split; [|done]. apply elem_of_lfilter. split; [done|]. apply negb_true_iff, has_false. simpl. rewrite Ei. split; [done|].
      rewrite <- Ei. by apply (ag_node _ _ A). }
  unfold added_to. fold l. destruct l as [|e l'] eqn:El; [by rewrite <- Hl|]. rewrite <- El in *.
  rewrite add_node; [done|apply nodup_filter, A|apply added_law].
Qed.

Lemma added_edge els c i :
  agrees els c ->
  edge_data (added_to els c) i = match edge_data c i with Some d => Some d | None => edge_in els i end.
Proof.
  intros A. set (l := List.filter (fun e => negb (has c (el_id e))) els).
  assert (Hl : match edge_in l i with Some d => Some d | None => edge_data c i end =
               match edge_data c i with Some d => Some d | None => edge_in els i end).
  { destruct (edge_in l i) as [d|] eqn:E.
    - apply edge_in_spec in E as [E Ei]; [|apply nodup_filter, A]. apply elem_of_lfilter in E as [E Hn].
      apply negb_true_iff, has_false in Hn as [_ Hn]. simpl in Hn. rewrite Ei in Hn. rewrite Hn. symmetry.
      apply edge_in_spec; [apply A|done].
    - destruct (edge_data c i) as [d|] eqn:Ec; [done|]. symmetry. destruct (edge_in els i) as [d|] eqn:Ed; [|done].
      apply edge_in_spec in Ed as [Ed Ei]; [|apply A]. rewrite <- E. symmetry. apply edge_in_spec; [apply nodup_filter, A|].
      split; [|done]. apply elem_of_lfilter. split; [done|]. apply negb_true_iff, has_false. simpl. rewrite Ei. split; [|done].
      rewrite <- Ei. by apply (ag_edge _ _ A). }
  unfold added_to. fold l. destruct l as [|e l'] eqn:El; [by rewrite <- Hl|]. rewrite <- El in *.
  rewrite add_edge; [done|apply nodup_filter, A|apply added_law].
Qed.

(** A node that is no box is left one, and where it is. *)
Definition stays (i : str) (c c' : Core) : Prop := leaf c i -> leaf c' i /\ position c' i = position c i.

#[global] Instance stays_preorder i : PreOrder (stays i).
Proof. split; [done|]. intros a b c H1 H2 L. destruct (H1 L) as [L1 E1], (H2 L1) as [L2 E2]. split; [done|congruence]. Qed.

Definition no_box (els : list Element) (i : str) : Prop := forall d, ENode d ∈ els -> n_parent d <> Some i.

Lemma added_position els c i : agrees els c -> node_data c i <> None -> no_box els i -> stays i c (added_to els c).
Proof.
  intros A E B L. assert (leaf (added_to els c) i) as L'.
  { intros j d. rewrite added_node by done. destruct (node_data c j) as [d0|] eqn:Ej.
    - intros [= ->]. by apply (L j).
    - intros [Hd _]%node_in_spec; [by apply B|apply A]. }
  split; [done|]. revert L'. unfold added_to. set (l := List.filter _ els).
  assert (NoDup (map el_id l)) as Nl by (apply nodup_filter, A). pose proof (added_law els c) as Al. fold l in Al.
  destruct l; [done|]. intros L'. by apply add_position.
Qed.

Lemma with_parent_same d p : n_parent d = p -> with_parent p d = d.
Proof. intros <-. by destruct d. Qed.

Lemma rehome_node c d j :
  node_data (rehome c (ENode d)) j = if n_id d === j then with_parent (n_parent d) <$> node_data c j else node_data c j.
Proof.
  unfold rehome. destruct (node_data c (n_id d)) as [d0|] eqn:E.
  - destruct (decide (n_parent d0 = n_parent d)) as [P|P].
    + rewrite (bool_decide_eq_true_2 (n_parent d0 = _)) by done. simpl. case_bool_decide as J; [|done]. subst j.
      rewrite E. simpl. by rewrite with_parent_same.
    + rewrite (bool_decide_eq_false_2 (n_parent d0 = _)) by done. simpl. apply move_node.
  - case_bool_decide as J; [|done]. subst j. by rewrite E.
Qed.

Lemma rehome_other c e j :
  edge_data (rehome c e) j = edge_data c j.
Proof.
  unfold rehome. destruct e as [d|d]; [|done]. destruct (node_data c (n_id d)); [|done].
  destruct (negb _); [|done]. by rewrite move_edge.
Qed.

Lemma rehome_position c e i : no_box [e] i -> stays i c (rehome c e).
Proof.
  intros B L. destruct e as [d|d]; [|done].
  assert (leaf (rehome c (ENode d)) i) as L'.
  { intros j d'. rewrite rehome_node. case_bool_decide as J; [|by apply L]. destruct (node_data c j); [|done].
    intros [= <-]. apply (B d). by apply elem_of_cons; left. }
  split; [done|]. revert L'. unfold rehome. destruct (node_data c (n_id d)); [|done]. destruct (negb _); [|done].
  intros L'. by apply move_position.
Qed.

Lemma rehome_all_position els c i : no_box els i -> stays i c (fold_left rehome els c).
Proof.
  revert c. induction els as [|e els IH]; intros c B; [done|]. simpl. etrans; [apply (rehome_position c e)|apply IH].
  - intros d E. apply B. apply elem_of_cons. left. by apply list_elem_of_singleton in E.
  - intros d E. apply B. apply elem_of_cons. by right.
Qed.

Lemma rehome_all els c i :
  NoDup (map el_id els) ->
  node_data (fold_left rehome els c) i =
    match node_in els i with Some d => with_parent (n_parent d) <$> node_data c i | None => node_data c i end /\
  edge_data (fold_left rehome els c) i = edge_data c i.
Proof.
  revert c. induction els as [|e els IH]; intros c N; [done|]. apply NoDup_cons in N as [Ne N]. simpl.
  destruct (IH (rehome c e) N) as (IH1 & IH2). pose proof (rehome_other c e i) as O1.
  rewrite IH1, IH2, O1. split; [|done]. unfold node_in at 2. simpl.
  destruct e as [d|d].
  - rewrite rehome_node. simpl in *. destruct (decide (n_id d = i)) as [<-|E].
    + rewrite eqb_refl. destruct (node_in els (n_id d)) as [d'|] eqn:Ed; [|done].
      apply node_in_spec in Ed as [Ed Ei]; [|done]. exfalso. apply Ne. rewrite <- Ei. by apply (list_elem_of_fmap_2 el_id _ (ENode d')).
    + by rewrite bool_decide_eq_false_2.
  - simpl in *. destruct (decide (e_id d = i)) as [<-|E]; [|by rewrite bool_decide_eq_false_2].
    rewrite eqb_refl. destruct (node_in els (e_id d)) as [d'|] eqn:Ed; [|done].
    apply node_in_spec in Ed as [Ed Ei]; [|done]. exfalso. apply Ne. rewrite <- Ei. by apply (list_elem_of_fmap_2 el_id _ (ENode d')).
Qed.

(** *** After reconciling: the elements given, as they were drawn or as they arrive *)
Lemma reconcile_eq els c :
  reconcile els c = remove (fun i => negb (bool_decide (i ∈ map el_id els))) (fold_left rehome els (added_to els c)).
Proof. unfold reconcile, added_to. by destruct (List.filter _ els). Qed.

Lemma kept els i : i ∈ map el_id els -> negb (bool_decide (i ∈ map el_id els)) = false.
Proof. intros E. by rewrite bool_decide_eq_true_2. Qed.

Lemma reconcile_node els c d :
  agrees els c -> ENode d ∈ els ->
  node_data (reconcile els c) (n_id d) = Some (with_parent (n_parent d) (nullish (node_data c (n_id d)) d)).
Proof.
  intros A E. rewrite reconcile_eq.
  assert (forall d, ENode d ∈ els -> n_id d ∈ map el_id els) as In by (intros x Hx; by apply (list_elem_of_fmap_2 el_id _ (ENode x))).
  assert (forall d, ENode d ∈ els -> node_data (fold_left rehome els (added_to els c)) (n_id d) =
    Some (with_parent (n_parent d) (nullish (node_data c (n_id d)) d))) as G.
  { intros x Hx. destruct (rehome_all els (added_to els c) (n_id x) (ag_ids _ _ A)) as [-> _].
    rewrite (proj2 (node_in_spec els (n_id x) x (ag_ids _ _ A)) (conj Hx eq_refl)). rewrite added_node by done.
    rewrite (proj2 (node_in_spec els (n_id x) x (ag_ids _ _ A)) (conj Hx eq_refl)). by destruct (node_data c (n_id x)). }
  apply remove_keeps_node; [by apply G|by apply kept, In|]. intros p Hp. cbn in Hp.
  destruct (ag_parent _ _ A d p E Hp) as (q & Eq & <- & Pq). split; [by apply kept, In|].
  intros d'. rewrite (G q Eq). intros [= <-]. done.
Qed.

Lemma reconcile_edge els c d :
  agrees els c -> EEdge d ∈ els ->
  edge_data (reconcile els c) (e_id d) = Some (nullish (edge_data c (e_id d)) d).
Proof.
  intros A E. destruct (ag_closed _ _ A d E) as (a & b & Ea & Eb & Sa & Sb).
  pose proof (reconcile_node els c a A Ea) as Na. pose proof (reconcile_node els c b A Eb) as Nb. rewrite reconcile_eq in *.
  assert (edge_data (fold_left rehome els (added_to els c)) (e_id d) = Some (nullish (edge_data c (e_id d)) d)) as G.
  { destruct (rehome_all els (added_to els c) (e_id d) (ag_ids _ _ A)) as (_ & ->). rewrite added_edge by done.
    rewrite (proj2 (edge_in_spec els (e_id d) d (ag_ids _ _ A)) (conj E eq_refl)). by destruct (edge_data c (e_id d)). }
  assert (e_source (nullish (edge_data c (e_id d)) d) = n_id a /\ e_target (nullish (edge_data c (e_id d)) d) = n_id b) as [Hs Ht].
  { destruct (edge_data c (e_id d)) as [d0|] eqn:E0; simpl; [|done]. destruct (ag_ends _ _ A d d0 E E0). split; congruence. }
  apply remove_keeps_edge; [done| |by rewrite Hs, Na|by rewrite Ht, Nb].
  apply kept. by apply (list_elem_of_fmap_2 el_id _ (EEdge d)).
Qed.

Lemma reconcile_only_edge els c d : agrees els c -> EEdge d ∈ els -> node_data (reconcile els c) (e_id d) = None.
Proof.
  intros A E. rewrite reconcile_eq. destruct (node_data _ _) as [x|] eqn:X; [|done]. apply remove_less_node in X.
  assert (node_in els (e_id d) = None) as N.
  { destruct (node_in els (e_id d)) as [y|] eqn:Y; [|done]. apply node_in_spec in Y as [Y Ey]; [|apply A].
    pose proof (proj2 (edge_in_spec els (e_id d) d (ag_ids _ _ A)) (conj E eq_refl)) as F.
    pose proof (proj2 (node_in_spec els (e_id d) y (ag_ids _ _ A)) (conj Y Ey)) as G.
    unfold edge_in in F. unfold node_in in G. destruct (List.find _ els) as [[?|?]|]; congruence. }
  destruct (rehome_all els (added_to els c) (e_id d) (ag_ids _ _ A)) as [H1 _]. rewrite H1, N, added_node, N in X by done.
  by rewrite (ag_edge _ _ A d E) in X.
Qed.

Lemma reconcile_gone els c i :
  i ∉ map el_id els -> node_data (reconcile els c) i = None /\ edge_data (reconcile els c) i = None.
Proof. intros E. rewrite reconcile_eq. apply remove_gone. by rewrite bool_decide_eq_false_2. Qed.

Lemma reconcile_position els c i :
  agrees els c -> node_data c i <> None -> node_data (reconcile els c) i <> None -> no_box els i -> stays i c (reconcile els c).
Proof.
  intros A E1 E2 B. rewrite reconcile_eq in *. etrans; [by apply (added_position els)|].
  etrans; [by apply (rehome_all_position els)|]. intros L. split; [|by apply remove_position].
  intros j d E. by apply (L j), (remove_less_node _ _ _ _ E).
Qed.

(** *** After patching *)
Lemma patch_one_node_spec ls c n j :
  node_data (patch_one_node ls c n) j =
    (if id n === j then patch_node (label_in ls (id n)) n <$> node_data c j else node_data c j) /\
  edge_data (patch_one_node ls c n) j = edge_data c j.
Proof.
  unfold patch_one_node. destruct (node_data c (id n)) as [d|] eqn:E.
  - rewrite set_node_data, set_node_edge. split; [|done]. cbn [n_id patch_node].
    rewrite (node_data_id _ _ _ E). case_bool_decide as J; [|done]. subst j. by rewrite E.
  - split; [|done]. case_bool_decide as J; [|done]. subst j. by rewrite E.
Qed.

Lemma patch_nodes ls ns c i :
  NoDup (map id ns) ->
  node_data (fold_left (patch_one_node ls) ns c) i =
    match List.find (fun n => id n === i) ns with
    | Some n => patch_node (label_in ls (id n)) n <$> node_data c i
    | None => node_data c i
    end /\
  edge_data (fold_left (patch_one_node ls) ns c) i = edge_data c i.
Proof.
  revert c. induction ns as [|n ns IH]; intros c N; [done|]. apply NoDup_cons in N as [Ne N]. simpl.
  destruct (IH (patch_one_node ls c n) N) as (-> & ->). destruct (patch_one_node_spec ls c n i) as (-> & ->).
  split; [|done]. destruct (decide (id n = i)) as [<-|E]; [|by rewrite bool_decide_eq_false_2].
  rewrite eqb_refl. destruct (List.find _ ns) as [m|] eqn:F; [|done]. apply List.find_some in F as [F1 F2].
  apply bool_decide_eq_true in F2. exfalso. apply Ne. rewrite <- F2. apply list_elem_of_fmap_2. by rewrite list_elem_of_In.
Qed.

Lemma patch_one_edge_spec c x j :
  edge_data (patch_one_edge c x) j =
    (if edge_id x.1 x.2 === j then patch_edge x.2 <$> edge_data c j else edge_data c j) /\
  node_data (patch_one_edge c x) j = node_data c j.
Proof.
  unfold patch_one_edge. destruct (edge_data c (edge_id x.1 x.2)) as [d|] eqn:E.
  - rewrite set_edge_data, set_edge_node. split; [|done]. cbn [e_id patch_edge].
    rewrite (edge_data_id _ _ _ E). case_bool_decide as J; [|done]. subst j. by rewrite E.
  - split; [|done]. case_bool_decide as J; [|done]. subst j. by rewrite E.
Qed.

Lemma patch_edges xs c i :
  NoDup (map (fun x => edge_id x.1 x.2) xs) ->
  edge_data (fold_left patch_one_edge xs c) i =
    match List.find (fun x => edge_id x.1 x.2 === i) xs with
    | Some x => patch_edge x.2 <$> edge_data c i
    | None => edge_data c i
    end /\
  node_data (fold_left patch_one_edge xs c) i = node_data c i.
Proof.
  revert c. induction xs as [|x xs IH]; intros c N; [done|]. apply NoDup_cons in N as [Ne N]. simpl.
  destruct (IH (patch_one_edge c x) N) as (-> & ->). destruct (patch_one_edge_spec c x i) as (-> & ->).
  split; [|done]. destruct (decide (edge_id x.1 x.2 = i)) as [<-|E]; [|by rewrite bool_decide_eq_false_2].
  rewrite eqb_refl. destruct (List.find _ xs) as [m|] eqn:F; [|done]. apply List.find_some in F as [F1 F2].
  apply bool_decide_eq_true in F2. exfalso. apply Ne. rewrite <- F2.
  apply (list_elem_of_fmap_2 (fun x => edge_id x.1 x.2)). by rewrite list_elem_of_In.
Qed.

Lemma stays_fold {A} (step : Core -> A -> Core) i xs c :
  (forall c x, stays i c (step c x)) -> stays i c (fold_left step xs c).
Proof. intros S. revert c. induction xs as [|x xs IH]; intros c; [done|]. simpl. etrans; [apply S|apply IH]. Qed.

Lemma patch_position next i c : stays i c (patchData next c).
Proof.
  transitivity (fold_left (patch_one_node (labels next)) next c); apply stays_fold; clear c.
  - intros c n L. split.
    + intros j d. destruct (patch_one_node_spec (labels next) c n j) as [-> _]. case_bool_decide; [|by apply L].
      destruct (node_data c j) as [d0|] eqn:E; [|done]. intros [= <-]. cbn. by apply (L j).
    + unfold patch_one_node. destruct (node_data _ _); [by apply set_node_position|done].
  - intros c x L. split.
    + intros j d. destruct (patch_one_edge_spec c x j) as [_ ->]. by apply L.
    + unfold patch_one_edge. destruct (edge_data _ _); [by apply set_edge_position|done].
Qed.

Lemma find_node (ns : list GraphNode) n :
  NoDup (map id ns) -> n ∈ ns -> List.find (fun m => id m === id n) ns = Some n.
Proof.
  induction ns as [|m ns IH]; intros N E; [set_solver|]. apply NoDup_cons in N as [Ne N]. simpl.
  apply elem_of_cons in E as [->|E]; [by rewrite eqb_refl|].
  rewrite bool_decide_eq_false_2, IH by (done || intros X; apply Ne; rewrite X; by apply list_elem_of_fmap_2). done.
Qed.

Lemma find_edge (xs : list (GraphNode * GraphEdge)) x :
  NoDup (map (fun x => edge_id x.1 x.2) xs) -> x ∈ xs ->
  List.find (fun y => edge_id y.1 y.2 === edge_id x.1 x.2) xs = Some x.
Proof.
  induction xs as [|y xs IH]; intros N E; [set_solver|]. apply NoDup_cons in N as [Ne N]. simpl.
  apply elem_of_cons in E as [->|E]; [by rewrite eqb_refl|].
  rewrite bool_decide_eq_false_2, IH by (done || intros X; apply Ne; rewrite X; by apply (list_elem_of_fmap_2 (fun x => edge_id x.1 x.2))). done.
Qed.

(** Only the places of some nodes changed, and with them those of their boxes. *)
Definition moves_only (l : list str) (c c' : Core) : Prop :=
  (node_ids c' = node_ids c /\ edge_ids c' = edge_ids c) /\ (forall i, node_data c' i = node_data c i /\ edge_data c' i = edge_data c i) /\
  forall i, i ∉ l -> leaf c i -> position c' i = position c i.

Lemma moves_leaf l c c' i : moves_only l c c' -> leaf c i -> leaf c' i.
Proof. intros (_ & M & _) L j d. destruct (M j) as [-> _]. apply L. Qed.

#[global] Instance moves_only_preorder l : PreOrder (moves_only l).
Proof.
  split; [done|]. intros a b c M M'. pose proof M as (H1 & H2 & H3). pose proof M' as (H4 & H5 & H6). split; [|split].
  - destruct H1, H4. split; congruence.
  - intros i. destruct (H2 i), (H5 i). split; congruence.
  - intros i N L. rewrite H6, H3; [done..|]. by apply (moves_leaf l a).
Qed.

Lemma moves_one l i p c : i ∈ l -> leaf c i -> moves_only l c (set_position i p c).
Proof.
  intros E L. split; [apply set_position_ids|split].
  - intros j. by rewrite set_position_node, set_position_edge.
  - intros j N Lj. apply set_position_other; [by intros ->|done|done].
Qed.

Lemma moves_fold {A} (step : A * Core -> str -> A * Core) l ids st :
  (forall st i, i ∈ l -> leaf st.2 i -> moves_only l st.2 (step st i).2) -> (forall i, i ∈ ids -> i ∈ l) ->
  (forall i, i ∈ l -> leaf st.2 i) -> moves_only l st.2 (fold_left step ids st).2.
Proof.
  intros Hs. revert st. induction ids as [|i ids IH]; intros st Hl L; [done|]. simpl.
  assert (i ∈ l) as E by (apply Hl, elem_of_cons; by left). pose proof (Hs st i E (L i E)) as M.
  etrans; [exact M|]. apply IH; [intros j Hj; apply Hl, elem_of_cons; by right|]. intros j Hj.
  eapply moves_leaf; [exact M|]. by apply L.
Qed.

Lemma sorted_in fresh i : i ∈ sort_str fresh -> i ∈ fresh.
Proof. unfold sort_str. by rewrite elem_of_sort_by. Qed.

Lemma lanes_move fresh c : (forall i, i ∈ fresh -> leaf c i) -> moves_only fresh c (placeInLanes fresh c).
Proof.
  intros L. apply (moves_fold lane_step fresh _ (_, c)); [|apply sorted_in|done]. intros st i E Li. by apply moves_one.
Qed.

Lemma place_moves fresh c : (forall i, i ∈ fresh -> leaf c i) -> moves_only fresh c (placeNewNodes fresh c).
Proof.
  unfold placeNewNodes. destruct fresh as [|a fresh]; [done|]. intros L. destruct (hasLanes c); [by apply lanes_move|].
  apply (moves_fold (ring_step _ _ _) (a :: fresh) _ (O, c)); [|apply sorted_in|done].
  intros st i E Li. unfold ring_step. simpl. destruct (node_data _ _); [by apply moves_one|done].
Qed.

(** *** The elements of a graph *)
Lemma build_node ns n : n ∈ ns -> ENode (node_data_of focusId (label_in (labels ns) (id n)) n) ∈ build ns.
Proof.
  intros E. unfold buildElements, node_elements. apply elem_of_app. left.
  by apply (list_elem_of_fmap_2 (fun n => ENode (node_data_of focusId (label_in (labels ns) (id n)) n))).
Qed.

Lemma build_edge ns d :
  EEdge d ∈ build ns <-> exists n e, n ∈ ns /\ e ∈ edges n /\ targetId e ∈ map id ns /\ d = edge_data_of n e.
Proof.
  unfold buildElements, node_elements, edge_elements. rewrite elem_of_app, elem_of_concat. split.
  - intros [E|(l & E & Hl)]; [by apply list_elem_of_fmap in E as (? & ? & _)|].
    apply list_elem_of_fmap in Hl as (n & -> & Hn). apply list_elem_of_fmap in E as (e & [= ->] & He).
    apply elem_of_lfilter in He as [He Ht]. apply bool_decide_eq_true in Ht. eauto 10.
  - intros (n & e & Hn & He & Ht & ->). right.
    exists (map (fun e => EEdge (edge_data_of n e)) (List.filter (fun e => bool_decide (targetId e ∈ map id ns)) (edges n))). split.
    + apply (list_elem_of_fmap_2 (fun e => EEdge (edge_data_of n e))), elem_of_lfilter. by rewrite bool_decide_eq_true.
    + by apply (list_elem_of_fmap_2 (fun n => map (fun e => EEdge (edge_data_of n e)) (List.filter (fun e => bool_decide (targetId e ∈ map id ns)) (edges n)))).
Qed.

Lemma build_node_inv ns d :
  ENode d ∈ build ns -> exists n, n ∈ ns /\ d = node_data_of focusId (label_in (labels ns) (id n)) n.
Proof.
  unfold buildElements, node_elements, edge_elements. rewrite elem_of_app, elem_of_concat.
  intros [E|(l & E & Hl)]; [apply list_elem_of_fmap in E as (n & [= ->] & Hn); eauto|].
  apply list_elem_of_fmap in Hl as (n & -> & Hn). by apply list_elem_of_fmap in E as (e & ? & He).
Qed.

(** A graph that can be drawn over what is drawn: no id is used twice, a box is a node in no
    box, and what is drawn under an id is of its kind and runs between the same nodes. *)
Record drawable (next : list GraphNode) (c : Core) : Prop := {
  dr_ids : NoDup (map el_id (build next));
  dr_edges : NoDup (map (fun x => edge_id x.1 x.2) (all_edges next));
  dr_box : forall n p, n ∈ next -> some_text (parent n) = Some p ->
    exists q, q ∈ next /\ id q = p /\ some_text (parent q) = None /\ lane q = true;
  dr_apart : forall n e m, n ∈ next -> e ∈ edges n -> m ∈ next -> edge_id n e <> id m;
  dr_node : forall n, n ∈ next -> edge_data c (id n) = None;
  dr_edge : forall n e, n ∈ next -> e ∈ edges n -> node_data c (edge_id n e) = None /\
    forall d, edge_data c (edge_id n e) = Some d -> e_source d = id n /\ e_target d = targetId e }.

Lemma drawable_agrees next c : drawable next c -> agrees (build next) c.
Proof.
  intros [I E B _ N X]. constructor; [done|..].
  - intros d (n & Hn & ->)%build_node_inv. by apply N.
  - intros d (n & e & Hn & He & Ht & ->)%build_edge. by apply X.
  - intros d d0 (n & e & Hn & He & Ht & ->)%build_edge E0. by apply X.
  - intros d (n & e & Hn & He & Ht & ->)%build_edge. apply list_elem_of_fmap in Ht as (m & Et & Hm).
    eexists _, _. split_and!; [by apply build_node, Hn|by apply build_node, Hm|done|done].
  - intros d p (n & Hn & ->)%build_node_inv Hp. destruct (B n p Hn Hp) as (q & Hq & <- & Pq & _).
    eexists. split_and!; [by apply build_node, Hq|done|done].
Qed.

Lemma drawable_nodes next c : drawable next c -> NoDup (map id next).
Proof.
  intros [I _ _ _ _ _]. revert I. unfold buildElements. rewrite map_app. intros [I _]%NoDup_app. revert I. unfold node_elements.
  by rewrite map_map.
Qed.

(** What a node holds after a refresh that finds it drawn with [old], or not drawn: of one that
    stays, whether it stands for a group, a lane, something external or the focus, and its
    reason, are those it was drawn with. *)
Definition refreshed (old : option NodeData) (x : NodeData) : NodeData :=
  match old with
  | None => x
  | Some d => {| n_id := n_id d; n_serviceName := n_serviceName x; n_label := n_label x; n_box := n_box x;
                 n_fullName := n_fullName x; n_owner := n_owner x; n_depth := n_depth x; n_group := n_group d;
                 n_lane := n_lane d; n_side := n_side x; n_parent := n_parent x; n_status := n_status x;
                 n_reason := n_reason d; n_kind := n_kind x; n_external := n_external d; n_isFocus := n_isFocus d |}
  end.

(** The same for an edge, whose type and requiredness stay. *)
Definition refreshed_edge (old : option EdgeData) (x : EdgeData) : EdgeData :=
  match old with
  | None => x
  | Some d => {| e_id := e_id d; e_source := e_source d; e_target := e_target d; e_etype := e_etype d;
                 e_required := e_required d; e_drift := e_drift x; e_state := e_state x; e_refused := e_refused x;
                 e_label := e_label x |}
  end.

Lemma refresh_node next c n :
  drawable next c -> n ∈ next ->
  node_data (refresh next c) (id n) =
    Some (refreshed (node_data c (id n)) (node_data_of focusId (label_in (labels next) (id n)) n)).
Proof.
  intros D E. unfold refresh, patchData.
  destruct (patch_edges (all_edges next) (fold_left (patch_one_node (labels next)) next (reconcile (build next) c)) (id n) (dr_edges _ _ D)) as (_ & ->).
  destruct (patch_nodes (labels next) next (reconcile (build next) c) (id n) (drawable_nodes _ _ D)) as (-> & _).
  rewrite find_node by (done || by eapply drawable_nodes).
  pose proof (reconcile_node _ _ _ (drawable_agrees _ _ D) (build_node next n E)) as R. cbn [n_id node_data_of] in R. rewrite R. simpl.
  by destruct (node_data c (id n)).
Qed.

Lemma refresh_edge next c n e :
  drawable next c -> n ∈ next -> e ∈ edges n ->
  if bool_decide (targetId e ∈ map id next)
  then edge_data (refresh next c) (edge_id n e) = Some (refreshed_edge (edge_data c (edge_id n e)) (edge_data_of n e))
  else edge_data (refresh next c) (edge_id n e) = None.
Proof.
  intros D En Ee. unfold refresh, patchData.
  assert ((n, e) ∈ all_edges next) as Hx.
  { apply elem_of_concat. exists (map (pair n) (edges n)).
    split; [by apply (list_elem_of_fmap_2 (pair n))|by apply (list_elem_of_fmap_2 (fun n => map (pair n) (edges n)))]. }
  destruct (patch_edges (all_edges next) (fold_left (patch_one_node (labels next)) next (reconcile (build next) c)) (edge_id n e) (dr_edges _ _ D)) as (-> & _).
  pose proof (find_edge _ _ (dr_edges _ _ D) Hx) as F. cbn [fst snd] in F. rewrite F.
  destruct (patch_nodes (labels next) next (reconcile (build next) c) (edge_id n e) (drawable_nodes _ _ D)) as (_ & ->).
  case_bool_decide as T.
  - assert (EEdge (edge_data_of n e) ∈ build next) as Eb by (apply build_edge; eauto 10).
    pose proof (reconcile_edge _ _ _ (drawable_agrees _ _ D) Eb) as R. cbn [e_id edge_data_of] in R. rewrite R. simpl.
    by destruct (edge_data c (edge_id n e)).
  - assert (edge_id n e ∉ map el_id (build next)) as Nk.
    { intros (x & Ex & Hi)%list_elem_of_fmap. destruct x as [d|d].
      - apply build_node_inv in Hi as (m & Hm & ->). by apply (dr_apart _ _ D n e m).
      - apply build_edge in Hi as (m & e' & Hm & He' & Ht & ->). apply T.
        assert ((m, e') ∈ all_edges next) as Hy.
        { apply elem_of_concat. exists (map (pair m) (edges m)).
          split; [by apply (list_elem_of_fmap_2 (pair m))|by apply (list_elem_of_fmap_2 (fun n => map (pair n) (edges n)))]. }
        pose proof (find_edge _ _ (dr_edges _ _ D) Hy) as F'. cbn in F', Ex. rewrite <- Ex in F'. rewrite F in F'. by simplify_eq. }
    by rewrite (proj2 (reconcile_gone (build next) c _ Nk)).
Qed.
Lemma refresh_gone next c i :
  drawable next c -> i ∉ map el_id (build next) -> node_data (refresh next c) i = None /\ edge_data (refresh next c) i = None.
Proof.
  intros D N. unfold refresh, patchData.
  destruct (patch_edges (all_edges next) (fold_left (patch_one_node (labels next)) next (reconcile (build next) c)) i (dr_edges _ _ D)) as (-> & ->).
  destruct (patch_nodes (labels next) next (reconcile (build next) c) i (drawable_nodes _ _ D)) as (-> & ->).
  destruct (reconcile_gone (build next) c i N) as [-> ->]. split; [by destruct (List.find _ next)|by destruct (List.find _ (all_edges next))].
Qed.

(** Every node drawn after a refresh is one of the next graph. *)
Lemma refresh_nodes next c i d :
  drawable next c -> node_data (refresh next c) i = Some d -> exists n, n ∈ next /\ id n = i /\ n_parent d = some_text (parent n).
Proof.
  intros D E. destruct (decide (i ∈ map el_id (build next))) as [(x & -> & Hx)%list_elem_of_fmap|N];
    [|by rewrite (proj1 (refresh_gone next c i D N)) in E].
  destruct x as [y|y].
  - apply build_node_inv in Hx as (n & Hn & ->). exists n.
    cbn [el_id n_id node_data_of] in E. rewrite (refresh_node next c n D Hn) in E. injection E as <-.
    split_and!; [done..|]. by destruct (node_data c (id n)).
  - exfalso. pose proof Hx as (n & e & Hn & He & Ht & ->)%build_edge. cbn [el_id e_id edge_data_of] in E. revert E.
    unfold refresh, patchData.
    destruct (patch_edges (all_edges next) (fold_left (patch_one_node (labels next)) next (reconcile (build next) c)) (edge_id n e) (dr_edges _ _ D)) as (_ & ->).
    destruct (patch_nodes (labels next) next (reconcile (build next) c) (edge_id n e) (drawable_nodes _ _ D)) as (-> & _).
    pose proof (reconcile_only_edge _ _ _ (drawable_agrees _ _ D) Hx) as R. cbn [e_id edge_data_of] in R. rewrite R.
    by destruct (List.find _ next).
Qed.

Lemma same_node next c n m : drawable next c -> n ∈ next -> m ∈ next -> id n = id m -> n = m.
Proof.
  intros D Hn Hm E. pose proof (find_node next n (drawable_nodes _ _ D) Hn) as F. rewrite E in F.
  rewrite (find_node next m (drawable_nodes _ _ D) Hm) in F. by simplify_eq.
Qed.

(** An entity of the next graph is no box. *)
Lemma refresh_leaf next c n : drawable next c -> n ∈ next -> lane n = false -> leaf (refresh next c) (id n).
Proof.
  intros D Hn Ln i d E P. destruct (refresh_nodes next c i d D E) as (m & Hm & _ & Pm). rewrite P in Pm. symmetry in Pm.
  destruct (dr_box _ _ D m _ Hm Pm) as (q & Hq & Eq & _ & Lq). rewrite (same_node next c q n) in Lq by done. congruence.
Qed.

Lemma arrival_leaf next c i : drawable next c -> i ∈ arrivals (node_ids c) (refresh next c) -> leaf (refresh next c) i.
Proof.
  intros D [[Ei L]%elem_of_lfilter N]%elem_of_lfilter. apply node_ids_spec in Ei as [d E].
  destruct (refresh_nodes next c i d D E) as (n & Hn & <- & _). apply refresh_leaf; [done..|].
  assert (node_data c (id n) = None) as X.
  { apply eq_None_not_Some. rewrite <- node_ids_spec. by case_bool_decide. }
  unfold is_lane in L. rewrite (refresh_node next c n D Hn), X in L. by apply negb_true_iff in L.
Qed.

(** The same elements, wherever they are. *)
Definition same_data (c c' : Core) : Prop :=
  node_ids c' = node_ids c /\ edge_ids c' = edge_ids c /\ forall i, node_data c' i = node_data c i /\ edge_data c' i = edge_data c i.

Lemma moves_same l c c' : moves_only l c c' -> same_data c c'.
Proof. intros ([A B] & E & _). done. Qed.

(** A layout changes nothing but where elements are. *)
Definition only_moves : Prop := forall c, same_data c (layout c).

Lemma apply_moves next ua c : drawable next c -> only_moves ->
  same_data (refresh next c) (applyTopology next ua c) /\
  (relaid next ua (node_ids c) (refresh next c) = false ->
     moves_only (arrivals (node_ids c) (refresh next c)) (refresh next c) (applyTopology next ua c)).
Proof.
  intros D L. unfold applyTopology. destruct (relaid _ _ _ _); [split; [apply L|done]|].
  assert (moves_only (arrivals (node_ids c) (refresh next c)) (refresh next c) (placeNewNodes (arrivals (node_ids c) (refresh next c)) (refresh next c))) as M
    by (apply place_moves; intros i; by apply arrival_leaf).
  split; [by eapply moves_same|done].
Qed.

Lemma refresh_position next c n :
  drawable next c -> is_Some (node_data c (id n)) -> n ∈ next -> lane n = false -> stays (id n) c (refresh next c).
Proof.
  intros D S E L. unfold refresh. etrans; [|apply patch_position].
  pose proof (reconcile_node _ _ _ (drawable_agrees _ _ D) (build_node next n E)) as R. cbn [n_id node_data_of] in R.
  apply reconcile_position; [by apply drawable_agrees| |by rewrite R|].
  - destruct S as [? ->]. done.
  - intros d (m & Hm & ->)%build_node_inv. cbn [n_parent node_data_of]. intros P.
    destruct (dr_box _ _ D m _ Hm P) as (q & Hq & Eq & _ & Lq). rewrite (same_node next c q n) in Lq by done. congruence.
Qed.

(** C12: After a refresh the canvas holds an element for every node of the new graph and every
    edge between them, and nothing else. One that has just come holds exactly the new graph's
    data. One that stayed takes over its name, label, box, owner, depth, side, status, kind and
    parent, an edge its state, refusal and words, and keeps the rest as it was first drawn:
    whether it is external, a group, a lane or the focus, its reason, an edge's type and
    requiredness. Unless the lanes are laid out again, an entity that stayed has not moved. *)
Theorem topology_applied next ua c (c' := applyTopology next ua c) :
  drawable next c -> only_moves ->
  (forall n, n ∈ next -> node_data c' (id n) =
     Some (refreshed (node_data c (id n)) (node_data_of focusId (label_in (labels next) (id n)) n))) /\
  (forall n e, n ∈ next -> e ∈ edges n -> targetId e ∈ map id next ->
     edge_data c' (edge_id n e) = Some (refreshed_edge (edge_data c (edge_id n e)) (edge_data_of n e))) /\
  (forall i, i ∉ map el_id (build next) -> node_data c' i = None /\ edge_data c' i = None) /\
  (relaid next ua (node_ids c) (refresh next c) = false ->
     forall n, n ∈ next -> lane n = false -> id n ∈ node_ids c -> leaf c (id n) -> position c' (id n) = position c (id n)).
Proof.
  intros D L. destruct (apply_moves next ua c D L) as [(_ & _ & M) K]. fold c' in M, K. split_and!.
  - intros n E. rewrite (proj1 (M _)). by apply refresh_node.
  - intros n e En Ee Et. pose proof (refresh_edge next c n e D En Ee) as R. rewrite bool_decide_eq_true_2 in R by done.
    by rewrite (proj2 (M _)).
  - intros i N. destruct (M i) as (-> & ->). by apply refresh_gone.
  - intros R n Hn Ln Ei Lf. destruct (refresh_position next c n D (proj1 (node_ids_spec c _) Ei) Hn Ln Lf) as [L2 <-].
    destruct (K R) as (_ & _ & P). apply P; [|done]. intros [_ Hl]%elem_of_lfilter. by rewrite bool_decide_eq_true_2 in Hl.
Qed.

(** *** Arrivals in lanes *)
Definition apart (c : Core) (i m : str) : Prop := (inject_Z LANE_ROW <= Qabs ((position c i).2 - (position c m).2))%Q.

Lemma apart_sym c i m : apart c i m -> apart c m i.
Proof. unfold apart. intros A. by rewrite Qabs_Qminus. Qed.

Lemma lower_ge c best m : ((position c best).2 <= (position c (lower c best m)).2 /\ (position c m).2 <= (position c (lower c best m)).2)%Q.
Proof. unfold lower. destruct (Qlt_le_dec _ _); split; lra. Qed.

Lemma lowest_ge c m ms j : j ∈ m :: ms -> ((position c j).2 <= (position c (lowest c m ms)).2)%Q.
Proof.
  unfold lowest. revert m j. induction ms as [|x ms IH]; intros m j E; simpl.
  - apply list_elem_of_singleton in E as ->. lra.
  - destruct (lower_ge c m x) as [H1 H2]. assert (lower c m x ∈ lower c m x :: ms) as E0 by (apply elem_of_cons; by left).
    pose proof (IH (lower c m x) (lower c m x) E0) as H3. apply elem_of_cons in E as [->|[->|E]%elem_of_cons]; [lra..|].
    apply IH, elem_of_cons. by right.
Qed.

Lemma lane_spot_below settled c i m :
  m ∈ settled -> same_column c i m = true -> ((position c m).2 + inject_Z LANE_ROW <= (lane_spot settled c i).2)%Q.
Proof.
  intros E S. unfold lane_spot. assert (m ∈ List.filter (same_column c i) settled) as Em by (by apply elem_of_lfilter).
  destruct (List.filter _ settled) as [|a l]; [by apply elem_of_nil in Em|]. simpl. apply Qplus_le_compat; [|lra].
  by apply lowest_ge.
Qed.

Lemma same_column_moved l c c' i m : moves_only l c c' -> same_column c' i m = same_column c i m.
Proof.
  intros (_ & M & _). unfold same_column, side_at, depth_at. by rewrite (proj1 (M i)), (proj1 (M m)).
Qed.

(** The arrivals placed so far keep a row from all of their column. *)
Record spread (fresh : list str) (c : Core) (st : list str * Core) : Prop := {
  sp_moved : moves_only fresh c st.2;
  sp_leaf : forall j, j ∈ st.1 -> leaf c j;
  sp_apart : forall i m, i ∈ fresh -> i ∈ st.1 -> m ∈ st.1 -> i <> m -> same_column c i m = true -> apart st.2 i m }.

Lemma same_column_sym c i m : same_column c i m = same_column c m i.
Proof. unfold same_column. by rewrite (Z.eqb_sym (side_at c m)), (Z.eqb_sym (depth_at c m)). Qed.

Lemma spread_step fresh c st i :
  spread fresh c st -> i ∈ fresh -> i ∉ st.1 -> leaf c i -> is_Some (node_data c i) -> spread fresh c (lane_step st i).
Proof.
  intros [M L A] Ei Ns Li Si. set (p := lane_spot st.1 st.2 i).
  assert (leaf st.2 i) as Li' by (by apply (moves_leaf fresh c)).
  assert (forall m, m ∈ st.1 -> position (set_position i p st.2) m = position st.2 m) as Same.
  { intros m Hm. apply set_position_other; [by intros ->|done|]. apply (moves_leaf fresh c); [done|by apply L]. }
  assert (position (set_position i p st.2) i = p) as New.
  { apply set_position_same; [|done]. destruct M as (_ & M & _). by rewrite (proj1 (M i)). }
  assert (forall m, m ∈ st.1 -> same_column c i m = true -> apart (set_position i p st.2) i m) as Below.
  { intros m Hm Sm. unfold apart. rewrite New, Same by done. eapply Qle_trans; [|apply Qle_Qabs].
    rewrite <- (same_column_moved _ _ _ i m M) in Sm. pose proof (lane_spot_below _ _ _ _ Hm Sm) as B. fold p in B. lra. }
  constructor; cbn [lane_step fst snd]; fold p.
  - etrans; [exact M|]. by apply moves_one.
  - intros j [Hj| ->%list_elem_of_singleton]%elem_of_app; [by apply L|done].
  - intros a m Ha [Ia| ->%list_elem_of_singleton]%elem_of_app [Im| ->%list_elem_of_singleton]%elem_of_app Ne Sm.
    + unfold apart. rewrite !Same by done. by apply A.
    + apply apart_sym, Below; [done|]. by rewrite same_column_sym.
    + by apply Below.
    + done.
Qed.

(** In lanes, every arrival is placed a whole row away from every other entity of its
    column, those that arrived with it included. *)
Theorem lane_arrivals_clear fresh c i m :
  NoDup fresh -> (forall j, j ∈ fresh -> j ∈ entityNodes c) -> (forall j, j ∈ entityNodes c -> leaf c j) ->
  i ∈ fresh -> m ∈ entityNodes c -> i <> m -> same_column c i m = true -> apart (placeInLanes fresh c) i m.
Proof.
  intros N F L Ei Em Ne Sm. unfold placeInLanes. set (settled := List.filter _ (entityNodes c)).
  assert (forall ids st, spread fresh c st -> NoDup ids -> (forall j, j ∈ ids -> j ∈ fresh /\ j ∉ st.1) ->
    spread fresh c (fold_left lane_step ids st) /\ (fold_left lane_step ids st).1 = st.1 ++ ids) as G.
  { induction ids as [|j ids IH]; intros st S Nd Hj; [by rewrite app_nil_r|]. apply NoDup_cons in Nd as [Nj Nd]. simpl.
    destruct (Hj j) as [Fj Sj]; [apply elem_of_cons; by left|]. destruct (IH (lane_step st j)) as [S' ->].
    - apply spread_step; [done..|by apply L, F|]. apply node_ids_spec. by apply F, elem_of_lfilter in Fj as [Fj _].
    - done.
    - intros k Hk. destruct (Hj k) as [Fk Sk]; [apply elem_of_cons; by right|]. split; [done|]. cbn [lane_step fst].
      intros [?| ->%list_elem_of_singleton]%elem_of_app; done.
    - split; [done|]. cbn [lane_step fst]. by rewrite <- app_assoc. }
  destruct (G (sort_str fresh) (settled, c)) as [[_ _ A] E].
  - constructor; [done|..]; cbn [fst snd].
    + intros j [Hj _]%elem_of_lfilter. by apply L.
    + intros a b Ha [_ Hb]%elem_of_lfilter. by rewrite bool_decide_eq_true_2 in Hb.
  - unfold sort_str. by rewrite sort_by_Permutation.
  - intros j Hj%sorted_in. split; [done|]. cbn [fst]. intros [_ Hn]%elem_of_lfilter. by rewrite bool_decide_eq_true_2 in Hn.
  - rewrite E in A. cbn [fst] in A. apply A; [done|..|done|done]; apply elem_of_app.
    + right. unfold sort_str. by apply elem_of_sort_by.
    + destruct (decide (m ∈ fresh)) as [Fm|Fm]; [right; unfold sort_str; by apply elem_of_sort_by|].
      left. apply elem_of_lfilter. by rewrite bool_decide_eq_false_2.
Qed.
(** *** A kept arrangement *)
Lemma restore_fold s ids st i :
  (forall j, j ∈ ids -> leaf st.2 j /\ is_Some (node_data st.2 j)) -> leaf st.2 i ->
  position (fold_left (restore_step s) ids st).2 i =
    (if bool_decide (i ∈ ids) then nullish (finite_pos (s i)) (position st.2 i) else position st.2 i) /\
  (fold_left (restore_step s) ids st).1 = st.1 ++ List.filter (fun j => bool_decide (is_Some (finite_pos (s j)))) ids.
Proof.
  revert st. induction ids as [|j ids IH]; intros st Hl Li; [by rewrite app_nil_r|]. cbn [fold_left List.filter].
  assert (leaf st.2 j /\ is_Some (node_data st.2 j)) as [Lj Sj] by (apply Hl, elem_of_cons; by left).
  unfold restore_step at 2 4. destruct (finite_pos (s j)) as [p|] eqn:E.
  - assert (moves_only [j] st.2 (set_position j p st.2)) as M by (apply moves_one; [by apply elem_of_cons; left|done]).
    destruct (IH (st.1 ++ [j], set_position j p st.2)) as [-> ->]; cbn [fst snd].
    + intros k Hk. rewrite set_position_node. destruct (Hl k) as [Lk Sk]; [apply elem_of_cons; by right|].
      split; [by apply (moves_leaf [j] st.2)|done].
    + by apply (moves_leaf [j] st.2).
    + split; [|by rewrite <- app_assoc]. destruct (decide (j = i)) as [->|Ne].
      * rewrite (bool_decide_eq_true_2 (i ∈ i :: ids)) by (apply elem_of_cons; by left). rewrite E. cbn [nullish].
        rewrite set_position_same by done. by destruct (bool_decide _).
      * rewrite set_position_other by done. by rewrite (bool_decide_ext (i ∈ j :: ids) (i ∈ ids)) by (rewrite elem_of_cons; split; [by intros [->|?]|by right]).
  - destruct (IH st) as [-> ->]; [intros k Hk; apply Hl, elem_of_cons; by right|done|]. split; [|done].
    destruct (decide (j = i)) as [->|Ne].
    + rewrite E. cbn [nullish]. by destruct (bool_decide _), (bool_decide _).
    + by rewrite (bool_decide_ext (i ∈ j :: ids) (i ∈ ids)) by (rewrite elem_of_cons; split; [by intros [->|?]|by right]).
Qed.

Definition saved_of (l : list (str * Pos)) (i : str) : option (option Q * option Q) :=
  (fun p => (Some p.1, Some p.2)) <$> assoc i l.

Lemma assoc_snapshot c i : i ∈ entityNodes c -> assoc i (snapshotPositions c) = Some (position c i).
Proof.
  unfold snapshotPositions. generalize (entityNodes c). induction l as [|j l IH]; intros E; [by apply elem_of_nil in E|].
  simpl. destruct (decide (j = i)) as [->|Ne]; [by rewrite eqb_refl|]. rewrite bool_decide_eq_false_2 by congruence.
  apply IH. apply elem_of_cons in E as [->|?]; done.
Qed.
Lemma assoc_no_snapshot c i : i ∉ entityNodes c -> assoc i (snapshotPositions c) = None.
Proof. intros N. apply assoc_None. unfold keys, snapshotPositions. rewrite map_map. cbn [fst]. by rewrite map_id. Qed.

(** Put back over a graph, a kept arrangement places every entity it knows where that
    entity stood and names it as placed, and leaves every other where it is and unnamed. *)
Theorem arrangement_roundtrip c0 c i (r := restoreSavedPositions (Some (saved_of (snapshotPositions c0))) c) :
  (forall j, j ∈ entityNodes c -> leaf c j) -> i ∈ entityNodes c ->
  (i ∈ entityNodes c0 -> position r.2 i = position c0 i /\ i ∈ r.1) /\
  (i ∉ entityNodes c0 -> position r.2 i = position c i /\ i ∉ r.1).
Proof.
  intros L Ei. unfold r, restoreSavedPositions.
  destruct (restore_fold (saved_of (snapshotPositions c0)) (entityNodes c) ([], c) i) as [-> ->].
  - intros j Hj. split; [by apply L|]. apply node_ids_spec. by apply elem_of_lfilter in Hj as [Hj _].
  - by apply L.
  - rewrite bool_decide_eq_true_2 by done. rewrite app_nil_l, elem_of_lfilter, bool_decide_eq_true. unfold saved_of. split.
    + intros E0. rewrite (assoc_snapshot c0 i E0). simpl. split; [by destruct (position c0 i)|]. eauto.
    + intros E0. rewrite (assoc_no_snapshot c0 i E0). simpl. split; [done|]. intros [_ [? ?]]. done.
Qed.
End Refresh.

(** ** A graph drawn in memory: the laws can hold *)
Module Drawn.
Record drawing := { d_nodes : gmap str (NodeData * Pos); d_edges : gmap str EdgeData }.

Definition with_id (i : str) (d : NodeData) : NodeData :=
  {| n_id := i; n_serviceName := n_serviceName d; n_label := n_label d; n_box := n_box d;
     n_fullName := n_fullName d; n_owner := n_owner d; n_depth := n_depth d; n_group := n_group d; n_lane := n_lane d;
     n_side := n_side d; n_parent := n_parent d; n_status := n_status d; n_reason := n_reason d; n_kind := n_kind d;
     n_external := n_external d; n_isFocus := n_isFocus d |}.
Definition with_eid (i : str) (d : EdgeData) : EdgeData :=
  {| e_id := i; e_source := e_source d; e_target := e_target d; e_etype := e_etype d; e_required := e_required d;
     e_drift := e_drift d; e_state := e_state d; e_refused := e_refused d; e_label := e_label d |}.

Definition add_one (c : drawing) (e : Element) : drawing :=
  match e with
  | ENode d => {| d_nodes := <[n_id d := (d, (0, 0)%Q : Pos)]> (d_nodes c); d_edges := d_edges c |}
  | EEdge d => {| d_nodes := d_nodes c; d_edges := <[e_id d := d]> (d_edges c) |}
  end.

Definition add_all (els : list Element) (c : drawing) : drawing := fold_left add_one els c.

Definition stays_in (r : str -> bool) (x : str * (NodeData * Pos)) : bool :=
  negb (r x.1) && match n_parent x.2.1 with Some p => negb (r p) | None => true end.

Definition drop (r : str -> bool) (c : drawing) : drawing :=
  let ns := filter (fun x => stays_in r x = true) (d_nodes c) in
  {| d_nodes := ns;
     d_edges := filter (fun x => r x.1 = false /\ is_Some (ns !! e_source x.2) /\ is_Some (ns !! e_target x.2)) (d_edges c) |}.

#[export] Instance drawn : Cytoscape := {|
  Core := drawing;
  node_data c i := (fun x => with_id i x.1) <$> d_nodes c !! i;
  edge_data c i := with_eid i <$> d_edges c !! i;
  node_ids c := elements (dom (d_nodes c));
  edge_ids c := elements (dom (d_edges c));
  position c i := match d_nodes c !! i with Some x => x.2 | None => (0, 0)%Q end;
  neighborhood c i := omap (fun x => if e_source x.2 === i then Some (e_target x.2)
                                     else if e_target x.2 === i then Some (e_source x.2) else None) (map_to_list (d_edges c));
  boundingBox c l := ((0, 0), (0, 0))%Q;
  add := add_all;
  move i p c := {| d_nodes := alter (fun x => (with_parent p x.1, x.2)) i (d_nodes c); d_edges := d_edges c |};
  remove := drop;
  set_node d c := {| d_nodes := alter (fun x => (with_parent (n_parent x.1) d, x.2)) (n_id d) (d_nodes c); d_edges := d_edges c |};
  set_edge d c := {| d_nodes := d_nodes c; d_edges := alter (fun _ => d) (e_id d) (d_edges c) |};
  set_position i p c := {| d_nodes := alter (fun x => (x.1, p)) i (d_nodes c); d_edges := d_edges c |} |}.
Lemma add_lookup els c i :
  NoDup (map el_id els) ->
  d_nodes (add_all els c) !! i = match node_in els i with Some d => Some (d, (0, 0)%Q : Pos) | None => d_nodes c !! i end /\
  d_edges (add_all els c) !! i = match edge_in els i with Some d => Some d | None => d_edges c !! i end.
Proof.
  unfold add_all. revert c. induction els as [|e els IH]; intros c N; [done|]. apply NoDup_cons in N as [Ne N]. cbn [fold_left].
  destruct (IH (add_one c e) N) as [-> ->]. unfold node_in, edge_in. cbn [List.find].
  assert (forall x, List.find (fun e0 => el_id e0 === i) els = Some x -> el_id x = i /\ x ∈ els) as F.
  { intros x [F1 F2]%List.find_some. apply bool_decide_eq_true in F2. by rewrite list_elem_of_In. }
  destruct (decide (el_id e = i)) as [Ei|Ei].
  - rewrite bool_decide_eq_true_2 by done. destruct (List.find _ els) as [x|].
    { exfalso. apply Ne. destruct (F x eq_refl) as [<- Hx]. rewrite Ei. by apply list_elem_of_fmap_2. }
    destruct e as [d|d]; cbn [add_one d_nodes d_edges el_id] in *; subst i; split; try done; apply lookup_insert_eq.
  - rewrite bool_decide_eq_false_2 by done.
    destruct e as [d|d]; cbn [add_one d_nodes d_edges el_id] in *; rewrite ?lookup_insert_ne by done; done.
Qed.

Lemma with_id_same d : with_id (n_id d) d = d. Proof. by destruct d. Qed.
Lemma with_eid_same d : with_eid (e_id d) d = d. Proof. by destruct d. Qed.

#[export] Instance drawn_laws : CytoscapeLaws.
Proof.
  constructor; simpl.
  - intros c i d. destruct (_ !! i); [|done]. by intros [= <-].
  - intros c i d. destruct (_ !! i); [|done]. by intros [= <-].
  - intros c i. rewrite elem_of_elements, elem_of_dom. by destruct (_ !! i); split; intros [? ?].
  - intros els c i N _. destruct (add_lookup els c i N) as [-> _]. destruct (node_in els i) as [d|] eqn:E; [|done].
    unfold node_in in E. destruct (List.find _ els) as [[x|x]|] eqn:F; [|done..]. simplify_eq. apply List.find_some in F as [_ F].
    apply bool_decide_eq_true in F. simpl in *. subst i. by rewrite with_id_same.
  - intros els c i N _. destruct (add_lookup els c i N) as [_ ->]. destruct (edge_in els i) as [d|] eqn:E; [|done].
    unfold edge_in in E. destruct (List.find _ els) as [[x|x]|] eqn:F; [done| |done]. simplify_eq. apply List.find_some in F as [_ F].
    apply bool_decide_eq_true in F. simpl in *. subst i. by rewrite with_eid_same.
  - intros els c i N Hf S _ _. destruct (add_lookup els c i N) as [-> _]. destruct (node_in els i) as [d|] eqn:E; [|done].
    exfalso. apply S. unfold node_in in E. destruct (List.find _ els) as [x|] eqn:F; [|done]. apply List.find_some in F as [F1 F2].
    apply bool_decide_eq_true in F2. rewrite <- F2. apply Hf. by rewrite list_elem_of_In.
  - intros i p c j. rewrite lookup_alter. case_bool_decide as J; [subst j; rewrite decide_True by done|by rewrite decide_False].
    by destruct (_ !! i).
  - done.
  - intros i p c j _ _. rewrite lookup_alter. case_decide as J; [|done]. subst j. by destruct (d_nodes c !! i).
  - intros r c i R. rewrite !map_lookup_filter. split.
    + destruct (d_nodes c !! i); [|done]. simpl. unfold stays_in. simpl. rewrite R. done.
    + destruct (d_edges c !! i); [|done]. simpl. rewrite option_guard_False; [done|]. simpl. intros [? _]. congruence.
  - intros r c i d. rewrite map_lookup_filter. destruct (d_nodes c !! i); [|done]. simpl. by case_guard.
  - intros r c i d. rewrite map_lookup_filter. destruct (d_edges c !! i); [|done]. simpl. by case_guard.
  - intros r c i d E R P. rewrite map_lookup_filter. destruct (d_nodes c !! i) as [x|]; [|done]. simpl in *. simplify_eq.
    rewrite option_guard_True; [done|]. unfold stays_in. simpl. rewrite R. simpl in *. destruct (n_parent x.1) as [p|]; [|done].
    by rewrite (proj1 (P p eq_refl)).
  - intros r c i d E R S T. rewrite map_lookup_filter. destruct (d_edges c !! i) as [x|]; [|done]. simpl in *. simplify_eq. simpl in *.
    rewrite option_guard_True; [done|]. simpl. split_and!; [done|..]; apply not_eq_None_Some; intros X; rewrite X in *; done.
  - intros r c i _ S. rewrite map_lookup_filter in *. destruct (d_nodes c !! i); [|done]. simpl in *. by case_guard.
  - intros d c i. rewrite lookup_alter. case_bool_decide as J; [subst i; rewrite decide_True by done|by rewrite decide_False].
    destruct (_ !! n_id d); [|done]. simpl. by destruct d.
  - done.
  - intros d c i _. rewrite lookup_alter. case_decide as J; [|done]. subst i. by destruct (d_nodes c !! n_id d).
  - intros d c i. rewrite lookup_alter. case_bool_decide as J; [subst i; rewrite decide_True by done|by rewrite decide_False].
    destruct (_ !! e_id d); [|done]. simpl. by destruct d.
  - done.
  - done.
  - intros i p c j. rewrite lookup_alter. case_decide as J; [|done]. subst j. by destruct (d_nodes c !! i).
  - done.
  - intros i p c [? S] _. rewrite lookup_alter, decide_True by done. by destruct (_ !! i).
  - intros c i. rewrite elem_of_elements, elem_of_dom. by destruct (_ !! i); split; intros [? ?].
  - intros i p c. split; [|done]. f_equal. apply leibniz_equiv, dom_alter.
  - intros i p c j Ne _ _. by rewrite lookup_alter_ne.
Qed.

(** A lane with one service in it; then the service resolves, gains a dependency, and what it
    used is gone. *)
Definition node (i st : str) (es : list GraphEdge) (p : option str) (l : bool) : GraphNode :=
  {| id := i; serviceName := i; status := st; version := None; reason := None; kind := None; edges := es;
     depth := Some 1%Z; owner := None; group := None; side := Some 1%Z; lane := l; parent := p |}.
Definition edge (t : str) (st : option str) : GraphEdge :=
  {| targetId := t; required := true; type := None; driftStatus := None; edgeState := st; refused := false; label := None |}.

Definition before_graph : list GraphNode :=
  [node "lane" "" [] None true; node "pay" "external" [edge "old" None] (Some "lane") false; node "old" "Compliant" [] None false].
Definition next_graph : list GraphNode :=
  [node "lane" "" [] None true; node "pay" "Compliant" [edge "new" (Some "matched")] (Some "lane") false;
   node "new" "Compliant" [] (Some "lane") false].

Definition elements_of := buildElements label_break x7e x0a (fun s => s) (fun s => s) None.
Definition before_canvas : drawing :=
  set_position "old" (3, 4)%Q (set_position "pay" (1, 2)%Q (add (elements_of before_graph) {| d_nodes := ∅; d_edges := ∅ |})).
Definition apply_next : drawing -> drawing :=
  applyTopology label_break x7e x0a (fun s => s) (fun s => s) None (fun _ => 0%Q) (fun _ => 0%Q) 3%Q (fun c => c) next_graph true.

(** A refresh leaves whether a node is external as it was drawn. *)
Example external_stale :
  (n_status <$> node_data (apply_next before_canvas) "pay") = Some ("Compliant" : str) /\
  (n_external <$> node_data (apply_next before_canvas) "pay") = Some true /\
  (n_external <$> node_in (elements_of next_graph) "pay") = Some false.
Proof. vm_compute. done. Qed.

Lemma drawn_leaf (c : drawing) j : map_Forall (fun _ x => n_parent x.1 <> Some j) (d_nodes c) -> leaf c j.
Proof. intros M i d E. simpl in E. destruct (d_nodes c !! i) as [x|] eqn:X; [|done]. simpl in E. simplify_eq. by apply (M i x X). Qed.

Lemma next_drawable : drawable label_break x7e x0a (fun s => s) (fun s => s) None next_graph before_canvas.
Proof.
  assert (forall n, n ∈ next_graph -> n = node "lane" "" [] None true \/
    n = node "pay" "Compliant" [edge "new" (Some "matched")] (Some "lane") false \/ n = node "new" "Compliant" [] (Some "lane") false) as C.
  { intros n. unfold next_graph. rewrite !elem_of_cons, elem_of_nil. tauto. }
  constructor.
  - by_decide.
  - by_decide.
  - intros n p Hn Hp. exists (node "lane" "" [] None true). split; [by apply elem_of_cons; left|].
    destruct (C n Hn) as [->|[->| ->]]; vm_compute in Hp; simplify_eq; done.
  - intros n e m Hn He Hm. destruct (C n Hn) as [->|[->| ->]]; cbn [edges node] in He; rewrite ?elem_of_cons, ?elem_of_nil in He; [done| |done].
    destruct He as [->|[]]. by destruct (C m Hm) as [->|[->| ->]].
  - intros n Hn. by destruct (C n Hn) as [->|[->| ->]].
  - intros n e Hn He. destruct (C n Hn) as [->|[->| ->]]; cbn [edges node] in He; rewrite ?elem_of_cons, ?elem_of_nil in He; [done| |done].
    destruct He as [->|[]]. split; [done|]. intros d E. vm_compute in E. done.
Qed.

Lemma topology_applied_witness :
  (n_status <$> node_data (apply_next before_canvas) "pay") = Some ("Compliant" : str) /\
  position (apply_next before_canvas) ("pay" : str) = (1, 2)%Q /\ node_data (apply_next before_canvas) ("old" : str) = None.
Proof.
  destruct (topology_applied (Cy := drawn) label_break x7e x0a (fun s => s) (fun s => s) None (fun _ => 0%Q) (fun _ => 0%Q) 3%Q (fun c => c)
    next_graph true before_canvas) as (H1 & _ & H3 & H4).
  - exact next_drawable.
  - intros c. done.
  - split_and!.
    + etrans; [apply (f_equal (fmap n_status)), (H1 (node "pay" "Compliant" [edge "new" (Some "matched")] (Some "lane") false))|by vm_compute].
      by apply elem_of_cons; right; apply elem_of_cons; left.
    + etrans; [apply (fun R => H4 R (node "pay" "Compliant" [edge "new" (Some "matched")] (Some "lane") false))|vm_compute; reflexivity].
      * by vm_compute.
      * by apply elem_of_cons; right; apply elem_of_cons; left.
      * done.
      * by_decide.
      * apply drawn_leaf. by_decide.
    + apply H3. by_decide.
Defined.

(** What is drawn once the next graph is reconciled, its arrival not placed yet. *)
Definition next_canvas : drawing :=
  refresh label_break x7e x0a (fun s => s) (fun s => s) None next_graph before_canvas.

Lemma drawn_leaves (c : drawing) :
  Forall (fun j => map_Forall (fun _ x => n_parent x.1 <> Some j) (d_nodes c)) (entityNodes c) -> forall j, j ∈ entityNodes c -> leaf c j.
Proof. rewrite Forall_forall. intros F j E. by apply drawn_leaf, F. Qed.

Lemma lane_arrivals_clear_witness : apart (placeInLanes ["new" : str] next_canvas) "new" "pay".
Proof.
  apply (lane_arrivals_clear (Cy := drawn)).
  - by_decide.
  - intros j ->%list_elem_of_singleton. by_decide.
  - apply drawn_leaves. by_decide.
  - by_decide.
  - by_decide.
  - done.
  - by vm_compute.
Defined.

Lemma arrangement_roundtrip_witness :
  position (restoreSavedPositions (Some (saved_of (snapshotPositions before_canvas))) next_canvas).2 ("pay" : str) = (1, 2)%Q.
Proof.
  destruct (arrangement_roundtrip (Cy := drawn) before_canvas next_canvas "pay") as [H _].
  - apply drawn_leaves. by_decide.
  - by_decide.
  - etrans; [apply H; by_decide|vm_compute; reflexivity].
Defined.
End Drawn.
