(* ===== verification/GraphDim.v ===== *)
(** * What is faded on the canvas: [applyDimming], [spotlight], [ownerVisible],
    [fadeLegendHidden] and [LEGEND_SELECTORS] of [src/pkg/dashboard/frontend/src/lib/graph.ts]

    The graph is the elements as they are drawn. Cytoscape's traversals are a class with what
    its documentation says of them: [successors] and [predecessors] follow the arrows to the
    end, [neighborhood] one step either way; [walked] is an instance. *)

From stdpp Require Import base list sets relations.
From Stdlib Require Import Init.Byte ZArith Lia.
From S2P Require Import Prelude GraphCanvas.

Record Graph := { g_nodes : list NodeData; g_edges : list EdgeData }.

Definition mem (i : str) (l : list str) : bool := bool_decide (i ∈ l).

(** ** Traversals *)
Definition arrow (g : Graph) (a b : str) : Prop := exists e, e ∈ g_edges g /\ e_source e = a /\ e_target e = b.
Definition named (g : Graph) (i : str) : Prop := exists n, n ∈ g_nodes g /\ n_id n = i.

(** A drawn node with the nodes of its [successors] or [predecessors]; of nothing, nothing. *)
Class Traversals := {
  downstream : Graph -> str -> list str;
  upstream : Graph -> str -> list str;
  neighbors : Graph -> str -> list str;
  downstream_spec g i j : j ∈ downstream g i <-> named g i /\ rtc (arrow g) i j;
  upstream_spec g i j : j ∈ upstream g i <-> named g i /\ rtc (arrow g) j i;
  neighbors_spec g i j : i <> j -> j ∈ neighbors g i <-> arrow g i j \/ arrow g j i }.

(** ** Classes *)
Record Classes := { faded : list str; dep : list str; dependent : list str; hot : list str }.
Definition no_classes : Classes := {| faded := []; dep := []; dependent := []; hot := [] |}.
Definition fade (ids : list str) (c : Classes) : Classes :=
  {| faded := faded c ++ ids; dep := dep c; dependent := dependent c; hot := hot c |}.

Definition nodes_where (p : NodeData -> bool) (g : Graph) : list str := map n_id (List.filter p (g_nodes g)).
Definition edges_where (p : EdgeData -> bool) (g : Graph) : list str := map e_id (List.filter p (g_edges g)).

(** The edges at some nodes. *)
Definition touches (ids : list str) (e : EdgeData) : bool := mem (e_source e) ids || mem (e_target e) ids.

Definition spotlight `{Traversals} (g : Graph) (i : str) (c : Classes) : Classes :=
  let dn := downstream g i in
  let up := upstream g i in
  let in_succ e := mem (e_source e) dn in
  let in_pred e := mem (e_target e) up in
  let c := fade (nodes_where (fun n => negb (mem (n_id n) dn || mem (n_id n) up)) g ++
                 edges_where (fun e => negb (in_succ e || in_pred e)) g) c in
  {| faded := faded c; dep := dep c ++ edges_where in_succ g; dependent := dependent c ++ edges_where in_pred g;
     hot := hot c ++ nodes_where (fun n => n_id n === i) g |}.

Definition ownerVisible `{Traversals} (g : Graph) (owners : list str) : list str :=
  let vis := nodes_where (fun n => mem (n_serviceName n) owners) g in
  vis ++ concat (map (neighbors g) vis).

(** ** The legend *)
Inductive Selector := SelNode (p : NodeData -> bool) | SelEdge (p : EdgeData -> bool).

Definition LEGEND_SELECTORS : list (str * Selector) := [
  ("kind:service", SelNode (fun n => (n_kind n === "service") && negb (n_group n) && negb (n_lane n)));
  ("kind:group", SelNode n_group);
  ("kind:revision", SelNode (fun n => n_kind n === "revision"));
  ("kind:target", SelNode (fun n => n_kind n === "target"));
  ("rel:dependency", SelEdge (fun e => e_etype e === "dependency"));
  ("rel:runs", SelEdge (fun e => e_etype e === "runs"));
  ("rel:reference", SelEdge (fun e => e_etype e === "reference"));
  ("state:matched", SelEdge (fun e => e_state e === "matched"));
  ("state:expected-not-observed", SelEdge (fun e => e_state e === "expected-not-observed"));
  ("state:drift", SelEdge (fun e => e_state e === "drift"));
  ("state:insufficient", SelEdge (fun e => e_state e === "insufficient"));
  ("behavior:refused", SelEdge e_refused) ].

(** A key is one of the legend's own ([LEGEND_GROUPS] of the page), so the lookup in the
    table does not reach [Object.prototype]. *)
Definition fade_entry (g : Graph) (c : Classes) (key : str) : Classes :=
  match assoc key LEGEND_SELECTORS with
  | None => c
  | Some (SelNode p) =>
      let c := fade (nodes_where p g) c in
      if starts_with "kind:" key then fade (edges_where (touches (nodes_where p g)) g) c else c
  | Some (SelEdge p) => fade (edges_where p g) c
  end.

Definition fadeLegendHidden (g : Graph) (legendHidden : option (list str)) (c : Classes) : Classes :=
  match legendHidden with None => c | Some keys => fold_left (fade_entry g) keys c end.

(** ** Composing them *)
Record Dimming := { pinned : option str; owners : option (list str); filterHidden : option (list str); legendHidden : option (list str) }.

Definition is_set (o : option str) : option str := match o with Some s => if truthy s then Some s else None | None => None end.

Definition resting `{Traversals} (g : Graph) (d : Dimming) : Classes :=
  match owners d with
  | Some os =>
      let ids := ownerVisible g os in
      fade (nodes_where (fun n => negb (mem (n_id n) ids)) g ++
            edges_where (fun e => negb (touches (nodes_where (fun n => mem (n_id n) ids) g) e)) g) no_classes
  | None =>
      match filterHidden d with
      | Some h => fade (nodes_where (fun n => mem (n_id n) h) g ++
                        edges_where (touches (nodes_where (fun n => mem (n_id n) h) g)) g) no_classes
      | None => no_classes
      end
  end.

Definition applyDimming `{Traversals} (g : Graph) (d : Dimming) : Classes :=
  fadeLegendHidden g (legendHidden d)
    (match is_set (pinned d) with Some i => spotlight g i no_classes | None => resting g d end).

(** ** Correctness *)
Lemma mem_spec i l : mem i l = true <-> i ∈ l.
Proof. unfold mem. by rewrite bool_decide_eq_true. Qed.

Lemma nodes_where_spec p g i : i ∈ nodes_where p g <-> exists n, n ∈ g_nodes g /\ p n = true /\ n_id n = i.
Proof.
  unfold nodes_where. rewrite list_elem_of_fmap. setoid_rewrite elem_of_lfilter. naive_solver.
Qed.

Lemma edges_where_spec p g i : i ∈ edges_where p g <-> exists e, e ∈ g_edges g /\ p e = true /\ e_id e = i.
Proof.
  unfold edges_where. rewrite list_elem_of_fmap. setoid_rewrite elem_of_lfilter. naive_solver.
Qed.

(** ** What is faded *)

Section Faded.
Context `{Traversals} (g : Graph).


(** Lit by a pinned node: what it leads to and what leads to it, and the edges on the way. *)
Definition lit_node (i j : str) : Prop := named g i /\ (rtc (arrow g) i j \/ rtc (arrow g) j i).
Definition lit_edge (i : str) (e : EdgeData) : Prop := named g i /\ (rtc (arrow g) i (e_source e) \/ rtc (arrow g) (e_target e) i).

(** An owner's services, and the nodes next to them. *)
Definition owned_near (os : list str) (j : str) : Prop :=
  exists n, n ∈ g_nodes g /\ n_serviceName n ∈ os /\ (n_id n = j \/ arrow g (n_id n) j \/ arrow g j (n_id n)).

Definition rest_node (d : Dimming) (j : str) : Prop :=
  match is_set (pinned d), owners d, filterHidden d with
  | Some i, _, _ => ~ lit_node i j
  | None, Some os, _ => ~ owned_near os j
  | None, None, Some h => j ∈ h
  | None, None, None => False
  end.

Definition rest_edge (d : Dimming) (e : EdgeData) : Prop :=
  match is_set (pinned d), owners d, filterHidden d with
  | Some i, _, _ => ~ lit_edge i e
  | None, Some os, _ => ~ owned_near os (e_source e) /\ ~ owned_near os (e_target e)
  | None, None, Some h => e_source e ∈ h \/ e_target e ∈ h
  | None, None, None => False
  end.

(** Switched off in the legend: of a kind that is off, a relation, state or refusal that is
    off, or an edge at a node of a kind that is off. *)
Definition legend_node (d : Dimming) (n : NodeData) : Prop :=
  exists keys k p, legendHidden d = Some keys /\ k ∈ keys /\ assoc k LEGEND_SELECTORS = Some (SelNode p) /\ p n = true.
Definition legend_edge (d : Dimming) (e : EdgeData) : Prop :=
  (exists keys k p, legendHidden d = Some keys /\ k ∈ keys /\ assoc k LEGEND_SELECTORS = Some (SelEdge p) /\ p e = true) \/
  exists n, n ∈ g_nodes g /\ (n_id n = e_source e \/ n_id n = e_target e) /\ legend_node d n.

(** A drawn graph: ids are used once, and an edge runs between drawn nodes. *)
Record well_drawn : Prop := {
  wd_nodes : NoDup (map n_id (g_nodes g));
  wd_edges : NoDup (map e_id (g_edges g));
  wd_apart : forall n e, n ∈ g_nodes g -> e ∈ g_edges g -> n_id n <> e_id e;
  wd_ends : forall e, e ∈ g_edges g -> named g (e_source e) /\ named g (e_target e) }.

Lemma ownerVisible_spec os j : j ∈ ownerVisible g os <-> owned_near os j.
Proof.
  unfold ownerVisible, owned_near. rewrite elem_of_app, elem_of_concat. split.
  - intros [(n & Hn & Ho%mem_spec & <-)%nodes_where_spec|(l & Hj & Hl)]; [exists n; auto|].
    apply list_elem_of_fmap in Hl as (i & -> & (n & Hn & Ho%mem_spec & <-)%nodes_where_spec). exists n.
    destruct (decide (n_id n = j)); [auto|]. apply neighbors_spec in Hj; auto.
  - intros (n & Hn & Ho & E). assert (n_id n ∈ nodes_where (fun n => mem (n_serviceName n) os) g) as Hi.
    { apply nodes_where_spec. exists n. by rewrite mem_spec. }
    destruct E as [<-|E]; [by left|].
    destruct (decide (n_id n = j)) as [<-|Ne]; [by left|]. right. exists (neighbors g (n_id n)).
    split; [by apply neighbors_spec|by apply list_elem_of_fmap_2].
Qed.

Lemma fade_spec ids c j : j ∈ faded (fade ids c) <-> j ∈ faded c \/ j ∈ ids.
Proof. apply elem_of_app. Qed.

Lemma nodup_key {A} (f : A -> str) l x y : NoDup (map f l) -> x ∈ l -> y ∈ l -> f x = f y -> x = y.
Proof.
  induction l as [|a l IH]; intros N Hx Hy E; [by apply elem_of_nil in Hx|]. apply NoDup_cons in N as [Na N].
  apply elem_of_cons in Hx as [->|Hx], Hy as [->|Hy]; [done|..|by apply IH].
  - destruct Na. simpl. rewrite E. by apply list_elem_of_fmap_2.
  - destruct Na. simpl. rewrite <- E. by apply list_elem_of_fmap_2.
Qed.

(** Whether the node, or the edge, of an id satisfies a predicate. *)
Lemma the_node p n : well_drawn -> n ∈ g_nodes g -> n_id n ∈ nodes_where p g <-> p n = true.
Proof.
  intros W Hn. rewrite nodes_where_spec. split; [|by exists n]. intros (m & Hm & Hp & E).
  by rewrite <- (nodup_key n_id (g_nodes g) m n (wd_nodes W) Hm Hn E).
Qed.

Lemma the_edge p e : well_drawn -> e ∈ g_edges g -> e_id e ∈ edges_where p g <-> p e = true.
Proof.
  intros W He. rewrite edges_where_spec. split; [|by exists e]. intros (m & Hm & Hp & E).
  by rewrite <- (nodup_key e_id (g_edges g) m e (wd_edges W) Hm He E).
Qed.

Lemma no_edge p n : well_drawn -> n ∈ g_nodes g -> n_id n ∉ edges_where p g.
Proof. intros W Hn (e & He & _ & E)%edges_where_spec. by apply (wd_apart W n e). Qed.

Lemma no_node p e : well_drawn -> e ∈ g_edges g -> e_id e ∉ nodes_where p g.
Proof. intros W He (n & Hn & _ & E)%nodes_where_spec. by apply (wd_apart W n e). Qed.

(** The legend's part. *)
Lemma kind_entries k p : assoc k LEGEND_SELECTORS = Some (SelNode p) -> starts_with "kind:" k = true.
Proof.
  intros E%assoc_elem. unfold LEGEND_SELECTORS in E. rewrite !elem_of_cons, elem_of_nil in E.
  repeat destruct E as [E|E]; simplify_eq; done.
Qed.

Definition entry_fades (k : str) : list str :=
  match assoc k LEGEND_SELECTORS with
  | None => []
  | Some (SelNode p) => nodes_where p g ++ edges_where (touches (nodes_where p g)) g
  | Some (SelEdge p) => edges_where p g
  end.

Lemma fade_entry_spec c k j : j ∈ faded (fade_entry g c k) <-> j ∈ faded c \/ j ∈ entry_fades k.
Proof.
  unfold fade_entry, entry_fades. destruct (assoc k LEGEND_SELECTORS) as [[p|p]|] eqn:E.
  - rewrite (kind_entries k p E), !fade_spec, elem_of_app. tauto.
  - apply fade_spec.
  - rewrite elem_of_nil. tauto.
Qed.

Lemma legend_fades keys c j :
  j ∈ faded (fold_left (fade_entry g) keys c) <-> j ∈ faded c \/ exists k, k ∈ keys /\ j ∈ entry_fades k.
Proof.
  revert c. induction keys as [|k keys IH]; intros c; simpl.
  - split; [by left|]. intros [?|(k & E & _)]; [done|]. by apply elem_of_nil in E.
  - rewrite IH, fade_entry_spec. setoid_rewrite elem_of_cons. split.
    + intros [[?|?]|(k' & ? & ?)]; eauto.
    + intros [?|(k' & [->|?] & ?)]; eauto.
Qed.

Lemma touches_spec ids e : touches ids e = true <-> e_source e ∈ ids \/ e_target e ∈ ids.
Proof. unfold touches. by rewrite orb_true_iff, !mem_spec. Qed.

Lemma at_node p e : well_drawn ->
  touches (nodes_where p g) e = true <-> exists n, n ∈ g_nodes g /\ (n_id n = e_source e \/ n_id n = e_target e) /\ p n = true.
Proof. intros W. rewrite touches_spec, !nodes_where_spec. naive_solver. Qed.

Lemma legend_part_node d c n : well_drawn -> n ∈ g_nodes g ->
  n_id n ∈ faded (fadeLegendHidden g (legendHidden d) c) <-> n_id n ∈ faded c \/ legend_node d n.
Proof.
  intros W Hn. unfold fadeLegendHidden, legend_node. destruct (legendHidden d) as [keys|]; [|naive_solver]. rewrite legend_fades. f_equiv.
  unfold entry_fades. split.
  - intros (k & Hk & E). destruct (assoc k LEGEND_SELECTORS) as [[p|p]|] eqn:A.
    + apply elem_of_app in E as [E|E]; [|by apply no_edge in E]. apply the_node in E; [|done..]. eauto 10.
    + by apply no_edge in E.
    + by apply elem_of_nil in E.
  - intros (keys' & k & p & [= <-] & Hk & A & P). exists k. rewrite A. split; [done|]. apply elem_of_app. left. by apply the_node.
Qed.

Lemma legend_part_edge d c e : well_drawn -> e ∈ g_edges g ->
  e_id e ∈ faded (fadeLegendHidden g (legendHidden d) c) <-> e_id e ∈ faded c \/ legend_edge d e.
Proof.
  intros W He. unfold fadeLegendHidden, legend_edge, legend_node. destruct (legendHidden d) as [keys|]; [|naive_solver].
  rewrite legend_fades. f_equiv. unfold entry_fades. split.
  - intros (k & Hk & E). destruct (assoc k LEGEND_SELECTORS) as [[p|p]|] eqn:A.
    + apply elem_of_app in E as [E|E]; [by apply no_node in E|]. apply the_edge, at_node in E as (n & Hn & Hi & P); [|done..].
      right. exists n. eauto 10.
    + apply the_edge in E; [|done..]. left. eauto 10.
    + by apply elem_of_nil in E.
  - intros [(keys' & k & p & [= <-] & Hk & A & P)|(n & Hn & Hi & keys' & k & p & [= <-] & Hk & A & P)]; exists k; rewrite A; split; [done| |done|].
    + by apply the_edge.
    + apply elem_of_app. right. apply the_edge; [done..|]. apply at_node; eauto.
Qed.

Lemma lit_dec_node i j : negb (mem j (downstream g i) || mem j (upstream g i)) = true <-> ~ lit_node i j.
Proof.
  rewrite negb_true_iff, <- not_true_iff_false, orb_true_iff, !mem_spec, downstream_spec, upstream_spec. unfold lit_node. tauto.
Qed.

Lemma lit_dec_edge i e : negb (mem (e_source e) (downstream g i) || mem (e_target e) (upstream g i)) = true <-> ~ lit_edge i e.
Proof.
  rewrite negb_true_iff, <- not_true_iff_false, orb_true_iff, !mem_spec, downstream_spec, upstream_spec. unfold lit_edge. tauto.
Qed.

Lemma kept_ends ids e : well_drawn -> e ∈ g_edges g ->
  touches (nodes_where (fun n => mem (n_id n) ids) g) e = true <-> e_source e ∈ ids \/ e_target e ∈ ids.
Proof.
  intros W He. rewrite at_node by done. setoid_rewrite mem_spec. split.
  - intros (n & _ & [<-|<-] & ?); auto.
  - destruct (wd_ends W e He) as [(a & Ha & Ea) (b & Hb & Eb)]. intros [E|E]; [exists a|exists b]; split_and!; auto; congruence.
Qed.

(** C25: What is faded is exactly what a reader switched off or is not looking at: under a pin
    everything off the paths through the pinned node; else, in an owner's view, everything away
    from the owner's services and their neighbors; else what the filter hides, with the edges at
    it; and in every case what the legend hides, with the edges at nodes of a hidden kind. *)
Theorem dimming_spec d :
  well_drawn ->
  (forall n, n ∈ g_nodes g -> n_id n ∈ faded (applyDimming g d) <-> rest_node d (n_id n) \/ legend_node d n) /\
  (forall e, e ∈ g_edges g -> e_id e ∈ faded (applyDimming g d) <-> rest_edge d e \/ legend_edge d e).
Proof.
  intros W. unfold applyDimming, rest_node, rest_edge. split; intros x Hx.
  - rewrite legend_part_node by done. f_equiv. destruct (is_set (pinned d)) as [i|].
    + cbn [spotlight faded]. rewrite fade_spec, elem_of_app, the_node by done. rewrite lit_dec_node.
      split; [|tauto]. intros [[]%elem_of_nil|[?|[]%no_edge]]; done.
    + unfold resting. destruct (owners d) as [os|]; [|destruct (filterHidden d) as [h|]; [|by rewrite elem_of_nil]];
        rewrite fade_spec, elem_of_app, the_node by done.
      * rewrite negb_true_iff, <- not_true_iff_false, mem_spec, ownerVisible_spec.
        split; [|tauto]. intros [[]%elem_of_nil|[?|[]%no_edge]]; done.
      * rewrite mem_spec. split; [|tauto]. intros [[]%elem_of_nil|[?|[]%no_edge]]; done.
  - rewrite legend_part_edge by done. f_equiv. destruct (is_set (pinned d)) as [i|].
    + cbn [spotlight faded]. rewrite fade_spec, elem_of_app, the_edge by done. rewrite lit_dec_edge.
      split; [|tauto]. intros [[]%elem_of_nil|[[]%no_node|?]]; done.
    + unfold resting. destruct (owners d) as [os|]; [|destruct (filterHidden d) as [h|]; [|by rewrite elem_of_nil]];
        rewrite fade_spec, elem_of_app, the_edge by done.
      * rewrite negb_true_iff, <- not_true_iff_false, kept_ends, !ownerVisible_spec by done.
        split; [|tauto]. intros [[]%elem_of_nil|[[]%no_node|?]]; tauto.
      * rewrite kept_ends by done. split; [|tauto]. intros [[]%elem_of_nil|[[]%no_node|?]]; done.
Qed.
End Faded.

(** ** Traversals that follow the edges *)
Module Walk.
Definition node_named (g : Graph) (i : str) : bool := existsb (fun n => n_id n === i) (g_nodes g).
Definition arrows (g : Graph) : list (str * str) := map (fun e => (e_source e, e_target e)) (g_edges g).
Definition flipped (l : list (str * str)) : list (str * str) := map (fun p => (p.2, p.1)) l.

Definition widen (es : list (str * str)) (s : list str) : list str :=
  dedupe (s ++ map snd (List.filter (fun p => mem p.1 s) es)).
Definition reach_set (es : list (str * str)) (i : str) : list str := Nat.iter (length es) (widen es) [i].

(** The nodes at or beyond a node along the arrows, and against them; of nothing, nothing. *)
Definition walk_down (g : Graph) (i : str) : list str := if node_named g i then reach_set (arrows g) i else [].
Definition walk_up (g : Graph) (i : str) : list str := if node_named g i then reach_set (flipped (arrows g)) i else [].

(** A node, and one step either way. *)
Definition walk_near (g : Graph) (i : str) : list str :=
  map e_target (List.filter (fun e => e_source e === i) (g_edges g)) ++
  map e_source (List.filter (fun e => e_target e === i) (g_edges g)).

Section Reach.
Context (es : list (str * str)).
Notation arrow := (fun a b => (a, b) ∈ es).

Definition closed (s : list str) : Prop := Forall (fun p => p.1 ∈ s -> p.2 ∈ s) es.
#[local] Instance closed_dec s : Decision (closed s).
Proof. unfold closed. apply _. Qed.

Lemma elem_of_widen s j : j ∈ widen es s <-> j ∈ s \/ exists a, a ∈ s /\ (a, j) ∈ es.
Proof.
  unfold widen. rewrite elem_of_dedupe, elem_of_app, list_elem_of_fmap. setoid_rewrite elem_of_lfilter.
  setoid_rewrite mem_spec. split.
  - intros [?|([a b] & -> & ? & ?)]; [by left|right; by exists a].
  - intros [?|(a & ? & ?)]; [by left|right; by exists (a, j)].
Qed.

Lemma widen_grows s : NoDup s -> ~ closed s -> length s < length (widen es s).
Proof.
  intros N C. unfold closed in C. apply not_Forall_Exists in C; [|apply _].
  apply Exists_exists in C as ([a b] & E & H). simpl in H.
  assert (a ∈ s /\ b ∉ s) as [Ea Nb] by (destruct (decide (a ∈ s)), (decide (b ∈ s)); tauto).
  apply (NoDup_incl_length (l := b :: s)).
  - by apply NoDup_ListNoDup, NoDup_cons.
  - intros x. rewrite <- !list_elem_of_In, elem_of_widen, elem_of_cons. intros [->|?]; [right; by exists a|by left].
Qed.

Lemma closed_widen s : closed s -> closed (widen es s).
Proof.
  unfold closed. rewrite !Forall_forall. intros C [a b] E. cbn [fst snd]. rewrite !elem_of_widen. intros [Ha|(x & Hx & Ex)].
  - left. by apply (C (a, b)).
  - left. apply (C (a, b)); [done|]. by apply (C (x, a)).
Qed.

Lemma iter_widen i k (s := Nat.iter k (widen es) [i]) :
  NoDup s /\ i ∈ s /\ (forall j, j ∈ s -> rtc arrow i j) /\ (closed s \/ k < length s).
Proof.
  subst s. induction k as [|k (N & I & R & H)]; cbn [Nat.iter].
  - split_and!; [apply NoDup_singleton|by apply elem_of_cons; left| |right; simpl; lia]. intros j ->%list_elem_of_singleton. done.
  - split_and!.
    + apply NoDup_dedupe.
    + apply elem_of_widen. by left.
    + intros j [Hj|(a & Ha & E)]%elem_of_widen; [by apply R|]. eapply rtc_r; [by apply R|done].
    + destruct (decide (closed (Nat.iter k (widen es) [i]))) as [C|C]; [left; by apply closed_widen|].
      right. destruct H as [H|H]; [done|]. pose proof (widen_grows _ N C) as G.
      change (Nat.iter (S k) (widen es) [i]) with (widen es (Nat.iter k (widen es) [i])). lia.
Qed.

Lemma iter_widen_in i k j : j ∈ Nat.iter k (widen es) [i] -> j ∈ i :: map snd es.
Proof.
  revert j. induction k as [|k IH]; intros j; cbn [Nat.iter].
  - intros ->%list_elem_of_singleton. by apply elem_of_cons; left.
  - intros [Hj|(a & Ha & E)]%elem_of_widen; [by apply IH|]. apply elem_of_cons. right. by apply (list_elem_of_fmap_2 snd _ (a, j)).
Qed.

Lemma reach_set_spec i j : j ∈ reach_set es i <-> rtc arrow i j.
Proof.
  unfold reach_set. destruct (iter_widen i (length es)) as (N & I & R & H). split; [apply R|].
  assert (closed (Nat.iter (length es) (widen es) [i])) as C.
  { destruct H as [H|H]; [done|]. apply Forall_forall. intros [a b] E _. cbn [snd].
    assert (incl (i :: map snd es) (Nat.iter (length es) (widen es) [i])) as Inc.
    { apply NoDup_length_incl; [by apply NoDup_ListNoDup|simpl; rewrite length_map; lia|].
      intros x. rewrite <- !list_elem_of_In. apply iter_widen_in. }
    apply list_elem_of_In, Inc, list_elem_of_In, elem_of_cons. right. by apply (list_elem_of_fmap_2 snd _ (a, b)). }
  unfold closed in C. rewrite Forall_forall in C. clear N R H. revert I C. generalize (Nat.iter (length es) (widen es) [i]).
  intros l I C P. revert I. induction P as [x|x y z E P IH]; [done|].
  intros Hx. apply IH. by apply (C (x, y)).
Qed.
End Reach.


Section Walked.
Context (g : Graph).
Lemma node_named_spec i : node_named g i = true <-> named g i.
Proof.
  unfold node_named, named. rewrite existsb_exists. setoid_rewrite <- list_elem_of_In. by setoid_rewrite bool_decide_eq_true.
Qed.

Lemma arrows_spec a b : (a, b) ∈ arrows g <-> arrow g a b.
Proof. unfold arrows, arrow. rewrite list_elem_of_fmap. naive_solver. Qed.

Lemma flipped_spec a b : (a, b) ∈ flipped (arrows g) <-> arrow g b a.
Proof.
  unfold flipped. rewrite list_elem_of_fmap, <- arrows_spec. split.
  - by intros ([x y] & [= -> ->] & ?).
  - intros ?. by exists (b, a).
Qed.

Lemma walk_down_spec i j : j ∈ walk_down g i <-> named g i /\ rtc (arrow g) i j.
Proof.
  unfold walk_down. rewrite <- node_named_spec. destruct (node_named g i); [|split; [by intros ?%elem_of_nil|by intros [? _]]].
  rewrite reach_set_spec. split; [intros R; split; [done|]|intros [_ R]]; revert R; apply rtc_subrel; intros a b; by rewrite arrows_spec.
Qed.

Lemma rtc_back (R R' : str -> str -> Prop) a b : (forall x y, R x y -> R' y x) -> rtc R a b -> rtc R' b a.
Proof. intros H. induction 1 as [x|x y z E P IH]; [done|]. eapply rtc_r; [exact IH|by apply H]. Qed.

Lemma walk_up_spec i j : j ∈ walk_up g i <-> named g i /\ rtc (arrow g) j i.
Proof.
  unfold walk_up. rewrite <- node_named_spec. destruct (node_named g i); [|split; [by intros ?%elem_of_nil|by intros [? _]]].
  rewrite reach_set_spec. split.
  - intros R. split; [done|]. revert R. apply rtc_back. intros a b. by rewrite flipped_spec.
  - intros [_ R]. revert R. apply rtc_back. intros a b. by rewrite flipped_spec.
Qed.

Lemma walk_near_spec i j : j ∈ walk_near g i <-> arrow g i j \/ arrow g j i.
Proof.
  unfold walk_near, arrow. rewrite elem_of_app, !list_elem_of_fmap. split.
  - intros [(e & -> & [He E]%elem_of_lfilter)|(e & -> & [He E]%elem_of_lfilter)]; apply bool_decide_eq_true in E; eauto 10.
  - intros [(e & He & E & <-)|(e & He & <- & E)]; [left|right]; exists e; split; [done| |done|]; apply elem_of_lfilter;
      by rewrite bool_decide_eq_true.
Qed.

End Walked.

#[export] Instance walked : Traversals := {|
  downstream := walk_down; upstream := walk_up; neighbors := walk_near;
  downstream_spec := walk_down_spec; upstream_spec := walk_up_spec;
  neighbors_spec := fun g i j _ => walk_near_spec g i j |}.
End Walk.
