(* ===== verification/GraphStage.v ===== *)
(** * The live canvas: [renderGraph] of [src/pkg/dashboard/frontend/src/lib/graph.ts]

    The state [renderGraph] closes over, its event handlers and the controls it returns. A
    handler changes the state and tells the page and the camera what to do. Times are those of
    [Date.now()]; a timer is the time it is due. The class an edge gets while hovered, the
    cursor, the zoom floor and the bending of lane edges are presentation and are left out. *)

From stdpp Require Import base list sets relations.
From Stdlib Require Import Init.Byte ZArith QArith Qround Qminmax Lia.
From S2P Require Import Prelude LaneLayout GraphDraw GraphElements GraphCanvas GraphDim.
Local Close Scope Q_scope.
Local Open Scope Z_scope.

Definition LAYOUT_SETTLE_MS : Z := 900.
Definition MOTION_row : Z := 160.

(** ** Where a layout starts: [seedPositions] *)
Record SeedNode := { s_id : str; s_depth : option Z; s_owner : option str }.

Definition depth_or (n : SeedNode) (d : Z) : Z := if 0 <=? nullish (s_depth n) (-1) then nullish (s_depth n) (-1) else d.

Fixpoint grid_from (cols i : Z) (ids : list str) : list (str * (Z * Z)) :=
  match ids with
  | [] => []
  | id :: rest => (id, (i mod cols * 180, i / cols * 140)) :: grid_from cols (i + 1) rest
  end.
Definition grid_cols (n : nat) : Z := Z.max 1 (Z.sqrt_up (Z.of_nat n)).
Definition seed_grid (ids : list str) : list (str * (Z * Z)) := grid_from (grid_cols (length ids)) 0 (sort_str ids).

Definition math_round (q : Q) : Z := Qfloor (q + (1 # 2))%Q.

Section Seed.
Context `{Locale} (cos sin : Q -> Q) (pi : Q).

Fixpoint ring_from (radius : Q) (n i : Z) (ring : list SeedNode) : list (str * (Z * Z)) :=
  match ring with
  | [] => []
  | x :: rest => let a := (inject_Z i * 2 * pi / inject_Z n)%Q in
                 (s_id x, (math_round (cos a * radius), math_round (sin a * radius))) :: ring_from radius n (i + 1) rest
  end.

Definition cmp_ring (a b : SeedNode) : Z :=
  let c := localeCompare (or_str (s_owner a) "") (or_str (s_owner b) "") in
  if c =? 0 then localeCompare (s_id a) (s_id b) else c.

Definition ring_of_depth (nodes : list SeedNode) (d : Z) : list SeedNode :=
  sort_by cmp_ring (List.filter (fun n => depth_or n 1 =? d) nodes).

Definition seed_ring (nodes : list SeedNode) (st : Q * list (str * (Z * Z))) (d : Z) : Q * list (str * (Z * Z)) :=
  let ring := ring_of_depth nodes d in
  match ring with
  | [x] => if d =? 0 then (st.1, st.2 ++ [(s_id x, (0, 0))]) else
      let r := Qmax (st.1 + 260)%Q (inject_Z (NODE_W + 40) / (2 * pi))%Q in (r, st.2 ++ ring_from r 1 0 ring)
  | _ => let n := Z.of_nat (length ring) in
         let r := Qmax (st.1 + 260)%Q (inject_Z (n * (NODE_W + 40)) / (2 * pi))%Q in (r, st.2 ++ ring_from r n 0 ring)
  end.

Definition seedPositions (nodes : list SeedNode) : list (str * (Z * Z)) :=
  if existsb (fun n => 0 <=? nullish (s_depth n) (-1)) nodes
  then (fold_left (seed_ring nodes) (sort_by Z.sub (dedupe (map (fun n => depth_or n 1) nodes))) (0%Q, [])).2
  else seed_grid (map s_id nodes).
End Seed.

(** ** The canvas and its handlers *)
Section Stage.
Context `{Cy : Cytoscape} `{Traversals} `{Locale} {U : Type} `{EqDecision U} (is_break : U -> bool) (ellipsis newline : U)
  (units : str -> list U) (text : list U -> str) (cos sin : Q -> Q) (pi : Q).

(** The options of a canvas, the size of its container, and the nodes it was made from. [run]
    is a layout that is not in lanes, up to where it stops. *)
Record Options := {
  focusId : option str; onNavigate : bool; tapToOpen : bool; onSpatialChange : bool; layered : bool;
  ownerSet : option (list str); filterFn : option (GraphNode -> bool); nodes : list GraphNode;
  width : Z; height : Z; run : Core -> Core; savedZoom : option Q }.

Inductive Action :=
| OnSelect (name : option str) | OnSelectNode (i : option str) | OnSelectEdge (i : option str) | OnNavigate (name : str)
| Center (i : str) | Fit (duration : Z) | RestoreViewport (zoom : Q) | RunLayout | OnReady | Save (l : list (str * Pos)).

Record Stage := {
  core : Core; classes : Classes; clickFocusId : option str; hiddenByFilter : option (list str);
  hiddenByLegend : option (list str); lastTapId : str; lastTapAt : Z; restored : list str; userAdjusted : bool;
  suppressViewportUntil : Z; spatialTimer : option Z; resizeTimer : option Z; firstLayout : bool; running : nat }.

Definition view (c : Core) : Graph := {| g_nodes := omap (node_data c) (node_ids c); g_edges := omap (edge_data c) (edge_ids c) |}.

(** Setters. *)
Definition set_core (c : Core) (s : Stage) : Stage :=
  {| core := c; classes := classes s; clickFocusId := clickFocusId s; hiddenByFilter := hiddenByFilter s;
     hiddenByLegend := hiddenByLegend s; lastTapId := lastTapId s; lastTapAt := lastTapAt s; restored := restored s;
     userAdjusted := userAdjusted s; suppressViewportUntil := suppressViewportUntil s; spatialTimer := spatialTimer s;
     resizeTimer := resizeTimer s; firstLayout := firstLayout s; running := running s |}.
Definition set_classes (x : Classes) (s : Stage) : Stage :=
  {| core := core s; classes := x; clickFocusId := clickFocusId s; hiddenByFilter := hiddenByFilter s;
     hiddenByLegend := hiddenByLegend s; lastTapId := lastTapId s; lastTapAt := lastTapAt s; restored := restored s;
     userAdjusted := userAdjusted s; suppressViewportUntil := suppressViewportUntil s; spatialTimer := spatialTimer s;
     resizeTimer := resizeTimer s; firstLayout := firstLayout s; running := running s |}.
Definition set_pin (x : option str) (s : Stage) : Stage :=
  {| core := core s; classes := classes s; clickFocusId := x; hiddenByFilter := hiddenByFilter s;
     hiddenByLegend := hiddenByLegend s; lastTapId := lastTapId s; lastTapAt := lastTapAt s; restored := restored s;
     userAdjusted := userAdjusted s; suppressViewportUntil := suppressViewportUntil s; spatialTimer := spatialTimer s;
     resizeTimer := resizeTimer s; firstLayout := firstLayout s; running := running s |}.
Definition set_hidden (f l : option (list str)) (s : Stage) : Stage :=
  {| core := core s; classes := classes s; clickFocusId := clickFocusId s; hiddenByFilter := f;
     hiddenByLegend := l; lastTapId := lastTapId s; lastTapAt := lastTapAt s; restored := restored s;
     userAdjusted := userAdjusted s; suppressViewportUntil := suppressViewportUntil s; spatialTimer := spatialTimer s;
     resizeTimer := resizeTimer s; firstLayout := firstLayout s; running := running s |}.
Definition set_tap (i : str) (at_ : Z) (s : Stage) : Stage :=
  {| core := core s; classes := classes s; clickFocusId := clickFocusId s; hiddenByFilter := hiddenByFilter s;
     hiddenByLegend := hiddenByLegend s; lastTapId := i; lastTapAt := at_; restored := restored s;
     userAdjusted := userAdjusted s; suppressViewportUntil := suppressViewportUntil s; spatialTimer := spatialTimer s;
     resizeTimer := resizeTimer s; firstLayout := firstLayout s; running := running s |}.
Definition set_arranged (r : list str) (adjusted : bool) (s : Stage) : Stage :=
  {| core := core s; classes := classes s; clickFocusId := clickFocusId s; hiddenByFilter := hiddenByFilter s;
     hiddenByLegend := hiddenByLegend s; lastTapId := lastTapId s; lastTapAt := lastTapAt s; restored := r;
     userAdjusted := adjusted; suppressViewportUntil := suppressViewportUntil s; spatialTimer := spatialTimer s;
     resizeTimer := resizeTimer s; firstLayout := firstLayout s; running := running s |}.
Definition set_timers (suppress : Z) (spatial resize : option Z) (first : bool) (n : nat) (s : Stage) : Stage :=
  {| core := core s; classes := classes s; clickFocusId := clickFocusId s; hiddenByFilter := hiddenByFilter s;
     hiddenByLegend := hiddenByLegend s; lastTapId := lastTapId s; lastTapAt := lastTapAt s; restored := restored s;
     userAdjusted := userAdjusted s; suppressViewportUntil := suppress; spatialTimer := spatial;
     resizeTimer := resize; firstLayout := first; running := n |}.

(** A handler: the next state, and what was done on the way. *)
Definition M : Type := Stage -> Stage * list Action.
Definition skip : M := fun s => (s, []).
Definition emit (a : Action) : M := fun s => (s, [a]).
Definition upd (f : Stage -> Stage) : M := fun s => (f s, []).
Definition seq (f g : M) : M := fun s => let '(s1, o1) := f s in let '(s2, o2) := g s1 in (s2, o1 ++ o2).
Notation "f ;> g" := (seq f g) (at level 58, right associativity).

Context (opts : Options).
Notation place_new := (placeNewNodes cos sin pi).
Notation build := (buildElements is_break ellipsis newline units text (focusId opts)).

Definition dim_of (s : Stage) : Dimming :=
  {| pinned := clickFocusId s; owners := ownerSet opts; filterHidden := hiddenByFilter s; legendHidden := hiddenByLegend s |}.
Definition dim : M := upd (fun s => set_classes (applyDimming (view (core s)) (dim_of s)) s).

Definition suppressViewport (now ms : Z) : M :=
  upd (fun s => set_timers (now + ms) (spatialTimer s) (resizeTimer s) (firstLayout s) (running s) s).

Definition pinFocus (now : Z) (i : option str) : M :=
  upd (set_pin i) ;> dim ;>
  match is_set i with
  | None => skip
  | Some j => fun s => if has (core s) j then (suppressViewport now (MOTION_row + 150) ;> emit (Center j)) s else (s, [])
  end.

(** Whether something is pinned. *)
Definition is_pinned (s : Stage) : bool := bool_decide (is_Some (is_set (clickFocusId s))).

Definition clear_pin : M := fun s =>
  if is_pinned s then (upd (set_pin None) ;> dim ;> emit (OnSelect None) ;> emit (OnSelectNode None)) s else (s, []).

Definition tapCanvas : M := emit (OnSelectEdge None) ;> clear_pin.
Definition tapEdge (i : str) : M := emit (OnSelectEdge (Some i)).

(** Whether the pin just set is this node's. *)
Definition tell_pin (i name : str) : M := fun s =>
  (emit (OnSelect (if is_pinned s then Some name else None)) ;> emit (OnSelectNode (if is_pinned s then Some i else None))) s.

Definition tapNode (now : Z) (i : str) : M := fun s =>
  match node_data (core s) i with
  | None => (s, [])
  | Some d =>
      if n_lane d then tapCanvas s
      else if n_group d then emit (OnSelectNode (Some i)) s
      else
        let double := (i === lastTapId s) && (now - lastTapAt s <? 300) in
        let opens := negb (n_external d) && onNavigate opts in
        (upd (set_tap i now) ;>
         (if double then (if opens then emit (OnNavigate (n_serviceName d)) else skip)
          else if tapToOpen opts && opens then emit (OnNavigate (n_serviceName d))
          else pinFocus now (if clickFocusId s === Some i then None else Some i) ;> tell_pin i (n_serviceName d))) s
  end.

Definition overNode (i : str) : M := fun s =>
  if is_lane (core s) i || is_pinned s then (s, [])
  else (set_classes (fadeLegendHidden (view (core s)) (hiddenByLegend s) (spotlight (view (core s)) i no_classes)) s, []).
Definition outNode : M := fun s => if is_pinned s then (s, []) else dim s.

Definition applyFilter (fn : option (GraphNode -> bool)) : M :=
  upd (fun s => set_hidden (match fn with None => None | Some f => Some (map id (List.filter f (nodes opts))) end) (hiddenByLegend s) s) ;> dim.
Definition applyLegendFilter (hidden : list str) : M :=
  upd (fun s => set_hidden (hiddenByFilter s) (match hidden with [] => None | _ => Some hidden end) s) ;> dim.

Definition emitSpatial (now : Z) : M := fun s =>
  if onSpatialChange opts
  then (set_timers (suppressViewportUntil s) (Some (now + 250)) (resizeTimer s) (firstLayout s) (running s) s, [])
  else (s, []).

Definition fitView (now duration : Z) : M := suppressViewport now (duration + 150) ;> emit (Fit duration).
Definition refilter : M := match filterFn opts with Some f => applyFilter (Some f) | None => dim end.
Definition settle : M := refilter ;> emit OnReady.

(** *** Layouts *)
Definition liveNodes (c : Core) : list LaneNode :=
  map (fun d => {| ln_id := n_id d; ln_depth := Some (n_depth d); ln_side := Some (n_side d); ln_owner := Some (n_owner d);
                   ln_group := Some (if n_group d then 1 else 0); ln_lane := n_lane d |}) (g_nodes (view c)).
Definition seedNodes (c : Core) : list SeedNode :=
  map (fun d => {| s_id := n_id d; s_depth := Some (n_depth d); s_owner := Some (n_owner d) |}) (g_nodes (view c)).

(** Each node goes where the map says, if it does. *)
Definition place_step (at_ : list (str * (Z * Z))) (c : Core) (i : str) : Core :=
  match assoc i at_ with Some p => set_position i (inject_Z p.1, inject_Z p.2) c | None => c end.
Definition place_at (at_ : list (str * (Z * Z))) (c : Core) : Core := fold_left (place_step at_) (node_ids c) c.

Definition lane_rows (c : Core) : list (str * (Z * Z)) :=
  laneLayout (liveNodes c) (if width opts =? 0 then 1000 else width opts) (if height opts =? 0 then 600 else height opts).
Definition place_lanes (c : Core) : Core := place_at (lane_rows c) c.

Definition runLayout (now : Z) : M := fun s =>
  if hasLanes (core s)
  then (upd (fun s => set_core (place_lanes (core s)) s) ;> fitView now 0 ;> settle ;> emitSpatial now) s
  else (suppressViewport now LAYOUT_SETTLE_MS ;> emit RunLayout ;>
        upd (fun s => set_timers (suppressViewportUntil s) (spatialTimer s) (resizeTimer s) (firstLayout s) (S (running s)) s)) s.

Definition layoutStop (now : Z) : M := fun s =>
  match running s with
  | O => (s, [])
  | S n => (upd (fun s => set_timers (suppressViewportUntil s) (spatialTimer s) (resizeTimer s) (firstLayout s) n
                            (set_core (run opts (core s)) s)) ;>
            fitView now 250 ;> settle ;> emitSpatial now) s
  end.

Definition seed : M := upd (fun s => set_core (place_at (seedPositions cos sin pi (seedNodes (core s))) (core s)) s).

Definition layoutAndFit (now : Z) : M := fun s =>
  match restored s with
  | [] => ((if layered opts then skip else seed) ;> runLayout now) s
  | _ => (upd (fun s => set_core (place_new (List.filter (fun i => negb (bool_decide (i ∈ restored s))) (entityNodes (core s))) (core s)) s) ;>
          match savedZoom opts with
          | Some z => suppressViewport now 150 ;> emit (RestoreViewport z) ;> upd (fun s => set_arranged (restored s) true s)
          | None => fitView now 0
          end ;> settle) s
  end.

Definition resetLayout (now : Z) : M := upd (set_arranged [] false) ;> seed ;> runLayout now.
Definition resetView (now : Z) : M := upd (set_pin None) ;> dim ;> fitView now 300.

(** *** The camera and the container *)
Definition adjusted (now : Z) : M := upd (fun s => set_arranged (restored s) true s) ;> emitSpatial now.
Definition onDrag (now : Z) : M := adjusted now.
Definition onViewport (now : Z) : M := fun s => if now <? suppressViewportUntil s then (s, []) else adjusted now s.

Definition onResize (now w : Z) : M := fun s =>
  if firstLayout s
  then if 0 <? w
       then (upd (fun s => set_timers (suppressViewportUntil s) (spatialTimer s) (resizeTimer s) false (running s) s) ;> layoutAndFit now) s
       else (s, [])
  else (set_timers (suppressViewportUntil s) (spatialTimer s) (Some (now + 150)) (firstLayout s) (running s) s, []).

Definition resizeDue (now : Z) : M := fun s =>
  match resizeTimer s with
  | None => (s, [])
  | Some _ =>
      let s := set_timers (suppressViewportUntil s) (spatialTimer s) None (firstLayout s) (running s) s in
      if is_pinned s || userAdjusted s then (s, [])
      else if layered opts || hasLanes (core s) then runLayout now s else fitView now 200 s
  end.

Definition spatialDue : M := fun s =>
  match spatialTimer s with
  | None => (s, [])
  | Some _ => (set_timers (suppressViewportUntil s) None (resizeTimer s) (firstLayout s) (running s) s, [Save (snapshotPositions (core s))])
  end.

(** *** Refreshes *)
Definition onPatch (next : list GraphNode) : M :=
  upd (fun s => set_core (patchData is_break ellipsis newline units text (focusId opts) next (core s)) s).

Definition onTopology (now : Z) (next : list GraphNode) : M := fun s =>
  let before := node_ids (core s) in
  let c1 := refresh is_break ellipsis newline units text (focusId opts) next (core s) in
  let fresh := arrivals before c1 in
  let s := set_arranged (restored s ++ fresh) (userAdjusted s) (set_pin (pin_after c1 (clickFocusId s)) (set_core c1 s)) in
  if relaid is_break ellipsis newline units text (focusId opts) next (userAdjusted s) before c1
  then runLayout now s
  else (upd (fun s => set_core (place_new fresh (core s)) s) ;> refilter ;> emitSpatial now) s.

(** *** What happens on a canvas *)
Inductive Event :=
| TapNode (now : Z) (i : str) | TapEdge (i : str) | TapCanvas | OverNode (i : str) | OutNode
| Pin (now : Z) (i : option str) | Filter (fn : option (GraphNode -> bool)) | Legend (hidden : list str)
| Patch (next : list GraphNode) | Topology (now : Z) (next : list GraphNode)
| ResetLayout (now : Z) | ResetView (now : Z) | FitNow (now : Z)
| Drag (now : Z) | Viewport (now : Z) | Resize (now w : Z) | ResizeDue (now : Z) | SpatialDue | LayoutStop (now : Z).

Definition handle (ev : Event) : M :=
  match ev with
  | TapNode now i => tapNode now i
  | TapEdge i => tapEdge i
  | TapCanvas => tapCanvas
  | OverNode i => overNode i
  | OutNode => outNode
  | Pin now i => pinFocus now i
  | Filter fn => applyFilter fn
  | Legend hidden => applyLegendFilter hidden
  | Patch next => onPatch next
  | Topology now next => onTopology now next
  | ResetLayout now => resetLayout now
  | ResetView now => resetView now
  | FitNow now => fitView now 250
  | Drag now => onDrag now
  | Viewport now => onViewport now
  | Resize now w => onResize now w
  | ResizeDue now => resizeDue now
  | SpatialDue => spatialDue
  | LayoutStop now => layoutStop now
  end.

Fixpoint handle_all (evs : list Event) : M :=
  match evs with [] => skip | ev :: rest => handle ev ;> handle_all rest end.

(** The canvas as it is made: the first layout waits for the container's size. *)
Definition start (autoSpotlightFocus : bool) (saved : option (str -> option (option Q * option Q))) (c0 : Core) : Stage :=
  let c := add (build (nodes opts)) c0 in
  let pin := match is_set (focusId opts) with
             | Some f => if autoSpotlightFocus
                         then head (map n_id (List.filter (fun d => (n_serviceName d === f) || (n_id d === f)) (g_nodes (view c))))
                         else None
             | None => None
             end in
  let '(r, c) := restoreSavedPositions saved c in
  {| core := c; classes := no_classes; clickFocusId := pin; hiddenByFilter := None; hiddenByLegend := None; lastTapId := "";
     lastTapAt := 0; restored := r; userAdjusted := false; suppressViewportUntil := 0; spatialTimer := None; resizeTimer := None;
     firstLayout := true; running := O |}.

(** ** Reasoning on handlers *)
Definition triple (P : Stage -> Prop) (m : M) (Q : Stage -> Prop) : Prop := forall s, P s -> Q (m s).1.
Definition silent (Q : Action -> Prop) (m : M) : Prop := forall s, Forall Q (m s).2.

Lemma seq_fst f g s : (seq f g s).1 = (g (f s).1).1.
Proof. unfold seq. destruct (f s) as [s1 o1]. simpl. by destruct (g s1). Qed.
Lemma seq_snd f g s : (seq f g s).2 = (f s).2 ++ (g (f s).1).2.
Proof. unfold seq. destruct (f s) as [s1 o1]. simpl. by destruct (g s1). Qed.

Lemma triple_seq P Q R f g : triple P f Q -> triple Q g R -> triple P (seq f g) R.
Proof. intros F G s H1. rewrite seq_fst. by apply G, F. Qed.
Lemma triple_weaken (P P' : Stage -> Prop) m Q : (forall s, P s -> P' s) -> triple P' m Q -> triple P m Q.
Proof. intros H1 T s Hs. by apply T, H1. Qed.
Lemma silent_seq Q f g : silent Q f -> silent Q g -> silent Q (seq f g).
Proof. intros F G s. rewrite seq_snd. apply Forall_app. split; [apply F|apply G]. Qed.
Lemma silent_upd Q f : silent Q (upd f). Proof. intros s. by constructor. Qed.
Lemma silent_emit (Q : Action -> Prop) a : Q a -> silent Q (emit a). Proof. intros Ha s. by repeat constructor. Qed.
Lemma silent_skip Q : silent Q skip. Proof. intros s. by constructor. Qed.

Lemma omap_same {A B} (f h : A -> option B) (l : list A) : (forall x, f x = h x) -> omap f l = omap h l.
Proof. intros E. induction l as [|x l IH]; [done|]. change (match f x with Some y => y :: omap f l | None => omap f l end = match h x with Some y => y :: omap h l | None => omap h l end). by rewrite E, IH. Qed.

Lemma view_same c c' : same_data c c' -> view c' = view c.
Proof.
  intros (E1 & E2 & E3). unfold view. rewrite E1, E2. f_equal.
  - apply omap_same. intros i. apply E3.
  - apply omap_same. intros i. apply E3.
Qed.

#[local] Instance same_data_preorder : PreOrder same_data.
Proof.
  split; [done|]. intros a b c (A1 & A2 & A3) (B1 & B2 & B3). split_and!; [congruence..|]. intros i.
  destruct (A3 i), (B3 i). split; congruence.
Qed.

Context `{!CytoscapeLaws}.

Lemma set_position_data i p c : same_data c (set_position i p c).
Proof.
  destruct (set_position_ids i p c) as [A B]. split_and!; [done..|]. intros j. by rewrite set_position_node, set_position_edge.
Qed.

Lemma fold_data {A} (step : A -> str -> A) (f : A -> Core) l a :
  (forall a i, same_data (f a) (f (step a i))) -> same_data (f a) (f (fold_left step l a)).
Proof. intros S. revert a. induction l as [|i l IH]; intros a; [done|]. simpl. etrans; [apply S|apply IH]. Qed.

Lemma place_at_data at_ c : same_data c (place_at at_ c).
Proof.
  unfold place_at. apply (fold_data (place_step at_) (fun c => c)). intros a i. unfold place_step.
  destruct (assoc i at_); [apply set_position_data|done].
Qed.

Lemma place_new_data fresh c : same_data c (place_new fresh c).
Proof.
  unfold placeNewNodes. destruct fresh as [|a fresh]; [done|]. destruct (hasLanes c).
  - unfold placeInLanes. apply (fold_data lane_step snd _ (_, c)). intros st i. apply set_position_data.
  - apply (fold_data (ring_step _ _ _ _ _ _) snd _ (O, c)). intros st i. unfold ring_step. simpl.
    destruct (node_data _ _); [apply set_position_data|done].
Qed.

(** ** The legend is always applied *)
Definition legend_ok (s : Stage) : Prop :=
  forall j, j ∈ faded (fadeLegendHidden (view (core s)) (hiddenByLegend s) no_classes) -> j ∈ faded (classes s).

Lemma legend_more g l c j : j ∈ faded (fadeLegendHidden g l no_classes) -> j ∈ faded (fadeLegendHidden g l c).
Proof.
  unfold fadeLegendHidden. destruct l as [keys|]; [|by intros ?%elem_of_nil]. rewrite !legend_fades.
  intros [?%elem_of_nil|?]; [done|by right].
Qed.

Definition looks_alike (s s' : Stage) : Prop :=
  view (core s') = view (core s) /\ hiddenByLegend s' = hiddenByLegend s /\ classes s' = classes s.
Lemma alike_ok s s' : looks_alike s s' -> legend_ok s -> legend_ok s'.
Proof. intros (E1 & E2 & E3) L j. rewrite E1, E2, E3. apply L. Qed.

Lemma alike_upd f : (forall s, looks_alike s (f s)) -> triple legend_ok (upd f) legend_ok.
Proof. intros F s L. by apply (alike_ok s). Qed.

Lemma dim_ok : triple (fun _ => True) dim legend_ok.
Proof. intros s _ j. apply legend_more. Qed.

Lemma refilter_ok : triple (fun _ => True) refilter legend_ok.
Proof.
  unfold refilter. destruct (filterFn opts) as [f|]; [|apply dim_ok]. eapply triple_seq; [|apply dim_ok]. by intros s _.
Qed.

Lemma emit_ok a : triple legend_ok (emit a) legend_ok. Proof. by intros s. Qed.
Lemma skip_ok : triple legend_ok skip legend_ok. Proof. by intros s. Qed.
Lemma suppress_ok now ms : triple legend_ok (suppressViewport now ms) legend_ok.
Proof. by apply alike_upd. Qed.
Lemma fitView_ok now d : triple legend_ok (fitView now d) legend_ok.
Proof. eapply triple_seq; [apply suppress_ok|apply emit_ok]. Qed.
Lemma emitSpatial_ok now : triple legend_ok (emitSpatial now) legend_ok.
Proof. intros s L. unfold emitSpatial. destruct (onSpatialChange opts); [|done]. by apply (alike_ok s). Qed.
Lemma settle_ok : triple (fun _ => True) settle legend_ok.
Proof. eapply triple_seq; [apply refilter_ok|apply emit_ok]. Qed.

Lemma move_ok f : (forall c, same_data c (f c)) -> triple legend_ok (upd (fun s => set_core (f (core s)) s)) legend_ok.
Proof. intros F. apply alike_upd. intros s. split_and!; [|done|done]. apply view_same, F. Qed.

#[local] Hint Resolve dim_ok refilter_ok emit_ok skip_ok suppress_ok fitView_ok emitSpatial_ok settle_ok : stage.
#[local] Hint Resolve place_at_data place_new_data : stage.

Lemma any_ok (m : M) Q : triple (fun _ => True) m Q -> triple legend_ok m Q.
Proof. by apply triple_weaken. Qed.
#[local] Hint Resolve any_ok : stage.

Ltac stage_seq := repeat (eapply triple_seq; [solve [eauto with stage]|]); eauto with stage.

Lemma seed_ok : triple legend_ok seed legend_ok.
Proof. apply (move_ok (fun c => place_at (seedPositions cos sin pi (seedNodes c)) c)). intros c. apply place_at_data. Qed.

Lemma lanes_ok now : triple (fun _ => True) (upd (fun s => set_core (place_lanes (core s)) s) ;> fitView now 0 ;> settle ;> emitSpatial now) legend_ok.
Proof.
  apply (triple_seq _ (fun _ => True)); [done|]. apply (triple_seq _ (fun _ => True)); [done|]. stage_seq.
Qed.

Lemma runLayout_ok now : triple legend_ok (runLayout now) legend_ok.
Proof.
  intros s L. unfold runLayout. destruct (hasLanes (core s)); [by apply lanes_ok|]. revert s L.
  change (triple legend_ok (suppressViewport now LAYOUT_SETTLE_MS ;> emit RunLayout ;>
    upd (fun s => set_timers (suppressViewportUntil s) (spatialTimer s) (resizeTimer s) (firstLayout s) (S (running s)) s)) legend_ok).
  stage_seq.
Qed.
#[local] Hint Resolve seed_ok runLayout_ok : stage.

(** A layout keeps the elements. *)
Definition run_moves : Prop := forall c, same_data c (run opts c).

Lemma layoutStop_ok now : run_moves -> triple legend_ok (layoutStop now) legend_ok.
Proof.
  intros R s L. unfold layoutStop. destruct (running s) as [|n]; [done|]. generalize s, L. clear s L.
  change (triple legend_ok (upd (fun s => set_timers (suppressViewportUntil s) (spatialTimer s) (resizeTimer s) (firstLayout s) n
                            (set_core (run opts (core s)) s)) ;> fitView now 250 ;> settle ;> emitSpatial now) legend_ok).
  eapply triple_seq; [|stage_seq]. apply alike_upd. intros s. split_and!; [|done|done]. apply view_same, R.
Qed.

Lemma layoutAndFit_ok now : triple legend_ok (layoutAndFit now) legend_ok.
Proof.
  intros s L. unfold layoutAndFit. destruct (restored s) as [|a r].
  - revert s L. change (triple legend_ok ((if layered opts then skip else seed) ;> runLayout now) legend_ok).
    destruct (layered opts); stage_seq.
  - rewrite seq_fst, seq_fst. apply settle_ok. done.
Qed.

Lemma pinFocus_ok now i : triple (fun _ => True) (pinFocus now i) legend_ok.
Proof.
  unfold pinFocus. apply (triple_seq _ (fun _ => True)); [done|]. eapply triple_seq; [apply dim_ok|].
  destruct (is_set i) as [j|]; [|apply skip_ok]. intros s L. destruct (has (core s) j); [|done]. revert s L.
  change (triple legend_ok (suppressViewport now (MOTION_row + 150) ;> emit (Center j)) legend_ok). stage_seq.
Qed.

Lemma clear_pin_ok : triple legend_ok clear_pin legend_ok.
Proof.
  intros s L. unfold clear_pin. destruct (is_pinned s); [|done]. revert s L.
  change (triple legend_ok (upd (set_pin None) ;> dim ;> emit (OnSelect None) ;> emit (OnSelectNode None)) legend_ok).
  apply (triple_seq _ (fun _ => True)); [done|]. stage_seq.
Qed.
#[local] Hint Resolve layoutAndFit_ok pinFocus_ok clear_pin_ok : stage.

Lemma tapNode_ok now i : triple legend_ok (tapNode now i) legend_ok.
Proof.
  intros s L. unfold tapNode. destruct (node_data (core s) i) as [d|]; [|done]. destruct (n_lane d).
  { revert s L. change (triple legend_ok tapCanvas legend_ok). unfold tapCanvas. stage_seq. }
  destruct (n_group d); [done|]. rewrite seq_fst.
  assert (legend_ok (upd (set_tap i now) s).1) as L' by (by apply (alike_ok s)). revert L'.
  generalize (upd (set_tap i now) s).1. intros s' L'.
  destruct (_ && (now - _ <? 300)); [destruct (_ && onNavigate opts); done|]. destruct (_ && (_ && _)); [done|].
  rewrite seq_fst. unfold tell_pin. rewrite seq_fst. by apply pinFocus_ok.
Qed.

Lemma topology_ok now next : triple (fun _ => True) (onTopology now next) legend_ok.
Proof.
  intros s _. unfold onTopology. set (s1 := set_arranged _ _ _). destruct (relaid _ _ _ _ _ _ _ _ _ _) eqn:R.
  - unfold runLayout. replace (hasLanes (core s1)) with true; [by apply lanes_ok|]. unfold relaid in R.
    apply andb_true_iff in R as [R _]. symmetry. exact R.
  - rewrite seq_fst, seq_fst. apply emitSpatial_ok, refilter_ok. done.
Qed.

Definition is_patch (ev : Event) : bool := match ev with Patch _ => true | _ => false end.

Lemma handle_ok ev : run_moves -> is_patch ev = false -> triple legend_ok (handle ev) legend_ok.
Proof.
  intros R P. destruct ev; try done; cbn [handle].
  - apply tapNode_ok.
  - apply emit_ok.
  - unfold tapCanvas. stage_seq.
  - intros s L. unfold overNode. destruct (_ || _); [done|]. intros j. apply legend_more.
  - intros s L. unfold outNode. destruct (is_pinned s); [done|]. by apply dim_ok.
  - apply any_ok, pinFocus_ok.
  - unfold applyFilter. apply (triple_seq _ (fun _ => True)); [done|apply dim_ok].
  - unfold applyLegendFilter. apply (triple_seq _ (fun _ => True)); [done|apply dim_ok].
  - apply any_ok, topology_ok.
  - unfold resetLayout. apply (triple_seq _ legend_ok); [by apply alike_upd|]. stage_seq.
  - unfold resetView. apply (triple_seq _ (fun _ => True)); [done|]. stage_seq.
  - apply fitView_ok.
  - apply (triple_seq _ legend_ok); [by apply alike_upd|apply emitSpatial_ok].
  - intros s L. unfold onViewport. destruct (_ <? _); [done|]. unfold adjusted. rewrite seq_fst. apply emitSpatial_ok. by apply (alike_ok s).
  - intros s L. unfold onResize. destruct (firstLayout s); [|by apply (alike_ok s)]. destruct (0 <? w); [|done].
    rewrite seq_fst. apply layoutAndFit_ok. by apply (alike_ok s).
  - intros s L. unfold resizeDue. destruct (resizeTimer s); [|done]. set (s1 := set_timers _ _ _ _ _ _).
    assert (legend_ok s1) as L1 by (by apply (alike_ok s)). destruct (_ || _); [done|].
    destruct (_ || _); [by apply runLayout_ok|by apply fitView_ok].
  - intros s L. unfold spatialDue. destruct (spatialTimer s); [|done]. by apply (alike_ok s).
  - by apply layoutStop_ok.
Qed.

(** The events that dim anew whatever was faded before. *)
Definition redims (ev : Event) : bool :=
  match ev with Pin _ _ | Filter _ | Legend _ | Topology _ _ => true | _ => false end.

Lemma redims_ok ev : redims ev = true -> triple (fun _ => True) (handle ev) legend_ok.
Proof.
  intros R. destruct ev; try done; cbn [handle].
  - apply pinFocus_ok.
  - unfold applyFilter. apply (triple_seq _ (fun _ => True)); [done|apply dim_ok].
  - unfold applyLegendFilter. apply (triple_seq _ (fun _ => True)); [done|apply dim_ok].
  - apply topology_ok.
Qed.

(** Whether the fades are current after a run: a patch of the data leaves them as they were,
    until the next event that dims anew. *)
Definition dimmed_after (b : bool) (ev : Event) : bool := if is_patch ev then false else redims ev || b.
Definition dimmed (evs : list Event) : bool := fold_left dimmed_after evs true.

Lemma handle_all_ok evs b : run_moves ->
  triple (fun s => b = true -> legend_ok s) (handle_all evs) (fun s => fold_left dimmed_after evs b = true -> legend_ok s).
Proof.
  intros R. revert b. induction evs as [|ev evs IH]; intros b; [by intros s L|]. cbn [handle_all fold_left].
  eapply triple_seq; [|apply IH]. intros s L. unfold dimmed_after. destruct (is_patch ev) eqn:P; [done|].
  destruct (redims ev) eqn:D; [intros _; by apply redims_ok|]. intros E. apply handle_ok; [done..|by apply L].
Qed.

Lemma start_ok auto saved c0 : legend_ok (start auto saved c0).
Proof. unfold start. destruct (restoreSavedPositions _ _) as [r c]. by intros j ?%elem_of_nil. Qed.

(** C11: Whatever is tapped, hovered, pinned, filtered, resized, laid out or replaced by a new
    graph, everything the legend has switched off is faded: the nodes of a hidden kind with the
    edges at them, and the edges of a hidden relation, state or refusal. The one exception is a
    patch of the data of drawn elements, after which the fades are those of before until the
    next pin, filter, legend change or new graph dims anew; the run may hold patches anywhere
    as long as one of these followed the last. *)
Theorem legend_respected auto saved c0 evs (s := (handle_all evs (start auto saved c0)).1) :
  run_moves -> dimmed evs = true -> well_drawn (view (core s)) ->
  (forall n, n ∈ g_nodes (view (core s)) -> legend_node (dim_of s) n -> n_id n ∈ faded (classes s)) /\
  (forall e, e ∈ g_edges (view (core s)) -> legend_edge (view (core s)) (dim_of s) e -> e_id e ∈ faded (classes s)).
Proof.
  intros R P W. pose proof (handle_all_ok evs true R (start auto saved c0) (fun _ => start_ok auto saved c0) P) as L. fold s in L.
  split; intros x Hx Hl; apply L; change (hiddenByLegend s) with (legendHidden (dim_of s)).
  - apply legend_part_node; auto.
  - apply legend_part_edge; auto.
Qed.

(** ** A view the reader chose is kept *)
Definition chosen (s : Stage) : Prop := userAdjusted s = true /\ running s = O /\ firstLayout s = false.
Definition still (a : Action) : Prop := match a with Fit _ | RunLayout | RestoreViewport _ => False | _ => True end.
Definition quietly (m : M) : Prop := forall s, chosen s -> chosen (m s).1 /\ Forall still (m s).2.

Lemma quietly_seq f g : quietly f -> quietly g -> quietly (seq f g).
Proof.
  intros F G s C. rewrite seq_fst, seq_snd. destruct (F s C) as [C1 S1], (G _ C1) as [C2 S2]. split; [done|by apply Forall_app].
Qed.
Lemma quietly_upd f : (forall s, chosen s -> chosen (f s)) -> quietly (upd f).
Proof. intros F s C. split; [by apply F|by constructor]. Qed.
Lemma quietly_emit a : still a -> quietly (emit a).
Proof. intros S s C. split; [done|by repeat constructor]. Qed.
Lemma quietly_skip : quietly skip. Proof. intros s C. by split; [|constructor]. Qed.
Lemma quietly_dim : quietly dim. Proof. by apply quietly_upd. Qed.
Lemma quietly_spatial now : quietly (emitSpatial now).
Proof. intros s C. unfold emitSpatial. destruct (onSpatialChange opts); by split; [|constructor]. Qed.
Lemma quietly_suppress now ms : quietly (suppressViewport now ms). Proof. by apply quietly_upd. Qed.
Lemma quietly_filter fn : quietly (applyFilter fn).
Proof. apply quietly_seq; [by apply quietly_upd|apply quietly_dim]. Qed.
Lemma quietly_refilter : quietly refilter.
Proof. unfold refilter. destruct (filterFn opts); [apply quietly_filter|apply quietly_dim]. Qed.

#[local] Hint Resolve quietly_seq quietly_emit quietly_skip quietly_dim quietly_spatial quietly_suppress quietly_filter quietly_refilter : quiet.
#[local] Hint Extern 1 (quietly (upd _)) => by apply quietly_upd : quiet.
#[local] Hint Extern 1 (still _) => exact I : quiet.

Lemma quietly_pin now i : quietly (pinFocus now i).
Proof.
  unfold pinFocus. apply quietly_seq; [auto with quiet|]. apply quietly_seq; [auto with quiet|].
  destruct (is_set i) as [j|]; [|auto with quiet]. intros s. destruct (has (core s) j); [|apply quietly_skip].
  apply quietly_seq; auto with quiet.
Qed.

Lemma quietly_clear : quietly clear_pin.
Proof.
  intros s. unfold clear_pin. destruct (is_pinned s); [|apply quietly_skip].
  repeat apply quietly_seq; auto with quiet.
Qed.

Lemma quietly_tap now i : quietly (tapNode now i).
Proof.
  intros s. unfold tapNode. destruct (node_data (core s) i) as [d|]; [|apply quietly_skip].
  destruct (n_lane d); [apply quietly_seq; auto using quietly_clear with quiet|].
  destruct (n_group d); [by apply quietly_emit|]. apply quietly_seq; [auto with quiet|].
  destruct (_ && (now - _ <? 300)); [destruct (_ && onNavigate opts); auto with quiet|].
  destruct (_ && (_ && _)); [auto with quiet|]. apply quietly_seq; [apply quietly_pin|].
  intros s'. unfold tell_pin. apply quietly_seq; auto with quiet.
Qed.

(** What leaves the camera to the reader: everything but asking for a fit or a new layout, and
    a new graph in which a team was opened or folded. *)
Definition quiet_event (s : Stage) (ev : Event) : Prop :=
  match ev with
  | ResetLayout _ | ResetView _ | FitNow _ => False
  | Topology _ next =>
      let c1 := refresh is_break ellipsis newline units text (focusId opts) next (core s) in
      regrouped is_break ellipsis newline units text (focusId opts) next (node_ids (core s)) (arrivals (node_ids (core s)) c1) = false
  | _ => True
  end.

Lemma handle_quiet ev s : chosen s -> quiet_event s ev -> chosen (handle ev s).1 /\ Forall still (handle ev s).2.
Proof.
  intros C Qe. destruct ev; cbn [handle].
  - by apply quietly_tap.
  - by apply quietly_emit.
  - apply quietly_seq; auto using quietly_clear with quiet.
  - unfold overNode. destruct (_ || _); [by apply quietly_skip|]. split; [done|constructor].
  - unfold outNode. destruct (is_pinned s); [by apply quietly_skip|by apply quietly_dim].
  - by apply quietly_pin.
  - by apply quietly_filter.
  - apply quietly_seq; [by apply quietly_upd|apply quietly_dim|done].
  - unfold onPatch. split; [done|constructor].
  - unfold onTopology. set (s1 := set_arranged _ _ _).
    replace (relaid _ _ _ _ _ _ _ _ _ _) with false.
    { assert (chosen s1) as C1 by done. revert C1. generalize s1. clear s1. repeat apply quietly_seq; auto with quiet. }
    symmetry. unfold relaid. cbn [quiet_event] in Qe. rewrite Qe. destruct C as (U1 & _).
    change (userAdjusted s1) with (userAdjusted s). rewrite U1. apply andb_false_r.
  - by destruct Qe.
  - by destruct Qe.
  - by destruct Qe.
  - apply quietly_seq; [by apply quietly_upd; intros ? (? & ? & ?)|apply quietly_spatial|done].
  - unfold onViewport. destruct (_ <? _); [by apply quietly_skip|].
    apply quietly_seq; [by apply quietly_upd; intros ? (? & ? & ?)|apply quietly_spatial|done].
  - unfold onResize. destruct C as (C1 & C2 & C3). rewrite C3. split; [done|constructor].
  - unfold resizeDue. destruct (resizeTimer s); [|by apply quietly_skip]. destruct C as (C1 & C2 & C3).
    change (userAdjusted (set_timers _ _ _ _ _ s)) with (userAdjusted s). rewrite C1, orb_true_r. split; [done|constructor].
  - unfold spatialDue. destruct (spatialTimer s); [|by apply quietly_skip]. split; [done|by repeat constructor].
  - unfold layoutStop. destruct C as (C1 & C2 & C3). rewrite C2. split; [done|constructor].
Qed.

Fixpoint quiet (s : Stage) (evs : list Event) : Prop :=
  match evs with [] => True | ev :: rest => quiet_event s ev /\ quiet (handle ev s).1 rest end.

(** Once the reader has arranged or framed the graph and its layout is done, nothing but
    the reader's own fit, reset, or opening or folding of a team moves the camera or lays the
    graph out again: no refresh, resize, hover, tap, filter or late timer. *)
Theorem viewport_kept s evs :
  chosen s -> quiet s evs -> Forall still (handle_all evs s).2 /\ userAdjusted (handle_all evs s).1 = true.
Proof.
  revert s. induction evs as [|ev evs IH]; intros s C Qs; cbn [handle_all].
  - split; [constructor|apply C].
  - destruct Qs as [Q1 Q2]. destruct (handle_quiet ev s C Q1) as [C1 S1]. destruct (IH _ C1 Q2) as [S2 A2].
    rewrite seq_fst, seq_snd. split; [by apply Forall_app|done].
Qed.

(** ** Taps *)
Definition no_nav (a : Action) : Prop := match a with OnNavigate _ => False | _ => True end.

Lemma pinFocus_state now p s (s' := (pinFocus now p s).1) :
  clickFocusId s' = p /\ core s' = core s /\ classes s' = applyDimming (view (core s)) (dim_of s').
Proof.
  unfold s', pinFocus. rewrite !seq_fst. cbn [upd fst].
  destruct (is_set p) as [j|]; [|done]. cbn [fst dim upd]. destruct (has _ j); [|done]. rewrite seq_fst. done.
Qed.

Lemma pinFocus_silent now p : silent no_nav (pinFocus now p).
Proof.
  apply silent_seq; [apply silent_upd|]. apply silent_seq; [apply silent_upd|]. destruct (is_set p) as [j|]; [|apply silent_skip].
  intros s. destruct (has (core s) j); [|by constructor]. apply silent_seq; [apply silent_upd|by apply silent_emit].
Qed.

Lemma tapCanvas_silent : silent no_nav tapCanvas.
Proof.
  apply silent_seq; [by apply silent_emit|]. intros s. unfold clear_pin. destruct (is_pinned s); [|by constructor].
  repeat apply silent_seq; (apply silent_upd || by apply silent_emit).
Qed.

Lemma tell_pin_silent i name : silent no_nav (tell_pin i name).
Proof. intros s. unfold tell_pin. by apply silent_seq; apply silent_emit. Qed.

Lemma no_nav_in l name : Forall no_nav l -> OnNavigate name ∉ l.
Proof. rewrite Forall_forall. intros F E. by apply (F _ E). Qed.

(** A tap opens a page only for an entity that has one: never for a lane's box, a folded
    team or an external node, and only on a double tap or where one tap opens. Any other tap on
    an entity pins it, or unpins it when it was pinned, says so, and dims the rest. *)
Theorem tap_spec now i s d (double := (i === lastTapId s) && (now - lastTapAt s <? 300)) (r := tapNode now i s) :
  node_data (core s) i = Some d ->
  (forall name, OnNavigate name ∈ r.2 ->
     n_lane d = false /\ n_group d = false /\ n_external d = false /\ name = n_serviceName d /\ (double = true \/ tapToOpen opts = true)) /\
  (n_lane d = false -> n_group d = false -> double = false -> tapToOpen opts && (negb (n_external d) && onNavigate opts) = false ->
     truthy i = true ->
     let pin := if clickFocusId s === Some i then None else Some i in
     clickFocusId r.1 = pin /\ OnSelectNode pin ∈ r.2 /\ classes r.1 = applyDimming (view (core s)) (dim_of r.1)).
Proof.
  intros E. unfold r, tapNode. rewrite E. fold double. split.
  - intros name. destruct (n_lane d); [intros X; by apply (no_nav_in _ name (tapCanvas_silent s)) in X|].
    destruct (n_group d); [by intros ?%list_elem_of_singleton|].
    rewrite seq_snd. cbn [upd snd fst app]. destruct double.
    { destruct (n_external d), (onNavigate opts); cbn; try (by intros ?%elem_of_nil). intros [= ->]%list_elem_of_singleton.
      split_and!; auto. }
    destruct (tapToOpen opts && (negb (n_external d) && onNavigate opts)) eqn:T.
    { apply andb_true_iff in T as [T1 [T2%negb_true_iff T3]%andb_true_iff]. intros [= ->]%list_elem_of_singleton. split_and!; auto. }
    intros X. exfalso. revert X. apply no_nav_in. apply silent_seq; [apply pinFocus_silent|apply tell_pin_silent].
  - intros -> -> -> -> Ti. cbn zeta. rewrite seq_fst, seq_snd. cbn [upd fst snd app]. set (p := if _ === _ then _ else _).
    rewrite seq_fst, seq_snd. destruct (pinFocus_state now p (set_tap i now s)) as (P1 & P2 & P3).
    set (s' := (pinFocus now p (set_tap i now s)).1) in *. unfold tell_pin. rewrite seq_fst, seq_snd. cbn [emit fst snd].
    split_and!; [done| |done]. apply elem_of_app. right. apply elem_of_cons. right. apply list_elem_of_singleton. f_equal.
    unfold is_pinned. rewrite P1. unfold p. destruct (clickFocusId s === Some i); [done|]. unfold is_set. by rewrite Ti.
Qed.

(** ** A refresh on the canvas *)
Lemma place_lanes_moves : only_moves place_lanes.
Proof. intros c. apply place_at_data. Qed.

Lemma emitSpatial_state now s (s' := (emitSpatial now s).1) :
  core s' = core s /\ clickFocusId s' = clickFocusId s /\ classes s' = classes s /\ dim_of s' = dim_of s.
Proof. unfold s', emitSpatial. by destruct (onSpatialChange opts). Qed.

Lemma refilter_state s (s' := (refilter s).1) :
  core s' = core s /\ clickFocusId s' = clickFocusId s /\ classes s' = applyDimming (view (core s)) (dim_of s').
Proof. unfold s', refilter. destruct (filterFn opts); [|done]. unfold applyFilter. by rewrite seq_fst. Qed.

Lemma lanes_state now s (s' := (runLayout now s).1) :
  hasLanes (core s) = true ->
  core s' = place_lanes (core s) /\ clickFocusId s' = clickFocusId s /\ classes s' = applyDimming (view (core s')) (dim_of s').
Proof.
  intros L. unfold s', runLayout. rewrite L. unfold settle. rewrite !seq_fst.
  set (s1 := (fitView now 0 _).1). assert (core s1 = place_lanes (core s) /\ clickFocusId s1 = clickFocusId s) as [C1 C2]
    by (unfold s1, fitView; by rewrite seq_fst).
  cbn [emit fst]. destruct (emitSpatial_state now (refilter s1).1) as (-> & -> & -> & ->).
  destruct (refilter_state s1) as (-> & -> & ->). by rewrite C1, C2.
Qed.

Lemma has_data c c' i : same_data c c' -> has c' i = has c i.
Proof. intros (_ & _ & E). destruct (E i) as [E1 E2]. unfold has. by rewrite E1, E2. Qed.

(** On the live canvas a new graph is applied as [applyTopology] is specified, with the lane
    layout where lanes are laid out again; afterwards the dimming is that of the new graph, and
    whatever is pinned is still drawn. *)
Theorem topology_on_stage now next s (s' := (onTopology now next s).1) :
  core s' = applyTopology is_break ellipsis newline units text (focusId opts) cos sin pi place_lanes next (userAdjusted s) (core s) /\
  only_moves place_lanes /\ classes s' = applyDimming (view (core s')) (dim_of s') /\
  forall i, clickFocusId s' = Some i -> truthy i = true -> has (core s') i = true.
Proof.
  unfold s', onTopology, applyTopology. set (c1 := refresh _ _ _ _ _ _ next (core s)). set (s1 := set_arranged _ _ _).
  change (userAdjusted s1) with (userAdjusted s).
  assert (forall i, pin_after c1 (clickFocusId s) = Some i -> truthy i = true -> has c1 i = true) as Pin.
  { intros i. unfold pin_after. destruct (clickFocusId s) as [p|]; [|done]. destruct (truthy p) eqn:T, (has c1 p) eqn:P; cbn; intros [= <-]; congruence. }
  destruct (relaid _ _ _ _ _ _ _ _ _ _) eqn:R.
  - assert (hasLanes (core s1) = true) as L by (by apply andb_true_iff in R as [R _]).
    destruct (lanes_state now s1 L) as (E1 & E2 & E3). split_and!; [done|apply place_lanes_moves|done|].
    intros i. rewrite E1, E2. unfold place_lanes. rewrite (has_data _ _ i (place_at_data _ _)). apply Pin.
  - rewrite !seq_fst. cbn [upd fst]. set (s2 := set_core _ s1).
    destruct (emitSpatial_state now (refilter s2).1) as (-> & -> & -> & ->). destruct (refilter_state s2) as (E1 & E2 & E3).
    rewrite E1, E2, E3. split_and!; [done|apply place_lanes_moves|done|].
    intros i Hi Ti. change (core s2) with (place_new (arrivals (node_ids (core s)) c1) c1).
    rewrite (has_data _ _ i (place_new_data _ _)). by apply Pin.
Qed.
End Stage.

(** ** Where nodes start *)
Lemma grid_from_spec cols i ids x p :
  (x, p) ∈ grid_from cols i ids -> exists k, ids !! k = Some x /\ p = ((i + Z.of_nat k) mod cols * 180, (i + Z.of_nat k) / cols * 140).
Proof.
  revert i. induction ids as [|y ids IH]; intros i E; [by apply elem_of_nil in E|]. cbn [grid_from] in E.
  apply elem_of_cons in E as [[= -> ->]|E].
  - exists O. by rewrite Z.add_0_r.
  - destruct (IH _ E) as (k & Hk & ->). exists (S k). replace (i + 1 + Z.of_nat k) with (i + Z.of_nat (S k)) by lia. done.
Qed.

Lemma grid_from_keys cols i ids : map fst (grid_from cols i ids) = ids.
Proof. revert i. induction ids as [|y ids IH]; intros i; [done|]. cbn. by rewrite IH. Qed.

(** Where no depth is known, every node starts on the grid, and no two boxes start on top
    of each other. *)
Theorem seed_grid_clear `{Locale} cos sin pi (nodes : list SeedNode) :
  (forall n, n ∈ nodes -> nullish (s_depth n) (-1) < 0) ->
  (forall n, n ∈ nodes -> s_id n ∈ map fst (seedPositions cos sin pi nodes)) /\
  forall a b p q, (a, p) ∈ seedPositions cos sin pi nodes -> (b, q) ∈ seedPositions cos sin pi nodes -> a <> b ->
    NODE_W < Z.abs (p.1 - q.1) \/ NODE_H < Z.abs (p.2 - q.2).
Proof.
  intros D. unfold seedPositions. replace (existsb _ nodes) with false.
  2:{ symmetry. apply not_true_iff_false. rewrite existsb_exists. intros (n & Hn%list_elem_of_In & E). specialize (D n Hn).
      apply Z.leb_le in E. lia. }
  unfold seed_grid. split.
  - intros n Hn. rewrite grid_from_keys. unfold sort_str. rewrite elem_of_sort_by. by apply list_elem_of_fmap_2.
  - set (c := grid_cols _). assert (0 < c) as C by (unfold c, grid_cols; lia).
    intros a b p q (k & Hk & ->)%grid_from_spec (l & Hl & ->)%grid_from_spec Ne. cbn [fst snd].
    assert (k <> l) as Nk by congruence. rewrite !Z.add_0_l.
    pose proof (Z.div_mod (Z.of_nat k) c) as Dk. pose proof (Z.div_mod (Z.of_nat l) c) as Dl. unfold NODE_W, NODE_H.
    destruct (decide (Z.of_nat k / c = Z.of_nat l / c)) as [E|E]; [left|right; lia]. rewrite E in Dk. lia.
Qed.

Lemma seed_grid_clear_witness :
  let ns := [{| s_id := "a"; s_depth := None; s_owner := None |}; {| s_id := "b"; s_depth := None; s_owner := None |}] in
  forall p q, ("a" : str, p) ∈ seedPositions (fun _ => 0%Q) (fun _ => 0%Q) 3%Q ns ->
    ("b" : str, q) ∈ seedPositions (fun _ => 0%Q) (fun _ => 0%Q) 3%Q ns ->
    NODE_W < Z.abs (p.1 - q.1) \/ NODE_H < Z.abs (p.2 - q.2).
Proof.
  intros ns p q Hp Hq. destruct (seed_grid_clear (fun _ => 0%Q) (fun _ => 0%Q) 3%Q ns) as [_ G].
  - intros n. unfold ns. rewrite !elem_of_cons, elem_of_nil. by intros [->|[->|[]]].
  - by apply (G "a" "b").
Defined.

(** ** On a drawn graph *)
Module Demo.
Import Drawn Walk.

Definition demo_opts : Options := {|
  focusId := None; onNavigate := true; tapToOpen := false; onSpatialChange := true; layered := false; ownerSet := None;
  filterFn := None; nodes := next_graph; width := 800; height := 600; run := fun c => c; savedZoom := None |}.

Notation zero := (fun _ : Q => 0%Q).
Notation demo_handle_all := (handle_all label_break x7e x0a (fun s => s) (fun s => s) zero zero 3%Q demo_opts).
Notation demo_start := (start label_break x7e x0a (fun s => s) (fun s => s) demo_opts false None {| d_nodes := ∅; d_edges := ∅ |}).

(** The canvas laid out, with dependencies switched off in the legend. *)
Definition demo_events : list Event := [Resize 0 800; Legend ["rel:dependency"]; TapNode 5000 "pay"; OverNode "new"; Viewport 9000].
Definition demo_stage : Stage := (demo_handle_all demo_events demo_start).1.
Definition pay_new : str := "pay→new:dependency".

(** Edges are matched by state too: a refresh that changes one leaves its fade as it was. *)
Definition matched_off : Stage := (demo_handle_all [Resize 0 800; Legend ["state:drift"]] demo_start).1.
Definition drifted : list GraphNode :=
  [node "lane" "" [] None true; node "pay" "Compliant" [edge "new" (Some "drift")] (Some "lane") false;
   node "new" "Compliant" [] (Some "lane") false].

Example legend_stale_after_patch :
  let s := (demo_handle_all [Patch drifted] matched_off).1 in
  (e_state <$> edge_data (core s) pay_new) = Some ("drift" : str) /\ faded (classes s) = [] /\
  faded (applyDimming (view (core s)) (dim_of demo_opts s)) = [pay_new].
Proof. vm_compute. done. Qed.

(** A pin on an entity that is not drawn, as one folded into its team is not, fades everything. *)
Example pin_undrawn_fades_all :
  faded (classes (demo_handle_all [Pin 20000 (Some "folded")] demo_start).1) = ["pay"; "new"; "lane"; pay_new].
Proof. vm_compute. done. Qed.

(** A filter asked for later is replaced by the first one when the graph is refreshed. *)
Definition filtered_opts : Options := {|
  focusId := None; onNavigate := true; tapToOpen := false; onSpatialChange := true; layered := false; ownerSet := None;
  filterFn := Some (fun n => id n === "new"); nodes := next_graph; width := 800; height := 600; run := fun c => c; savedZoom := None |}.
Notation filtered_all := (handle_all label_break x7e x0a (fun s => s) (fun s => s) zero zero 3%Q filtered_opts).

Example filter_reverts :
  let s := (filtered_all [Resize 0 800; Filter None] demo_start).1 in
  hiddenByFilter s = None /\ hiddenByFilter (filtered_all [Topology 20000 next_graph] s).1 = Some ["new" : str].
Proof. vm_compute. done. Qed.

Lemma demo_well_drawn : well_drawn (view (core demo_stage)).
Proof.
  constructor.
  - by_decide.
  - by_decide.
  - assert (Forall (fun i => i ∉ map e_id (g_edges (view (core demo_stage)))) (map n_id (g_nodes (view (core demo_stage))))) as F by by_decide.
    rewrite Forall_forall in F. intros n e Hn He E. apply (F (n_id n)); [by apply list_elem_of_fmap_2|].
    rewrite E. by apply list_elem_of_fmap_2.
  - assert (Forall (fun e => node_named (view (core demo_stage)) (e_source e) = true /\ node_named (view (core demo_stage)) (e_target e) = true)
      (g_edges (view (core demo_stage)))) as F by by_decide.
    rewrite Forall_forall in F. intros e He. destruct (F e He). by split; apply node_named_spec.
Qed.

(** The edge of the canvas. *)
Definition the_pay_new : EdgeData := edge_data_of (node "pay" "Compliant" [edge "new" (Some "matched")] (Some "lane") false) (edge "new" (Some "matched")).

Lemma pay_new_drawn : the_pay_new ∈ g_edges (view (core demo_stage)).
Proof. replace (g_edges (view (core demo_stage))) with [the_pay_new] by (by vm_compute). by apply elem_of_cons; left. Qed.

Lemma pay_new_off : legend_edge (view (core demo_stage)) (dim_of demo_opts demo_stage) the_pay_new.
Proof.
  left. exists ["rel:dependency" : str], ("rel:dependency" : str), (fun e => e_etype e === "dependency").
  split_and!; [by vm_compute|by apply elem_of_cons; left|done|done].
Qed.

Lemma legend_respected_witness : pay_new ∈ faded (classes demo_stage).
Proof.
  destruct (legend_respected (Cy := drawn) label_break x7e x0a (fun s => s) (fun s => s) zero zero 3%Q demo_opts false None
    {| d_nodes := ∅; d_edges := ∅ |} demo_events) as [_ L].
  - intros c. done.
  - reflexivity.
  - exact demo_well_drawn.
  - exact (L the_pay_new pay_new_drawn pay_new_off).
Defined.

Lemma dimming_spec_witness : pay_new ∈ faded (applyDimming (view (core demo_stage)) (dim_of demo_opts demo_stage)).
Proof.
  destruct (dimming_spec (view (core demo_stage)) (dim_of demo_opts demo_stage) demo_well_drawn) as [_ L].
  apply (proj2 (L the_pay_new pay_new_drawn)). right. exact pay_new_off.
Defined.

(** The reader pans, then the graph is refreshed and the window resized. *)
Definition quiet_events : list Event := [Topology 20000 drifted; Resize 20100 400; ResizeDue 20300; SpatialDue; OverNode "pay"; OutNode].

Lemma viewport_kept_witness : Forall still (demo_handle_all quiet_events demo_stage).2.
Proof.
  refine (proj1 (viewport_kept (Cy := drawn) label_break x7e x0a (fun s => s) (fun s => s) zero zero 3%Q demo_opts demo_stage quiet_events _ _)).
  - by vm_compute.
  - cbn [quiet quiet_events quiet_event]. split_and!; try exact I. by vm_compute.
Defined.

(** A first tap pins. *)
Definition laid_out : Stage := (demo_handle_all [Resize 0 800] demo_start).1.
Definition pay_data : NodeData := nullish (node_data (core laid_out) "pay") (node_data_of None "" (node "" "" [] None false)).

Lemma tap_spec_witness :
  clickFocusId (tapNode demo_opts 5000 "pay" laid_out).1 = Some ("pay" : str) /\
  OnSelectNode (Some ("pay" : str)) ∈ (tapNode demo_opts 5000 "pay" laid_out).2.
Proof.
  destruct (tap_spec (Cy := drawn) demo_opts 5000 "pay" laid_out pay_data) as [_ T].
  - by vm_compute.
  - destruct T as (T1 & T2 & _); [by vm_compute..|]. split; [exact T1|exact T2].
Defined.

Lemma topology_on_stage_witness :
  has (core (onTopology label_break x7e x0a (fun s => s) (fun s => s) zero zero 3%Q demo_opts 20000 drifted demo_stage).1) "pay" = true.
Proof.
  destruct (topology_on_stage (Cy := drawn) label_break x7e x0a (fun s => s) (fun s => s) zero zero 3%Q demo_opts 20000 drifted demo_stage)
    as (_ & _ & _ & P).
  apply P; by vm_compute.
Defined.
End Demo.
