(* ===== verification/RankWrap.v ===== *)
(** * Folding wide ranks: [wrapWideRanks] of [src/pkg/dashboard/frontend/src/lib/layout.ts]

    Coordinates are rationals; sizes are integers, as every caller's are. The map of positions
    is an association list, and a position written is the one read back for its id. *)

From stdpp Require Import base list sets.
From Stdlib Require Import Init.Byte ZArith QArith Qround Qabs Qminmax Lqa Lia.
From S2P Require Import Prelude LaneLayout.
Local Close Scope Q_scope.

Definition XY : Type := Q * Q.
Record Wrap := { nodeW : Z; nodeH : Z; nodesep : Z; ranksep : Z; maxWidth : Z }.

Definition round_y (q : Q) : Z := Qfloor (q + (1 # 2))%Q.
Definition rank_of (e : str * XY) : Z := round_y e.2.2.
Definition cmp_x (a b : str * XY) : Z :=
  match Qcompare a.2.1 b.2.1 with Lt => (-1)%Z | Eq => 0%Z | Gt => 1%Z end.

Section Wrap.
Context (w : Wrap).

Definition maxCols : nat := Z.to_nat (Z.max 1 (maxWidth w / (nodeW w + nodesep w))).
Definition step : Q := inject_Z (nodeW w + nodesep w).
Definition subRowH : Q := (inject_Z (nodeH w) + inject_Z (ranksep w) * (45 # 100))%Q.

Definition ranks (pos : list (str * XY)) : list Z := sort_by Z.sub (dedupe (map rank_of pos)).
(** The nodes of a rank, from left to right. *)
Definition rank_ids (pos : list (str * XY)) (k : Z) : list str :=
  map fst (sort_by cmp_x (List.filter (fun e => (rank_of e =? k)%Z) pos)).

Definition ceil_quot (n d : nat) : nat := (n + d - 1) / d.

(** A rank's rows, balanced. *)
Fixpoint chunks (n : nat) (rows : nat) (ids : list str) : list (list str) :=
  match rows with O => [] | S rows' => take n ids :: chunks n rows' (drop n ids) end.
Definition rank_rows (ids : list str) : list (list str) :=
  let rows := ceil_quot (length ids) maxCols in chunks (ceil_quot (length ids) rows) rows ids.

(** The middle of the whole. *)
Definition centre (pos : list (str * XY)) : Q :=
  match map (fun e => e.2.1) pos with
  | [] => 0%Q
  | x :: xs => ((fold_left Qmin xs x + fold_left Qmax xs x) / 2)%Q
  end.

Fixpoint place_row (x y : Q) (ids : list str) : list (str * XY) :=
  match ids with [] => [] | id :: rest => (id, (x, y)) :: place_row (x + step) y rest end.
Definition row_start (cx : Q) (ids : list str) : Q := (cx - (inject_Z (Z.of_nat (length ids) - 1) * step) / 2)%Q.

Fixpoint place_rows (cx y : Q) (rows : list (list str)) : list (str * XY) :=
  match rows with
  | [] => []
  | r :: rest => place_row (row_start cx r) y r ++ place_rows cx (y + subRowH) rest
  end.

Fixpoint place_ranks (cx top : Q) (rs : list (list (list str))) : list (str * XY) :=
  match rs with
  | [] => []
  | rows :: rest =>
      place_rows cx top rows ++
      place_ranks cx (top + inject_Z (Z.of_nat (length rows) - 1) * subRowH + inject_Z (nodeH w) + inject_Z (ranksep w)) rest
  end.

Definition wrapWideRanks (pos : list (str * XY)) : list (str * XY) :=
  match ranks pos with
  | [] => pos
  | k0 :: _ =>
      if forallb (fun k => length (rank_ids pos k) <=? maxCols)%nat (ranks pos) then pos
      else
        let placed := place_ranks (centre pos) (inject_Z k0) (map (fun k => rank_rows (rank_ids pos k)) (ranks pos)) in
        map (fun e => (e.1, nullish (assoc e.1 placed) e.2)) pos
  end.

(** ** Correctness *)
Definition roomy : Prop := (0 < nodeW w)%Z /\ (0 < nodeH w)%Z /\ (0 <= nodesep w)%Z /\ (0 < ranksep w)%Z.

Lemma maxCols_pos : maxCols <> O. Proof. unfold maxCols. lia. Qed.

Lemma ceil_quot_spec n d : d <> O -> (n <= d * ceil_quot n d)%nat /\ (ceil_quot n d <= n)%nat.
Proof.
  intros D. unfold ceil_quot. pose proof (Nat.div_mod (n + d - 1) d D) as E. pose proof (Nat.mod_upper_bound (n + d - 1) d D).
  split; [lia|]. destruct n as [|n]; [rewrite Nat.div_small; lia|]. apply Nat.Div0.div_le_upper_bound. nia.
Qed.

Lemma chunks_concat n rows ids : (length ids <= rows * n)%nat -> concat (chunks n rows ids) = ids.
Proof.
  revert ids. induction rows as [|rows IH]; intros ids L; [destruct ids; simpl in *; [done|lia]|]. cbn [chunks concat].
  change (concat (take n ids :: chunks n rows (drop n ids))) with (take n ids ++ concat (chunks n rows (drop n ids))).
  rewrite IH; [apply take_drop|]. rewrite length_drop. lia.
Qed.

Lemma chunks_short n rows ids r : r ∈ chunks n rows ids -> (length r <= n)%nat.
Proof.
  revert ids. induction rows as [|rows IH]; intros ids; [by intros ?%elem_of_nil|]. cbn [chunks].
  intros [->|E]%elem_of_cons; [rewrite length_take; lia|by apply (IH (drop n ids))].
Qed.

Lemma rank_rows_spec ids :
  concat (rank_rows ids) = ids /\ (forall r, r ∈ rank_rows ids -> (length r <= maxCols)%nat).
Proof.
  unfold rank_rows. destruct (ceil_quot_spec (length ids) maxCols maxCols_pos) as [A B].
  set (rows := ceil_quot (length ids) maxCols) in *. destruct (decide (rows = O)) as [E|E].
  - rewrite E in *. assert (ids = []) as -> by (destruct ids; simpl in *; [done|lia]). split; [done|by intros ? ?%elem_of_nil].
  - destruct (ceil_quot_spec (length ids) rows E) as [C D]. split; [apply chunks_concat; lia|].
    intros r Hr%chunks_short. etrans; [exact Hr|]. unfold ceil_quot. apply Nat.lt_succ_r. apply Nat.Div0.div_lt_upper_bound. nia.
Qed.

Definition clear (p q : str * XY) : Prop :=
  (step <= Qabs (p.2.1 - q.2.1) \/ subRowH <= Qabs (p.2.2 - q.2.2))%Q.

Lemma clear_x (p q : str * XY) : (p.2.1 + step <= q.2.1)%Q -> clear p q.
Proof. intros E. left. rewrite Qabs_Qminus. eapply Qle_trans; [|apply Qle_Qabs]. lra. Qed.
Lemma clear_y (p q : str * XY) : (p.2.2 + subRowH <= q.2.2)%Q -> clear p q.
Proof. intros E. right. rewrite Qabs_Qminus. eapply Qle_trans; [|apply Qle_Qabs]. lra. Qed.

Lemma step_pos : roomy -> (0 <= step)%Q.
Proof. intros (A & B & C & D). unfold step. change 0%Q with (inject_Z 0). rewrite <- Zle_Qle. lia. Qed.
Lemma sub_pos : roomy -> (0 <= subRowH)%Q.
Proof.
  intros (A & B & C & D). unfold subRowH. assert (0 <= inject_Z (nodeH w))%Q by (change 0%Q with (inject_Z 0); rewrite <- Zle_Qle; lia).
  assert (0 <= inject_Z (ranksep w))%Q by (change 0%Q with (inject_Z 0); rewrite <- Zle_Qle; lia). lra.
Qed.
Lemma sub_gap : roomy -> (subRowH <= inject_Z (nodeH w) + inject_Z (ranksep w))%Q.
Proof.
  intros (A & B & C & D). unfold subRowH. assert (0 <= inject_Z (ranksep w))%Q by (change 0%Q with (inject_Z 0); rewrite <- Zle_Qle; lia). lra.
Qed.

Lemma place_row_spec x y ids : roomy ->
  map fst (place_row x y ids) = ids /\ ForallOrdPairs clear (place_row x y ids) /\
  forall p : str * XY, p ∈ place_row x y ids -> (p.2.2 == y /\ x <= p.2.1)%Q.
Proof.
  intros R. revert x. induction ids as [|i ids IH]; intros x; cbn [place_row map].
  - split_and!; [done|constructor|by intros ? ?%elem_of_nil].
  - destruct (IH (x + step)%Q) as (A & B & C). pose proof (step_pos R) as P. split_and!.
    + cbn. by rewrite A.
    + constructor; [|done]. apply Forall_forall. intros q Hq. apply clear_x. cbn. by apply C.
    + intros p [->|Hp]%elem_of_cons; [cbn; split; lra|]. destruct (C p Hp). split; lra.
Qed.

Lemma place_rows_spec cx y rows : roomy ->
  map fst (place_rows cx y rows) = concat rows /\ ForallOrdPairs clear (place_rows cx y rows) /\
  forall p : str * XY, p ∈ place_rows cx y rows -> (y <= p.2.2 /\ p.2.2 <= y + inject_Z (Z.of_nat (length rows) - 1) * subRowH)%Q.
Proof.
  intros R. revert y. induction rows as [|r rows IH]; intros y; cbn [place_rows].
  - split_and!; [done|constructor|by intros ? ?%elem_of_nil].
  - destruct (place_row_spec (row_start cx r) y r R) as (A & B & C). destruct (IH (y + subRowH)%Q) as (D & E & F).
    pose proof (sub_pos R) as P. split_and!.
    + rewrite map_app, A, D. done.
    + apply fop_app; [done|done|]. intros p q Hp Hq. apply clear_y. destruct (C p Hp), (F q Hq). lra.
    + assert (inject_Z (Z.of_nat (length (r :: rows)) - 1) == inject_Z (Z.of_nat (length rows) - 1) + 1)%Q as L.
      { change 1%Q with (inject_Z 1). rewrite <- inject_Z_plus. replace (Z.of_nat (length (r :: rows)) - 1)%Z with (Z.of_nat (length rows) - 1 + 1)%Z by (simpl; lia). reflexivity. }
      assert (0 <= inject_Z (Z.of_nat (length (r :: rows)) - 1) * subRowH)%Q as L0.
      { apply Qmult_le_0_compat; [|done]. change 0%Q with (inject_Z 0). rewrite <- Zle_Qle. simpl. lia. }
      intros p [Hp|Hp]%elem_of_app; [destruct (C p Hp); split; lra|]. destruct (F p Hp). split; [lra|]. rewrite L. lra.
Qed.

Lemma place_ranks_spec cx top rs : roomy ->
  map fst (place_ranks cx top rs) = concat (map (fun rows => concat rows) rs) /\ ForallOrdPairs clear (place_ranks cx top rs) /\
  forall p : str * XY, p ∈ place_ranks cx top rs -> (top <= p.2.2)%Q.
Proof.
  intros R. revert top. induction rs as [|rows rs IH]; intros top; cbn [place_ranks].
  - split_and!; [done|constructor|by intros ? ?%elem_of_nil].
  - destruct (place_rows_spec cx top rows R) as (A & B & C). set (top' := (_ + _)%Q). destruct (IH top') as (D & E & F).
    pose proof (sub_pos R) as P. pose proof (sub_gap R) as G. split_and!.
    + rewrite map_app, A, D. done.
    + apply fop_app; [done|done|]. intros p q Hp Hq. apply clear_y. destruct (C p Hp). pose proof (F q Hq). unfold top' in *. lra.
    + assert (top <= top')%Q as T.
      { unfold top'. assert (- (1) <= inject_Z (Z.of_nat (length rows) - 1))%Q as L
          by (change (- (1))%Q with (inject_Z (-1)); rewrite <- Zle_Qle; lia).
        assert (- (1) * subRowH <= inject_Z (Z.of_nat (length rows) - 1) * subRowH)%Q by (by apply Qmult_le_compat_r). lra. }
      intros p [Hp|Hp]%elem_of_app; [by apply C|]. pose proof (F p Hp). lra.
Qed.

(** How far from the middle a row reaches. *)
Lemma place_row_width x y ids (p : str * XY) : roomy ->
  p ∈ place_row x y ids -> (x <= p.2.1 /\ p.2.1 <= x + inject_Z (Z.of_nat (length ids) - 1) * step)%Q.
Proof.
  intros R. pose proof (step_pos R) as P. revert x. induction ids as [|i ids IH]; intros x; [by intros ?%elem_of_nil|].
  assert (inject_Z (Z.of_nat (length (i :: ids)) - 1) == inject_Z (Z.of_nat (length ids) - 1) + 1)%Q as L.
  { change 1%Q with (inject_Z 1). rewrite <- inject_Z_plus.
    replace (Z.of_nat (length (i :: ids)) - 1)%Z with (Z.of_nat (length ids) - 1 + 1)%Z by (simpl; lia). reflexivity. }
  assert (0 <= inject_Z (Z.of_nat (length (i :: ids)) - 1) * step)%Q as L0.
  { apply Qmult_le_0_compat; [|done]. change 0%Q with (inject_Z 0). rewrite <- Zle_Qle. simpl. lia. }
  cbn [place_row]. intros [->|Hp]%elem_of_cons; [cbn [fst snd]; split; lra|]. destruct (IH _ Hp). split; [lra|]. rewrite L. lra.
Qed.

Definition within (cx : Q) (p : str * XY) : Prop :=
  (2 * Qabs (p.2.1 - cx) <= inject_Z (Z.of_nat maxCols - 1) * step)%Q.

Lemma row_within cx y r (p : str * XY) : roomy -> (length r <= maxCols)%nat -> p ∈ place_row (row_start cx r) y r -> within cx p.
Proof.
  intros R L Hp. destruct (place_row_width _ _ _ _ R Hp) as [A B]. pose proof (step_pos R) as P. unfold within, row_start in *.
  assert (inject_Z (Z.of_nat (length r) - 1) <= inject_Z (Z.of_nat maxCols - 1))%Q as L1 by (rewrite <- Zle_Qle; lia).
  assert (inject_Z (Z.of_nat (length r) - 1) * step <= inject_Z (Z.of_nat maxCols - 1) * step)%Q as L2 by (by apply Qmult_le_compat_r).
  set (h := (inject_Z (Z.of_nat (length r) - 1) * step)%Q) in *.
  assert (h / 2 == h * (1 # 2))%Q as H2 by (unfold Qdiv; reflexivity). rewrite H2 in *.
  assert (Qabs (p.2.1 - cx) <= h * (1 # 2))%Q; [|lra]. apply Qabs_Qle_condition. split; lra.
Qed.

Lemma rows_within cx y rows (p : str * XY) : roomy ->
  (forall r, r ∈ rows -> (length r <= maxCols)%nat) -> p ∈ place_rows cx y rows -> within cx p.
Proof.
  intros R. revert y. induction rows as [|r rows IH]; intros y S; [by intros ?%elem_of_nil|]. cbn [place_rows].
  intros [Hp|Hp]%elem_of_app.
  - eapply row_within; [done| |exact Hp]. apply S, elem_of_cons. by left.
  - eapply IH; [|exact Hp]. intros r' Hr. apply S, elem_of_cons. by right.
Qed.

Lemma ranks_within cx top rs (p : str * XY) : roomy ->
  (forall rows r, rows ∈ rs -> r ∈ rows -> (length r <= maxCols)%nat) -> p ∈ place_ranks cx top rs -> within cx p.
Proof.
  intros R. revert top. induction rs as [|rows rs IH]; intros y S; [by intros ?%elem_of_nil|]. cbn [place_ranks].
  intros [Hp|Hp]%elem_of_app.
  - eapply rows_within; [done| |exact Hp]. intros r. apply S, elem_of_cons. by left.
  - eapply IH; [|exact Hp]. intros rows' r' Hr. apply S, elem_of_cons. by right.
Qed.

Lemma rank_ids_elem pos k i : i ∈ rank_ids pos k <-> exists p, (i, p) ∈ pos /\ rank_of (i, p) = k.
Proof.
  unfold rank_ids. rewrite list_elem_of_fmap. split.
  - intros ([j p] & -> & E). apply elem_of_sort_by, elem_of_lfilter in E as [E K%Z.eqb_eq]. eauto.
  - intros (p & E & K). exists (i, p). split; [done|]. apply elem_of_sort_by, elem_of_lfilter. by rewrite Z.eqb_eq.
Qed.

Lemma ordpairs_elem {A} (R : A -> A -> Prop) l x y : ForallOrdPairs R l -> x ∈ l -> y ∈ l -> x = y \/ R x y \/ R y x.
Proof.
  intros F. induction F as [|a l Fa Fl IH]; intros Hx Hy; [by apply elem_of_nil in Hx|]. rewrite Forall_forall in Fa.
  apply elem_of_cons in Hx as [->|Hx], Hy as [->|Hy]; auto.
Qed.

Lemma clear_sym p q : clear p q -> clear q p.
Proof. intros [A|A]; [left|right]; by rewrite Qabs_Qminus. Qed.

(** The nodes of one rank, and whether they all fit in a row. *)
Definition on_rank (pos : list (str * XY)) (k : Z) : list (str * XY) := List.filter (fun e => (rank_of e =? k)%Z) pos.
Definition fits (pos : list (str * XY)) : Prop := forall k, (length (on_rank pos k) <= maxCols)%nat.

Lemma length_rank_ids pos k : length (rank_ids pos k) = length (on_rank pos k).
Proof. unfold rank_ids, on_rank. rewrite length_map. apply Permutation_length, sort_by_Permutation. Qed.

(** The guard of the early return asks whether every rank fits. *)
Lemma guard_fits pos : forallb (fun k => length (rank_ids pos k) <=? maxCols)%nat (ranks pos) = true <-> fits pos.
Proof.
  rewrite forallb_forall. unfold fits. split; intros H k.
  - destruct (on_rank pos k) as [|e l] eqn:E; [simpl; lia|]. rewrite <- E, <- length_rank_ids. apply Nat.leb_le, H.
    apply list_elem_of_In. unfold ranks. apply elem_of_sort_by, elem_of_dedupe.
    assert (e ∈ on_rank pos k) as [He K%Z.eqb_eq]%elem_of_lfilter by (rewrite E; apply list_elem_of_here).
    rewrite <- K. by apply (list_elem_of_fmap_2 rank_of).
  - intros _. apply Nat.leb_le. rewrite length_rank_ids. apply H.
Qed.

End Wrap.

(** Five services on one level, where three fit. *)
Definition demo_wrap : Wrap := {| nodeW := 164; nodeH := 42; nodesep := 24; ranksep := 80; maxWidth := 600 |}.
Definition demo_pos : list (str * XY) :=
  [("r", (0, 0)); ("a", (0, 122)); ("b", (188, 122)); ("c", (376, 122)); ("d", (564, 122)); ("e", (752, 122))]%Q.

