(* ===== verification/Furniture.v ===== *)
(** * Around a page: [breadcrumbs.ts], [pageTitle.ts], [nodeDrawer.ts], [tocRail.ts],
    [provisioning.ts] and [deliveryLinks.svelte.ts] of [src/pkg/dashboard/frontend/src/lib]

    Trails, titles, the drawer of a graph node, the scrolling of a contents rail, the words of
    a provisioning status and where a delivery page links a service. The observers, frames and
    styles these are driven by are the browser's. *)

From stdpp Require Import base list gmap.
From Stdlib Require Import Init.Byte ZArith Lia.
From S2P Require Import Prelude Uri Paging Router Commands.

(** ** [breadcrumbs.ts] *)
Record Crumb := { cr_label : str; cr_href : option str }.
Definition plain_crumb (l : str) : Crumb := {| cr_label := l; cr_href := None |}.
Definition link_crumb (l h : str) : Crumb := {| cr_label := l; cr_href := Some h |}.

Definition graphBreadcrumbs (grp focus : str) : list Crumb :=
  if truthy focus then [link_crumb "Graph" graphUrl; plain_crumb focus]
  else if grp === "owner" then [link_crumb "Graph" graphUrl; plain_crumb "By owner"]
  else [plain_crumb "Graph"].

Record RefLike := {
  rl_kind : option str; rl_key : option str; rl_label : option str; rl_href : option str; rl_businessDomain : option str }.

(** The name of a ref, or a fallback. *)
Definition ref_name (r : RefLike) (fallback : str) : str := or_str (rl_label r) (or_str (rl_key r) fallback).

Definition refCrumb (r : option RefLike) (fallback : str) : Crumb :=
  match r with
  | None => plain_crumb fallback
  | Some x => match when_truthy (rl_href x) with
              | Some h => link_crumb (ref_name x fallback) (hashForHref (Some h))
              | None => plain_crumb (ref_name x fallback)
              end
  end.

(** What the trail reads of a detail: its entity, a revision's version and parent, a target's
    parent. *)
Record TrailDetail := {
  dt_entity : option RefLike; dt_version : option str; dt_revision_service : option RefLike; dt_target_service : option RefLike }.

Definition home : Crumb := link_crumb "Overview" fleetOverviewUrl.
Definition services_crumb : Crumb := link_crumb "Services" (fleetServicesUrl no_services_query).
Definition domains_crumb : Crumb := link_crumb "Domains" (fleetDomainsUrl None no_paging).

Definition fleetEntityBreadcrumbs (d : option TrailDetail) : list Crumb :=
  match d ≫= dt_entity with
  | None => [home]
  | Some e =>
      match d, when_truthy (rl_kind e) with
      | Some d, Some k =>
          if k === "service" then
            match when_truthy (rl_businessDomain e) with
            | Some bd => [home; domains_crumb; link_crumb bd (fleetEntityUrl "domain" bd); plain_crumb (ref_name e "service")]
            | None => [home; services_crumb; plain_crumb (ref_name e "service")]
            end
          else if k === "domain" then [home; domains_crumb; plain_crumb (ref_name e "domain")]
          else if k === "offering" then [home; link_crumb "Offerings" (fleetOfferingsUrl None no_paging); plain_crumb (ref_name e "offering")]
          else if k === "revision" then
            [home; services_crumb; refCrumb (dt_revision_service d) "service";
             plain_crumb (match when_truthy (dt_version d) with Some v => "Revision " ++ v | None => ref_name e "Revision" end)]
          else if k === "target" then
            [home; services_crumb; refCrumb (dt_target_service d) "service"; plain_crumb (ref_name e "Operational target")]
          else if k === "owner" then [home; link_crumb "Owners" (fleetOwnersUrl None no_paging); plain_crumb (ref_name e "owner")]
          else if k === "source" then [home; link_crumb "Data sources" (fleetSourcesUrl None None no_paging); plain_crumb (ref_name e "source")]
          else [home; plain_crumb (ref_name e "entity")]
      | _, _ => [home]
      end
  end.

(** ** [pageTitle.ts] *)
Definition SUFFIX : str := "Pacto".
Definition FALLBACK : str := "Pacto Dashboard".

(** [s.replace(/\s+/g, ' ')] *)
Fixpoint squeeze (fuel : nat) (s : str) : str :=
  match fuel, s with
  | O, _ | _, [] => []
  | S fuel', b :: rest =>
      let after := trim_start s in
      if (length after <? length s)%nat then x20 :: squeeze fuel' after else b :: squeeze fuel' rest
  end.

Definition titleFor (heading : option str) : str :=
  let text := or_str heading "" in
  let h := trim (squeeze (length text) text) in
  if negb (truthy h) then FALLBACK
  else if (h === SUFFIX) || (h === FALLBACK) then FALLBACK
  else h ++ " - " ++ SUFFIX.

(** [apply]: the title is written only when it changes. *)
Definition sync_title (heading : option str) (title : str) : str * bool :=
  let next := titleFor heading in if title === next then (title, false) else (next, true).

(** ** [tocRail.ts] *)
Definition FOLD_GAP : Z := 16.
Definition railMaxHeight (viewport top gap floor_ : Z) : Z := Z.max floor_ (viewport - top - gap).
Definition revealScrollTop (scrollTop viewHeight itemTop itemHeight : Z) : Z :=
  if ((itemTop <? scrollTop) || (viewHeight <? itemHeight))%Z then itemTop
  else if (scrollTop + viewHeight <? itemTop + itemHeight)%Z then (itemTop + itemHeight - viewHeight)%Z
  else scrollTop.

(** ** [nodeDrawer.ts] *)
Record DrawerEdge := { de_targetName : option str; de_targetId : str; de_type : option str; de_required : option bool }.
Record DrawerNode := { dn_id : str; dn_serviceName : str; dn_status : str; dn_version : option str; dn_edges : list DrawerEdge }.
Record DrawerService := {
  ds_name : str; ds_version : option str; ds_owner : option str; ds_sources : option (list str); ds_source : option str;
  ds_blastRadius : option Z }.
Record DrawerDep := { dd_name : str; dd_type : option str; dd_required : option bool }.
Record DrawerData := {
  dr_name : str; dr_status : str; dr_version : str; dr_owner : option str; dr_sources : list str; dr_blastRadius : Z;
  dr_dependencies : list DrawerDep; dr_dependents : list str; dr_external : bool }.

Definition nodeDrawerData (name : str) (services : list DrawerService) (graph : option (list DrawerNode)) : option DrawerData :=
  match graph with
  | None => None
  | Some ns =>
      if negb (truthy name) then None else
      node ← List.find (fun n => (dn_serviceName n === name) || (dn_id n === name)) ns;
      let svc := List.find (fun s => ds_name s === name) services in
      Some {|
        dr_name := name; dr_status := dn_status node;
        dr_version := or_str (dn_version node) (or_str (svc ≫= ds_version) "");
        dr_owner := svc ≫= ds_owner;
        dr_sources := match svc ≫= ds_sources with
                      | Some l => l
                      | None => match when_truthy (svc ≫= ds_source) with Some s => [s] | None => [] end
                      end;
        dr_blastRadius := nullish (svc ≫= ds_blastRadius) 0%Z;
        dr_dependencies := map (fun e => {| dd_name := or_str (de_targetName e) (de_targetId e); dd_type := de_type e; dd_required := de_required e |}) (dn_edges node);
        dr_dependents := map dn_serviceName (List.filter (fun n => existsb (fun e => de_targetId e === dn_id node) (dn_edges n)) ns);
        dr_external := dn_status node === "external" |}
  end.

(** ** [provisioning.ts] *)
Inductive Tone := TOk | TErr | TInfo | TNeutral.
Definition phaseTone (phase : option str) : Tone :=
  match phase with
  | Some p => if p === "Ready" then TOk else if p === "Failed" then TErr
              else if (p === "Requested") || (p === "Provisioning") || (p === "Deleting") then TInfo else TNeutral
  | None => TNeutral
  end.

Record Provisioning := {
  pv_environment : option str; pv_entry : option str; pv_phase : str; pv_conflict : option (list str); pv_stale : bool;
  pv_reportedPhase : option str; pv_reason : option str; pv_asOf : option str; pv_verified : bool; pv_producer : option str;
  pv_source : str; pv_provider : option str; pv_externalRef : option str; pv_sourceKind : option str; pv_revision : option str }.

Definition shown_of (o : option str) : list str := match when_truthy o with Some s => [s] | None => [] end.

Definition phaseBadgeLabel (st : Provisioning) : str :=
  let where_ := join " " (shown_of (pv_environment st) ++ shown_of (pv_entry st)) in
  if truthy where_ then where_ ++ ": " ++ pv_phase st else pv_phase st.

Section Dates.
Context (formatRelative : option str -> Z -> str) (formatDateTime : str -> str).

Definition phaseLabel (st : Provisioning) (now : Z) : str :=
  if pv_phase st === "Unknown" then
    match pv_conflict st with
    | Some (c :: cs) => "Unknown: reporters disagree (" ++ join ", " (c :: cs) ++ ")"
    | _ => match when_truthy (pv_reportedPhase st) with
           | Some p => if pv_stale st then "Unknown: last reported " ++ p ++ ", stale"
                       else "Unknown: " ++ or_str (pv_reason st) "no provider has reported"
           | None => "Unknown: " ++ or_str (pv_reason st) "no provider has reported"
           end
    end
  else
    let when_ := formatRelative (pv_asOf st) now in
    if negb (pv_verified st) then pv_phase st ++ " (unsigned target-state file, " ++ when_ ++ ")"
    else pv_phase st ++ " (reported by " ++ or_str (pv_producer st) "an unnamed producer" ++ " through " ++ pv_source st ++ ", " ++ when_ ++ ")".

Definition tag_line (tag : str) (o : option str) : list str := match when_truthy o with Some s => [tag ++ s] | None => [] end.

Definition provisioningTitle (st : Provisioning) (now : Z) : str :=
  join [x0a] (phaseLabel st now :: tag_line "Provider: " (pv_provider st) ++ tag_line "External reference: " (pv_externalRef st) ++
    tag_line "Source: " (pv_sourceKind st) ++
    match when_truthy (pv_asOf st) with Some a => [("As of: " ++ formatDateTime a)] | None => [] end ++
    match pv_revision st with Some l => ["Consumer revision: " ++ l] | None => [] end).
End Dates.

(** ** [deliveryLinks.svelte.ts] *)
Record Links := { names : option (list str); asked : bool; reads : nat (* requests under way *) }.
Definition links0 : Links := {| names := None; asked := false; reads := 0 |}.

(** The link of a service; the first one asks for the fleet's names. *)
Definition ask (l : Links) : Links := {| names := names l; asked := true; reads := S (reads l) |}.
Definition deliveryServiceUrl (l : Links) (name : str) : Links * str :=
  let l := if asked l then l else ask l in
  (l, match names l with
      | Some ns => if bool_decide (name ∈ ns) then serviceUrl name else deliveryEnvironmentsUrl [("q", VStr name)]
      | None => serviceUrl name
      end).

(** A page of services: labels and keys, and whether it was cut; [None] for a read that failed. *)
Record ServicePage := { sp_entities : option (list (str * str)); sp_truncated : bool }.
Definition on_page (l : Links) (page : option ServicePage) : Links :=
  match reads l with
  | O => l
  | S n =>
      {| names := match page with
                  | Some p => if sp_truncated p then names l
                              else Some (concat (map (fun e => [e.1; e.2]) (nullish (sp_entities p) [])))
                  | None => names l
                  end; asked := asked l; reads := n |}
  end.

Inductive LinkStep : Links -> Links -> Prop :=
| StepLink l name : LinkStep l (deliveryServiceUrl l name).1
| StepPage l page : LinkStep l (on_page l page).

(** ** Trails lead home and through the product *)
Definition in_product (h : str) : Prop := exists r, parseHash (Some h) = Some r /\ product_view (view r) = true.

Definition trail_links (d : option TrailDetail) : list str := omap cr_href (fleetEntityBreadcrumbs d).

(** The parent whose own link a trail follows. *)
Definition parent_of (d : option TrailDetail) : list str :=
  match d with
  | Some d => omap (fun r => hashForHref ∘ Some <$> (r ≫= fun x => when_truthy (rl_href x))) [dt_revision_service d; dt_target_service d]
  | None => []
  end.

Lemma fixed_links : Forall (fun h => is_Some (parseHash (Some h)) /\ forall r, parseHash (Some h) = Some r -> product_view (view r) = true)
  [fleetOverviewUrl; fleetServicesUrl no_services_query; fleetDomainsUrl None no_paging; fleetOfferingsUrl None no_paging;
   fleetOwnersUrl None no_paging; fleetSourcesUrl None None no_paging].
Proof. repeat (constructor; [split; [by eexists; vm_compute|intros r; vm_compute; by intros [= <-]]|]). constructor. Qed.

Lemma fixed_product h :
  h ∈ [fleetOverviewUrl; fleetServicesUrl no_services_query; fleetDomainsUrl None no_paging; fleetOfferingsUrl None no_paging;
       fleetOwnersUrl None no_paging; fleetSourcesUrl None None no_paging] -> in_product h.
Proof. pose proof fixed_links as F. rewrite Forall_forall in F. intros E. destruct (F h E) as [[r Hr] P]. exists r. auto. Qed.

Lemma domain_product bd : bd <> [] -> Utf8 bd -> in_product (fleetEntityUrl "domain" bd).
Proof. intros Ne Hu. eexists. split; [apply fleetEntityUrl_parses; [by_decide|done|done]|done]. Qed.

Lemma when_truthy_some o s : when_truthy o = Some s -> o = Some s /\ s <> [].
Proof. unfold when_truthy. destruct o as [[|b t]|]; naive_solver. Qed.

Lemma ref_crumb_link r f h : cr_href (refCrumb r f) = Some h -> exists x, r = Some x /\ (hashForHref ∘ Some <$> when_truthy (rl_href x)) = Some h.
Proof. unfold refCrumb. destruct r as [x|]; [|done]. exists x. by destruct (when_truthy (rl_href x)). Qed.

(** Every trail starts at Overview; it ends at the page itself, which is not a link; and
    every link on the way opens a product view, or is the one the page's own parent names. *)
Theorem trail_spec d e k :
  d ≫= dt_entity = Some e -> rl_kind e = Some k -> k <> [] -> (forall bd, rl_businessDomain e = Some bd -> Utf8 bd) ->
  head (fleetEntityBreadcrumbs d) = Some home /\
  (cr_href <$> last (fleetEntityBreadcrumbs d)) = Some None /\
  forall h, h ∈ trail_links d -> in_product h \/ h ∈ parent_of d.
Proof.
  intros E K Ne Hbd. unfold trail_links, fleetEntityBreadcrumbs. rewrite E. destruct d as [d|]; [|done].
  assert (when_truthy (rl_kind e) = Some k) as -> by (rewrite K; unfold when_truthy; by destruct k).
  assert (forall r h, cr_href (refCrumb r "service") = Some h -> r = dt_revision_service d \/ r = dt_target_service d -> h ∈ parent_of (Some d)) as Par.
  { intros r h (x & -> & Hh)%ref_crumb_link Hr. unfold parent_of. apply list_elem_of_omap. exists (Some x). split; [|done].
    rewrite !elem_of_cons. naive_solver. }
  repeat case_bool_decide; try destruct (when_truthy (rl_businessDomain e)) as [bd|] eqn:B;
    (split_and!; [done|done|]); intros h (c & Hc & Hh)%list_elem_of_omap; rewrite !elem_of_cons, elem_of_nil in Hc;
    destruct_or?; simplify_eq/=; try done;
    try (left; apply fixed_product; by_decide); try (right; by eapply Par; eauto).
  left. apply when_truthy_some in B as [B N]. apply domain_product; [done|by apply Hbd].
Qed.

Lemma trail_spec_witness :
  let e := {| rl_kind := Some "service"; rl_key := Some "pay"; rl_label := None; rl_href := None; rl_businessDomain := Some "billing" |} in
  let d := Some {| dt_entity := Some e; dt_version := None; dt_revision_service := None; dt_target_service := None |} in
  head (fleetEntityBreadcrumbs d) = Some home /\ in_product (fleetEntityUrl "domain" "billing").
Proof.
  intros e d. destruct (trail_spec d e "service") as (A & _ & C); [done|done|done| |].
  - intros bd [= <-]. by_decide.
  - split; [done|]. destruct (C (fleetEntityUrl "domain" "billing")) as [?|X]; [by_decide|done|by apply elem_of_nil in X].
Defined.

(** ** The contents rail *)
(** An entry that fits is shown whole, and the list moves no further than it has to. *)
Theorem reveal_spec scrollTop viewHeight itemTop itemHeight (s := revealScrollTop scrollTop viewHeight itemTop itemHeight) :
  (0 <= itemHeight <= viewHeight)%Z ->
  (s <= itemTop /\ itemTop + itemHeight <= s + viewHeight)%Z /\
  forall t, (t <= itemTop -> itemTop + itemHeight <= t + viewHeight -> Z.abs (s - scrollTop) <= Z.abs (t - scrollTop))%Z.
Proof.
  intros F. unfold s, revealScrollTop. destruct (Z.ltb_spec itemTop scrollTop), (Z.ltb_spec viewHeight itemHeight); simpl;
    try destruct (Z.ltb_spec (scrollTop + viewHeight) (itemTop + itemHeight)); (split; [lia|intros; lia]).
Qed.

(** ** Provisioning *)
(** Only Ready is green, only Failed is red, and an unknown status says it is unknown. *)
Theorem phase_honest fr st now :
  (phaseTone (Some (pv_phase st)) = TOk <-> pv_phase st = "Ready") /\
  (phaseTone (Some (pv_phase st)) = TErr <-> pv_phase st = "Failed") /\
  (pv_phase st = "Unknown" -> starts_with "Unknown: " (phaseLabel fr st now) = true).
Proof.
  unfold phaseTone. split_and!.
  - case_bool_decide; [done|]. split; [|done]. repeat case_bool_decide; simpl; done.
  - case_bool_decide as A; [split; [done|intros B; by rewrite B in A]|]. case_bool_decide; [done|]. split; [|done].
    repeat case_bool_decide; simpl; done.
  - intros E. unfold phaseLabel. rewrite E. rewrite eqb_refl.
    destruct (pv_conflict st) as [[|c cs]|]; [destruct (when_truthy _); [destruct (pv_stale st)|]| |destruct (when_truthy _); [destruct (pv_stale st)|]];
      done.
Qed.

(** ** Delivery links *)
Definition links_ok (l : Links) : Prop :=
  (asked l = false -> reads l = O /\ names l = None) /\ (reads l <= 1)%nat /\ (names l <> None -> reads l = O).

Lemma link_step_ok l l' : LinkStep l l' -> links_ok l -> links_ok l'.
Proof.
  intros S (A & B & C). destruct S as [l name|l page].
  - unfold deliveryServiceUrl. cbn [fst]. destruct (asked l) eqn:E; [by rewrite <- E in *|]. destruct (A eq_refl) as [R N].
    unfold links_ok, ask. cbn. rewrite R, N. split_and!; [done|lia|done].
  - unfold on_page. destruct (reads l) as [|n] eqn:R; [unfold links_ok; by rewrite R|]. assert (n = O) as -> by lia. unfold links_ok. cbn. split_and!; [|lia|done].
    intros F. by destruct (A F).
Qed.

(** The fleet's names are asked for once, whatever is linked and whenever the answer comes, and
    once known they stay; a service is sent to Stages only when a whole page lacked its name. *)
Theorem delivery_links l :
  rtc LinkStep links0 l ->
  (reads l <= 1)%nat /\
  (forall l' ns, LinkStep l l' -> names l = Some ns -> names l' = Some ns) /\
  (forall name, (deliveryServiceUrl l name).2 <> serviceUrl name -> exists ns, names l = Some ns /\ name ∉ ns).
Proof.
  intros R. assert (links_ok l) as (A & B & C).
  { assert (links_ok links0) as O by (split_and!; [done|cbn; lia|done]). revert O. induction R as [|x y z S R IH]; [done|]. eauto using link_step_ok. }
  split_and!; [done| |].
  - intros l' ns S N. destruct S as [l name|l page].
    + unfold deliveryServiceUrl. cbn [fst]. by destruct (asked l).
    + unfold on_page. rewrite C by (by rewrite N). done.
  - intros name. unfold deliveryServiceUrl. cbn [snd].
    assert (names (if asked l then l else ask l) = names l) as -> by (by destruct (asked l)).
    destruct (names l) as [ns|]; [|done]. case_bool_decide; [done|]. eauto.
Qed.
