(* ===== verification/MountGraph.v ===== *)
(** * The mounted neighborhood: [init] of
    [src/pkg/dashboard/frontend/src/NeighborhoodGraph.svelte]

    What the component does with the canvas each time its inputs change: make it, hand it a
    new graph, restyle it, or take it away. The canvas itself is [GraphStage.v]; here it is
    the calls made to it. Whether the renderer fails is an input. *)

From stdpp Require Import base list sets.
From Stdlib Require Import Init.Byte Lia.
From S2P Require Import Prelude Neighborhood.

(** The subject of a query: its kind, key and perspective. *)
Definition instanceKey (queryKey : str) : str := join "|" (take 3 (split_on x7c queryKey)).

Record Inputs := { in_graph : list GraphNode; in_focusKey : str; in_queryKey : str; in_renders : bool }.

(** A canvas, by number, with the graph it was last given. *)
Record Canvas := { cv_no : nat; cv_given : list GraphNode; cv_focus : str }.

Inductive Call :=
| Make (no : nat) (gd : list GraphNode) | ApplyTopology (no : nat) (gd : list GraphNode)
| PatchData (no : nat) (gd : list GraphNode) | Destroy (no : nat) | OnControls (given : bool).

Record Mount := {
  instance : option Canvas; lastTopo : str; lastPres : str; lastInstanceKey : option str; renderError : bool; made : nat }.
Definition mount0 : Mount :=
  {| instance := None; lastTopo := ""; lastPres := ""; lastInstanceKey := None; renderError := false; made := 0 |}.

Definition topo_of (gd : list GraphNode) (focusKey : str) : str := topoSignature gd ++ "||" ++ focusKey.

(** The canvas is kept, and given what changed. *)
Definition keep (i : Canvas) (inp : Inputs) (m : Mount) : Mount * list Call :=
  let gd := in_graph inp in
  let topo := topo_of gd (in_focusKey inp) in
  let pres := presentationSignature gd in
  let given := Some {| cv_no := cv_no i; cv_given := gd; cv_focus := in_focusKey inp |} in
  if topo !== lastTopo m then
    ({| instance := given; lastTopo := topo; lastPres := pres; lastInstanceKey := lastInstanceKey m;
        renderError := renderError m; made := made m |}, [ApplyTopology (cv_no i) gd])
  else if pres !== lastPres m then
    ({| instance := given; lastTopo := lastTopo m; lastPres := pres; lastInstanceKey := lastInstanceKey m;
        renderError := renderError m; made := made m |}, [PatchData (cv_no i) gd])
  else (m, []).

(** The canvas is taken away, and made anew unless there is nothing to draw. *)
Definition rebuild (inp : Inputs) (m : Mount) : Mount * list Call :=
  let gd := in_graph inp in
  let gone := match instance m with Some i => [Destroy (cv_no i)] | None => [] end in
  let next i err n :=
    {| instance := i; lastTopo := topo_of gd (in_focusKey inp); lastPres := presentationSignature gd;
       lastInstanceKey := Some (instanceKey (in_queryKey inp)); renderError := err; made := n |} in
  match gd with
  | [] => (next None (renderError m) (made m), gone ++ [OnControls false])
  | _ => if in_renders inp
         then (next (Some {| cv_no := made m; cv_given := gd; cv_focus := in_focusKey inp |}) false (S (made m)),
               gone ++ [Make (made m) gd; OnControls true])
         else (next None true (made m), gone ++ [OnControls false])
  end.

Definition init (inp : Inputs) (m : Mount) : Mount * list Call :=
  match instance m, in_graph inp with
  | Some i, _ :: _ => if lastInstanceKey m === Some (instanceKey (in_queryKey inp)) then keep i inp m else rebuild inp m
  | _, _ => rebuild inp m
  end.

Fixpoint init_all (inps : list Inputs) (m : Mount) : Mount * list Call :=
  match inps with
  | [] => (m, [])
  | inp :: rest => let '(m1, c1) := init inp m in let '(m2, c2) := init_all rest m1 in (m2, c1 ++ c2)
  end.

(** ** Correctness *)
(** The canvases made and not destroyed. *)
Definition alive (live : list nat) (c : Call) : list nat :=
  match c with Make n _ => n :: live | Destroy n => List.filter (fun k => negb (k =? n)%nat) live | _ => live end.

Definition owned (m : Mount) : list nat := match instance m with Some i => [cv_no i] | None => [] end.

(** What is remembered is what the canvas was given. *)
Definition remembers (m : Mount) : Prop :=
  forall i, instance m = Some i -> lastTopo m = topo_of (cv_given i) (cv_focus i) /\ lastPres m = presentationSignature (cv_given i).

(** The canvas's graph and the newest one have the same signatures. *)
Definition signed (m : Mount) (inp : Inputs) : Prop :=
  exists i, instance m = Some i /\ topo_of (cv_given i) (cv_focus i) = topo_of (in_graph inp) (in_focusKey inp) /\
    presentationSignature (cv_given i) = presentationSignature (in_graph inp).

Lemma rebuild_spec inp m (r := rebuild inp m) :
  remembers r.1 /\ fold_left alive r.2 (owned m) = owned r.1 /\
  (in_graph inp <> [] -> in_renders inp = true -> signed r.1 inp).
Proof.
  unfold r, rebuild, remembers, signed, owned. destruct (in_graph inp) as [|n ns], (instance m) as [i|]; [..|];
    try destruct (in_renders inp); cbn; rewrite ?Nat.eqb_refl; split_and!; try done; try (intros ? [= <-]; done); eauto.
Qed.

Lemma keep_spec i inp m (r := keep i inp m) :
  instance m = Some i -> remembers m -> remembers r.1 /\ owned r.1 = owned m /\ fold_left alive r.2 (owned m) = owned m /\ signed r.1 inp.
Proof.
  intros I R. destruct (R i I) as [R1 R2]. unfold r, keep, remembers, signed, owned.
  case_bool_decide as T; cbn [negb].
  - case_bool_decide as P; cbn [negb fst snd fold_left alive].
    + split_and!; [done|done|done|]. exists i. split_and!; [done|congruence|congruence].
    + cbn [fst snd instance lastTopo lastPres fold_left alive]. rewrite I. split_and!; [|done|done|eauto].
      intros ? [= <-]. cbn [cv_given cv_focus]. auto.
  - cbn [fst snd instance lastTopo lastPres fold_left alive]. rewrite I. split_and!; [|done|done|eauto]. intros ? [= <-]. done.
Qed.

Lemma init_spec inp m (r := init inp m) :
  remembers m -> remembers r.1 /\ fold_left alive r.2 (owned m) = owned r.1 /\
  (in_graph inp <> [] -> in_renders inp = true -> signed r.1 inp).
Proof.
  intros R. pose proof (rebuild_spec inp m) as B. unfold r, init. destruct (instance m) as [i|] eqn:I; [|done].
  destruct (keep_spec i inp m I R) as (K1 & K2 & K3 & K4).
  destruct (in_graph inp); [done|]. destruct (_ === _); [|done]. rewrite K2. auto.
Qed.

Lemma init_all_spec inps m (r := init_all inps m) : remembers m -> remembers r.1 /\ fold_left alive r.2 (owned m) = owned r.1.
Proof.
  unfold r. clear r. revert m. induction inps as [|inp inps IH]; intros m R; [done|]. cbn [init_all].
  destruct (init_spec inp m R) as (A & B & _). destruct (init inp m) as [m1 c1]. cbn [fst snd] in *.
  destruct (IH m1 A) as [C D]. destruct (init_all inps m1) as [m2 c2]. cbn [fst snd] in *. split; [done|]. by rewrite fold_left_app, B.
Qed.

(** The graph a canvas was given is one of the inputs. *)
Lemma init_given (P : list GraphNode -> Prop) inp m (ok := fun m => forall i, instance m = Some i -> P (cv_given i)) :
  P (in_graph inp) -> ok m -> ok (init inp m).1.
Proof.
  intros G M. assert (ok (rebuild inp m).1) as B.
  { unfold ok, rebuild. destruct (in_graph inp); [done|]. destruct (in_renders inp); [by intros ? [= <-]|done]. }
  unfold init. destruct (instance m) as [i|] eqn:I; [|done]. destruct (in_graph inp) eqn:E; [done|]. destruct (_ === _); [|done].
  unfold keep. rewrite E. destruct (negb _); [by intros ? [= <-]|]. destruct (negb _); [by intros ? [= <-]|done].
Qed.
Lemma init_all_given (P : list GraphNode -> Prop) inps m (ok := fun m => forall i, instance m = Some i -> P (cv_given i)) :
  Forall (fun inp => P (in_graph inp)) inps -> ok m -> ok (init_all inps m).1.
Proof.
  intros F. revert m. induction F as [|inp inps G F IH]; intros m M; [done|]. cbn [init_all].
  pose proof (init_given P inp m G M) as N. destruct (init inp m) as [m1 c1]. specialize (IH m1 N).
  by destruct (init_all inps m1) as [m2 c2].
Qed.

(** ** What the signatures tell apart *)
(** What a node and a line look like. *)
Definition looks (n : GraphNode) : str * str * NodeKind * str * str :=
  (gid n, status n, kind n, serviceName n, or_str (version n) []).
Definition lines (n : GraphNode) : list (str * str * str * option EdgeVisualState * bool * str) :=
  (fun e => (gid n, targetId e, or_str (e_type e) "dependency", e_state e, refused e, or_str (e_label e) [])) <$> edges n.
Definition same_picture (gd gd' : list GraphNode) : Prop :=
  looks <$> gd ≡ₚ looks <$> gd' /\ concat (lines <$> gd) ≡ₚ concat (lines <$> gd').

(** Keys without the marks that separate them, and words without a colon too. *)
Definition plain_key (w : str) : Prop := x2c ∉ w /\ x7c ∉ w /\ x3e ∉ w.
Definition plain_word (w : str) : Prop := x2c ∉ w /\ x7c ∉ w /\ x3a ∉ w.
Definition plain_look (l : str * str * NodeKind * str * str) : Prop :=
  let '(i, st, _, name, v) := l in plain_key i /\ plain_word st /\ plain_word name /\ plain_word v.
Definition plain_line (l : str * str * str * option EdgeVisualState * bool * str) : Prop :=
  let '(i, t, ty, _, _, w) := l in plain_key i /\ plain_key t /\ plain_word ty /\ plain_word w.
Definition plain_graph (gd : list GraphNode) : Prop :=
  Forall plain_look (looks <$> gd) /\ Forall plain_line (concat (lines <$> gd)).

Definition look_text (l : str * str * NodeKind * str * str) : str :=
  let '(i, st, k, name, v) := l in (((i ++ ":" ++ st) ++ ":" ++ kind_str k) ++ ":" ++ name) ++ ":" ++ v.
Definition line_text (l : str * str * str * option EdgeVisualState * bool * str) : str :=
  let '(i, t, ty, st, r, w) := l in
  ((((i ++ ">" ++ t) ++ ":" ++ ty) ++ ":" ++ state_str st) ++ ":" ++ (if r then "refused" else [])) ++ ":" ++ w.

Lemma presentation_texts gd :
  presentationSignature gd =
    join "," (sort_str (look_text <$> (looks <$> gd))) ++ "||" ++ join "," (sort_str (line_text <$> concat (lines <$> gd))).
Proof.
  unfold presentationSignature. f_equal; [|f_equal]; do 2 f_equal.
  - rewrite <- list_fmap_compose. apply list_fmap_ext. intros k n _. cbn. by rewrite <- !app_assoc.
  - induction gd as [|n gd IH]; [done|]. cbn [fmap list_fmap concat]. rewrite fmap_app. f_equal; [|done].
    unfold lines. rewrite <- list_fmap_compose. apply list_fmap_ext. intros k e _. cbn. unfold topo_edge. by rewrite <- !app_assoc.
Qed.

Lemma look_inj l l' : plain_look l -> plain_look l' -> look_text l = look_text l' -> l = l'.
Proof.
  destruct l as [[[[i st] k] n] v], l' as [[[[i' st'] k'] n'] v']. cbn [plain_look look_text].
  intros (_ & (_ & _ & A) & (_ & _ & B) & (_ & _ & C)) (_ & (_ & _ & A') & (_ & _ & B') & (_ & _ & C')) E.
  apply cut_last in E as [E ->]; [|done..].
  apply cut_last in E as [E ->]; [|done..].
  apply cut_last in E as [E K]; [|destruct k; by_decide|destruct k'; by_decide].
  apply cut_last in E as [-> ->]; [|done..]. by destruct k, k'.
Qed.

Lemma line_inj l l' : plain_line l -> plain_line l' -> line_text l = line_text l' -> l = l'.
Proof.
  destruct l as [[[[[i t] ty] st] r] w], l' as [[[[[i' t'] ty'] st'] r'] w']. cbn [plain_line line_text].
  intros ((_ & _ & A) & _ & (_ & _ & B) & (_ & _ & C)) ((_ & _ & A') & _ & (_ & _ & B') & (_ & _ & C')) E.
  apply cut_last in E as [E ->]; [|done..].
  apply cut_last in E as [E K]; [|destruct r; by_decide|destruct r'; by_decide].
  apply cut_last in E as [E S]; [|destruct st as [[]|]; by_decide|destruct st' as [[]|]; by_decide].
  apply cut_last in E as [E ->]; [|done..]. apply cut_first in E as [-> ->]; [|done..].
  assert (st = st') as -> by (by destruct st as [[]|], st' as [[]|]). by destruct r, r'.
Qed.
Lemma sorted_same l : sort_str l ≡ₚ l.
Proof. apply sort_by_Permutation. Qed.

Lemma not_in_join c sep l : c ∉ sep -> Forall (fun w : str => c ∉ w) l -> c ∉ join sep l.
Proof.
  intros S. induction 1 as [|w l Hw F IH]; [by apply not_elem_of_nil|]. destruct l as [|w' l]; [done|]. rewrite join_cons2.
  by intros [?|[?|?]%elem_of_app]%elem_of_app.
Qed.

(** A sorted list of plain texts, joined by commas, says which they are. *)
Lemma joined_texts (l l' : list str) (ok := fun w : str => x2c ∉ w /\ w <> []) :
  Forall ok l -> Forall ok l' -> join "," (sort_str l) = join "," (sort_str l') -> l ≡ₚ l'.
Proof.
  intros F F' E. assert (forall m, Forall ok m -> Forall (fun w : str => x2c ∉ w) (sort_str m)) as C.
  { intros m M. rewrite sorted_same. by eapply Forall_impl; [exact M|intros ? []]. }
  assert (forall m, Forall ok m -> join "," (sort_str m) = [] -> m = []) as Nil.
  { intros m M. assert (Forall ok (sort_str m)) as M' by (by rewrite sorted_same). intros J.
    apply Permutation_nil_r. rewrite <- (sorted_same m).
    destruct M' as [|w ws [_ Hw] _]; [done|]. exfalso. destruct ws; [done|]. rewrite join_cons2 in J. by destruct w. }
  destruct (decide (l = [])) as [->|Ne]; [symmetry in E; apply Nil in E; [by rewrite E|done]|].
  destruct (decide (l' = [])) as [->|Ne']; [apply Nil in E; done|].
  apply (f_equal (split_on x2c)) in E. rewrite !split_join in E; auto.
  - rewrite <- (sorted_same l), <- (sorted_same l'). by rewrite E.
  - intros S. apply Ne'. apply Permutation_nil_r. by rewrite <- S, sorted_same.
  - intros S. apply Ne. apply Permutation_nil_r. by rewrite <- S, sorted_same.
Qed.

Lemma texts_perm {A} (ok : A -> Prop) (text : A -> str) l l' :
  (forall x y, ok x -> ok y -> text x = text y -> x = y) -> Forall ok l -> Forall ok l' -> text <$> l ≡ₚ text <$> l' -> l ≡ₚ l'.
Proof.
  intros I F F' P. destruct (Permutation_map_inv text l' P) as (l3 & E & P3). rewrite P3 in F'. rewrite P3. clear P P3.
  assert (l = l3) as ->; [|done]. revert l3 E F'. induction F as [|x l Hx F IH]; intros [|y l3] E F'; try done.
  inversion F'; subst. cbn in E. injection E as E1 E2. f_equal; [by apply I|by apply IH].
Qed.

Lemma look_plain l : plain_look l -> x2c ∉ look_text l /\ x7c ∉ look_text l /\ look_text l <> [].
Proof.
  destruct l as [[[[i st] k] n] v]. intros ((A1 & A2 & _) & (B1 & B2 & _) & (C1 & C2 & _) & (D1 & D2 & _)). cbn [look_text].
  split_and!; [destruct k; set_solver..|]. intros E. apply app_nil in E as [_ E]. done.
Qed.
Lemma line_plain l : plain_line l -> x2c ∉ line_text l /\ x7c ∉ line_text l /\ line_text l <> [].
Proof.
  destruct l as [[[[[i t] ty] st] r] w]. intros ((A1 & A2 & _) & (B1 & B2 & _) & (C1 & C2 & _) & (D1 & D2 & _)). cbn [line_text].
  split_and!; [destruct st as [[]|], r; set_solver..|]. intros E. apply app_nil in E as [_ E]. done.
Qed.

(** Two plain graphs with one presentation signature have the same nodes and lines, looking the
    same. *)
Lemma presentation_inj gd gd' :
  plain_graph gd -> plain_graph gd' -> presentationSignature gd = presentationSignature gd' -> same_picture gd gd'.
Proof.
  intros [N L] [N' L'] E. rewrite !presentation_texts in E.
  assert (forall g, Forall plain_look g -> x7c ∉ join "," (sort_str (look_text <$> g))) as Bar.
  { intros g F. apply not_in_join; [by_decide|]. rewrite sorted_same, Forall_fmap.
    eapply Forall_impl; [exact F|]. intros x X. by apply look_plain. }
  apply cut_first in E as [E1 E2]; [|auto..]. injection E2 as E2. split.
  - eapply texts_perm; [exact look_inj|done..|]. apply joined_texts; [..|done]; rewrite Forall_fmap;
      (eapply Forall_impl; [eassumption|intros x X; destruct (look_plain x X) as (? & _ & ?); by split]).
  - eapply texts_perm; [exact line_inj|done..|]. apply joined_texts; [..|done]; rewrite Forall_fmap;
      (eapply Forall_impl; [eassumption|intros x X; destruct (line_plain x X) as (? & _ & ?); by split]).
Qed.

(** The topology signature of a plain graph has no more bars than the one that ends each part. *)
Lemma topo_parts gd : plain_graph gd -> exists a b, topoSignature gd = a ++ "||" ++ b /\ x7c ∉ a /\ x7c ∉ b.
Proof.
  intros [N L]. unfold topoSignature. eexists _, _. split_and!; [done|..]; (apply not_in_join; [by_decide|]; rewrite sorted_same).
  - apply Forall_fmap. pose proof (proj1 (Forall_fmap looks plain_look gd) N) as N'. eapply Forall_impl; [exact N'|]. intros n ((_ & B & _) & _). exact B.
  - apply Forall_concat, Forall_fmap, Forall_forall. intros n Hn. apply Forall_fmap, Forall_forall. intros e He.
    rewrite Forall_forall in L. destruct (L (gid n, targetId e, or_str (e_type e) "dependency", e_state e, refused e, or_str (e_label e) [])) as
      ((_ & A & _) & (_ & B & _) & (_ & C & _) & _); [|unfold topo_edge; cbn [compose]; set_solver].
    apply elem_of_concat. exists (lines n). split; [|by apply list_elem_of_fmap_2].
    by apply (list_elem_of_fmap_2 (fun e => (gid n, targetId e, or_str (e_type e) "dependency", e_state e, refused e, or_str (e_label e) []))).
Qed.

Lemma topo_focus gd gd' f f' : plain_graph gd -> plain_graph gd' -> topo_of gd f = topo_of gd' f' -> f = f'.
Proof.
  intros (a & b & E & A & B)%topo_parts (a' & b' & E' & A' & B')%topo_parts. unfold topo_of. rewrite E, E', <- !app_assoc.
  intros [_ H]%cut_first; [|done..]. injection H as H. apply cut_first in H as [_ H]; [|done..]. by injection H.
Qed.

(** The canvas was last given the newest input: the same focus, the same nodes with the same
    status, kind, name and version, and the same lines with the same type, state and words. *)
Definition shows (m : Mount) (inp : Inputs) : Prop :=
  exists i, instance m = Some i /\ cv_focus i = in_focusKey inp /\ same_picture (cv_given i) (in_graph inp).

Lemma signed_shows m inp : (forall i, instance m = Some i -> plain_graph (cv_given i)) -> plain_graph (in_graph inp) -> signed m inp -> shows m inp.
Proof.
  intros P Q (i & I & T & S). specialize (P i I). exists i. split; [done|]. split; [|by apply presentation_inj].
  by apply (topo_focus (cv_given i) (in_graph inp)).
Qed.

(** C27: However its inputs change, the component keeps at most one canvas, and unless there is
    nothing to draw or the renderer failed, that one was last given what the newest input says:
    the same focus, the same nodes with the same status, kind, name and version, the same lines
    with the same type, state and words; for graphs whose keys hold no comma, bar or angle
    bracket, and whose words hold no colon either, as these separate the parts of what is
    remembered. And while the subject of the query stays, an existing canvas is neither
    destroyed nor made anew. *)
Theorem canvas_current inps inp (m := (init_all inps mount0).1) (r := init inp m) :
  fold_left alive ((init_all inps mount0).2 ++ r.2) [] = owned r.1 /\
  (Forall (fun inp => plain_graph (in_graph inp)) (inp :: inps) -> in_graph inp <> [] -> in_renders inp = true -> shows r.1 inp) /\
  (in_graph inp <> [] -> instance m <> None -> lastInstanceKey m = Some (instanceKey (in_queryKey inp)) ->
     cv_no <$> instance r.1 = cv_no <$> instance m /\ forall c, c ∈ r.2 -> match c with Make _ _ | Destroy _ => False | _ => True end).
Proof.
  destruct (init_all_spec inps mount0) as [R A]; [done|]. fold m in R, A. destruct (init_spec inp m R) as (_ & C & D).
  split_and!.
  - rewrite fold_left_app. change [] with (owned mount0). rewrite A. apply C.
  - intros [P Ps]%Forall_cons G I. apply signed_shows; [|done|by apply D]. apply init_given; [done|]. by apply init_all_given.
  - intros G I K. unfold r, init. destruct (instance m) as [i|] eqn:Im; [|done]. destruct (in_graph inp) as [|n ns] eqn:Gi; [done|].
    rewrite bool_decide_eq_true_2 by done. unfold keep. destruct (negb _); cbn; [split; [done|by intros c ->%list_elem_of_singleton]|].
    destruct (negb _); cbn; [split; [done|by intros c ->%list_elem_of_singleton]|]. rewrite Im. split; [done|by intros c ?%elem_of_nil].
Qed.

(** A service, then its verdict changes, then another subject. *)
Definition demo_node (st : str) : GraphNode :=
  {| gid := "pay"; serviceName := "pay"; status := st; version := None; kind := KService; edges := []; depth := None;
     owner := None; group := None; side := None; lane := false; parent := None |}.
Definition demo_input (st q : str) : Inputs := {| in_graph := [demo_node st]; in_focusKey := "pay"; in_queryKey := q; in_renders := true |}.

Lemma canvas_current_witness :
  shows (init_all [demo_input "Compliant" "service|pay|s|1"; demo_input "NonCompliant" "service|pay|s|2"] mount0).1
    (demo_input "NonCompliant" "service|pay|s|2") /\
  (init (demo_input "NonCompliant" "service|pay|s|2") (init (demo_input "Compliant" "service|pay|s|1") mount0).1).2 =
    [PatchData 0 [demo_node "NonCompliant"]].
Proof.
  split; [|by vm_compute].
  apply (proj1 (proj2 (canvas_current [demo_input "Compliant" "service|pay|s|1"] (demo_input "NonCompliant" "service|pay|s|2")))); [|done..].
  repeat constructor; by_decide.
Defined.

(** What the signatures leave out can go stale: when only a service's team changes, the canvas is
    given nothing, and its node keeps the old team. *)
Definition owned_by (team : str) : Inputs :=
  {| in_graph := [{| gid := "pay"; serviceName := "pay"; status := "Compliant"; version := None; kind := KService; edges := [];
       depth := None; owner := Some team; group := None; side := None; lane := false; parent := None |}];
     in_focusKey := "pay"; in_queryKey := "service|pay|s|1"; in_renders := true |}.
Example team_stale : (init_all [owned_by "payments"; owned_by "platform"] mount0).2 =
  [Make 0 (in_graph (owned_by "payments")); OnControls true].
Proof. by vm_compute. Qed.

(** Nor do the separators keep words apart that hold one: the two graphs differ in the name and
    the version of their node, and the canvas is not given the second. *)
Definition named (name version : str) : Inputs :=
  {| in_graph := [{| gid := "pay@1"; serviceName := name; status := "Compliant"; version := Some version; kind := KRevision; edges := [];
       depth := None; owner := None; group := None; side := None; lane := false; parent := None |}];
     in_focusKey := "pay@1"; in_queryKey := "revision|pay@1|r|1"; in_renders := true |}.
Example separator_stale : (init_all [named "pay" "1:2"; named "pay:1" "2"] mount0).2 = [Make 0 (in_graph (named "pay" "1:2")); OnControls true].
Proof. by vm_compute. Qed.
