(* ===== verification/GraphPage.v ===== *)
(** * The operational graph page: [src/pkg/dashboard/frontend/src/views/GraphView.svelte]

    The page reads its question from the route, asks it through a loader, decides what of the
    loader's answer may be shown, and says in words what the canvas shows. Its own state is
    the drawer, the open groups and the hidden legend entries; its handlers are steps over
    that state, with what they do to the canvas and to the focus as effects. *)

From stdpp Require Import base list gmap.
From Stdlib Require Import Init.Byte ZArith NArith Lia Relation_Operators.
From S2P Require Import Prelude Uri Paging GraphState Router Format Knowledge Loader Neighborhood Lanes Spatial Labels.
Local Open Scope Z_scope.

(** ** The answer *)

(** A declared claim, as far as the drawer reads it: the guarantees it found refused, by
    their JSON text, and why. *)
Record Claim := { cl_unmet : list str; cl_reason : option str }.

Record Answer := {
  an_nodes : list ProductNode; an_edges : list ProductEdge; an_totalNodes : option Z;
  an_truncated : bool; an_truncatedEdges : bool; an_effectiveDepth : Z; an_meta : option MetaLike;
  an_requestedFocus : option ProductRef; an_unresolved : option Z; an_canon : CanonNeighborhood;
  an_revisionState : ProductNode -> option str }.

Definition is_empty (a : option Answer) : bool :=
  neighborhoodIsEmpty ((fun a => (Some (len (an_edges a)), an_unresolved a)) <$> a).

(** ** The question, and whether the loader's data answers it *)
Definition query_of (gs : GraphState) : GraphQuery :=
  {| gq_kind := gs_kind gs; gq_key := gs_key gs; gq_perspective := perspective_str (gs_perspective gs);
     gq_views := view_str <$> gs_views gs; gq_direction := direction_str (gs_direction gs);
     gq_depth := gs_depth gs; gq_maxNodes := gs_maxNodes gs |}.

Definition queryKey (gs : GraphState) : str := graphQueryKey (query_of gs).

(** What the loader is asked with: [sync(key, tag)]. *)
Definition syncKey (gs : GraphState) (refreshTick : Z) : str :=
  join "@@" [gs_kind gs; gs_key gs; perspective_str (gs_perspective gs); direction_str (gs_direction gs);
             show_Z (gs_depth gs); show_Z (gs_maxNodes gs); join "," (view_str <$> gs_views gs); show_Z refreshTick].

Abbreviation NbLoader := (Loader Answer str).

Definition ask (params : gmap str str) (refreshTick : Z) (l : NbLoader) : NbLoader * option (@Loader.Request Answer str) :=
  let gs := graphStateFromParams params in
  if hasFocus params then sync l (syncKey gs refreshTick) (Some (queryKey gs)) None else (l, None).

Definition nb_of (params : gmap str str) (l : NbLoader) : option Answer := if hasFocus params then data l else None.

Definition graphSubject (k : option str) : str := join "|" (take 3 (split_on x7c (nullish k []))).

Definition carrying (params : gmap str str) (l : NbLoader) : bool :=
  let q := queryKey (graphStateFromParams params) in
  bool_decide (is_Some (nb_of params l)) && (dataTag l !== Some q)
  && (graphSubject (dataTag l) === graphSubject (Some q)).

Definition shown (params : gmap str str) (l : NbLoader) : option Answer :=
  let q := queryKey (graphStateFromParams params) in
  if (dataTag l === Some q) || carrying params l then nb_of params l else None.

Definition notFound (params : gmap str str) (l : NbLoader) : bool :=
  hasFocus params && bool_decide (shown params l = None)
  && match error l with Some (ApiError s _) => s =? 404 | _ => false end.

(** The link an old deep link is replaced with, when the backend focused something else. *)
Definition canonicalize (gs : GraphState) (a : option Answer) : option str :=
  canon ← projectionFocusMismatch (an_canon <$> a) (gs_kind gs) (gs_key gs);
  Some (fleetGraphFocusUrl (cr_kind canon) (cr_key canon)
    {| go_perspective := Some (gs_perspective gs); go_views := Some (gs_views gs);
       go_direction := Some (gs_direction gs); go_depth := Some (gs_depth gs); go_maxNodes := Some (gs_maxNodes gs) |}).

Definition is_focus_node (n : ProductNode) : bool := nullish (pn_focus n) false.
Definition focusNode (a : option Answer) : option ProductNode := a ≫= (fun a => List.find is_focus_node (an_nodes a)).

Definition perspectives (gs : GraphState) (a : option Answer) : list GraphPerspective :=
  availablePerspectives (gs_kind gs)
    (revisionLinkAuthoritative (a ≫= (fun a => focusNode (Some a) ≫= an_revisionState a))).

Definition depthSupported (gs : GraphState) : bool := perspectiveSupportsDepth (perspective_str (gs_perspective gs)).

Definition oneHopNote (gs : GraphState) (carrying : bool) (a : option Answer) : bool :=
  negb carrying && match a with Some a => an_effectiveDepth a <? gs_depth gs | None => false end.

(** ** What the page says *)
Section Words.
Context (gs : GraphState) (carrying : bool) (a : option Answer).

Definition knowledge : SnapshotKnowledge := snapshotKnowledge (a ≫= an_meta).
Definition focusRef : option ProductRef := a ≫= an_requestedFocus.

Definition focus_name : str :=
  match focusRef with
  | Some r => or_s (or_str (pr_label r) (pr_key r)) (gs_key gs)
  | None => gs_key gs
  end.

Record Problems := { failing : Z; undeclared : Z; pr_refused : Z }.

Definition failing_node (n : ProductNode) : bool :=
  negb (is_focus_node n) && (pr_kind (pn_ref n) !== "source") && otruthy (pn_status n) && (statusTone (pn_status n) === "err").
Definition undeclared_edge (e : ProductEdge) : bool :=
  (pe_relation e !== "runs") && (pe_difference e === Some "observed-not-expected").
Definition refused_edge (e : ProductEdge) : bool := pe_guaranteeStatus e === Some "unmet".

Definition count {A} (p : A -> bool) (l : list A) : Z := len (List.filter p l).

Definition page_problems : option Problems :=
  match a with
  | None => None
  | Some an =>
      if carrying || is_empty a then None
      else Some {| failing := count failing_node (an_nodes an); undeclared := count undeclared_edge (an_edges an);
                   pr_refused := count refused_edge (an_edges an) |}
  end.

Definition focusTone : str :=
  match focusNode a with Some n => if otruthy (pn_status n) then statusTone (pn_status n) else [] | None => [] end.

Definition focusSentence : str :=
  match page_problems with
  | None => []
  | Some _ =>
      if focusTone === "err" then focus_name ++ " breaks its contract."
      else if focusTone === "ok" then focus_name ++ " meets its contract."
      else if match focusNode a with Some n => otruthy (pn_status n) | None => false end
           then focus_name ++ " has no confirmed contract result yet." else []
  end.

Definition problem_parts (p : Problems) : list str :=
  List.filter truthy
    [ (if failing p =? 0 then [] else countOf (failing p) "entity" (Some "entities")
         ++ (if failing p =? 1 then " breaks its" else " break their") ++ " contract");
      (if undeclared p =? 0 then [] else countOf (undeclared p) "call" None
         ++ (if undeclared p =? 1 then " is" else " are") ++ " undeclared");
      (if pr_refused p =? 0 then [] else countOf (pr_refused p) "dependency" (Some "dependencies")
         ++ (if pr_refused p =? 1 then " has" else " have") ++ " a refused guarantee") ].

Definition NOTHING_WRONG : str := "Nothing wrong found around ".

Definition it_word : str := if truthy focusSentence then "it" else focus_name.

Definition page_answer : str :=
  match page_problems with
  | None => []
  | Some p =>
      match problem_parts p with
      | [] => if incomplete knowledge then NOTHING_WRONG ++ it_word ++ ", but some data is missing."
              else NOTHING_WRONG ++ it_word ++ "."
      | parts => "Around " ++ it_word ++ ", " ++ join " and " parts ++ "."
      end
  end.

(** *** How much of the answer is on screen *)
Definition nodes_shown : Z := match a with Some an => len (an_nodes an) | None => 0 end.
Definition edges_shown : Z := match a with Some an => len (an_edges an) | None => 0 end.
Definition totalNodes : Z := nullish (a ≫= an_totalNodes) 0.
Definition withheldNodes : Z := match a with Some _ => Z.max 0 (totalNodes - nodes_shown) | None => 0 end.
Definition moreNodes : option Z := nextMaxNodes (gs_maxNodes gs).

Definition truncationNote : str :=
  if negb (withheldNodes =? 0)
  then "Showing " ++ formatCount nodes_shown ++ " of " ++ formatCount totalNodes ++ " entities within this depth."
  else if nullish (an_truncatedEdges <$> a) false
  then "Showing " ++ formatCount edges_shown ++ " relationships: more exist than this view draws."
  else "This neighborhood is bounded and was truncated.".

Definition showTruncated : bool := negb carrying && nullish (an_truncated <$> a) false.

Context (grouped : option GroupedGraph) (showEvery : bool).

Definition groups_drawn : bool := match grouped with Some g => negb (length (groups g) =? 0)%nat | None => false end.
Definition capped_lanes : option (list LaneGroup) := grouped ≫= more.

Definition showEveryNote : bool := negb groups_drawn && showEvery && (GROUP_THRESHOLD <? nodes_shown).

Definition noticeParts : list str :=
  match a with
  | None => []
  | Some _ => List.filter truthy
      [ (if incomplete knowledge then "Some data is missing" else []);
        (if showTruncated then if negb (withheldNodes =? 0)
           then formatCount nodes_shown ++ " of " ++ formatCount totalNodes ++ " entities shown"
           else "Some relationships are not drawn" else []);
        (if oneHopNote gs carrying a then "One hop deep" else []);
        (match grouped with Some g => if groups_drawn then formatCount (folded g) ++ " grouped by team" else [] | None => [] end);
        (if showEveryNote then "Every entity is drawn" else []);
        (if bool_decide (is_Some capped_lanes) then show_Z LANE_CAP ++ " worst direct neighbors per side" else []) ]
  end.

Context (hiddenLabels : list str) (selectedSummary : str).

Definition graphSummary : str :=
  match a with
  | None => []
  | Some _ => join " " (List.filter truthy
      [ formatCount nodes_shown ++ " " ++ (if nodes_shown =? 1 then "entity" else "entities") ++ " and "
          ++ formatCount edges_shown ++ " " ++ (if edges_shown =? 1 then "relationship" else "relationships") ++ ".";
        (if negb (withheldNodes =? 0) then show_Z withheldNodes ++ " more within this depth are not shown." else []);
        (match grouped with
         | Some g => if negb (folded g =? 0)
             then show_Z (folded g) ++ " of them are grouped by team on the canvas; the list below names each one." else []
         | None => [] end);
        (match capped_lanes with
         | Some ms => show_Z (fold_left (fun t m => t + lg_count m) ms 0) ++ " direct neighbors are not drawn until you show them"
             ++ (if match grouped with Some g => negb (folded g =? 0) | None => false end
                 then "." else "; the list below names each one.")
         | None => [] end);
        (if negb (length hiddenLabels =? 0)%nat then "Dimmed on the canvas: " ++ join ", " hiddenLabels ++ "." else []);
        selectedSummary ])
  end.
End Words.

(** ** The panels of the page *)
Inductive Panel :=
  | PDiscovery                                      (** search, and no request *)
  | PLoading
  | PBlank                                          (** no answer, no error, nothing in flight *)
  | PNotFound
  | PLoadError (message : str)
  | PGraph (a : Answer) (refreshing : bool) (refreshError : option thrown).

Definition panel (params : gmap str str) (l : NbLoader) : Panel :=
  if negb (hasFocus params) then PDiscovery
  else match shown params l with
       | Some a => PGraph a (loading l) (if loading l then None else error l)
       | None => if loading l then PLoading
                 else match error l with
                      | Some e => if notFound params l then PNotFound else PLoadError (message_of e)
                      | None => PBlank
                      end
       end.

(** *** The discovery search *)
Inductive SearchPanel := SpSearching | SpError (message : str) | SpResults (shown total : Z) | SpEmpty (text : str) | SpResting.

Definition searchErrorMessage (e : thrown) : str :=
  match e with
  | SchemaCompatibilityError _ => "The dashboard and backend API versions differ; reload to update."
  | ApiError status message => "Search failed (HTTP " ++ show_Z status ++ "): " ++ message
  | _ => "Search is unavailable. Check your connection and try again."
  end.

Definition search_panel (sloading : bool) (serror : option thrown) (results total : Z) (queryText : str) : SearchPanel :=
  if sloading && (results =? 0) then SpSearching
  else match serror with
       | Some e => SpError (searchErrorMessage e)
       | None => if 0 <? results then SpResults results total
                 else if truthy (trim queryText) then SpEmpty queryText else SpResting
       end.

(** ** The legend *)
Definition LEGEND_GROUPS : list (str * list (str * str)) :=
  [ ("Nodes", [ ("kind:service", "Service"); ("kind:revision", "Revision"); ("kind:target", "Operational target");
                ("kind:group", "A team (grouped)") ]);
    ("Relationship", [ ("rel:dependency", "Depends on"); ("rel:runs", "Runs"); ("rel:reference", "Configuration reference") ]);
    ("Reconciliation", [ ("state:matched", "Matched / corroborated"); ("state:expected-not-observed", "Expected, not observed");
                         ("state:drift", "Observed, not expected"); ("state:insufficient", "Insufficient evidence") ]);
    ("Behavior", [ ("behavior:refused", "Refuses a required guarantee") ]) ].

Definition legend_items : list (str * str) := LEGEND_GROUPS ≫= snd.

Definition legendShown (hiddenKeys : list str) (k : str) : bool := negb (bool_decide (k ∈ hiddenKeys)).

Definition toggle_key (hiddenKeys : list str) (k : str) : list str :=
  if bool_decide (k ∈ hiddenKeys) then List.filter (fun x => x !== k) hiddenKeys else hiddenKeys ++ [k].

Definition hiddenLabels (hiddenKeys : list str) : list str :=
  snd <$> List.filter (fun i => bool_decide (i.1 ∈ hiddenKeys)) legend_items.

(** ** The drawer, the groups and the handlers *)
Section Page.
(** The elements that can hold the focus. *)
Context {Elem : Type}.

Record Selected := { sel_kind : str; sel_node : option ProductNode; sel_edge : option ProductEdge }.

Record Page := {
  selected : Selected; opener : option Elem; claimsShown : Z; openGroups : list str; showEvery : bool;
  groupedFor : str; hiddenKeys : list str }.

Definition nothing_selected : Selected := {| sel_kind := []; sel_node := None; sel_edge := None |}.

Definition page0 : Page :=
  {| selected := nothing_selected; opener := None; claimsShown := 5; openGroups := []; showEvery := false;
     groupedFor := []; hiddenKeys := [] |}.

Inductive effect :=
  | FocusElement (e : Elem)      (** the focus goes back to what opened the drawer *)
  | FocusDrawer                  (** the focus goes into a drawer that opens *)
  | PinNode (key : str)          (** [controls.focusNode] *)
  | SetHash (h : str).           (** [location.hash = h] *)

Definition set_selected (p : Page) (s : Selected) (o : option Elem) (claims : Z) : Page :=
  {| selected := s; opener := o; claimsShown := claims; openGroups := openGroups p; showEvery := showEvery p;
     groupedFor := groupedFor p; hiddenKeys := hiddenKeys p |}.
Definition set_groups (p : Page) (gs : list str) (every : bool) (for_ : str) : Page :=
  {| selected := selected p; opener := opener p; claimsShown := claimsShown p; openGroups := gs; showEvery := every;
     groupedFor := for_; hiddenKeys := hiddenKeys p |}.
Definition set_hidden (p : Page) (ks : list str) : Page :=
  {| selected := selected p; opener := opener p; claimsShown := claimsShown p; openGroups := openGroups p;
     showEvery := showEvery p; groupedFor := groupedFor p; hiddenKeys := ks |}.

(** The effect that moves the focus into the drawer runs when the kind of selection changes. *)
Definition announce (p : Page) (kind : str) : list effect := if sel_kind (selected p) === kind then [] else [FocusDrawer].

(** [active] is [document.activeElement] when it is not the body. *)
Definition selectNode (active : option Elem) (p : Page) (node : option ProductNode) (pin controls : bool) : Page * list effect :=
  match node with
  | None => (p, [])
  | Some n =>
      (set_selected p {| sel_kind := "node"; sel_node := Some n; sel_edge := None |} active (claimsShown p),
       (if pin && controls then [PinNode (pr_key (pn_ref n))] else []) ++ announce p "node")
  end.

(** Selecting a relationship also starts its list of claims over. *)
Definition selectEdge (active : option Elem) (p : Page) (edge : option ProductEdge) : Page * list effect :=
  match edge with
  | None => (p, [])
  | Some e => (set_selected p {| sel_kind := "edge"; sel_node := None; sel_edge := Some e |} active 5, announce p "edge")
  end.

Definition closeDrawer (p : Page) : Page * list effect :=
  (set_selected p nothing_selected None (claimsShown p), match opener p with Some o => [FocusElement o] | None => [] end).

Definition onEscape (p : Page) : Page * list effect :=
  if truthy (sel_kind (selected p)) then closeDrawer p else (p, []).

Definition set_add (x : str) (l : list str) : list str := if bool_decide (x ∈ l) then l else l ++ [x].

Definition openGroup (p : Page) (id : str) : Page := set_groups p (set_add id (openGroups p)) (showEvery p) (groupedFor p).

Definition selectNodeById (active : option Elem) (p : Page) (a : option Answer) (id : str) : Page * list effect :=
  if starts_with GROUP_PREFIX id then (openGroup p id, [])
  else selectNode active p (a ≫= (fun a => List.find (fun n => pr_key (pn_ref n) === id) (an_nodes a))) false true.

Definition edge_of_group (cyId : str) (g : LaneGroup) : bool :=
  starts_with (lg_id g ++ "→") cyId || includes ("→" ++ lg_id g ++ ":") cyId.

Definition selectEdgeByCyId (active : option Elem) (p : Page) (a : option Answer) (grouped : option GroupedGraph) (cyId : str)
    : Page * list effect :=
  match List.find (edge_of_group cyId) (match grouped with Some g => groups g | None => [] end) with
  | Some g => (openGroup p (lg_id g), [])
  | None => selectEdge active p (a ≫= (fun a =>
      List.find (fun e => cyEdgeId (pr_key (pe_from e)) (pr_key (pe_to e)) (pe_relation e) === cyId) (an_edges a)))
  end.

Definition sideWords (g : LaneGroup) : str :=
  if starts_with OTHER_TEAMS (lg_owner g) then []
  else if lg_side g === Some DependsOn then " that it depends on" else " that use it".

(** The effect on the question: a new one starts folded again. *)
Definition on_question (p : Page) (q : str) : Page := if q !== groupedFor p then set_groups p [] false q else p.

Definition page_grouped `{Locale} (p : Page) (a : option Answer) : option GroupedGraph :=
  (fun a => laneGraph (neighborhoodToGraph (Some {| nb_nodes := Some (an_nodes a); nb_edges := Some (an_edges a) |}))
              {| open := openGroups p; all := showEvery p; threshold := GROUP_THRESHOLD |}) <$> a.

Definition ref_name (r : ProductRef) : str := or_str (pr_label r) (pr_key r).

Definition selectedSummary (s : Selected) : str :=
  if sel_kind s === "node" then match sel_node s with Some n => "Selected " ++ ref_name (pn_ref n) ++ "." | None => "Selected undefined." end
  else if sel_kind s === "edge" then
    match sel_edge s with
    | Some e => "Selected the relationship from " ++ ref_name (pe_from e) ++ " to " ++ ref_name (pe_to e) ++ "."
    | None => "Selected the relationship from undefined to undefined."
    end
  else [].

(** *** Controls: each changes the address, and closes the drawer *)
Record Patch := {
  pa_perspective : option GraphPerspective; pa_views : option (list KnowledgeView); pa_direction : option Direction;
  pa_depth : option Z; pa_maxNodes : option Z }.

Definition patched (gs : GraphState) (x : Patch) : GraphState :=
  {| gs_kind := gs_kind gs; gs_key := gs_key gs; gs_perspective := nullish (pa_perspective x) (gs_perspective gs);
     gs_views := nullish (pa_views x) (gs_views gs); gs_direction := nullish (pa_direction x) (gs_direction gs);
     gs_depth := nullish (pa_depth x) (gs_depth gs); gs_maxNodes := nullish (pa_maxNodes x) (gs_maxNodes gs) |}.

Definition leave (p : Page) (h : str) : Page * list effect := let '(p', es) := closeDrawer p in (p', SetHash h :: es).

Definition go (gs : GraphState) (x : Patch) (p : Page) : Page * list effect :=
  leave p (fleetGraphFocusUrl (gs_kind gs) (gs_key gs) (graph_options (patched gs x))).

Definition setPerspective (gs : GraphState) (a : option Answer) (v : GraphPerspective) (p : Page) : Page * list effect :=
  let depth := if perspectiveSupportsDepth (perspective_str v) then gs_depth gs else 1 in
  let same := go gs {| pa_perspective := Some v; pa_views := None; pa_direction := None; pa_depth := Some depth; pa_maxNodes := None |} p in
  match canonicalFocusForPerspective (an_canon <$> a) (gs_kind gs) v with
  | Some c => if (cr_kind c !== gs_kind gs) || (cr_key c !== gs_key gs)
      then leave p (fleetGraphFocusUrl (cr_kind c) (cr_key c)
             {| go_perspective := Some v; go_views := Some (gs_views gs); go_direction := Some (gs_direction gs);
                go_depth := Some depth; go_maxNodes := None |})
      else same
  | None => same
  end.

Definition with_depth (d : Z) : Patch :=
  {| pa_perspective := None; pa_views := None; pa_direction := None; pa_depth := Some d; pa_maxNodes := None |}.

Definition with_direction (d : Direction) : Patch :=
  {| pa_perspective := None; pa_views := None; pa_direction := Some d; pa_depth := None; pa_maxNodes := None |}.
Definition with_views (vs : list KnowledgeView) : Patch :=
  {| pa_perspective := None; pa_views := Some vs; pa_direction := None; pa_depth := None; pa_maxNodes := None |}.
Definition with_maxNodes (n : Z) : Patch :=
  {| pa_perspective := None; pa_views := None; pa_direction := None; pa_depth := None; pa_maxNodes := Some n |}.

Definition setDirection (gs : GraphState) (d : Direction) (p : Page) : Page * list effect := go gs (with_direction d) p.
Definition setDepth (gs : GraphState) (d : Z) (p : Page) : Page * list effect :=
  if depthSupported gs then go gs (with_depth (Z.max 1 (Z.min MAX_DEPTH d))) p else (p, []).
Definition flipView (gs : GraphState) (v : KnowledgeView) (p : Page) : Page * list effect :=
  go gs (with_views (toggleView (gs_views gs) v)) p.
Definition expand (gs : GraphState) (p : Page) : Page * list effect :=
  if depthSupported gs && (gs_depth gs <? MAX_DEPTH) then go gs (with_depth (gs_depth gs + 1)) p else (p, []).
(** The drawer is left as it is. *)
Definition resetFocus (p : Page) : Page * list effect := (p, [SetHash fleetGraphDiscoveryUrl]).
Definition showMore (gs : GraphState) (p : Page) : Page * list effect :=
  match nextMaxNodes (gs_maxNodes gs) with
  | Some n => go gs (with_maxNodes n) p
  | None => (p, [])
  end.
End Page.

(** *** The guarantees a relationship's claims found refused, once each *)
Definition edgeUnmet (claims : list Claim) : list str := dedupe (claims ≫= cl_unmet).
Definition edgeReason (claims : list Claim) : str :=
  nullish (List.find (fun c => otruthy (cl_reason c)) claims ≫= cl_reason) [].

(** ** Properties *)

(** *** Only answers about the same subject are shown *)
Lemma perspective_plain v : x7c ∉ perspective_str v.
Proof. destruct v; by_decide. Qed.
Lemma direction_plain d : x7c ∉ direction_str d.
Proof. destruct d; by_decide. Qed.
Lemma views_plain (vs : list KnowledgeView) : x7c ∉ join "+" (sort_str (view_str <$> vs)).
Proof.
  apply pipe_not_in_views. unfold sort_str. rewrite sort_by_Permutation. apply Forall_forall.
  intros s (v & -> & _)%list_elem_of_fmap. destruct v; by_decide.
Qed.

(** A focus whose kind and key hold no separator. *)
Definition plain_focus (gs : GraphState) : Prop := x7c ∉ gs_kind gs /\ x7c ∉ gs_key gs.

Lemma graphSubject_spec gs : plain_focus gs ->
  graphSubject (Some (queryKey gs)) = join "|" [gs_kind gs; gs_key gs; perspective_str (gs_perspective gs)].
Proof.
  intros [Hk Hs]. unfold graphSubject, queryKey, graphQueryKey. cbn [nullish query_of gq_kind gq_key gq_perspective gq_views gq_direction gq_depth gq_maxNodes].
  change ("|" : str) with [x7c]. rewrite split_join; [done|done|].
  repeat (apply Forall_cons_2; [|]); try apply Forall_nil_2; try done;
    first [apply perspective_plain|apply direction_plain|apply views_plain|apply pipe_not_in_show].
Qed.

Lemma perspective_str_inj v w : perspective_str v = perspective_str w -> v = w.
Proof. by destruct v, w. Qed.

Lemma graphSubject_inj gs gs' : plain_focus gs -> plain_focus gs' ->
  graphSubject (Some (queryKey gs)) = graphSubject (Some (queryKey gs')) ->
  gs_kind gs = gs_kind gs' /\ gs_key gs = gs_key gs' /\ gs_perspective gs = gs_perspective gs'.
Proof.
  intros H H'. rewrite !graphSubject_spec by done. destruct H as [Hk Hs], H' as [Hk' Hs']. cbn [join]. simpl. intros E.
  apply cut_first in E as [-> E]; [|done..]. apply cut_first in E as [-> E]; [|done..].
  split_and!; [done..|]. by apply perspective_str_inj.
Qed.

(** C32: Among entities whose kinds and keys hold no vertical bar, the page never shows one's
    graph under another's address. Whatever order questions and answers arrive in, the
    neighborhood on screen is then the answer to a question the page asked about the same entity
    under the same perspective; and unless it is being carried over while a new question about
    that entity is in flight, it is the answer to the question in the address. ([subject_confused]
    shows why the bar is excepted.) *)
Theorem shown_subject (s : Sys Answer str) (params : gmap str str) (a : Answer) :
  let gs := graphStateFromParams params in
  reachable s ->
  (forall g t f, (g, t, f) ∈ asked s -> exists gs', t = Some (queryKey gs') /\ plain_focus gs') -> plain_focus gs ->
  shown params (ld s) = Some a ->
  exists g gs' f, (g, Some (queryKey gs'), f) ∈ asked s /\ (g, inl a) ∈ answered s /\
    gs_kind gs' = gs_kind gs /\ gs_key gs' = gs_key gs /\ gs_perspective gs' = gs_perspective gs /\
    (carrying params (ld s) = false -> queryKey gs' = queryKey gs).
Proof.
  intros gs Hr Hasked Hp Hs. unfold shown in Hs. fold gs in Hs.
  destruct ((dataTag (ld s) === Some (queryKey gs)) || carrying params (ld s)) eqn:Eo; [|done].
  assert (data (ld s) = Some a) as Hd by (unfold nb_of in Hs; by destruct (hasFocus params)).
  destruct (inv_data _ (inv_reachable _ Hr) _ Hd) as (g & Hg & Ha). destruct (Hasked _ _ _ Hg) as (gs' & Et & Hp').
  rewrite Et in Hg. exists g, gs', (dataFamily (ld s)). split; [done|]. split; [done|].
  assert (graphSubject (Some (queryKey gs')) = graphSubject (Some (queryKey gs))) as Esub.
  { apply orb_true_iff in Eo as [E|E].
    - apply bool_decide_eq_true in E. rewrite Et in E. by rewrite E.
    - unfold carrying in E. fold gs in E. split_bools. by rewrite <- Et. }
  destruct (graphSubject_inj _ _ Hp' Hp Esub) as (-> & -> & ->). split_and!; [done..|].
  intros Hc. rewrite Hc, orb_false_r in Eo. apply bool_decide_eq_true in Eo. congruence.
Qed.

(** A run of the page: a question answered, then one depth further asked. *)
Definition demo_ref (key : str) : ProductRef :=
  {| pr_kind := "service"; pr_key := key; pr_label := Some key; pr_status := None; pr_version := None |}.
Definition demo_pnode (key status : str) (focus : bool) : ProductNode :=
  {| pn_ref := demo_ref key; pn_status := Some status; pn_depth := Some (if focus then 0 else 1); pn_focus := Some focus;
     pn_owner := None |}.
Definition demo_edge (from to : str) : ProductEdge :=
  {| pe_from := demo_ref from; pe_to := demo_ref to; pe_relation := "dependency"; pe_difference := Some "matched";
     pe_serviceCorroboration := None; pe_guaranteeStatus := None |}.
Definition demo_meta : MetaLike :=
  {| ml_completeness := Some "complete"; ml_sources := Some []; ml_sourcesTruncated := None; ml_sourceCounts := None |}.
Definition demo_answer (key : str) : Answer :=
  {| an_nodes := [demo_pnode key "Compliant" true; demo_pnode "db" "Compliant" false]; an_edges := [demo_edge key "db"];
     an_totalNodes := Some 2; an_truncated := false; an_truncatedEdges := false; an_effectiveDepth := 1;
     an_meta := Some demo_meta; an_requestedFocus := Some (demo_ref key); an_unresolved := None;
     an_canon := {| nb_focusService := None; nb_projectionFocus := None; GraphState.nb_edges := None |};
     an_revisionState := fun _ => None |}.

Definition demo_params (key depth : str) : gmap str str := {[ "kind" := "service"; "sel" := key; "depth" := depth ]}.
Definition demo_gs (key depth : str) : GraphState := graphStateFromParams (demo_params key depth).

(** The page at [key] has its answer, and is now asked about [key'] at [depth]. *)
Definition demo_sys (key key' depth : str) : Sys Answer str :=
  let l := {| data := Some (demo_answer key); loading := false; error := None; dataTag := Some (queryKey (demo_gs key "1"));
              dataFamily := None; generation := 1; lastKey := Some (syncKey (demo_gs key "1") 0);
              lastTag := Some (queryKey (demo_gs key "1")); lastFamily := None |} in
  issue {| ld := l; inflight := []; asked := [(1%nat, Some (queryKey (demo_gs key "1")), None)];
           answered := [(1%nat, inl (demo_answer key))] |}
        (sync l (syncKey (demo_gs key' depth) 0) (Some (queryKey (demo_gs key' depth))) None).

Lemma demo_sys_reachable key key' depth : reachable (demo_sys key key' depth).
Proof.
  unfold reachable, steps.
  eapply rt1n_trans; [apply (StepSync init (syncKey (demo_gs key "1") 0) (Some (queryKey (demo_gs key "1"))) None)|].
  unfold sync. cbn [ld init createProductLoader lastKey]. rewrite bool_decide_false by done. cbn [issue run remember].
  eapply rt1n_trans; [eapply (StepSettle _ [] _ _ (inl (demo_answer key))); reflexivity|].
  eapply rt1n_trans; [eapply (StepThen _ [] _ _ (demo_answer key)); reflexivity|].
  eapply rt1n_trans; [eapply (StepFinally _ []); reflexivity|].
  eapply rt1n_trans; [apply (StepSync _ (syncKey (demo_gs key' depth) 0) (Some (queryKey (demo_gs key' depth))) None)|].
  apply rt1n_refl.
Qed.

Lemma shown_subject_witness :
  let params := demo_params "api" "2" in let s := demo_sys "api" "api" "2" in
  carrying params (ld s) = true /\
  exists g gs' f, (g, Some (queryKey gs'), f) ∈ asked s /\ (g, inl (demo_answer "api")) ∈ answered s /\
    gs_kind gs' = "service" /\ gs_key gs' = "api" /\ gs_perspective gs' = PService /\
    (carrying params (ld s) = false -> queryKey gs' = queryKey (graphStateFromParams params)).
Proof.
  intros params s. split; [vm_compute; reflexivity|].
  apply (shown_subject s params (demo_answer "api")); [apply demo_sys_reachable| | |reflexivity].
  - assert (asked s = [(2%nat, Some (queryKey (demo_gs "api" "2")), None); (1%nat, Some (queryKey (demo_gs "api" "1")), None)]) as ->
      by (vm_compute; reflexivity).
    intros g t f H. apply elem_of_cons in H as [H|H]; [|apply list_elem_of_singleton in H]; injection H as -> -> ->;
      eexists; (split; [reflexivity|]); split; by_decide.
  - split; by_decide.
Defined.

(** The separator is not escaped in a key. Two entities whose keys agree up to their second
    bar have one subject, and the graph of the first is shown under the second's address. *)
Theorem subject_confused :
  let params := demo_params "a|b|x" "1" in let s := demo_sys "a|b|y" "a|b|x" "1" in
  reachable s /\ carrying params (ld s) = true /\ shown params (ld s) = Some (demo_answer "a|b|y").
Proof. split; [apply demo_sys_reachable|]. split; reflexivity. Qed.

(** *** The answer in words *)
Lemma filter_nil {A} (p : A -> bool) (l : list A) : List.filter p l = [] <-> Forall (fun x => p x = false) l.
Proof.
  induction l as [|x l IH]; simpl; [done|]. rewrite Forall_cons, <- IH. destruct (p x) eqn:E; naive_solver.
Qed.

Lemma count_zero {A} (p : A -> bool) (l : list A) : count p l = 0 <-> Forall (fun x => p x = false) l.
Proof. unfold count, len. rewrite <- filter_nil. destruct (List.filter p l); simpl; [done|]. split; [lia|done]. Qed.

Lemma problem_parts_nil p : problem_parts p = [] <-> failing p = 0 /\ undeclared p = 0 /\ pr_refused p = 0.
Proof.
  unfold problem_parts. rewrite filter_nil, !Forall_cons.
  assert (forall n (s : str), truthy (if n =? 0 then [] else s) = false <-> n = 0 \/ s = []) as G.
  { intros n s. destruct (Z.eqb_spec n 0); simpl; [naive_solver|]. destruct s; naive_solver. }
  rewrite !G. unfold countOf. split; [|naive_solver].
  assert (forall n (x y : str), ((formatCount n ++ x) ++ y) = [] -> y = []) as K by (intros n x y [_ H]%app_nil; done).
  intros (H1 & H2 & H3 & _). rewrite !app_assoc in H1, H2, H3.
  destruct H1 as [H1|H1], H2 as [H2|H2], H3 as [H3|H3]; try (by apply app_nil in H1 as [_ ?]); try (by apply app_nil in H2 as [_ ?]);
    try (by apply app_nil in H3 as [_ ?]). done.
Qed.

(** How many of each kind of trouble there are, in words; the kinds there are none of are not
    mentioned. *)
Definition said (breaking undeclared refused : Z) : list str :=
  (if breaking =? 0 then [] else if breaking =? 1 then ["1 entity breaks its contract"]
   else [formatCount breaking ++ " entities break their contract"]) ++
  (if undeclared =? 0 then [] else if undeclared =? 1 then ["1 call is undeclared"]
   else [formatCount undeclared ++ " calls are undeclared"]) ++
  (if refused =? 0 then [] else if refused =? 1 then ["1 dependency has a refused guarantee"]
   else [formatCount refused ++ " dependencies have a refused guarantee"]).

Lemma part_said n (w one many : str) l :
  (n = 1 -> w = one) -> (n <> 1 -> w = many) -> one <> [] -> many <> [] ->
  List.filter truthy ((if n =? 0 then [] else w) :: l) =
    (if n =? 0 then [] else if n =? 1 then [one] else [many]) ++ List.filter truthy l.
Proof.
  intros H1 H2 N1 N2. destruct (Z.eqb_spec n 0); [done|]. cbn [List.filter].
  destruct (Z.eqb_spec n 1); [rewrite H1 by done; by destruct one|rewrite H2 by done; by destruct many].
Qed.

Lemma problem_parts_said p : problem_parts p = said (failing p) (undeclared p) (pr_refused p).
Proof.
  assert (forall n (x y : str), formatCount n ++ x ++ y <> [] \/ y = []) as N.
  { intros n x y. destruct y; [by right|left]. by intros [_ [_ ?]%app_nil]%app_nil. }
  unfold problem_parts, said, countOf. destruct p as [f u r]. cbn [failing undeclared pr_refused].
  rewrite (part_said f _ "1 entity breaks its contract" (formatCount f ++ " entities break their contract")).
  rewrite (part_said u _ "1 call is undeclared" (formatCount u ++ " calls are undeclared")).
  rewrite (part_said r _ "1 dependency has a refused guarantee" (formatCount r ++ " dependencies have a refused guarantee")).
  { cbn [List.filter]. by rewrite app_nil_r. }
  all: try (intros ->; vm_compute; reflexivity); try done; try (by intros [_ ?]%app_nil).
  all: intros Hn; apply Z.eqb_neq in Hn; rewrite Hn; cbn [nullish]; by rewrite <- !app_assoc.
Qed.

(** Whether the page judges at all: there is an answer, it is the one asked for, and it has
    something to judge. *)
Definition judged (carrying : bool) (a : option Answer) : Prop := a <> None /\ carrying = false /\ is_empty a = false.

Lemma page_problems_judged carrying a : judged carrying a <-> page_problems carrying a <> None.
Proof.
  unfold judged, page_problems. destruct a as [an|]; [|naive_solver]. destruct carrying; [naive_solver|]. cbn [orb].
  destruct (is_empty (Some an)); naive_solver.
Qed.

(** The verdict on the focus, from its status. *)
Lemma sentence_spec (name : str) (st : option str) (tone := if otruthy st then statusTone st else [])
    (s := if tone === "err" then name ++ " breaks its contract." else if tone === "ok" then name ++ " meets its contract."
          else if otruthy st then name ++ " has no confirmed contract result yet." else []) :
  (s = name ++ " breaks its contract." <-> otruthy st = true /\ statusTone st = "err") /\
  (s = name ++ " meets its contract." <-> otruthy st = true /\ statusTone st = "ok").
Proof.
  unfold s, tone. destruct (otruthy st); cbn [andb].
  - destruct (bool_decide_reflect (statusTone st = "err")) as [->|E]; [|destruct (bool_decide_reflect (statusTone st = "ok")) as [->|E']].
    all: split; split; try done; try (by intros [_ ?]); try (by intros ?%app_inv_head).
  - split; (split; [|by intros [? _]]); intros H; symmetry in H; by apply app_nil in H as [_ ?].
Qed.

(** C33: What the graph page says of the neighborhood is what the neighborhood holds. It says
    nothing exactly while an older answer is carried over or there is nothing to judge. Otherwise
    it names how many neighbors break their contract, how many observed calls are undeclared and
    how many dependencies have a refused guarantee, each as counted, and finds nothing wrong
    exactly when there are none; it says so without a reserve only when every source was
    complete. And it says that the focus breaks or meets its contract exactly when the status
    that came with the focus does. *)
Theorem answer_honest (gs : GraphState) (carrying : bool) (a : option Answer) :
  let says := page_answer gs carrying a in
  (says = [] <-> ~ judged carrying a) /\
  (forall an, a = Some an -> judged carrying a ->
   let parts := said (len (List.filter failing_node (an_nodes an))) (len (List.filter undeclared_edge (an_edges an)))
                     (len (List.filter refused_edge (an_edges an))) in
   says = match parts with
          | [] => NOTHING_WRONG ++ it_word gs carrying a ++ (if incomplete (knowledge a) then ", but some data is missing." else ".")
          | _ => "Around " ++ it_word gs carrying a ++ ", " ++ join " and " parts ++ "."
          end /\
   (parts = [] <-> Forall (fun n => failing_node n = false) (an_nodes an) /\
                   Forall (fun e => undeclared_edge e = false /\ refused_edge e = false) (an_edges an))) /\
  (forall verdict tone, (verdict, tone) ∈ [(" breaks its contract.", "err"); (" meets its contract.", "ok")] ->
   (focusSentence gs carrying a = focus_name gs a ++ verdict <->
    judged carrying a /\ exists n, focusNode a = Some n /\ otruthy (pn_status n) = true /\ statusTone (pn_status n) = tone)).
Proof.
  intros says. unfold says. split_and!.
  - rewrite page_problems_judged. unfold page_answer. destruct (page_problems carrying a) as [p|]; [|naive_solver].
    split; [|intros H; by destruct H]. destruct (problem_parts p); [by destruct (incomplete _)|done].
  - intros an -> (_ & -> & E). unfold page_answer, page_problems. rewrite E. cbn [orb]. rewrite problem_parts_said.
    cbn [failing undeclared pr_refused]. split; [destruct (said _ _ _); [by destruct (incomplete (knowledge (Some an)))|done]|].
    rewrite Forall_and, <- !count_zero.
    pose proof (problem_parts_nil {| failing := count failing_node (an_nodes an); undeclared := count undeclared_edge (an_edges an);
                                     pr_refused := count refused_edge (an_edges an) |}) as Hn.
    rewrite problem_parts_said in Hn. exact Hn.
  - intros verdict tone Hv. rewrite page_problems_judged. unfold focusSentence, focusTone.
    destruct (page_problems carrying a) as [p|].
    2: { split; [|naive_solver]. intros E. symmetry in E. apply app_nil in E as [_ ->]. exfalso. revert Hv. by_decide. }
    destruct (focusNode a) as [n|].
    2: { split; [|naive_solver]. intros E. symmetry in E. apply app_nil in E as [_ ->]. exfalso. revert Hv. by_decide. }
    apply elem_of_cons in Hv as [Hv|Hv%list_elem_of_singleton]; injection Hv as -> ->.
    + rewrite (proj1 (sentence_spec (focus_name gs a) (pn_status n))). naive_solver.
    + rewrite (proj2 (sentence_spec (focus_name gs a) (pn_status n))). naive_solver.
Qed.

(** *** The drawer and the focus *)
Section Drawer.
Context {Elem : Type} `{Locale}.
Implicit Types (p : @Page Elem) (active : option Elem).

(** What a reader can do on the page, with the answer and the element focused at the time. *)
Inductive event :=
  | EvNode (n : ProductNode) (controls : bool) (active : option Elem)
  | EvEdge (e : ProductEdge) (active : option Elem)
  | EvCanvasNode (a : option Answer) (id : str) (active : option Elem)
  | EvCanvasEdge (a : option Answer) (cyId : str) (active : option Elem)
  | EvEscape
  | EvClose
  | EvQuestion (q : str)
  | EvOpenGroup (id : str)
  | EvShowEvery (every : bool)
  | EvLegend (k : str)
  | EvMoreClaims (n : Z)
  | EvGo (gs : GraphState) (x : Patch)
  | EvPerspective (gs : GraphState) (a : option Answer) (v : GraphPerspective)
  | EvDepth (gs : GraphState) (d : Z)
  | EvExpand (gs : GraphState)
  | EvMore (gs : GraphState)
  | EvReset.

Definition page_step (p : @Page Elem) (ev : event) : @Page Elem * list (@effect Elem) :=
  match ev with
  | EvNode n controls active => selectNode active p (Some n) true controls
  | EvEdge e active => selectEdge active p (Some e)
  | EvCanvasNode a id active => selectNodeById active p a id
  | EvCanvasEdge a cyId active => selectEdgeByCyId active p a (page_grouped p a) cyId
  | EvEscape => onEscape p
  | EvClose => closeDrawer p
  | EvQuestion q => (on_question p q, [])
  | EvOpenGroup id => (openGroup p id, [])
  | EvShowEvery every => (set_groups p (if every then openGroups p else []) every (groupedFor p), [])
  | EvLegend k => (set_hidden p (toggle_key (hiddenKeys p) k), [])
  | EvMoreClaims n => (set_selected p (selected p) (opener p) n, [])
  | EvGo gs x => go gs x p
  | EvPerspective gs a v => setPerspective gs a v p
  | EvDepth gs d => setDepth gs d p
  | EvExpand gs => expand gs p
  | EvMore gs => showMore gs p
  | EvReset => resetFocus p
  end.

Definition page_run (evs : list event) : @Page Elem := fold_left (fun p ev => (page_step p ev).1) evs page0.

(** What the drawer holds is what its kind says, and a closed drawer remembers no opener. *)
Definition drawer_ok (p : @Page Elem) : Prop :=
  (selected p = nothing_selected /\ opener p = None) \/
  (exists n, selected p = {| sel_kind := "node"; sel_node := Some n; sel_edge := None |}) \/
  (exists e, selected p = {| sel_kind := "edge"; sel_node := None; sel_edge := Some e |}).

(** The element that had the focus when an event selected something: the list always does, the
    canvas when what it reports is no group and is in the answer. *)
Definition selects (p : @Page Elem) (ev : event) : option (option Elem) :=
  match ev with
  | EvNode _ _ active | EvEdge _ active => Some active
  | EvCanvasNode a id active =>
      if starts_with GROUP_PREFIX id then None
      else if existsb (fun n => pr_key (pn_ref n) === id) (match a with Some a => an_nodes a | None => [] end) then Some active else None
  | EvCanvasEdge a cyId active =>
      if existsb (edge_of_group cyId) (match page_grouped p a with Some g => groups g | None => [] end) then None
      else if existsb (fun e => cyEdgeId (pr_key (pe_from e)) (pr_key (pe_to e)) (pe_relation e) === cyId)
                (match a with Some a => an_edges a | None => [] end) then Some active else None
  | _ => None
  end.

Definition is_open (p : @Page Elem) : bool := truthy (sel_kind (selected p)).

(** What opened the drawer, from what the reader did: the element focused at the last selection,
    until the drawer is closed. *)
Definition opened_by (evs : list event) : option Elem :=
  (fold_left (fun '(p, last) ev =>
     let p' := (page_step p ev).1 in
     (p', match selects p ev with Some active => active | None => if is_open p' then last else None end)) evs (page0, None)).2.

(** One step, where [last] is what opened the drawer. *)
Definition step_ok (p : @Page Elem) (last : option Elem) (ev : event) : Prop :=
  let p' := (page_step p ev).1 in let es := (page_step p ev).2 in
  drawer_ok p' /\
  opener p' = match selects p ev with Some active => active | None => if is_open p' then last else None end /\
  (forall el, FocusElement el ∈ es <-> last = Some el /\ is_open p = true /\ is_open p' = false) /\
  (FocusDrawer ∈ es <-> is_open p' = true /\ sel_kind (selected p') <> sel_kind (selected p)).

Lemma drawer_closed p : drawer_ok p -> is_open p = false -> selected p = nothing_selected /\ opener p = None.
Proof. unfold is_open. by intros [?|[[n ->]|[e ->]]]. Qed.
Lemma drawer_opener p el : drawer_ok p -> opener p = Some el -> is_open p = true.
Proof. intros [[_ E]|[[n E]|[e E]]]; unfold is_open; [congruence|by rewrite E..]. Qed.

Lemma in_announce p k el : FocusElement el ∉ announce p k.
Proof. unfold announce. destruct (_ === _); set_solver. Qed.
Lemma drawer_announced p k : FocusDrawer ∈ announce p k <-> sel_kind (selected p) <> k.
Proof. unfold announce. destruct (bool_decide_reflect (sel_kind (selected p) = k)); set_solver. Qed.

Lemma found_exists {A} (f : A -> bool) l : existsb f l = match List.find f l with Some _ => true | None => false end.
Proof. induction l as [|x l IH]; [done|]. simpl. by destruct (f x). Qed.

(** Nothing selected, nothing closed. *)
Lemma quiet_ok (p p' : @Page Elem) ev es : drawer_ok p -> page_step p ev = (p', es) -> selects p ev = None ->
  selected p' = selected p -> opener p' = opener p -> (forall el, FocusElement el ∉ es) -> FocusDrawer ∉ es -> step_ok p (opener p) ev.
Proof.
  intros Hp E Hs Es Eo Hf Hd. unfold step_ok. rewrite E, Hs. cbn [fst snd]. unfold is_open. rewrite Es. split_and!.
  - unfold drawer_ok in *. by rewrite Es, Eo.
  - rewrite Eo. destruct (truthy _) eqn:T; [done|]. by destruct (drawer_closed p Hp T) as [_ ->].
  - intros el. split; [by intros ?%Hf|]. intros (_ & ? & ?). congruence.
  - split; [done|]. by intros [_ ?].
Qed.

(** The drawer opens, or shows something else. *)
Lemma selected_ok p ev s active (es : list effect) (r := page_step p ev) : drawer_ok r.1 -> selects p ev = Some active ->
  selected r.1 = s -> opener r.1 = active -> sel_kind s <> [] -> r.2 = es ++ announce p (sel_kind s) ->
  (forall el, FocusElement el ∉ es) -> FocusDrawer ∉ es -> step_ok p (opener p) ev.
Proof.
  unfold r. intros Hok Hs Es Eo Hk Hr Hf Hd. unfold step_ok, is_open. rewrite Hs, Hr, Es. split_and!; [done..| |].
  - intros el. rewrite elem_of_app. split; [intros [?%Hf|?%in_announce]; done|]. intros (_ & _ & E). by destruct (sel_kind s).
  - rewrite elem_of_app, drawer_announced. split; [intros [?|?]; [done|]; split; [by destruct (sel_kind s)|congruence]|].
    intros [_ ?]. right. congruence.
Qed.

(** The drawer is closed, if it was open. *)
Lemma closed_ok p ev (es : list effect) (r := page_step p ev) : drawer_ok p -> selects p ev = None ->
  r.1 = (closeDrawer p).1 -> r.2 = es ++ (closeDrawer p).2 -> (forall el, FocusElement el ∉ es) -> FocusDrawer ∉ es ->
  step_ok p (opener p) ev.
Proof.
  unfold r. intros Hp Hs E1 E2 Hf Hd. unfold step_ok. rewrite Hs, E1, E2. cbn [closeDrawer fst snd]. split_and!; [by left|done| |].
  - intros el. rewrite elem_of_app. split.
    + intros [?%Hf|H']; [done|]. destruct (opener p) as [o|] eqn:Eo; [|by apply elem_of_nil in H'].
      apply list_elem_of_singleton in H' as [= ->]. split_and!; [done| |done]. by eapply drawer_opener.
    + intros (E & _). right. rewrite E. by apply list_elem_of_singleton.
  - split; [|by intros [? _]]. rewrite elem_of_app. intros [?|H']; [done|]. destruct (opener p); set_solver.
Qed.

Lemma go_step p ev h : drawer_ok p -> selects p ev = None -> page_step p ev = leave p h -> step_ok p (opener p) ev.
Proof.
  intros Hp Hs E. apply (closed_ok p ev [SetHash h]); rewrite ?E; try done; try set_solver.
Qed.


Lemma page_step_ok p ev : drawer_ok p -> step_ok p (opener p) ev.
Proof.
  intros Hp. destruct ev;
    try (by eapply quiet_ok; [done|reflexivity|done|done|done|set_solver|set_solver]).
  - eapply (selected_ok p (EvNode n controls active) _ active); [right; left; by exists n|done|done|done|done|done|destruct controls; set_solver..].
  - eapply (selected_ok p (EvEdge e active) _ active []); [right; right; by exists e|done|done|done|done|done|set_solver..].
  - destruct (starts_with GROUP_PREFIX id) eqn:Eg.
    { eapply quiet_ok; [done|cbn [page_step]; unfold selectNodeById; rewrite Eg; reflexivity|cbn [selects]; by rewrite Eg|done|done|set_solver|set_solver]. }
    destruct (List.find (fun n => pr_key (pn_ref n) === id) (match a with Some a => an_nodes a | None => [] end)) as [n|] eqn:F.
    + assert (page_step p (EvCanvasNode a id active) = selectNode active p (Some n) false true) as E.
      { cbn [page_step]. unfold selectNodeById. rewrite Eg. destruct a; [cbn [mbind option_bind]; by rewrite F|done]. }
      eapply (selected_ok p (EvCanvasNode a id active) _ active []); rewrite ?E;
        [right; left; by exists n|cbn [selects]; by rewrite Eg, found_exists, F|done|done|done|done|set_solver..].
    + eapply quiet_ok; [done| |cbn [selects]; by rewrite Eg, found_exists, F|done|done| |].
      { cbn [page_step]. unfold selectNodeById. rewrite Eg.
        instantiate (1 := []). destruct a; [cbn [mbind option_bind]; by rewrite F|done]. }
      all: set_solver.
  - destruct (List.find (edge_of_group cyId) (match page_grouped p a with Some g => groups g | None => [] end)) as [g|] eqn:G.
    { eapply quiet_ok; [done|cbn [page_step]; unfold selectEdgeByCyId; rewrite G; reflexivity|cbn [selects]; by rewrite found_exists, G|done|done|set_solver|set_solver]. }
    destruct (List.find (fun e => cyEdgeId (pr_key (pe_from e)) (pr_key (pe_to e)) (pe_relation e) === cyId)
                (match a with Some a => an_edges a | None => [] end)) as [e|] eqn:F.
    + assert (page_step p (EvCanvasEdge a cyId active) = selectEdge active p (Some e)) as E.
      { cbn [page_step]. unfold selectEdgeByCyId. rewrite G. destruct a; [cbn [mbind option_bind]; by rewrite F|done]. }
      eapply (selected_ok p (EvCanvasEdge a cyId active) _ active []); rewrite ?E;
        [right; right; by exists e|cbn [selects]; by rewrite found_exists, G, found_exists, F|done|done|done|done|set_solver..].
    + eapply quiet_ok; [done| |cbn [selects]; by rewrite found_exists, G, found_exists, F|done|done| |].
      { cbn [page_step]. unfold selectEdgeByCyId. rewrite G.
        instantiate (1 := []). destruct a; [cbn [mbind option_bind]; by rewrite F|done]. }
      all: set_solver.
  - destruct (is_open p) eqn:Eo.
    + apply (closed_ok p EvEscape []); cbn [page_step]; unfold onEscape, is_open in *; rewrite ?Eo; try done; set_solver.
    + eapply quiet_ok; [done|cbn [page_step]; unfold onEscape; unfold is_open in Eo; rewrite Eo; reflexivity|done|done|done|set_solver|set_solver].
  - apply (closed_ok p EvClose []); try done; set_solver.
  - eapply quiet_ok; [done|reflexivity|done|unfold on_question; by destruct (_ !== _)|unfold on_question; by destruct (_ !== _)|set_solver|set_solver].
  - by eapply go_step.
  - assert (exists h, page_step p (EvPerspective gs a v) = leave p h) as [h E]; [|by eapply go_step].
    cbn [page_step]. unfold setPerspective. destruct (canonicalFocusForPerspective _ _ _) as [c|]; [|by eexists].
    destruct (_ || _); by eexists.
  - destruct (depthSupported gs) eqn:Ed.
    + eapply go_step; [done|done|]. cbn [page_step]. unfold setDepth. by rewrite Ed.
    + eapply quiet_ok; [done|cbn [page_step]; unfold setDepth; rewrite Ed; reflexivity|done|done|done|set_solver|set_solver].
  - destruct (depthSupported gs && (gs_depth gs <? MAX_DEPTH)) eqn:Ed.
    + eapply go_step; [done|done|]. cbn [page_step]. unfold expand. by rewrite Ed.
    + eapply quiet_ok; [done|cbn [page_step]; unfold expand; rewrite Ed; reflexivity|done|done|done|set_solver|set_solver].
  - destruct (nextMaxNodes (gs_maxNodes gs)) as [n|] eqn:En.
    + eapply go_step; [done|done|]. cbn [page_step]. unfold showMore. by rewrite En.
    + eapply quiet_ok; [done|cbn [page_step]; unfold showMore; rewrite En; reflexivity|done|done|done|set_solver|set_solver].
Qed.

Lemma page_run_ok evs : drawer_ok (page_run evs) /\ opened_by evs = opener (page_run evs).
Proof.
  unfold page_run, opened_by. assert (drawer_ok (page0 (Elem := Elem)) /\ None = opener (page0 (Elem := Elem))) as Hp by (split; [by left|done]).
  revert Hp. generalize (@None Elem) at 1 3. generalize (page0 (Elem := Elem)).
  induction evs as [|ev evs IH]; intros p last [Hp ->]; [done|]. cbn [fold_left]. apply IH.
  destruct (page_step_ok p ev Hp) as (H1 & H2 & _). by split.
Qed.
End Drawer.


(** Resetting the focus leaves the drawer open: it is there again, on an entity of the graph
    before, once another entity is chosen. *)
Example reset_keeps_drawer `{Locale} (n : ProductNode) (q : str) :
  selected (page_run [EvNode n true (Some 1%nat); EvReset; EvQuestion q]) =
    {| sel_kind := "node"; sel_node := Some n; sel_edge := None |}.
Proof. cbn. unfold on_question. by destruct (_ !== _). Qed.

(** *** The controls and the address *)

(** The controls that lead to a graph, and the state each is meant to lead to. *)
Inductive control :=
  | CDirection (d : Direction) | CDepth (d : Z) | CView (v : KnowledgeView) | CExpand | CMore
  | CPerspective (a : option Answer) (v : GraphPerspective).

Definition use {Elem} (gs : GraphState) (c : control) (p : @Page Elem) : @Page Elem * list (@effect Elem) :=
  match c with
  | CDirection d => setDirection gs d p
  | CDepth d => setDepth gs d p
  | CView v => flipView gs v p
  | CExpand => expand gs p
  | CMore => showMore gs p
  | CPerspective a v => setPerspective gs a v p
  end.

(** The entity a perspective moves the focus to, when the answer names one. *)
Definition moves (gs : GraphState) (c : control) : option CanonRef :=
  match c with
  | CPerspective a v =>
      match canonicalFocusForPerspective (an_canon <$> a) (gs_kind gs) v with
      | Some r => if (cr_kind r === gs_kind gs) && (cr_key r === gs_key gs) then None else Some r
      | None => None
      end
  | _ => None
  end.

(** One choice changes, but for a perspective: a depth it does not support becomes one hop, and
    where it moves the focus the budget starts over. *)
Definition intended (gs : GraphState) (c : control) : GraphState :=
  {| gs_kind := match moves gs c with Some r => cr_kind r | None => gs_kind gs end;
     gs_key := match moves gs c with Some r => cr_key r | None => gs_key gs end;
     gs_perspective := match c with CPerspective _ v => v | _ => gs_perspective gs end;
     gs_views := match c with CView v => toggleView (gs_views gs) v | _ => gs_views gs end;
     gs_direction := match c with CDirection d => d | _ => gs_direction gs end;
     gs_depth := match c with
                 | CDepth d => if depthSupported gs then Z.max 1 (Z.min MAX_DEPTH d) else gs_depth gs
                 | CExpand => if depthSupported gs then Z.min MAX_DEPTH (gs_depth gs + 1) else gs_depth gs
                 | CPerspective _ PTarget => 1
                 | _ => gs_depth gs
                 end;
     gs_maxNodes := match c, moves gs c with
                    | CMore, _ => nullish (nextMaxNodes (gs_maxNodes gs)) (gs_maxNodes gs)
                    | CPerspective _ _, Some _ => DEFAULT_MAX_NODES
                    | _, _ => gs_maxNodes gs
                    end |}.

Lemma toggleView_ok views v : views <> [] -> NoDup views -> toggleView views v <> [] /\ NoDup (toggleView views v).
Proof.
  intros Hne Hn. split; [by apply toggleView_spec|]. unfold toggleView. case_bool_decide as Hv.
  - assert (NoDup (List.filter (fun x => x !== v) views)) as Hf by (eapply sublist_NoDup; [done|apply filter_sublist]).
    by destruct (List.filter (fun x => x !== v) views).
  - eapply sublist_NoDup; [|apply filter_sublist]. by_decide.
Qed.

Lemma intended_ok gs c : graph_state_ok gs -> graph_state_ok (intended gs c).
Proof.
  intros (Hd & Hn & Hv & Hnd). unfold graph_state_ok, intended, MAX_DEPTH in *. cbn [gs_depth gs_maxNodes gs_views].
  split; [destruct c as [| | | | |a []]; try done; try destruct (depthSupported gs); lia|]. split.
  - destruct c as [| | | | |a v]; cbn [moves]; try done.
    + unfold nextMaxNodes. destruct (List.find _ _) as [m|] eqn:E; [|done].
      apply List.find_some in E as [Hin _]. simpl in Hin. unfold GraphState.MAX_NODES. simpl. lia.
    + repeat case_match; done.
  - destruct c; try done. by apply toggleView_ok.
Qed.

(** A link built from a state, on the way out of the page. *)
Lemma leave_lands {Elem} (t : GraphState) (p : @Page Elem) :
  graph_state_ok t -> gs_kind t <> [] -> gs_key t <> [] -> Utf8 (gs_kind t) -> Utf8 (gs_key t) ->
  exists h es r, leave p (fleetGraphFocusUrl (gs_kind t) (gs_key t) (graph_options t)) = ((closeDrawer p).1, SetHash h :: es) /\
    parseHash (Some h) = Some r /\ view r = VFleet /\ hasFocus (Router.params r) = true /\
    let s := graphStateFromParams (Router.params r) in
    s = {| gs_kind := gs_kind t; gs_key := gs_key t; gs_perspective := gs_perspective t; gs_views := gs_views s;
           gs_direction := gs_direction t; gs_depth := gs_depth t; gs_maxNodes := gs_maxNodes t |} /\
    gs_views s ≡ₚ gs_views t.
Proof.
  intros Hok Hk Hs Uk Us. destruct (graph_link_reads t Hok Hk Hs Uk Us) as (r & Hr & Hv & Hf & He).
  eexists _, _, r. split; [reflexivity|]. split; [exact Hr|]. done.
Qed.

(** A control is refused, or is the link of the state it stands for. *)
Lemma use_intended {Elem} gs c (p : @Page Elem) : graph_state_ok gs ->
  (use gs c p = (p, []) /\ intended gs c = gs) \/
  use gs c p = leave p (fleetGraphFocusUrl (gs_kind (intended gs c)) (gs_key (intended gs c)) (graph_options (intended gs c))).
Proof.
  intros (Hd & _). assert (gs = {| gs_kind := gs_kind gs; gs_key := gs_key gs; gs_perspective := gs_perspective gs; gs_views := gs_views gs;
     gs_direction := gs_direction gs; gs_depth := gs_depth gs; gs_maxNodes := gs_maxNodes gs |}) as Eta by (by destruct gs).
  destruct c as [d|d|v| | |a v]; cbn [use].
  - by right.
  - unfold setDepth, intended. cbn [moves]. destruct (depthSupported gs); [by right|by left].
  - by right.
  - unfold expand, intended. cbn [moves]. destruct (depthSupported gs); cbn [andb]; [|by left].
    destruct (Z.ltb_spec (gs_depth gs) MAX_DEPTH); [right; by rewrite Z.min_r by lia|left].
    rewrite Z.min_l by lia. replace MAX_DEPTH with (gs_depth gs) by lia. done.
  - unfold showMore, intended. cbn [moves]. by destruct (nextMaxNodes (gs_maxNodes gs)) as [n|]; [right|left].
  - right. unfold setPerspective, intended. cbn [moves].
    assert ((if perspectiveSupportsDepth (perspective_str v) then gs_depth gs else 1) = match v with PTarget => 1 | _ => gs_depth gs end) as ->
      by (by destruct v).
    destruct (canonicalFocusForPerspective _ _ _) as [c|]; [|by destruct v].
    destruct (cr_kind c === gs_kind gs), (cr_key c === gs_key gs); cbn [andb orb negb]; by destruct v.
Qed.

Lemma moves_full gs c r : moves gs c = Some r -> cr_kind r <> [] /\ cr_key r <> [].
Proof.
  assert (forall o r, full_ref o = Some r -> cr_kind r <> [] /\ cr_key r <> []) as F.
  { intros [x|] y; [|done]. simpl. destruct (truthy (cr_kind x)) eqn:E1, (truthy (cr_key x)) eqn:E2; try done. intros [= <-].
    split; intros E; [by rewrite E in E1|by rewrite E in E2]. }
  destruct c as [| | | | |a v]; try done. cbn [moves]. unfold canonicalFocusForPerspective. intros H. apply (F (match an_canon <$> a with
    | Some nb => if v === PService then nb_focusService nb
        else if (v === PRevision) && (gs_kind gs === "target") then
          mjoin (List.find (fun e => (e ≫= ce_relation) === Some "runs") (nullish (GraphState.nb_edges nb) [])) ≫= ce_to else None
    | None => None end)). revert H. destruct (an_canon <$> a) as [nb|]; [|done].
  destruct (v === PService); [destruct (full_ref _); [|done]; by destruct (_ && _)|].
  destruct ((v === PRevision) && (gs_kind gs === "target")); [destruct (full_ref _); [|done]; by destruct (_ && _)|done].
Qed.

(** C35: Every control of the graph page leads where it says. From whatever the address asked
    for, choosing a direction, a depth, a knowledge layer, one hop more, a larger budget or a
    perspective either is refused and changes nothing, or closes the drawer and sets an address
    that reopens the page on the state the choice stands for, within the bounds of the graph:
    the same entity with that one choice changed, but that a perspective without a depth goes
    back to one hop, and one that the answer projects onto another entity names that entity and
    starts its budget over. Resetting the focus leads to the search, and leaves the drawer as it
    was. *)
Theorem control_lands {Elem : Type} (params : gmap str str) (c : control) (p : @Page Elem) :
  let gs := graphStateFromParams params in
  hasFocus params = true -> Utf8 (gs_kind (intended gs c)) -> Utf8 (gs_key (intended gs c)) ->
  graph_state_ok (intended gs c) /\
  ((use gs c p = (p, []) /\ intended gs c = gs) \/
   exists h es r, use gs c p = ((closeDrawer p).1, SetHash h :: es) /\ parseHash (Some h) = Some r /\ view r = VFleet /\
     hasFocus (Router.params r) = true /\
     let s := graphStateFromParams (Router.params r) in
     s = {| gs_kind := gs_kind (intended gs c); gs_key := gs_key (intended gs c); gs_perspective := gs_perspective (intended gs c);
            gs_views := gs_views s; gs_direction := gs_direction (intended gs c); gs_depth := gs_depth (intended gs c);
            gs_maxNodes := gs_maxNodes (intended gs c) |} /\
     gs_views s ≡ₚ gs_views (intended gs c)) /\
  exists h r, resetFocus p = (p, [SetHash h]) /\ parseHash (Some h) = Some r /\ view r = VFleet /\ hasFocus (Router.params r) = false.
Proof.
  intros gs Hf Uk Us. destruct (graphStateFromParams_bounded params) as [Hok _]. fold gs in Hok.
  assert (gs_kind gs <> [] /\ gs_key gs <> []) as [Hk Hs].
  { unfold hasFocus in Hf. apply andb_true_iff in Hf as [Hk Hs]. unfold gs, graphStateFromParams. cbn [gs_kind gs_key].
    split; [destruct (params !! "kind") as [[]|]|destruct (params !! "sel") as [[]|]]; done. }
  pose proof (intended_ok gs c Hok) as Hi. split; [done|]. split.
  - destruct (use_intended gs c p Hok) as [H|H]; [by left|right]. rewrite H.
    apply leave_lands; [exact Hi| | |exact Uk|exact Us]; unfold intended; cbn [gs_kind gs_key];
      (destruct (moves gs c) as [r|] eqn:M; [by apply moves_full in M as [? ?]|assumption]).
  - exists fleetGraphDiscoveryUrl, (route VFleet (read_params GRAPH_QUERY (search_params []))).
    split; [reflexivity|]. split; [reflexivity|]. split; [reflexivity|]. vm_compute. reflexivity.
Qed.

(** A target seen as its service: the focus moves, and the budget starts over. *)
Definition target_answer : Answer :=
  {| an_nodes := []; an_edges := []; an_totalNodes := None; an_truncated := false; an_truncatedEdges := false; an_effectiveDepth := 1;
     an_meta := None; an_requestedFocus := None; an_unresolved := None;
     an_canon := {| nb_focusService := Some {| cr_kind := "service"; cr_key := "api" |}; nb_projectionFocus := None; GraphState.nb_edges := None |};
     an_revisionState := fun _ => None |}.
Definition target_params : gmap str str := {[ "kind" := "target"; "sel" := "prod/pod/api"; "perspective" := "target"; "maxNodes" := "100" ]}.

Lemma control_lands_witness :
  let gs := graphStateFromParams target_params in let c := CPerspective (Some target_answer) PService in let p := @page0 unit in
  gs_key (intended gs c) = "api" /\ gs_maxNodes gs = 100 /\ gs_maxNodes (intended gs c) = 40 /\
  ((use gs c p = (p, []) /\ intended gs c = gs) \/
   exists h es r, use gs c p = ((closeDrawer p).1, SetHash h :: es) /\ parseHash (Some h) = Some r /\ view r = VFleet /\
     hasFocus (Router.params r) = true /\
     let s := graphStateFromParams (Router.params r) in
     s = {| gs_kind := gs_kind (intended gs c); gs_key := gs_key (intended gs c); gs_perspective := gs_perspective (intended gs c);
            gs_views := gs_views s; gs_direction := gs_direction (intended gs c); gs_depth := gs_depth (intended gs c);
            gs_maxNodes := gs_maxNodes (intended gs c) |} /\
     gs_views s ≡ₚ gs_views (intended gs c)).
Proof.
  intros gs c p. split; [vm_compute; reflexivity|]. split; [vm_compute; reflexivity|]. split; [vm_compute; reflexivity|].
  apply (control_lands target_params c p); [reflexivity|by_decide|by_decide].
Defined.
