(* ===== verification/Pickers.v ===== *)
(** * Picking an entity or a command

    The command palette ([CommandPalette.svelte]), the entity search ([EntitySearch.svelte]),
    the search-as-you-type field ([components/EntityCombobox.svelte]) and the migration of an
    old link that only names its entity ([views/LegacyEntityRedirect.svelte]). Each is a
    state with its handlers as steps; what a step does outside the component is an effect. *)

From stdpp Require Import base list.
From Stdlib Require Import Init.Byte ZArith NArith Lia.
From S2P Require Import Prelude Uri Paging Owners Router Format Knowledge Suggest Commands.
Local Open Scope Z_scope.

Definition lenZ {A} (l : list A) : Z := Z.of_nat (length l).

(** [l[i]]: nothing out of range. *)
Definition at_index {A} (l : list A) (i : Z) : option A := if i <? 0 then None else l !! Z.to_nat i.

(** *** Moving a selection, and a focus trap *)
Definition arrow_down (i n : Z) : Z := Z.min (i + 1) (n - 1).
Definition arrow_up (i : Z) : Z := Z.max (i - 1) 0.
Definition in_range (i n : Z) : Z := if n - 1 <? i then Z.max 0 (n - 1) else i.

(** The element the focus moves to among [n], from index [idx] ([-1] outside of them). *)
Definition tab_next (idx n : Z) (shift : bool) : Z :=
  if shift then if idx <=? 0 then n - 1 else idx - 1
  else if n - 1 <=? idx then 0 else idx + 1.

(** ** The command palette *)
Record Palette := { cp_query : str; cp_idx : Z }.

Inductive cp_effect := CpClose | CpAction (a : str) (c : Command) | CpHash (h : str).

Section PaletteSteps.
Context (services : option (list CmdService)) (fleet delivery : bool).

Definition cp_groups (p : Palette) : list CommandGroup := buildCommands (cp_query p) services fleet delivery.
Definition cp_flat (p : Palette) : list Command := flattenCommands (cp_groups p).

(** The effect that keeps the selection in range runs after every change. *)
Definition cp_settle (p : Palette) : Palette :=
  {| cp_query := cp_query p; cp_idx := in_range (cp_idx p) (lenZ (cp_flat p)) |}.

Definition cp_opened : Palette := cp_settle {| cp_query := []; cp_idx := 0 |}.

Definition cp_activate (c : option Command) : list cp_effect :=
  match c with
  | None => []
  | Some c => CpClose :: (if otruthy (cmd_action c) then match cmd_action c with Some a => [CpAction a c] | None => [] end
                          else match when_truthy (cmd_href c) with Some h => [CpHash h] | None => [] end)
  end.

Inductive cp_event := CpType (q : str) | CpDown | CpUp | CpEnter | CpEscape | CpHover (idx : Z) | CpClick (c : Command).

Definition cp_step (p : Palette) (ev : cp_event) : Palette * list cp_effect :=
  match ev with
  | CpType q => (cp_settle {| cp_query := q; cp_idx := cp_idx p |}, [])
  | CpDown => (cp_settle {| cp_query := cp_query p; cp_idx := arrow_down (cp_idx p) (lenZ (cp_flat p)) |}, [])
  | CpUp => (cp_settle {| cp_query := cp_query p; cp_idx := arrow_up (cp_idx p) |}, [])
  | CpEnter => (p, cp_activate (at_index (cp_flat p) (cp_idx p)))
  | CpEscape => (p, [CpClose])
  | CpHover idx => (cp_settle {| cp_query := cp_query p; cp_idx := idx |}, [])
  | CpClick c => (p, cp_activate (Some c))
  end.
End PaletteSteps.

(** The index of the first item of each group. *)
Fixpoint baseIndex (groups : list CommandGroup) (gi : nat) : nat :=
  match gi, groups with
  | S gi', g :: gs => length (cg_items g) + baseIndex gs gi'
  | _, _ => O
  end.

(** A row of the palette: the group and the position in it, and the index it is drawn with. *)
Definition cp_row (groups : list CommandGroup) (gi ii : nat) : option (Z * Command) :=
  g ← groups !! gi; c ← cg_items g !! ii; Some (Z.of_nat (baseIndex groups gi + ii), c).

(** ** The entity search *)
Section EntitySearch.
Context {Ref : Type} (ref_kind : Ref -> str) (ref_href : Ref -> option str) (ref_key : Ref -> str).

(** Results by kind, in the order each kind first appears. *)
Definition es_groups (results : list Ref) : list (str * list Ref) :=
  (fun k => (k, List.filter (fun r => ref_kind r === k) results)) <$> dedupe (ref_kind <$> results).

(** Each result with the index the keyboard knows it by. *)
Fixpoint number {A} (i : nat) (gs : list (str * list A)) : list (str * list (A * nat)) :=
  match gs with
  | [] => []
  | (k, items) :: gs' => (k, imap (fun j r => (r, (i + j)%nat)) items) :: number (i + length items) gs'
  end.

Definition es_results (results : list Ref) : list Ref := es_groups results ≫= snd.

Definition hrefFor (r : Ref) : str :=
  if otruthy (ref_href r) then hashForHref (ref_href r) else fleetEntityUrl (ref_kind r) (ref_key r).

Record Search := { es_query : str; es_idx : Z; es_open : bool }.

Inductive es_effect := EsClose | EsHash (h : str) | EsSearch (q : str) | EsClear.

Inductive es_event := EsOpen (initial : str) | EsShut | EsType (q : str) | EsDown | EsUp | EsEnter | EsEscape | EsHover (idx : Z) | EsResults.

(** [results] are the suggestions at the time. *)
Definition es_step (results : list Ref) (s : Search) (ev : es_event) : Search * list es_effect :=
  let n := lenZ (es_results results) in
  match ev with
  | EsOpen initial => ({| es_query := initial; es_idx := 0; es_open := true |}, [EsClear; EsSearch initial])
  | EsShut => ({| es_query := es_query s; es_idx := es_idx s; es_open := false |}, [EsClear])
  | EsType q => ({| es_query := q; es_idx := es_idx s; es_open := es_open s |}, [EsSearch q])
  | EsDown => ({| es_query := es_query s; es_idx := in_range (arrow_down (es_idx s) n) n; es_open := es_open s |}, [])
  | EsUp => ({| es_query := es_query s; es_idx := in_range (arrow_up (es_idx s)) n; es_open := es_open s |}, [])
  | EsEnter => (s, match at_index (es_results results) (es_idx s) with Some r => [EsClose; EsHash (hrefFor r)] | None => [] end)
  | EsEscape => (s, [EsClose])
  | EsHover idx => ({| es_query := es_query s; es_idx := in_range idx n; es_open := es_open s |}, [])
  | EsResults => ({| es_query := es_query s; es_idx := in_range (es_idx s) n; es_open := es_open s |}, [])
  end.
End EntitySearch.

(** ** The combobox *)
Section Combobox.
Context {Ref : Type} (ref_label : Ref -> option str).

Record Combobox := { cb_value : str; cb_open : bool; cb_idx : Z }.

Inductive cb_effect := CbSearch (text : str) | CbSelect (r : Ref) | CbCommit (text : str).

(** The suggester's part of what the field shows. *)
Definition cb_query (c : Combobox) : str := trim (cb_value c).
Definition cb_expanded (c : Combobox) : bool := cb_open c && truthy (cb_query c).

(** The list under the field, in the order its branches are tried. *)
Inductive cb_list := CbClosed | CbSearching | CbFailed | CbNone | CbOptions (rs : list Ref) (truncated : bool).

Definition cb_shows (g : @Suggest Ref) (c : Combobox) : cb_list :=
  if negb (cb_expanded c) then CbClosed
  else if Suggest.loading g then CbSearching
  else if bool_decide (is_Some (Suggest.error g)) then CbFailed
  else match results g with [] => CbNone | rs => CbOptions rs (truncated g) end.

Definition cb_close (c : Combobox) : Combobox := {| cb_value := cb_value c; cb_open := false; cb_idx := -1 |}.

Definition cb_choose (c : Combobox) (r : Ref) : Combobox * list cb_effect :=
  let c' := cb_close c in
  ({| cb_value := if otruthy (ref_label r) then or_str (ref_label r) [] else cb_value c'; cb_open := cb_open c'; cb_idx := cb_idx c' |},
   [CbSelect r]).

Inductive cb_event := CbInput (text : str) | CbDown | CbUp | CbEnter | CbEscape | CbBlur | CbChange (text : str)
  | CbHover (i : Z) | CbClick (r : Ref).

(** [commits] is whether [oncommit] was given. *)
Definition cb_step (commits : bool) (g : @Suggest Ref) (c : Combobox) (ev : cb_event) : Combobox * list cb_effect :=
  let n := lenZ (results g) in
  match ev with
  | CbInput text => ({| cb_value := text; cb_open := true; cb_idx := -1 |}, [CbSearch text])
  | CbDown => ({| cb_value := cb_value c; cb_open := true;
                  cb_idx := if n =? 0 then cb_idx c else if cb_open c then Z.rem (cb_idx c + 1) n else 0 |}, [])
  | CbUp => ({| cb_value := cb_value c; cb_open := true;
                cb_idx := if n =? 0 then cb_idx c else if cb_idx c <=? 0 then n - 1 else cb_idx c - 1 |}, [])
  | CbEnter =>
      match (if cb_expanded c && (0 <=? cb_idx c) then at_index (results g) (cb_idx c) else None) with
      | Some r => cb_choose c r
      | None => (cb_close c, if commits then [CbCommit (cb_query c)] else [])
      end
  | CbEscape => (if cb_expanded c then cb_close c else c, [])
  | CbBlur => (cb_close c, [])
  | CbChange text => (c, if commits then [CbCommit (trim text)] else [])
  | CbHover i => ({| cb_value := cb_value c; cb_open := cb_open c; cb_idx := i |}, [])
  | CbClick r => cb_choose c r
  end.

Definition cb_activeOption (g : @Suggest Ref) (c : Combobox) : option Ref := at_index (results g) (cb_idx c).

Definition liveMsg (g : @Suggest Ref) (c : Combobox) : str :=
  if negb (cb_expanded c) || Suggest.loading g then []
  else match results g with
       | [] => "No suggestions"
       | rs => formatCount (lenZ rs) ++ " suggestion" ++ (if lenZ rs =? 1 then [] else "s")
       end.
End Combobox.

(** ** Old links that only name their entity *)
Section LegacyRedirect.
Context {Ref : Type} (ref_key ref_label : Ref -> str) (ref_version : Ref -> option str) (ref_href : Ref -> option str).

(** A page of entities, as it is read: its entities and whether it was cut. *)
Definition EntitiesPage : Type := option (option (list Ref) * option bool).

(** The lookups: by kind and name, and the revisions of a service. A failed one throws. *)
Class EntitiesApi := {
  by_name : str -> str -> thrown + EntitiesPage;
  revisions_of : str -> thrown + EntitiesPage }.

Inductive Scope := ScService | ScVersion.
Inductive Phase := Resolving | Ambiguous | NotFound | Bounded | Failed.

Inductive Resolution :=
  | Redirect (hash : str)                                  (** [replaceHash] *)
  | Stay (phase : Phase) (scope : Scope) (matches : list Ref) (errorMsg : str).

Definition isExact (name : str) (e : Ref) : bool := (ref_label e === name) || (ref_key e === name).

Definition errorMsg_of (e : thrown) : str :=
  match e with
  | SchemaCompatibilityError _ => "The dashboard and backend API versions differ; reload to update."
  | ApiError status message => "Couldn't resolve this link (HTTP " ++ show_Z status ++ "). " ++ message
  | _ => "The Pacto backend is unavailable. Check your connection and retry."
  end.

Definition failed (scope : Scope) (e : thrown) : Resolution := Stay Failed scope [] (errorMsg_of e).

Definition resolveVersion `{EntitiesApi} (version : str) (service : Ref) : Resolution :=
  match revisions_of (ref_key service) with
  | inl e => failed ScService e
  | inr page =>
      let r := boundedMatches page (fun r => ref_version r === Some version) in
      if negb (complete r) then Stay Bounded ScVersion (matches r) []
      else match matches r with
           | [rev] => Redirect (hashForHref (ref_href rev))
           | [] => Stay NotFound ScVersion [] []
           | revs => Stay Ambiguous ScVersion revs []
           end
  end.

Definition resolve `{EntitiesApi} (kind name version : str) : Resolution :=
  match by_name kind name with
  | inl e => failed ScService e
  | inr page =>
      let r := boundedMatches page (isExact name) in
      if negb (complete r) then Stay Bounded ScService (matches r) []
      else match matches r with
           | [] => Stay NotFound ScService [] []
           | [e] => if (kind === "service") && truthy version then resolveVersion version e
                    else Redirect (hashForHref (ref_href e))
           | es => Stay Ambiguous ScService es []
           end
  end.

(** What the page says, by its phase and scope. *)
Definition heading (kindLabel : str) (phase : Phase) (scope : Scope) : option str :=
  match phase, scope with
  | Resolving, _ => None
  | Ambiguous, ScVersion => Some "Which revision?"
  | Ambiguous, ScService => Some ("Which " ++ kindLabel ++ "?")
  | Bounded, _ => Some "Couldn't resolve this link"
  | NotFound, ScVersion => Some "Version not found"
  | NotFound, ScService => Some "Not found"
  | Failed, _ => Some "Couldn't open this link"
  end.
End LegacyRedirect.

(** ** Properties *)

(** *** What is highlighted is what Enter opens *)
Lemma flat_row (groups : list CommandGroup) (gi ii : nat) g :
  groups !! gi = Some g -> (ii < length (cg_items g))%nat ->
  flattenCommands groups !! (baseIndex groups gi + ii)%nat = cg_items g !! ii.
Proof.
  unfold flattenCommands. revert gi. induction groups as [|g0 groups IH]; intros [|gi] Hg Hi; [done..| |].
  - injection Hg as ->. rewrite bind_cons. simpl. by apply lookup_app_l.
  - rewrite bind_cons. cbn [baseIndex]. rewrite <-Nat.add_assoc, lookup_app_r by lia. rewrite Nat.add_comm, Nat.add_sub. by apply IH.
Qed.

Lemma row_exists (groups : list CommandGroup) (i : nat) c :
  flattenCommands groups !! i = Some c ->
  exists gi ii g, groups !! gi = Some g /\ cg_items g !! ii = Some c /\ i = (baseIndex groups gi + ii)%nat.
Proof.
  unfold flattenCommands. revert i. induction groups as [|g0 groups IH]; intros i; [done|]. rewrite bind_cons.
  intros [H | [Hl H]]%lookup_app_Some.
  - exists O, i, g0. done.
  - apply IH in H as (gi & ii & g & Hg & Hi & E). exists (S gi), ii, g. cbn [baseIndex lookup list_lookup]. split_and!; [done..|lia].
Qed.

(** Rows are numbered through the groups as the keyboard counts them, each number once. *)
Lemma row_index (groups : list CommandGroup) (i : Z) (c : Command) :
  at_index (flattenCommands groups) i = Some c <-> exists gi ii, cp_row groups gi ii = Some (i, c).
Proof.
  unfold at_index, cp_row. split.
  - destruct (Z.ltb_spec i 0); [done|]. intros (gi & ii & g & Hg & Hi & E)%row_exists.
    exists gi, ii. rewrite Hg. simpl. rewrite Hi. simpl. rewrite <- E. do 2 f_equal. lia.
  - intros (gi & ii & E). destruct (groups !! gi) as [g|] eqn:Hg; [|done]. simpl in E.
    destruct (cg_items g !! ii) as [c'|] eqn:Hi; [|done]. simpl in E. injection E as Ei ->.
    rewrite <- Ei. rewrite (proj2 (Z.ltb_ge _ _)) by lia. rewrite Nat2Z.id.
    rewrite (flat_row groups gi ii g Hg); [done|]. by eapply lookup_lt_Some.
Qed.

Lemma at_index_bound {A} (l : list A) (i : Z) x : at_index l i = Some x -> 0 <= i < lenZ l.
Proof.
  unfold at_index, lenZ. destruct (Z.ltb_spec i 0); [done|]. intros H'%lookup_lt_Some. lia.
Qed.

(** What opening a command does: the palette closes, and its action is called or its link followed. *)
Definition opens (c : Command) : list cp_effect :=
  CpClose :: match cmd_action c, cmd_href c with
             | Some ((_ :: _) as a), _ => [CpAction a c]
             | _, Some ((_ :: _) as h) => [CpHash h]
             | _, _ => []
             end.

Lemma activate_opens c : cp_activate (Some c) = opens c.
Proof. unfold cp_activate, opens. destruct (cmd_action c) as [[]|], (cmd_href c) as [[]|]; done. Qed.

(** C39: In the palette, the row that is pointed at or reached with an arrow is the one Enter
    opens. For every row drawn with an index: hovering over it and then Enter, a click on it, and
    Enter after an arrow from the row before or after it all close the palette and call that
    row's action or follow its link; and Enter does something only where a row is selected. *)
Theorem row_opened (services : option (list CmdService)) (fleet delivery : bool) (p : Palette) :
  let row := cp_row (cp_groups services fleet delivery p) in
  let after ev := (cp_step services fleet delivery p ev).1 in
  let does q ev := (cp_step services fleet delivery q ev).2 in
  (forall gi ii i c, row gi ii = Some (i, c) ->
     does (after (CpHover i)) CpEnter = opens c /\ does p (CpClick c) = opens c /\
     (cp_idx p = i -> does p CpEnter = opens c) /\
     (cp_idx p = i - 1 -> does (after CpDown) CpEnter = opens c) /\
     (cp_idx p = i + 1 -> does (after CpUp) CpEnter = opens c)) /\
  (does p CpEnter <> [] <-> exists gi ii c, row gi ii = Some (cp_idx p, c)).
Proof.
  intros row after does. split.
  - intros gi ii i c Hr. assert (at_index (cp_flat services fleet delivery p) i = Some c) as Hi by (apply row_index; eauto).
    pose proof (at_index_bound _ _ _ Hi) as Hb.
    assert (forall j, j = i -> (cp_step services fleet delivery (cp_settle services fleet delivery {| cp_query := cp_query p; cp_idx := j |}) CpEnter).2 = opens c) as He.
    { intros j ->. unfold cp_settle. cbn [cp_step snd cp_query cp_idx]. change (cp_flat services fleet delivery {| cp_query := cp_query p; cp_idx := _ |})
        with (cp_flat services fleet delivery p). unfold in_range. destruct (Z.ltb_spec (lenZ (cp_flat services fleet delivery p) - 1) i); [lia|].
      by rewrite Hi, activate_opens. }
    unfold does, after. cbn [cp_step fst]. rewrite activate_opens. split_and!; [by apply He|done| |..].
    + intros ->. cbn [snd]. by rewrite Hi, activate_opens.
    + intros E. apply He. unfold arrow_down. lia.
    + intros E. apply He. unfold arrow_up. lia.
  - unfold does. cbn [cp_step snd]. split.
    + intros Hn. destruct (at_index _ _) as [c|] eqn:E; [|done]. apply row_index in E as (gi & ii & E). eauto.
    + intros (gi & ii & c & E). assert (at_index (cp_flat services fleet delivery p) (cp_idx p) = Some c) as -> by (apply row_index; eauto). done.
Qed.

(** A selection that was in range stays so while there is anything to select, except that
    an arrow down in an empty list loses it; the next results are then drawn with none
    selected, and Enter opens nothing. *)
Theorem palette_lost :
  let step := cp_step None false false in
  let p := fold_left (fun p ev => (step p ev).1) [CpType "graph"; CpType "zzzz"; CpDown; CpType "graph"] (cp_opened None false false) in
  cp_flat None false false p <> [] /\ cp_idx p = -1 /\ step p CpEnter = (p, []).
Proof. split_and!; [vm_compute; discriminate|vm_compute; reflexivity..]. Qed.

(** *** The focus trap *)
Lemma tab_cycles (idx n : Z) (shift : bool) : 0 < n -> 0 <= tab_next idx n shift < n \/ idx < -1 \/ n < idx.
Proof. unfold tab_next. intros Hn. destruct shift; [destruct (Z.leb_spec idx 0)|destruct (Z.leb_spec (n - 1) idx)]; lia. Qed.

(** *** The entity search *)
Section SearchProofs.
Context {Ref : Type} (ref_kind : Ref -> str).

Lemma bind_concat {A B} (f : A -> list B) (l : list A) : l ≫= f = concat (f <$> l).
Proof. induction l as [|x l IH]; [done|]. rewrite bind_cons, IH. done. Qed.

Lemma es_results_perm (results : list Ref) : es_results ref_kind results ≡ₚ results.
Proof.
  unfold es_results, es_groups. rewrite bind_concat, <- list_fmap_compose.
  apply (groups_Permutation ref_kind); [apply NoDup_dedupe|].
  intros x Hx. apply elem_of_dedupe. by apply list_elem_of_fmap_2.
Qed.

Lemma number_lookup {A} (gs : list (str * list A)) (i : nat) k items r j :
  (k, items) ∈ number i gs -> (r, j) ∈ items -> exists n, j = (i + n)%nat /\ (gs ≫= snd) !! n = Some r.
Proof.
  revert i. induction gs as [|[k0 xs] gs IH]; intros i Hk Hr; cbn [number] in Hk; [by apply elem_of_nil in Hk|].
  rewrite bind_cons. apply elem_of_cons in Hk as [[= -> ->] | Hk].
  - apply list_elem_of_lookup in Hr as [n Hn]. rewrite list_lookup_imap in Hn. destruct (xs !! n) as [x|] eqn:Ex; [|done].
    simpl in Hn. injection Hn as <- <-. exists n. split; [done|]. rewrite lookup_app_l; [done|]. by eapply lookup_lt_Some.
  - destruct (IH _ Hk Hr) as (n & -> & Hn). exists (length xs + n)%nat. split; [lia|].
    simpl. rewrite lookup_app_r by lia. by rewrite Nat.add_comm, Nat.add_sub.
Qed.
End SearchProofs.

(** The entity search shows every suggestion once, under its kind, and the index a row is
    drawn with is the one the keyboard opens it by. *)
Theorem search_rows {Ref : Type} (ref_kind : Ref -> str) (results : list Ref) :
  es_results ref_kind results ≡ₚ results /\
  (forall k items, (k, items) ∈ es_groups ref_kind results -> items <> [] /\ Forall (fun r => ref_kind r = k) items) /\
  (forall k items r j, (k, items) ∈ number 0 (es_groups ref_kind results) -> (r, j) ∈ items ->
     at_index (es_results ref_kind results) (Z.of_nat j) = Some r).
Proof.
  split; [apply es_results_perm|]. split.
  - intros k items (k' & [= -> ->] & Hk)%list_elem_of_fmap. apply elem_of_dedupe, list_elem_of_fmap in Hk as (r & -> & Hr). split.
    + assert (r ∈ List.filter (fun r' => ref_kind r' === ref_kind r) results) as Hin by (apply elem_of_lfilter; by rewrite eqb_refl).
      intros E. rewrite E in Hin. by apply elem_of_nil in Hin.
    + apply Forall_forall. intros x [_ Hx]%elem_of_lfilter. by apply bool_decide_eq_true in Hx.
  - intros k items r j Hk Hr. destruct (number_lookup _ _ _ _ _ _ Hk Hr) as (n & -> & Hn). unfold at_index.
    rewrite (proj2 (Z.ltb_ge _ _)) by lia. by rewrite Nat2Z.id.
Qed.

(** An arrow down before any result is there loses the selection: when the results come,
    none is selected, and Enter opens nothing. *)
Theorem search_lost :
  let step rs := es_step (Ref := str) (fun _ => "service") (fun _ => None) (fun r => r) rs in
  let s0 := (step [] {| es_query := []; es_idx := 0; es_open := false |} (EsOpen "pay")).1 in
  let s1 := (step [] s0 EsDown).1 in
  let s2 := (step ["payments"; "payouts"] s1 EsResults).1 in
  es_idx s2 = -1 /\ step ["payments"; "payouts"] s2 EsEnter = (s2, []).
Proof. split; vm_compute; reflexivity. Qed.

(** *** The combobox *)

(** What a run of the field has asked for, chosen and committed. *)
Definition cb_run {Ref} (ref_label : Ref -> option str) (commits : bool) (evs : list (@Suggest Ref * @cb_event Ref)) (c : Combobox)
    : Combobox * list (@cb_effect Ref) :=
  fold_left (fun st ev => let '(c', es) := cb_step ref_label commits ev.1 st.1 ev.2 in (c', st.2 ++ es)) evs (c, []).

(** The events by which a reader chooses. *)
Definition explicit {Ref} (ev : @cb_event Ref) : bool := match ev with CbEnter | CbChange _ | CbClick _ => true | _ => false end.
Definition is_choice {Ref} (e : @cb_effect Ref) : bool := match e with CbSearch _ => false | _ => true end.

(** The field is a suggestion, not a filter that runs itself: nothing is chosen or
    committed until the reader picks a row, presses Enter or leaves the field changed. Enter
    on settled suggestions chooses the highlighted row when one is highlighted, and commits
    the typed text otherwise; either way the list is closed after it. *)
Theorem commit_explicit {Ref : Type} (ref_label : Ref -> option str) (commits : bool) (g : @Suggest Ref) (c : Combobox)
    (evs : list (@Suggest Ref * @cb_event Ref)) :
  (Forall (fun ev => explicit ev.2 = false) evs -> Forall (fun e => is_choice e = false) (cb_run ref_label commits evs c).2) /\
  (let '(c', es) := cb_step ref_label commits g c CbEnter in
   cb_open c' = false /\ cb_idx c' = -1 /\
   es = match (if cb_expanded c then cb_activeOption g c else None) with
        | Some r => [CbSelect r]
        | None => if commits then [CbCommit (cb_query c)] else []
        end).
Proof.
  split.
  - unfold cb_run. assert (Forall (fun e => is_choice e = false) (@nil (@cb_effect Ref))) as H0 by constructor. revert H0.
    generalize (@nil (@cb_effect Ref)) as out. revert c. induction evs as [|[g' ev] evs IH]; intros c out Ho; [done|].
    intros [He Hes]%Forall_cons. cbn [fold_left fst snd]. destruct (cb_step ref_label commits g' c ev) as [c' es] eqn:E.
    apply IH; [|done]. apply Forall_app. split; [done|].
    destruct ev; simpl in He; try done; injection E as <- <-; repeat constructor.
  - unfold cb_step, cb_activeOption, at_index. destruct (cb_expanded c); [|done]. cbn [andb].
    destruct (Z.leb_spec 0 (cb_idx c)); [rewrite (proj2 (Z.ltb_ge _ _)) by lia|rewrite (proj2 (Z.ltb_lt _ _)) by lia; done].
    by destruct (results g !! Z.to_nat (cb_idx c)).
Qed.

Definition demo_suggest (names : list str) : @Suggest str :=
  {| results := names; total := lenZ names; truncated := false; Suggest.loading := false; Suggest.error := None; seq := 1 |}.

Lemma commit_explicit_witness :
  let c := {| cb_value := "pay"; cb_open := true; cb_idx := 1 |} in
  let g := demo_suggest ["payments"; "payouts"] in
  Forall (fun e => is_choice e = false) (cb_run (Ref := str) Some true [(g, CbInput "p"); (g, CbDown)] c).2 /\
  let '(c', es) := cb_step Some true g c CbEnter in
  cb_open c' = false /\ cb_idx c' = -1 /\ es = [CbSelect "payouts"].
Proof.
  intros c g. destruct (commit_explicit Some true g c [(g, CbInput "p"); (g, CbDown)]) as [H1 H2].
  split; [apply H1; repeat constructor|exact H2].
Defined.

(** While the next suggestions load, the list says so and shows no row; but the rows of the
    previous text are still there for the keyboard, and Enter chooses one of them. *)
Theorem stale_choice :
  let c := {| cb_value := "orders"; cb_open := true; cb_idx := -1 |} in
  let g := (search (demo_suggest ["payments"]) (Some "orders")).1 in
  let c' := (cb_step Some true g c CbDown).1 in
  cb_shows g c' = CbSearching /\ (cb_step Some true g c' CbEnter).2 = [CbSelect "payments"].
Proof. split; vm_compute; reflexivity. Qed.

(** *** Old links *)
Section LegacyProofs.
Context {Ref : Type} (ref_key ref_label : Ref -> str) (ref_version : Ref -> option str) (ref_href : Ref -> option str).
Context `{Api : EntitiesApi (Ref := Ref)}.
Context (fleet : str -> list Ref) (revisions : str -> list Ref).

(** A page that was not cut carries every match: [EntityList.truncated] of the product API. *)
Definition honest_page (p : Ref -> bool) (page : EntitiesPage (Ref := Ref)) (population : list Ref) : Prop :=
  complete (boundedMatches page p) = true -> matches (boundedMatches page p) ≡ₚ List.filter p population.

Definition honest : Prop :=
  (forall kind name page, by_name kind name = inr page -> honest_page (isExact ref_key ref_label name) page (fleet kind)) /\
  (forall key version page, revisions_of key = inr page ->
     honest_page (fun r => ref_version r === Some version) page (revisions key)).

Abbreviation named kind name := (List.filter (isExact ref_key ref_label name) (fleet kind)).
Abbreviation versioned key version := (List.filter (fun r => ref_version r === Some version) (revisions key)).
Abbreviation resolved := (resolve ref_key ref_label ref_version ref_href).

Lemma perm_one {A} (l l' : list A) x : l ≡ₚ l' -> l = [x] -> l' = [x].
Proof. intros Hp ->. symmetry in Hp. by apply Permutation_singleton_r in Hp. Qed.

Lemma perm_none {A} (l l' : list A) : l ≡ₚ l' -> l = [] -> l' = [].
Proof. intros Hp ->. by apply Permutation_nil_l in Hp. Qed.
End LegacyProofs.

(** C40: An old link is only ever replaced by the one entity it can mean. The address is
    replaced when the whole fleet holds exactly one entity of that name (and, for a version,
    one revision of that version); the name or the version is called missing only when the
    fleet holds none; and a failed lookup is reported as such. *)
Theorem legacy_sound {Ref : Type} (ref_key ref_label : Ref -> str) (ref_version ref_href : Ref -> option str)
    `{EntitiesApi (Ref := Ref)} (fleet revisions : str -> list Ref) (kind name version : str) :
  honest ref_key ref_label ref_version fleet revisions ->
  let named := List.filter (isExact ref_key ref_label name) (fleet kind) in
  let versioned e := List.filter (fun r => ref_version r === Some version) (revisions (ref_key e)) in
  let by_version := (kind === "service") && truthy version in
  match resolve ref_key ref_label ref_version ref_href kind name version with
  | Redirect h => exists e, named = [e] /\
      if by_version then exists r, versioned e = [r] /\ h = hashForHref (ref_href r) else h = hashForHref (ref_href e)
  | Stay NotFound ScService _ _ => named = []
  | Stay NotFound ScVersion _ _ => exists e, named = [e] /\ by_version = true /\ versioned e = []
  | Stay Ambiguous ScService ms _ => ms ≡ₚ named /\ (2 <= length named)%nat
  | Stay Ambiguous ScVersion ms _ => exists e, named = [e] /\ ms ≡ₚ versioned e /\ (2 <= length (versioned e))%nat
  | Stay Failed _ _ msg => exists x, msg = errorMsg_of x /\
      (by_name kind name = inl x \/ exists e, named = [e] /\ revisions_of (ref_key e) = inl x)
  | Stay Bounded _ _ _ => True
  | Stay Resolving _ _ _ => False
  end.
Proof.
  intros [Hn Hr] named versioned by_version. unfold resolve.
  destruct (by_name kind name) as [x|page] eqn:E; [exists x; auto|]. specialize (Hn _ _ _ E). unfold honest_page in Hn.
  destruct (complete (boundedMatches page (isExact ref_key ref_label name))); [|done]. specialize (Hn eq_refl). cbn [negb].
  fold named in Hn. destruct (matches (boundedMatches page (isExact ref_key ref_label name))) as [|e [|e2 es]].
  - by apply perm_none in Hn.
  - assert (named = [e]) as He by (by eapply perm_one). fold by_version. destruct by_version; [|by exists e].
    unfold resolveVersion. destruct (revisions_of (ref_key e)) as [x|page'] eqn:E'; [exists x; eauto|].
    specialize (Hr _ version _ E'). unfold honest_page in Hr.
    destruct (complete (boundedMatches page' _)); [|done]. specialize (Hr eq_refl). cbn [negb]. fold (versioned e) in Hr.
    destruct (matches (boundedMatches page' _)) as [|r [|r2 rs]].
    + exists e. split_and!; [done..|by apply perm_none in Hr].
    + exists e. split; [done|]. exists r. split; [by eapply perm_one|done].
    + exists e. rewrite <- Hr. split_and!; [done..|simpl; lia].
  - rewrite <- Hn. split; [done|simpl; lia].
Qed.

Lemma filter_narrower {A} (p q : A -> bool) (l : list A) : (forall x, p x = true -> q x = true) ->
  List.filter p (List.filter q l) = List.filter p l.
Proof.
  intros H. induction l as [|x l IH]; [done|]. simpl. destruct (q x) eqn:Eq; simpl; [by rewrite IH|].
  destruct (p x) eqn:Ep; [by apply H in Ep; congruence|done].
Qed.

Lemma includes_self s : includes s s = true.
Proof. apply includes_spec. exists [], []. by rewrite app_nil_r. Qed.

(** The demo's two services of one name, and a third of its own. *)
Definition demo_fleet (kind : str) : list (str * str) :=
  if kind === "service" then [("d1/pay" : str, "pay" : str); ("d2/pay", "pay"); ("d1/api", "api")] else [].
Definition demo_api : EntitiesApi (Ref := str * str) := {|
  by_name := fun kind name => inr (Some (Some (List.filter (fun e => includes name e.2 || includes name e.1) (demo_fleet kind)), Some false));
  revisions_of := fun key => inl (ApiError 503 "down") |}.

Lemma legacy_sound_witness :
  match resolve (H := demo_api) fst snd (fun _ => None) (fun e => Some ("/fleet/services/" ++ e.1)) "service" "api" [] with
  | Redirect h => exists e, List.filter (isExact fst snd "api") (demo_fleet "service") = [e] /\
      h = hashForHref (Some ("/fleet/services/" ++ e.1))
  | Stay _ _ _ _ => False
  end.
Proof.
  apply (legacy_sound (H := demo_api) fst snd (fun _ => None) (fun e => Some ("/fleet/services/" ++ e.1)) demo_fleet (fun _ => []) "service" "api" []).
  split; [|done]. intros kind name page [= <-] _. unfold boundedMatches. cbn [mbind option_bind fst nullish matches].
  rewrite filter_narrower; [done|]. intros [key label] [E|E]%orb_true_iff; apply bool_decide_eq_true in E; simpl in *; subst;
    rewrite includes_self; [done|apply orb_true_r].
Defined.
