(* ===== verification/ChangeAnalysis.v ===== *)
(** * Change analysis: [src/pkg/dashboard/frontend/src/views/ChangeAnalysisView.svelte]

    The workspace that compares two revisions of a service. The component's state is three
    records (the revisions, the selection and the analysis) and the search that picks a
    service; every handler and promise reaction is a function on it, and the page with its
    requests in flight is stepped by a list of events in the order they happen.

    What follows an [await] reads the state of that moment, as in the source: the answer of
    a comparison is installed beside whatever the selectors say by then. *)

From stdpp Require Import base list sets.
From Stdlib Require Import Init.Byte ZArith NArith Lia.
From S2P Require Import Prelude Uri Paging Router Format Knowledge Suggest Answers.
Local Open Scope Z_scope.

Definition CONSUMER_PAGE : Z := 100.
Definition MAX_SELECTOR_REVISIONS : nat := 500.

(** ** The revisions the selectors offer *)
Record Rev := { rv_key : str; rv_label : option str; rv_version : option str; rv_secondary : option str }.

(** A page of the entities query, and the reader of one: the turn and the offset asked for. *)
Record RevPage := { rp_entities : option (list Rev); rp_nextOffset : option Z }.
Definition Pages : Type := nat -> Z -> thrown + RevPage.

(** The loop of [pageRecentRevisions] with its turns left. *)
Fixpoint page_loop (pages : Pages) (fuel i : nat) (all : list Rev) (offset : Z) : thrown + (list Rev * bool) :=
  match fuel with
  | O => inr (all, false)
  | S fuel' =>
      match pages i offset with
      | inl e => inl e
      | inr p =>
          let all' := all ++ nullish (rp_entities p) [] in
          match rp_nextOffset p with
          | None => inr (all', true)
          | Some o =>
              if (MAX_SELECTOR_REVISIONS <=? length all')%nat then inr (take MAX_SELECTOR_REVISIONS all', false)
              else page_loop pages fuel' (S i) all' o
          end
      end
  end.

Definition pageRecentRevisions (pages : Pages) : thrown + (list Rev * bool) := page_loop pages 100 0 [] 0.

(** What the page reads of a service's detail: its entity, its preview of the revisions (the
    items and whether they were cut) and the snapshot. *)
Record Entity := { en_key : str; en_label : option str; en_href : option str }.
Record Detail := {
  dt_entity : option Entity; dt_revisions : option (option (list Rev) * bool); dt_snapshotId : option str }.

(** The revisions of a loaded service: the preview when it is the full set, else the pages. *)
Definition read_revisions (detail : Detail) (pages : Pages) : thrown + (list Rev * bool) :=
  match dt_revisions detail with
  | Some (_, true) => pageRecentRevisions pages
  | Some (items, false) => inr (nullish items [], true)
  | None => inr ([], true)
  end.

(** ** The comparison *)
Record Question := {
  q_snapshotId : option str; q_serviceKey : str; q_from : str; q_to : str; q_observed : bool; q_offset : Z }.

Record Tally := { ty_key : str; ty_count : Z }.
Record Consumers := {
  co_items : nat; co_total : Z; co_count : option Z; co_offset : option Z; co_nextOffset : option Z;
  co_byVerdict : option (list Tally); co_refused : option Z }.
Record Changes := { ch_total : Z; ch_breaking : Z; ch_potential : Z; ch_nonBreaking : Z }.
Record RevName := { rn_label : option str; rn_version : option str }.
Record Impact := {
  im_classification : option str; im_gate : option str; im_newRevision : option RevName;
  im_consumers : option Consumers; im_changes : option Changes }.

Inductive Outcome := Answered (r : Impact) | Refused (e : thrown).

Definition conflict (e : thrown) : bool := match e with ApiError s _ => s =? 409 | _ => false end.
Definition compare_message (e : thrown) : str :=
  match e with ApiError _ m => m | _ => "Couldn’t compare these revisions." end.

Record Revs := {
  serviceDetail : option Detail; revisions : list Rev; loadingRevs : bool; loadError : option thrown;
  snapshotId : str; revGen : nat; revisionsComplete : bool }.
Record Selection := { fromRevKey : str; toRevKey : str; includeObserved : bool; observedAvailable : bool }.
Record Analysis := {
  analyzing : bool; analyzeError : option str; staleSnapshot : bool; result : option Impact;
  consumerOffset : Z; pagingConsumers : bool; analyzeGen : nat }.

(** The page, its loads in flight (each with whether a retry waits for it), the retries whose
    load is over, its comparisons in flight, the address it wrote, and what came back. *)
Record World := {
  revs : Revs; sel : Selection; ana : Analysis;
  loads : list (nat * bool); resumes : nat; asks : list (nat * Question); address : option str;
  replies : list (nat * Question * Outcome) }.

Definition with_revs (v : Revs) (w : World) : World :=
  {| revs := v; sel := sel w; ana := ana w; loads := loads w; resumes := resumes w; asks := asks w;
     address := address w; replies := replies w |}.
Definition with_sel (v : Selection) (w : World) : World :=
  {| revs := revs w; sel := v; ana := ana w; loads := loads w; resumes := resumes w; asks := asks w;
     address := address w; replies := replies w |}.
Definition with_ana (v : Analysis) (w : World) : World :=
  {| revs := revs w; sel := sel w; ana := v; loads := loads w; resumes := resumes w; asks := asks w;
     address := address w; replies := replies w |}.
Definition with_loads (v : list (nat * bool)) (n : nat) (w : World) : World :=
  {| revs := revs w; sel := sel w; ana := ana w; loads := v; resumes := n; asks := asks w;
     address := address w; replies := replies w |}.
Definition with_asks (v : list (nat * Question)) (w : World) : World :=
  {| revs := revs w; sel := sel w; ana := ana w; loads := loads w; resumes := resumes w; asks := v;
     address := address w; replies := replies w |}.
Definition with_address (v : str) (w : World) : World :=
  {| revs := revs w; sel := sel w; ana := ana w; loads := loads w; resumes := resumes w; asks := asks w;
     address := Some v; replies := replies w |}.
Definition with_reply (v : nat * Question * Outcome) (w : World) : World :=
  {| revs := revs w; sel := sel w; ana := ana w; loads := loads w; resumes := resumes w; asks := asks w;
     address := address w; replies := v :: replies w |}.

(** The shared link of a selection. *)
Definition shared_link (serviceKey : str) (s : Selection) : str :=
  fleetChangesUrl serviceKey
    {| cq_name := None; cq_old := Some (fromRevKey s); cq_new := Some (toRevKey s); cq_observed := includeObserved s |}.

Section Workspace.
Context (collate : str -> str -> Z) `{Locale}.
(** The route: the service and the revisions its link names. *)
Context (serviceKey : str) (p_old p_new : option str).

(** Newest first by the collation of labels, then by key. *)
Definition cmp_revisions (a b : Rev) : Z :=
  cmp_or (collate (nullish (rv_label b) []) (nullish (rv_label a) [])) (localeCompare (rv_key a) (rv_key b)).

Definition selectable (s : Selection) : bool := truthy serviceKey && truthy (fromRevKey s) && truthy (toRevKey s).

Definition question (w : World) (offset : Z) : Question :=
  {| q_snapshotId := if truthy (snapshotId (revs w)) then Some (snapshotId (revs w)) else None;
     q_serviceKey := serviceKey; q_from := fromRevKey (sel w); q_to := toRevKey (sel w);
     q_observed := includeObserved (sel w); q_offset := offset |}.

(** [analyze] up to its request. *)
Definition analyze (offset : Z) (paging : bool) (w : World) : World :=
  if negb (selectable (sel w)) then w
  else
    let a := ana w in
    let gen := S (analyzeGen a) in
    let page := paging && bool_decide (is_Some (result a)) in
    with_asks (asks w ++ [(gen, question w offset)])
      (with_ana {| analyzing := if page then analyzing a else true; analyzeError := None; staleSnapshot := false;
                   result := result a; consumerOffset := consumerOffset a;
                   pagingConsumers := if page then true else pagingConsumers a; analyzeGen := gen |} w).

(** [analyze] after its request, its [catch] and its [finally]. *)
Definition on_answer (gen : nat) (q : Question) (out : Outcome) (w : World) : World :=
  let a := ana w in
  if negb (gen =? analyzeGen a)%nat then w
  else match out with
  | Answered r =>
      with_address (shared_link serviceKey (sel w))
        (with_ana {| analyzing := false; analyzeError := analyzeError a; staleSnapshot := staleSnapshot a;
                     result := Some r; consumerOffset := q_offset q; pagingConsumers := false;
                     analyzeGen := analyzeGen a |} w)
  | Refused e =>
      with_ana {| analyzing := false;
                  analyzeError := if conflict e then analyzeError a else Some (compare_message e);
                  staleSnapshot := if conflict e then true else staleSnapshot a;
                  result := result a; consumerOffset := consumerOffset a; pagingConsumers := false;
                  analyzeGen := analyzeGen a |} w
  end.

Definition clear_result (a : Analysis) : Analysis :=
  {| analyzing := analyzing a; analyzeError := analyzeError a; staleSnapshot := staleSnapshot a; result := None;
     consumerOffset := consumerOffset a; pagingConsumers := pagingConsumers a; analyzeGen := analyzeGen a |}.

(** [loadRevisions] up to its first request; [retry] when [refetchAndAnalyze] awaits it. *)
Definition loadRevisions (retry : bool) (w : World) : World :=
  let r := revs w in
  let gen := S (revGen r) in
  with_loads (loads w ++ [(gen, retry)]) (resumes w)
    (with_ana (clear_result (ana w))
      (with_revs {| serviceDetail := serviceDetail r; revisions := revisions r; loadingRevs := true; loadError := None;
                    snapshotId := snapshotId r; revGen := gen; revisionsComplete := revisionsComplete r |} w)).

(** The most recent change: the second newest revision and the newest. *)
Definition default_pair (refs : list Rev) : str * str :=
  match refs with
  | r0 :: r1 :: _ => (rv_key r1, rv_key r0)
  | [r0] => ([], rv_key r0)
  | [] => ([], [])
  end.

(** A side of the link that the service still has. *)
Definition restored (refs : list Rev) (p : option str) : option str :=
  k ← when_truthy p; if bool_decide (k ∈ rv_key <$> refs) then Some k else None.

Definition selected (refs : list Rev) (s : Selection) : Selection :=
  {| fromRevKey := default (default_pair refs).1 (restored refs p_old);
     toRevKey := default (default_pair refs).2 (restored refs p_new);
     includeObserved := includeObserved s; observedAvailable := observedAvailable s |}.

(** [loadRevisions] after its requests, its [catch] and its [finally]. *)
Definition on_load (gen : nat) (out : thrown + (Detail * (list Rev * bool))) (w : World) : World :=
  let r := revs w in
  if negb (gen =? revGen r)%nat then w
  else match out with
  | inl e =>
      with_revs {| serviceDetail := serviceDetail r; revisions := revisions r; loadingRevs := false; loadError := Some e;
                   snapshotId := snapshotId r; revGen := revGen r; revisionsComplete := revisionsComplete r |} w
  | inr (detail, (items, complete)) =>
      let refs := sort_by cmp_revisions items in
      let w' := with_sel (selected refs (sel w))
        (with_revs {| serviceDetail := Some detail; revisions := refs; loadingRevs := false; loadError := loadError r;
                      snapshotId := nullish (when_truthy (dt_snapshotId detail)) []; revGen := revGen r;
                      revisionsComplete := complete |} w) in
      if bool_decide (is_Some (restored refs p_old)) && bool_decide (is_Some (restored refs p_new)) then analyze 0 false w'
      else w'
  end.

(** The service's detail and, for a cut preview, the pages; either may fail. *)
Definition load_outcome (detail : thrown + Detail) (pages : Pages) : thrown + (Detail * (list Rev * bool)) :=
  match detail with
  | inl e => inl e
  | inr d => match read_revisions d pages with inl e => inl e | inr rs => inr (d, rs) end
  end.

(** What the workspace shows under its form, and the page around it. *)
Inductive Answer := AnError (m : str) | AnComparing | AnResult (r : Impact) | AnReady | AnPick.
Inductive Screen := ScLoading | ScFailed (e : thrown) | ScWorkspace (stale : bool) (a : Answer).

Definition answer (w : World) : Answer :=
  match when_truthy (analyzeError (ana w)) with
  | Some m => AnError m
  | None => if analyzing (ana w) then AnComparing
            else match result (ana w) with
                 | Some r => AnResult r
                 | None => if truthy (fromRevKey (sel w)) && truthy (toRevKey (sel w)) then AnReady else AnPick
                 end
  end.

Definition screen (w : World) : Screen :=
  if loadingRevs (revs w) then ScLoading
  else match loadError (revs w) with
       | Some e => ScFailed e
       | None => ScWorkspace (staleSnapshot (ana w)) (answer w)
       end.

Definition canAnalyze (w : World) : bool := selectable (sel w) && negb (analyzing (ana w)).

Definition no_consumers : Consumers :=
  {| co_items := 0; co_total := 0; co_count := Some 0; co_offset := Some 0; co_nextOffset := None;
     co_byVerdict := None; co_refused := None |}.
Definition consumers (r : option Impact) : Consumers := nullish (r ≫= im_consumers) no_consumers.

Definition cShownFrom (c : Consumers) : Z := if co_total c =? 0 then 0 else nullish (co_offset c) 0 + 1.
Definition cShownTo (c : Consumers) : Z := nullish (co_offset c) 0 + nullish (co_count c) 0.
Definition cHasPrev (c : Consumers) : bool := 0 <? nullish (co_offset c) 0.
Definition cHasNext (c : Consumers) : bool := bool_decide (is_Some (co_nextOffset c)).

(** The offsets the pager's two buttons ask for; none while a button is disabled or absent. *)
Definition previous_page (w : World) : option Z :=
  match screen w with
  | ScWorkspace _ (AnResult r) =>
      let c := consumers (Some r) in
      if (co_items c =? 0)%nat || negb (cHasPrev c) || pagingConsumers (ana w) then None
      else Some (Z.max 0 (nullish (co_offset c) 0 - CONSUMER_PAGE))
  | _ => None
  end.
Definition next_page (w : World) : option Z :=
  match screen w with
  | ScWorkspace _ (AnResult r) =>
      let c := consumers (Some r) in if (co_items c =? 0)%nat || pagingConsumers (ana w) then None else co_nextOffset c
  | _ => None
  end.

Inductive event :=
  | PickFrom (k : str) | PickTo (k : str) | Observe (b : bool) | Capabilities (observed : bool)
  | Compare | Previous | Next | RetryCompare | RetryLoad | RefreshAndRetry
  | Loaded (i : nat) (detail : thrown + Detail) (pages : Pages) | Resume | Replied (i : nat) (out : Outcome).

Definition set_selection (from to : str) (observed available : bool) : Selection :=
  {| fromRevKey := from; toRevKey := to; includeObserved := observed; observedAvailable := available |}.

(** A control acts while it is on screen and enabled; a request settles while it is in flight. *)
Definition in_workspace (w : World) : bool := match screen w with ScWorkspace _ _ => true | _ => false end.

Definition unstale (a : Analysis) : Analysis :=
  {| analyzing := analyzing a; analyzeError := analyzeError a; staleSnapshot := false; result := result a;
     consumerOffset := consumerOffset a; pagingConsumers := pagingConsumers a; analyzeGen := analyzeGen a |}.

Definition step (w : World) (ev : event) : World :=
  let s := sel w in
  match ev with
  | PickFrom k => if in_workspace w then with_sel (set_selection k (toRevKey s) (includeObserved s) (observedAvailable s)) w else w
  | PickTo k => if in_workspace w then with_sel (set_selection (fromRevKey s) k (includeObserved s) (observedAvailable s)) w else w
  | Observe b =>
      if in_workspace w && observedAvailable s then
        with_sel (set_selection (fromRevKey s) (toRevKey s) b (observedAvailable s)) w
      else w
  | Capabilities b => with_sel (set_selection (fromRevKey s) (toRevKey s) (includeObserved s && b) b) w
  | Compare => if in_workspace w && canAnalyze w then analyze 0 false w else w
  | Previous => match previous_page w with Some o => analyze o true w | None => w end
  | Next => match next_page w with Some o => analyze o true w | None => w end
  | RetryCompare => match screen w with ScWorkspace _ (AnError _) => analyze (consumerOffset (ana w)) false w | _ => w end
  | RetryLoad => match screen w with ScFailed _ => loadRevisions false w | _ => w end
  | RefreshAndRetry => match screen w with ScWorkspace true _ => loadRevisions true w | _ => w end
  | Loaded i detail pages =>
      match (loads w !! i : option (nat * bool)) with
      | None => w
      | Some (gen, retry) =>
          let w' := on_load gen (load_outcome detail pages) w in
          with_loads (delete i (loads w')) (if retry then S (resumes w') else resumes w') w'
      end
  | Resume =>
      match resumes w with
      | O => w
      | S n => analyze 0 false (with_ana (unstale (ana w)) (with_loads (loads w) n w))
      end
  | Replied i out =>
      match (asks w !! i : option (nat * Question)) with
      | None => w
      | Some (gen, q) => with_reply (gen, q, out) (on_answer gen q out (with_asks (delete i (asks w)) w))
      end
  end.

(** The page as it mounts: its effect loads the revisions of the service. *)
Definition mounted (observed : bool) : World :=
  loadRevisions false
    {| revs := {| serviceDetail := None; revisions := []; loadingRevs := true; loadError := None; snapshotId := [];
                  revGen := 0; revisionsComplete := true |};
       sel := set_selection [] [] observed false;
       ana := {| analyzing := false; analyzeError := None; staleSnapshot := false; result := None; consumerOffset := 0;
                 pagingConsumers := false; analyzeGen := 0 |};
       loads := []; resumes := 0; asks := []; address := None; replies := [] |}.

Definition run (observed : bool) (evs : list event) : World := fold_left step evs (mounted observed).
End Workspace.

(** ** What the answer says *)

(** [String(c || 'unknown')] with underscores as spaces, in lower case but for its first letter;
    a classification is an ASCII word of the product schema. *)
Definition classificationLabel `{Locale} (c : option str) : str :=
  cap (toLowerCase ((fun b => if b === x5f then x20 else b) <$> or_str c "unknown")).

Definition GATE : list (str * (str * str)) :=
  [ ("blocked", ("badge-err", "Blocked")); ("unverified", ("badge-warn", "Unverified")); ("clear", ("badge-ok", "Clear")) ].

Definition verdictClass (v : str) : str :=
  if v === "compatible" then "badge-ok" else if v === "incompatible" then "badge-err" else "badge-neutral".

Definition CONFIDENCE_EXPLAIN : list (str * str) :=
  [ ("contractual", "Declared dependency with a usable compatibility range.");
    ("declared", "Declared dependency, but no usable compatibility range.");
    ("observed", "Runtime use observed in a window.");
    ("corroborated", "Declared and observed evidence agree.");
    ("inferred", "Transitive effect reached through another affected service.");
    ("unknown", "Required evidence is incomplete or stale.") ].

Definition CONFIDENCE_HELP : str := join " " ((fun p => p.1 ++ ": " ++ p.2) <$> CONFIDENCE_EXPLAIN).

Definition no_changes : Changes := {| ch_total := 0; ch_breaking := 0; ch_potential := 0; ch_nonBreaking := 0 |}.
Definition changes (r : option Impact) : Changes := nullish (r ≫= im_changes) no_changes.

Definition verdictCount (c : Consumers) (k : str) : Z :=
  match List.find (fun b => ty_key b === k) (nullish (co_byVerdict c) []) with Some b => ty_count b | None => 0 end.

Definition refused (c : Consumers) : Z := nullish (co_refused c) 0.

Definition newLabel (r : Impact) : str :=
  or_str (im_newRevision r ≫= rn_version) (or_str (im_newRevision r ≫= rn_label) "the new revision").

(** The sentence's parts, those that count nothing left out. *)
Definition answer_parts (c : Consumers) (name : str) : list str :=
  let incompatible := verdictCount c "incompatible" in
  let unknown := verdictCount c "unknown" in
  (if nonzero incompatible then [formatCount incompatible ++ " " ++ (if incompatible =? 1 then "does" else "do") ++ " not accept " ++ name] else []) ++
  (if nonzero (refused c) then [formatCount (refused c) ++ " " ++ (if refused c =? 1 then "requires" else "require") ++ " a guarantee " ++ name ++ " does not offer"] else []) ++
  (if nonzero unknown then [formatCount unknown ++ " unknown"] else []).

Definition what_changed (ch : Changes) : str :=
  if ch_total ch =? 0 then "No contract differences."
  else countOf (ch_total ch) "change" None ++ ", " ++ formatCount (ch_breaking ch) ++ " breaking.".

Definition answerText (result : option Impact) : str :=
  match result with
  | None => []
  | Some r =>
      let c := consumers (Some r) in
      let what := what_changed (changes (Some r)) in
      if co_total c =? 0 then what ++ " No consumer is affected."
      else
        let parts := answer_parts c (newLabel r) in
        what ++ " " ++ countOf (co_total c) "consumer" None ++ " affected" ++
          (match parts with [] => [] | _ => ": " ++ join ", " parts end) ++ "."
  end.

Definition consumerMeta (c : Consumers) : str :=
  if co_total c =? 0 then "None"
  else formatCount (co_total c)
       ++ (if nonzero (verdictCount c "incompatible") then " · " ++ formatCount (verdictCount c "incompatible") ++ " incompatible" else [])
       ++ (if nonzero (refused c) then " · " ++ formatCount (refused c) ++ " refused" else []).

Definition change_counts (ch : Changes) : str :=
  if ch_total ch =? 0 then "No differences"
  else show_Z (ch_breaking ch) ++ " breaking · " ++ show_Z (ch_potential ch) ++ " potentially breaking · " ++
       show_Z (ch_nonBreaking ch) ++ " non-breaking".

(** A revision reads as its version and a short digest. *)
Definition revision_label (r : Rev) : str :=
  or_str (rv_version r) (nullish (rv_label r) "undefined") ++
  match when_truthy (rv_secondary r) with Some d => " · " ++ shortDigest (Some d) 8 | None => [] end.
Definition revisionOptions (rs : list Rev) : list (str * str) := (fun r => (rv_key r, revision_label r)) <$> rs.

(** The breadcrumbs: each a label and, but for the last, a link. *)
Definition trail (serviceKey : str) (detail : option Detail) : list (str * option str) :=
  let root := ("Overview" : str, Some fleetOverviewUrl) in
  if negb (truthy serviceKey) then [root; ("Change analysis" : str, None)]
  else
    let svc := detail ≫= dt_entity in
    [ root; ("Services" : str, Some (fleetServicesUrl no_services_query));
      match svc, svc ≫= en_href with
      | Some e, Some h => if truthy h then (or_str (en_label e) (en_key e), Some (hashForHref (Some h)))
                          else (or_str (en_label e) serviceKey, None)
      | _, _ => (or_str (svc ≫= en_label) serviceKey, None)
      end; ("Change analysis" : str, None) ].

(** ** Picking the service *)
Record ServiceRef := { sv_key : str; sv_label : str; sv_domain : option str }.
Record ServicePage := { sp_entities : option (list ServiceRef); sp_total : option Z; sp_truncated : option bool }.

Record Picker := {
  serviceQuery : str; serviceResults : list ServiceRef; serviceTotal : Z; serviceSearching : bool;
  serviceSearchError : option thrown; serviceSearchSeq : nat; migrateNote : str }.

Definition picker0 : Picker :=
  {| serviceQuery := []; serviceResults := []; serviceTotal := 0; serviceSearching := false; serviceSearchError := None;
     serviceSearchSeq := 0; migrateNote := [] |}.

Definition type_query (q : str) (p : Picker) : Picker :=
  {| serviceQuery := q; serviceResults := serviceResults p; serviceTotal := serviceTotal p;
     serviceSearching := serviceSearching p; serviceSearchError := serviceSearchError p;
     serviceSearchSeq := serviceSearchSeq p; migrateNote := migrateNote p |}.

(** The search up to its request: the text asked for, none for a blank one. *)
Definition runServiceSearch (p : Picker) : Picker * option str :=
  let q := trim (serviceQuery p) in
  let my := S (serviceSearchSeq p) in
  if negb (truthy q) then
    ({| serviceQuery := serviceQuery p; serviceResults := []; serviceTotal := 0; serviceSearching := false;
        serviceSearchError := None; serviceSearchSeq := my; migrateNote := migrateNote p |}, None)
  else
    ({| serviceQuery := serviceQuery p; serviceResults := serviceResults p; serviceTotal := serviceTotal p;
        serviceSearching := true; serviceSearchError := None; serviceSearchSeq := my; migrateNote := migrateNote p |}, Some q).

(** Its end: the answer or the error of the newest search, and nothing of an older one. *)
Definition on_search (my : nat) (out : thrown + ServicePage) (p : Picker) : Picker :=
  if negb (my =? serviceSearchSeq p)%nat then p
  else match out with
  | inr l =>
      let rs := nullish (sp_entities l) [] in
      {| serviceQuery := serviceQuery p; serviceResults := rs; serviceTotal := nullish (sp_total l) (Z.of_nat (length rs));
         serviceSearching := false; serviceSearchError := serviceSearchError p; serviceSearchSeq := serviceSearchSeq p;
         migrateNote := migrateNote p |}
  | inl e =>
      {| serviceQuery := serviceQuery p; serviceResults := []; serviceTotal := 0; serviceSearching := false;
         serviceSearchError := Some e; serviceSearchSeq := serviceSearchSeq p; migrateNote := migrateNote p |}
  end.

(** An old bookmark's name becomes the text searched for. *)
Definition resolveLegacyName (name : str) (p : Picker) : Picker :=
  {| serviceQuery := name; serviceResults := serviceResults p; serviceTotal := serviceTotal p; serviceSearching := true;
     serviceSearchError := serviceSearchError p; serviceSearchSeq := S (serviceSearchSeq p); migrateNote := migrateNote p |}.

Definition legacy_exact (name : str) (e : ServiceRef) : bool := (sv_label e === name) || (sv_key e === name).

Definition quoted_name (name : str) : str := x22 :: name ++ [x22].

Definition legacy_note (name : str) (complete : bool) (exact : list ServiceRef) : str :=
  if negb complete then
    "More services match " ++ quoted_name name ++ " than this lookup could read at once, so Pacto cannot tell which one this older link meant. Search for the one you want."
  else if (1 <? length exact)%nat then
    "Several services are named " ++ quoted_name name ++ ". This link is from an older URL that did not distinguish them. Pick the one you meant."
  else "No service named " ++ quoted_name name ++ " is in the current operational graph. It may have been renamed or removed.".

(** Its end: the picker, and the address that replaces the old one. *)
Definition on_legacy (name : str) (my : nat) (out : thrown + ServicePage) (p : Picker) : Picker * option str :=
  if negb (my =? serviceSearchSeq p)%nat then (p, None)
  else match out with
  | inl e =>
      ({| serviceQuery := serviceQuery p; serviceResults := []; serviceTotal := 0; serviceSearching := false;
          serviceSearchError := Some e; serviceSearchSeq := serviceSearchSeq p; migrateNote := migrateNote p |}, None)
  | inr l =>
      let m := boundedMatches (Some (sp_entities l, sp_truncated l)) (legacy_exact name) in
      let exact := matches m in
      match complete m, exact with
      | true, [e] =>
          ({| serviceQuery := serviceQuery p; serviceResults := serviceResults p; serviceTotal := serviceTotal p;
              serviceSearching := false; serviceSearchError := serviceSearchError p;
              serviceSearchSeq := serviceSearchSeq p; migrateNote := migrateNote p |},
           Some (fleetChangesUrl (sv_key e) no_changes_query))
      | c, _ =>
          let narrowed := c && (0 <? length exact)%nat in
          let rs := if narrowed then exact else nullish (sp_entities l) [] in
          ({| serviceQuery := serviceQuery p; serviceResults := rs;
              serviceTotal := if narrowed then Z.of_nat (length exact) else nullish (sp_total l) (Z.of_nat (length rs));
              serviceSearching := false; serviceSearchError := serviceSearchError p;
              serviceSearchSeq := serviceSearchSeq p; migrateNote := legacy_note name c exact |}, None)
      end
  end.

(** What the picker shows under its field. *)
Inductive PickerBody := PbSearching | PbFailed (m : str) | PbRows (rows : list (str * str)) (hint : option str) | PbNone (q : str) | PbEmpty.

Definition service_row (s : ServiceRef) : str * str :=
  (sv_key s, sv_label s ++ match when_truthy (sv_domain s) with Some d => " (" ++ d ++ ")" | None => [] end).

Definition picker_body (p : Picker) : PickerBody :=
  if serviceSearching p then PbSearching
  else match serviceSearchError p with
  | Some e => PbFailed (match e with ApiError _ m => m | _ => "service search is unavailable" end)
  | None =>
      match serviceResults p with
      | [] => if truthy (trim (serviceQuery p)) then PbNone (serviceQuery p) else PbEmpty
      | rs => PbRows (service_row <$> rs)
                (if Z.of_nat (length rs) <? serviceTotal p then
                   Some ("Showing " ++ formatCount (Z.of_nat (length rs)) ++ " of " ++ formatCount (serviceTotal p) ++ ". Refine your search to narrow it.")
                 else None)
      end
  end.

(** A picked row opens its workspace. *)
Definition pickServiceOption (key : str) : option str :=
  if truthy key then Some (fleetChangesUrl key no_changes_query) else None.

(** ** Proofs: the revisions the selectors offer *)

(** The entities query over a service's revisions: pages of a size, each with the offset of
    the next while more remain. *)
Definition serves (pages : Pages) (universe : list Rev) (size : nat) : Prop :=
  (0 < size)%nat /\
  forall i o, pages i (Z.of_nat o) = inr {|
    rp_entities := Some (take size (drop o universe));
    rp_nextOffset := if (o + size <? length universe)%nat then Some (Z.of_nat (o + size)) else None |}.

Lemma take_more {A} (n m : nat) (l : list A) : take n l ++ take m (drop n l) = take (n + m) l.
Proof. symmetry. revert l. induction n as [|n IH]; intros [|x l]; simpl; [done..|by rewrite take_nil|by rewrite IH]. Qed.

Lemma page_loop_prefix pages universe size fuel i o :
  serves pages universe size -> (o < length universe \/ o = 0 /\ 0 < fuel)%nat ->
  exists n c, page_loop pages fuel i (take o universe) (Z.of_nat o) = inr (take n universe, c) /\
    (if c then length universe <= n
     else n < length universe /\ MAX_SELECTOR_REVISIONS `min` (o + fuel * size) <= n)%nat.
Proof.
  intros [Hs Hp]. revert i o. induction fuel as [|fuel IH]; intros i o Ho; [exists o, false; split; [done|lia]|].
  cbn [page_loop]. rewrite Hp. cbn [rp_entities rp_nextOffset nullish]. rewrite take_more.
  destruct (Nat.ltb_spec (o + size) (length universe)) as [E|E]; [|by exists (o + size)%nat, true].
  destruct (Nat.leb_spec MAX_SELECTOR_REVISIONS (length (take (o + size) universe))) as [Em|Em];
    rewrite length_take in Em.
  - rewrite take_take. exists (MAX_SELECTOR_REVISIONS `min` (o + size))%nat, false. split; [done|lia].
  - destruct (IH (S i) (o + size)%nat) as (n & c & H1 & H2); [by left|]. exists n, c. split; [exact H1|].
    destruct c; [done|]. lia.
Qed.

Lemma take_all_iff {A} (n : nat) (l : list A) : take n l = l <-> (length l <= n)%nat.
Proof.
  split; [|apply take_ge]. intros E. apply (f_equal length) in E. rewrite length_take in E. lia.
Qed.

(** C38: The selectors offer the first revisions of the service, and say that they offer all of
    them exactly when they do: the loop ends for any page size, its list is a prefix of the
    service's revisions in the API's order, [complete] is set when and only when that prefix
    is the whole, and otherwise no fewer are offered than the bound or a hundred pages. *)
Theorem revisions_honest (pages : Pages) (universe : list Rev) (size : nat) :
  serves pages universe size ->
  exists n c, pageRecentRevisions pages = inr (take n universe, c) /\ (c = true <-> take n universe = universe) /\
    (c = false -> MAX_SELECTOR_REVISIONS `min` (100 * size) <= n)%nat.
Proof.
  intros Hs. destruct (page_loop_prefix pages universe size 100 0 0 Hs) as (n & c & H1 & H2); [right; lia|].
  exists n, c. split; [exact H1|]. rewrite take_all_iff. destruct c; split_and!; try done; lia.
Qed.

Definition demo_rev (k : str) : Rev := {| rv_key := k; rv_label := Some k; rv_version := None; rv_secondary := None |}.
Definition demo_pages (universe : list Rev) (size : nat) : Pages := fun _ o =>
  let o := Z.to_nat o in
  inr {| rp_entities := Some (take size (drop o universe));
         rp_nextOffset := if (o + size <? length universe)%nat then Some (Z.of_nat (o + size)) else None |}.

Lemma demo_serves universe size : (0 < size)%nat -> serves (demo_pages universe size) universe size.
Proof. intros ?. split; [done|]. intros i o. unfold demo_pages. by rewrite Nat2Z.id. Qed.

Lemma revisions_honest_witness :
  exists n c, pageRecentRevisions (demo_pages (replicate 700 (demo_rev "r")) 200) = inr (take n (replicate 700 (demo_rev "r")), c) /\
    (c = true <-> take n (replicate 700 (demo_rev "r")) = replicate 700 (demo_rev "r")) /\
    (c = false -> MAX_SELECTOR_REVISIONS `min` (100 * 200) <= n)%nat.
Proof. apply (revisions_honest _ _ 200), demo_serves. lia. Defined.

(** The bound is not kept when the page that passes it is the last one: 600 revisions read in
    pages of 200 leave 600 options. *)
Theorem selector_over_bound :
  exists rs, pageRecentRevisions (demo_pages (replicate 600 (demo_rev "r")) 200) = inr (rs, true) /\
    (MAX_SELECTOR_REVISIONS < length rs)%nat.
Proof.
  exists (replicate 600 (demo_rev "r")). split; [vm_compute; reflexivity|]. rewrite length_replicate.
  apply Nat.ltb_lt. vm_compute. reflexivity.
Qed.

(** ** Proofs: the comparison on screen *)

Definition busy (a : Analysis) : bool := analyzing a || pagingConsumers a.

Record inv (asks : list (nat * Question)) (a : Analysis) (replies : list (nat * Question * Outcome)) : Prop := {
  inv_old : forall gen, gen ∈ asks.*1 -> (gen <= analyzeGen a)%nat;
  inv_once : NoDup asks.*1;
  inv_origin : forall r, result a = Some r -> exists gen q, (gen, q, Answered r) ∈ replies /\ (gen <= analyzeGen a)%nat;
  inv_state :
    (analyzeGen a = 0%nat /\ asks = [] /\ busy a = false /\ analyzeError a = None /\ staleSnapshot a = false) \/
    (exists q, (analyzeGen a, q) ∈ asks /\ busy a = true /\ analyzeError a = None /\ staleSnapshot a = false) \/
    (analyzeGen a ∉ asks.*1 /\ busy a = false) }.

Abbreviation winv w := (inv (asks w) (ana w) (replies w)).

Lemma inv_clear l a rs : inv l a rs -> inv l (clear_result a) rs.
Proof. intros [Ho Hn Hr Hs]. by split. Qed.

Lemma inv_unstale l a rs : inv l a rs -> inv l (unstale a) rs.
Proof.
  intros [Ho Hn Hr Hs]. split; [done..|]. destruct Hs as [?|[(q & ?)|?]]; [left|right; left; exists q|by right; right];
    unfold busy, unstale in *; simpl; intuition.
Qed.

Lemma analyze_inv serviceKey offset paging w : winv w -> winv (analyze serviceKey offset paging w).
Proof.
  intros [Ho Hn Hr Hs]. unfold analyze. destruct (selectable serviceKey (sel w)); [|done]. cbn [negb].
  set (q := question serviceKey w offset). unfold with_asks, with_ana. cbn [asks ana replies]. split; cbn [analyzeGen result].
  - intros gen. rewrite fmap_app, elem_of_app. intros [?%Ho|E]; [lia|]. apply list_elem_of_singleton in E. simpl in *. lia.
  - rewrite fmap_app. apply NoDup_app. split_and!; [done| |apply NoDup_singleton].
    intros gen ?%Ho E%list_elem_of_singleton. simpl in *. lia.
  - intros r (gen & q' & ? & ?)%Hr. exists gen, q'. split; [done|lia].
  - right; left. exists q. split_and!; [apply elem_of_app; right; by apply list_elem_of_singleton| |done..].
    unfold busy. simpl. destruct (paging && _); [apply orb_true_r|done].
Qed.

Lemma delete_split {A} (l : list A) i x : l !! i = Some x -> exists a b, l = a ++ x :: b /\ delete i l = a ++ b.
Proof. intros H. exists (take i l), (drop (S i) l). split; [by rewrite take_drop_middle|by rewrite delete_take_drop]. Qed.

(** A reply is installed when it is the newest comparison's, and changes nothing otherwise. *)
Lemma on_answer_inv serviceKey w i gen q out :
  winv w -> asks w !! i = Some (gen, q) ->
  winv (with_reply (gen, q, out) (on_answer serviceKey gen q out (with_asks (delete i (asks w)) w))).
Proof.
  intros [Ho Hn Hr Hs] (l1 & l2 & E & Ed)%delete_split. rewrite Ed. rewrite E in Ho, Hn, Hs.
  rewrite fmap_app, fmap_cons in Ho, Hn. cbn [fst] in Ho, Hn.
  assert (gen ∉ (l1 ++ l2).*1) as Hg.
  { rewrite fmap_app. rewrite <- Permutation_middle in Hn. by apply NoDup_cons in Hn as []. }
  assert (NoDup (l1 ++ l2).*1) as Hn'.
  { rewrite fmap_app. rewrite <- Permutation_middle in Hn. by apply NoDup_cons in Hn as []. }
  assert (forall g, g ∈ (l1 ++ l2).*1 -> (g <= analyzeGen (ana w))%nat) as Ho'.
  { intros g Hi. apply Ho. rewrite fmap_app in Hi. set_solver. }
  assert (forall r, result (ana w) = Some r ->
            exists g q', (g, q', Answered r) ∈ (gen, q, out) :: replies w /\ (g <= analyzeGen (ana w))%nat) as Hr'.
  { intros r (g & q' & ? & ?)%Hr. exists g, q'. split; [by right|done]. }
  unfold on_answer. cbn [ana with_asks]. destruct (Nat.eqb_spec gen (analyzeGen (ana w))) as [->|Hne]; cbn [negb].
  - assert (analyzeError (ana w) = None /\ staleSnapshot (ana w) = false) as [Ee Es].
    { destruct Hs as [(_ & Hl & _)|[(? & _ & _ & ? & ?)|[Hs _]]]; [by destruct l1|done|].
      exfalso. apply Hs. rewrite fmap_app, fmap_cons. set_solver. }
    destruct out as [r|e]; split; cbn; try done.
    + intros r' [= <-]. exists (analyzeGen (ana w)), q. split; [by left|lia].
    + by right; right.
    + by right; right.
  - split; cbn; try done. destruct Hs as [(_ & Hl & _)|[(q' & Hq & ?)|(Hs & ?)]]; [by destruct l1|..].
    + right; left. exists q'. split; [|done]. apply elem_of_app in Hq. apply elem_of_app.
      destruct Hq as [?|[[= ? ?]|?]%elem_of_cons]; [by left|congruence|by right].
    + right; right. split; [|done]. intros Hi. apply Hs. rewrite fmap_app, fmap_cons. rewrite fmap_app in Hi. set_solver.
Qed.

Lemma on_load_inv collate `{Locale} serviceKey p_old p_new gen out w :
  winv w -> winv (on_load collate serviceKey p_old p_new gen out w).
Proof.
  intros Hw. unfold on_load. destruct (gen =? _)%nat; [|done]. cbn [negb].
  destruct out as [e|[d [items c]]]; [done|]. destruct (_ && _); [by apply analyze_inv|done].
Qed.

Lemma step_inv collate `{Locale} serviceKey p_old p_new w ev :
  winv w -> winv (step collate serviceKey p_old p_new w ev).
Proof.
  intros Hw. destruct ev; cbn [step]; repeat case_match; try done; try by apply analyze_inv.
  1,2: by apply inv_clear.
  1,2: by apply on_load_inv.
  - by apply analyze_inv, inv_unstale.
  - by apply on_answer_inv.
Qed.

Lemma run_inv collate `{Locale} serviceKey p_old p_new observed evs :
  winv (run collate serviceKey p_old p_new observed evs).
Proof.
  unfold run. assert (winv (mounted observed)) as Hm.
  { split; cbn; [by intros ? ?%elem_of_nil|constructor|done|]. left. auto. }
  revert Hm. generalize (mounted observed). induction evs as [|ev evs IH]; intros w Hw; [done|].
  by apply IH, step_inv.
Qed.

(** What a step does to a comparison that is over: a newer one begins, or it stays as it is, but
    that a retry takes the note of a changed snapshot away and a reload clears the answer. *)
Definition kept (w w' : World) (ev : event) : Prop :=
  let a := ana w in let a' := ana w' in
  analyzeGen a' = analyzeGen a /\ busy a' = busy a /\ analyzeError a' = analyzeError a /\ consumerOffset a' = consumerOffset a /\
  (staleSnapshot a' = staleSnapshot a \/ ev = Resume /\ staleSnapshot a' = false) /\
  (revGen (revs w') = revGen (revs w) /\ result a' = result a \/ revGen (revs w') = S (revGen (revs w)) /\ result a' = None).

(** What the end of a comparison leaves on the page. *)
Definition installed (q : Question) (out : Outcome) (a : Analysis) : Prop :=
  match out with
  | Answered r => analyzeError a = None /\ staleSnapshot a = false /\ consumerOffset a = q_offset q /\ result a = Some r
  | Refused e => analyzeError a = (if conflict e then None else Some (compare_message e)) /\ staleSnapshot a = conflict e
  end.

Lemma kept_same w w' ev : ana w' = ana w -> revGen (revs w') = revGen (revs w) -> kept w w' ev.
Proof. intros Ha Hr. unfold kept. rewrite Ha, Hr. split_and!; auto. Qed.

Lemma analyze_busy serviceKey o paging w : let w' := analyze serviceKey o paging w in busy (ana w') = true \/ w' = w.
Proof.
  unfold analyze. destruct (selectable _ _); [left|by right]. unfold busy. cbn. destruct (paging && _); [apply orb_true_r|done].
Qed.

Lemma load_kept retry w ev : kept w (loadRevisions retry w) ev.
Proof. unfold kept, loadRevisions, busy. cbn. split_and!; auto. Qed.

Lemma step_kept collate `{Locale} serviceKey p_old p_new w ev (w' := step collate serviceKey p_old p_new w ev) : winv w ->
  busy (ana w') = true \/ kept w w' ev \/
  exists i out q, ev = Replied i out /\ asks w !! i = Some (analyzeGen (ana w), q) /\ analyzeGen (ana w') = analyzeGen (ana w) /\
    busy (ana w') = false /\ installed q out (ana w') /\ revs w' = revs w.
Proof.
  intros Hw. unfold w'. assert (forall o p v, ana v = ana w -> revGen (revs v) = revGen (revs w) ->
    busy (ana (analyze serviceKey o p v)) = true \/ kept w (analyze serviceKey o p v) ev) as An.
  { intros o p v Ha Hr. destruct (analyze_busy serviceKey o p v) as [?| ->]; [by left|right]. by apply kept_same. }
  destruct ev; cbn [step].
  1,2: by destruct (in_workspace w); right; left; apply kept_same.
  1: by destruct (in_workspace w && _); right; left; apply kept_same.
  1: by right; left; apply kept_same.
  1: destruct (in_workspace w && _); [destruct (An 0 false w eq_refl eq_refl); auto|by right; left; apply kept_same].
  1: destruct (previous_page w); [destruct (An z true w eq_refl eq_refl); auto|by right; left; apply kept_same].
  1: destruct (next_page w); [destruct (An z true w eq_refl eq_refl); auto|by right; left; apply kept_same].
  1: repeat case_match; try (by right; left; apply kept_same); destruct (An (consumerOffset (ana w)) false w eq_refl eq_refl); auto.
  1,2: repeat case_match; right; left; first [apply load_kept|by apply kept_same].
  - destruct (loads w !! i) as [[gen retry]|]; [|by right; left; apply kept_same]. unfold on_load.
    destruct (negb _); [by right; left; apply kept_same|]. destruct (load_outcome detail pages) as [e|[d [items c]]]; [by right; left; apply kept_same|].
    destruct (_ && _); [|by right; left; apply kept_same]. match goal with |- context [analyze serviceKey 0 false ?v] =>
      destruct (An 0 false v eq_refl eq_refl) as [?|K] end; [by left|right; left]. exact K.
  - destruct (resumes w) as [|n]; [by right; left; apply kept_same|].
    match goal with |- context [analyze serviceKey 0 false ?v] => destruct (analyze_busy serviceKey 0 false v) as [?| ->] end; [by left|].
    right; left. unfold kept, busy. cbn. split_and!; auto.
  - destruct (asks w !! i) as [[gen q]|] eqn:E; [|by right; left; apply kept_same]. unfold on_answer. cbn [ana with_asks].
    destruct (Nat.eqb_spec gen (analyzeGen (ana w))) as [->|]; cbn [negb]; [|by right; left; apply kept_same].
    right; right. exists i, out, q.
    assert (analyzeError (ana w) = None /\ staleSnapshot (ana w) = false) as [Ee Es].
    { destruct Hw as [_ _ _ [(_ & Hl & _)|[(? & _ & _ & ? & ?)|[Hs _]]]]; [by rewrite Hl in E|done|].
      exfalso. apply Hs. apply list_elem_of_lookup_2 in E. by apply list_elem_of_fmap_2 with (f := fst) in E. }
    destruct out as [r|e]; cbn; split_and!; try done; [by destruct (conflict e)|]. rewrite Es. by destruct (conflict e).
Qed.

(** What is on the page some events after a comparison ended: its answer, until a reload begins,
    its error, and the note of a changed snapshot, until a retry. [w1] is the page at the end. *)
Definition shows (q : Question) (out : Outcome) (w1 w : World) (since : list event) : Prop :=
  match out with
  | Answered r => analyzeError (ana w) = None /\ staleSnapshot (ana w) = false /\ consumerOffset (ana w) = q_offset q /\
                  result (ana w) = if (revGen (revs w) =? revGen (revs w1))%nat then Some r else None
  | Refused e => analyzeError (ana w) = (if conflict e then None else Some (compare_message e)) /\
                 (Resume ∉ since -> staleSnapshot (ana w) = conflict e) /\ (staleSnapshot (ana w) = true -> conflict e = true)
  end.

Lemma shows_kept q out w1 w w' since ev : (revGen (revs w1) <= revGen (revs w))%nat ->
  shows q out w1 w since -> kept w w' ev -> shows q out w1 w' (since ++ [ev]).
Proof.
  intros Hle Hs (_ & _ & Ee & Eo & Es & Er). destruct out as [r|e]; cbn [shows] in *.
  - destruct Hs as (H1 & H2 & H3 & H4). rewrite Ee, Eo. split_and!; [done|destruct Es as [->|[_ ?]]; done|done|].
    destruct Er as [[-> ->]|[-> ->]]; [done|]. destruct (Nat.eqb_spec (S (revGen (revs w))) (revGen (revs w1))); [lia|done].
  - destruct Hs as (H1 & H2 & H3). rewrite Ee. split; [done|]. rewrite elem_of_app, list_elem_of_singleton.
    destruct Es as [->|[-> ->]]; [split; [|done]|split; [|done]].
    + intros N. apply H2. tauto.
    + intros N. exfalso. apply N. by right.
Qed.

Section Ended.
Context (collate : str -> str -> Z) `{Locale} (serviceKey : str) (p_old p_new : option str) (observed : bool).
Abbreviation page := (run collate serviceKey p_old p_new observed).

Lemma run_snoc evs ev : page (evs ++ [ev]) = step collate serviceKey p_old p_new (page evs) ev.
Proof. unfold run. by rewrite fold_left_app. Qed.

Lemma run_ended evs (w := page evs) : busy (ana w) = false -> (0 < analyzeGen (ana w))%nat ->
  exists before i out q since, evs = before ++ Replied i out :: since /\ asks (page before) !! i = Some (analyzeGen (ana w), q) /\
    (revGen (revs (page before)) <= revGen (revs w))%nat /\ shows q out (page before) w since.
Proof.
  unfold w. clear w. induction evs as [|ev evs IH] using rev_ind; [cbn; lia|]. rewrite run_snoc. intros Hb Hg.
  destruct (step_kept collate serviceKey p_old p_new (page evs) ev (run_inv collate serviceKey p_old p_new observed evs))
    as [Hb'|[Hk|(i & out & q & -> & Hi & Eg & _ & Hs & Er)]]; [congruence|..].
  - pose proof Hk as (Eg & Eb & _ & _ & _ & Er). rewrite Eg in Hg |- *. rewrite Eb in Hb.
    destruct (IH Hb Hg) as (before & i & out & q & since & -> & Hi & Hle & Hs). exists before, i, out, q, (since ++ [ev]).
    split; [by rewrite <- app_assoc|]. split; [done|]. split; [destruct Er as [[-> _]|[-> _]]; lia|]. by eapply shows_kept.
  - exists evs, i, out, q, []. split; [done|]. rewrite Eg, Er. split; [done|]. split; [done|].
    destruct out as [r|e]; cbn [shows installed] in *; rewrite ?Er, ?Nat.eqb_refl; [done|]. destruct Hs as [H1 H2]. rewrite H2. by split_and!.
Qed.
End Ended.

(** C36: The comparison on screen is the newest one's. However picks, clicks, reloads and
    replies interleave, the page says it is comparing exactly while a reply to its newest
    comparison is awaited. Once that reply is in, the page shows it: an answer, until a reload
    begins and clears it; the message of an error; or, for a snapshot that changed, that note,
    until the retry that takes it away; and nothing of an older one's errors or notes. An answer
    on screen is always one the API gave. *)
Theorem comparison_current collate `{Locale} serviceKey p_old p_new observed evs :
  let w := run collate serviceKey p_old p_new observed evs in
  let a := ana w in
  (busy a = true <-> analyzeGen a ∈ (asks w).*1) /\
  (busy a = false -> (0 < analyzeGen a)%nat ->
   exists before i out q since (w1 := run collate serviceKey p_old p_new observed before),
     evs = before ++ Replied i out :: since /\ asks w1 !! i = Some (analyzeGen a, q) /\
     match out with
     | Answered r => analyzeError a = None /\ staleSnapshot a = false /\ consumerOffset a = q_offset q /\
                     result a = if (revGen (revs w) =? revGen (revs w1))%nat then Some r else None
     | Refused e => analyzeError a = (if conflict e then None else Some (compare_message e)) /\
                    (Resume ∉ since -> staleSnapshot a = conflict e) /\ (staleSnapshot a = true -> conflict e = true)
     end) /\
  (forall r, result a = Some r -> exists gen q, (gen, q, Answered r) ∈ replies w /\ (gen <= analyzeGen a)%nat).
Proof.
  intros w a. destruct (run_inv collate serviceKey p_old p_new observed evs : winv w) as [Ho Hn Hr Hs]. fold a in Ho, Hr, Hs.
  split_and!; [| |exact Hr].
  - destruct Hs as [(_ & -> & -> & _)|[(q & Hq & -> & _)|(Hs & ->)]].
    + split; [done|by intros ?%elem_of_nil].
    + split; [|done]. intros _. by apply list_elem_of_fmap_2 with (f := fst) in Hq.
    + split; [done|by intros ?%Hs].
  - intros Hb Hg. destruct (run_ended collate serviceKey p_old p_new observed evs Hb Hg) as (before & i & out & q & since & E & Hi & _ & S).
    exists before, i, out, q, since. cbv zeta. split; [done|]. split; [done|]. exact S.
Qed.

(** ** Proofs: shared links *)
Lemma restored_known collate `{Locale} items k : truthy k = true -> k ∈ rv_key <$> items ->
  restored (sort_by (cmp_revisions collate) items) (Some k) = Some k.
Proof.
  intros Ht Hk. unfold restored, when_truthy. destruct k; [done|]. simpl. rewrite bool_decide_eq_true_2; [done|].
  apply list_elem_of_fmap in Hk as (r & -> & Hr). apply list_elem_of_fmap_2, elem_of_sort_by, Hr.
Qed.

Lemma restored_elem refs p k : restored refs p = Some k -> p = Some k /\ k ∈ rv_key <$> refs.
Proof. unfold restored. destruct p as [[|b k']|]; simpl; [done| |done]. case_bool_decide; [|done]. by intros [= <-]. Qed.

(** A load whose service has both sides of the link selects them and asks for the comparison. *)
Lemma on_load_restores collate `{Locale} serviceKey old new d items c w :
  truthy old = true -> truthy new = true -> old ∈ rv_key <$> items -> new ∈ rv_key <$> items ->
  exists w', on_load collate serviceKey (Some old) (Some new) (revGen (revs w)) (inr (d, (items, c))) w = analyze serviceKey 0 false w' /\
    sel w' = set_selection old new (includeObserved (sel w)) (observedAvailable (sel w)) /\
    ana w' = ana w /\ asks w' = asks w /\ loads w' = loads w /\
    loadingRevs (revs w') = false /\ loadError (revs w') = loadError (revs w).
Proof.
  intros Ho Hn Eo En. unfold on_load. rewrite Nat.eqb_refl. cbn [negb].
  pose proof (restored_known collate items old Ho Eo) as Ro. pose proof (restored_known collate items new Hn En) as Rn.
  rewrite Ro, Rn. cbn [andb]. eexists. split; [reflexivity|].
  split_and!; [|done..]. unfold selected. cbn [sel with_sel]. by rewrite Ro, Rn.
Qed.

(** Replies of the capabilities change the toggle alone. *)
Lemma capabilities_only collate `{Locale} serviceKey p_old p_new bs w : exists av,
  fold_left (step collate serviceKey p_old p_new) (Capabilities <$> bs) w =
    with_sel (set_selection (fromRevKey (sel w)) (toRevKey (sel w)) (includeObserved (sel w) && forallb id bs) av) w.
Proof.
  revert w. induction bs as [|b bs IH]; intros w.
  - exists (observedAvailable (sel w)). rewrite andb_true_r. by destruct w as [? [] ? ? ? ? ? ?].
  - rewrite fmap_cons. cbn [fold_left step]. destruct (IH (with_sel (set_selection (fromRevKey (sel w)) (toRevKey (sel w)) (includeObserved (sel w) && b) b) w))
      as [av E]. exists av. etrans; [exact E|]. cbn. by rewrite andb_assoc.
Qed.

(** C37: A shared link opens on its answer. When the service still has both revisions the link
    names, and the reader picks nothing before the reply, loading them asks for exactly that
    comparison, with the runtime callers the link asks for unless the page was told by then that
    there are none; the reply is what the page then shows; and the address written beside it
    reads back as the same service, the same two revisions and the toggle, where replies about
    capabilities may come at any moment: before the revisions ([early]) or between the question
    and its answer ([late]). *)
Theorem link_opens_answer collate `{Locale} serviceKey old new observed detail pages items complete r (early late : list bool) :
  truthy serviceKey = true -> truthy old = true -> truthy new = true ->
  Utf8 serviceKey -> Utf8 old -> Utf8 new ->
  read_revisions detail pages = inr (items, complete) ->
  old ∈ rv_key <$> items -> new ∈ rv_key <$> items ->
  let w evs := run collate serviceKey (Some old) (Some new) observed evs in
  let loaded := (Capabilities <$> early) ++ [Loaded 0 (inr detail) pages] in
  (exists q, asks (w loaded) = [(1%nat, q)] /\ q_serviceKey q = serviceKey /\ q_from q = old /\ q_to q = new /\
     q_observed q = observed && forallb id early /\ q_offset q = 0) /\
  let w' := w (loaded ++ (Capabilities <$> late) ++ [Replied 0 (Answered r)]) in
  screen w' = ScWorkspace false (AnResult r) /\
  exists link ps, address w' = Some link /\ parseHash (Some link) = Some (route VChanges (<["svc" := serviceKey]> ps)) /\
    ps !! "old" = Some old /\ ps !! "new" = Some new /\
    ps !! "observed" = (if observed && forallb id early && forallb id late then Some ("1" : str) else None).
Proof.
  intros Hk Ho Hn Uk Uo Un Hread Eo En w loaded.
  destruct (capabilities_only collate serviceKey (Some old) (Some new) early (mounted observed)) as [av0 E0].
  set (m := with_sel _ (mounted observed)) in E0.
  destruct (on_load_restores collate serviceKey old new detail items complete m Ho Hn Eo En)
    as (v & Ev & Hs & Ha & Hq & Hl & Hlo & Hle).
  assert (selectable serviceKey (sel v) = true) as Hsel.
  { unfold selectable. rewrite Hs. cbn. by rewrite Hk, Ho, Hn. }
  set (X := analyze serviceKey 0 false v) in *.
  assert (w loaded = with_loads (delete 0%nat (loads X)) (resumes X) X) as Ew.
  { rewrite <- Ev. unfold w, run, loaded. rewrite fold_left_app, E0. cbn [fold_left step load_outcome]. by rewrite Hread. }
  assert (sel X = sel v /\ revs X = revs v) as [Xs Xr] by (unfold X, analyze; by rewrite Hsel).
  assert (asks X = [(1%nat, question serviceKey v 0)]) as Xq by (unfold X, analyze; by rewrite Hsel; cbn; rewrite Hq, Ha).
  assert (analyzeGen (ana X) = 1%nat /\ analyzeError (ana X) = None /\ staleSnapshot (ana X) = false) as (X1 & X2 & X3)
    by (unfold X, analyze; rewrite Hsel; cbn; by rewrite Ha).
  split; [rewrite Ew; eexists; split; [exact Xq|]; cbn; by rewrite Hs|].
  assert (exists av1, w (loaded ++ (Capabilities <$> late) ++ [Replied 0 (Answered r)]) =
    step collate serviceKey (Some old) (Some new)
      (with_sel (set_selection old new (observed && forallb id early && forallb id late) av1) (w loaded)) (Replied 0 (Answered r))) as [av1 ->].
  { destruct (capabilities_only collate serviceKey (Some old) (Some new) late (w loaded)) as [av1 E1]. exists av1.
    assert (sel (w loaded) = set_selection old new (observed && forallb id early) av0) as El by (rewrite Ew; cbn; by rewrite Xs, Hs).
    rewrite El in E1. cbn in E1. rewrite <- E1. unfold w, run. by rewrite !fold_left_app. }
  rewrite Ew. cbn. rewrite Xq. cbn. unfold on_answer. cbn. rewrite X1. cbn. split.
  - unfold screen, answer. cbn. by rewrite Xr, Hlo, Hle, X2, X3.
  - unfold shared_link. cbn. set (o := observed && _ && _).
    destruct (parse_changes_link serviceKey {| cq_name := None; cq_old := Some old; cq_new := Some new; cq_observed := o |} Uk)
      as (ps & Hp & Hf).
    { unfold utf8_fields, changes_fields. rewrite Hk, !Forall_cons, Forall_nil. destruct o; split_and!; first [exact I|assumption|by_decide]. }
    rewrite Hk in Hp. eexists _, ps. split_and!; [reflexivity|exact Hp|..]; rewrite Hf; unfold field_of, changes_fields; cbn.
    + by destruct old.
    + by destruct new.
    + by destruct o.
Qed.

Definition demo_detail : Detail :=
  {| dt_entity := None; dt_revisions := Some (Some (demo_rev <$> ["1.0.0" : str; "2.0.0"; "3.0.0"]), false); dt_snapshotId := Some "s1" |}.
Definition demo_impact (name : str) : Impact :=
  {| im_classification := Some "NON_BREAKING"; im_gate := Some "clear";
     im_newRevision := Some {| rn_label := Some name; rn_version := None |};
     im_consumers := Some {| co_items := 100; co_total := 150; co_count := Some 100; co_offset := Some 0; co_nextOffset := Some 100;
                             co_byVerdict := None; co_refused := None |};
     im_changes := None |}.
Definition demo_load : event := Loaded 0 (inr demo_detail) (demo_pages [] 200).
Definition demo_run (p_old p_new : option str) (evs : list event) : World := run str_cmp "d/s" p_old p_new false evs.

Lemma link_opens_answer_witness :
  (exists q, asks (demo_run (Some "1.0.0") (Some "3.0.0") [demo_load]) = [(1%nat, q)] /\ q_serviceKey q = "d/s" /\
     q_from q = "1.0.0" /\ q_to q = "3.0.0" /\ q_observed q = false && forallb id [] /\ q_offset q = 0) /\
  let w' := demo_run (Some "1.0.0") (Some "3.0.0") [demo_load; Capabilities true; Replied 0 (Answered (demo_impact "3.0.0"))] in
  screen w' = ScWorkspace false (AnResult (demo_impact "3.0.0")) /\
  exists link ps, address w' = Some link /\ parseHash (Some link) = Some (route VChanges (<["svc" := "d/s"]> ps)) /\
    ps !! "old" = Some ("1.0.0" : str) /\ ps !! "new" = Some ("3.0.0" : str) /\
    ps !! "observed" = (if false && forallb id [] && forallb id [true] then Some ("1" : str) else None).
Proof.
  apply (link_opens_answer str_cmp "d/s" "1.0.0" "3.0.0" false demo_detail (demo_pages [] 200)
           (demo_rev <$> ["1.0.0" : str; "2.0.0"; "3.0.0"]) true (demo_impact "3.0.0") [] [true]);
    try reflexivity; by_decide.
Defined.

Lemma default_pair_known refs : Forall (fun k => k = [] \/ k ∈ rv_key <$> refs) [(default_pair refs).1; (default_pair refs).2].
Proof.
  rewrite !Forall_cons, Forall_nil. destruct refs as [|r0 [|r1 refs]]; cbn; split_and!; auto; right; rewrite !elem_of_cons; auto.
Qed.

Lemma selected_known refs p_old p_new s :
  (fromRevKey (selected p_old p_new refs s) = [] \/ fromRevKey (selected p_old p_new refs s) ∈ rv_key <$> refs) /\
  (toRevKey (selected p_old p_new refs s) = [] \/ toRevKey (selected p_old p_new refs s) ∈ rv_key <$> refs).
Proof.
  pose proof (default_pair_known refs) as Hd. rewrite !Forall_cons in Hd. destruct Hd as (H1 & H2 & _). unfold selected; cbn.
  split; [destruct (restored refs p_old) eqn:E|destruct (restored refs p_new) eqn:E]; cbn; try done; right;
    by apply restored_elem in E as [].
Qed.

(** A link that names a revision the service no longer has asks for nothing: the selectors
    hold revisions the service has, or nothing. *)
Theorem stale_link_degrades collate `{Locale} serviceKey p_old p_new gen detail items complete w :
  let refs := sort_by (cmp_revisions collate) items in
  let w' := on_load collate serviceKey p_old p_new gen (inr (detail, (items, complete))) w in
  gen = revGen (revs w) -> restored refs p_old = None \/ restored refs p_new = None ->
  asks w' = asks w /\
  (fromRevKey (sel w') = [] \/ fromRevKey (sel w') ∈ rv_key <$> refs) /\
  (toRevKey (sel w') = [] \/ toRevKey (sel w') ∈ rv_key <$> refs).
Proof.
  intros refs w' -> Hr. unfold w', on_load. rewrite Nat.eqb_refl. cbn [negb]. fold refs.
  assert (bool_decide (is_Some (restored refs p_old)) && bool_decide (is_Some (restored refs p_new)) = false) as ->.
  { destruct Hr as [-> | ->]; [done|apply andb_false_r]. }
  split; [done|]. apply selected_known.
Qed.

(** *** Where the page says more than it did *)

(** The last comparison asked for. *)
Definition last_asked (w : World) : option (str * str) := (fun p => (q_from p.2, q_to p.2)) <$> last (asks w).

(** "Refresh and retry" does not retry: the reload puts the default pair back, so the
    comparison it asks for is not the one the reader was refused. *)
Theorem retry_forgets :
  let picked := [demo_load; PickFrom "1.0.0"; Compare] in
  let refused := picked ++ [Replied 0 (Refused (ApiError 409 "changed"))] in
  last_asked (demo_run None None picked) = Some ("1.0.0" : str, "3.0.0" : str) /\
  screen (demo_run None None refused) = ScWorkspace true AnReady /\
  last_asked (demo_run None None (refused ++ [RefreshAndRetry; demo_load; Resume])) = Some ("2.0.0" : str, "3.0.0" : str).
Proof. split_and!; vm_compute; reflexivity. Qed.

(** The address is written from the selectors as they stand when the answer comes, so a pick
    made meanwhile gives the answer a link to another comparison. *)
Theorem address_misnames :
  let w := demo_run None None [demo_load; Compare; PickFrom "1.0.0"; Replied 0 (Answered (demo_impact "3.0.0"))] in
  ((fun p => (q_from p.1.2, q_to p.1.2)) <$> head (replies w)) = Some ("2.0.0" : str, "3.0.0" : str) /\
  address w = Some (fleetChangesUrl "d/s" {| cq_name := None; cq_old := Some "1.0.0"; cq_new := Some "3.0.0"; cq_observed := false |}).
Proof. split; vm_compute; reflexivity. Qed.

(** The pager asks about the selectors too: after a pick that was not compared, "Next" puts a
    page of another comparison in the place of the one on screen. *)
Theorem next_switches :
  let compared := [demo_load; Compare; Replied 0 (Answered (demo_impact "3.0.0"))] in
  screen (demo_run None None (compared ++ [PickTo "1.0.0"])) = ScWorkspace false (AnResult (demo_impact "3.0.0")) /\
  let w := demo_run None None (compared ++ [PickTo "1.0.0"; Next]) in
  screen w = ScWorkspace false (AnResult (demo_impact "3.0.0")) /\
  (last (asks w) ≫= fun p => Some (q_to p.2, q_offset p.2)) = Some ("1.0.0" : str, 100).
Proof. intros compared. split; [|intros w; split]; vm_compute; reflexivity. Qed.

(** ** Proofs: picking the service *)

(** An older link that names a service opens it only when it is the one service of that
    name; otherwise the picker says why, and what it says holds of the whole fleet: "several"
    when several bear the name, "no service" when none does, and neither from a page that was
    cut; the rows offered are those of the name or the whole page; a search answered after a
    newer one began changes nothing. *)
Theorem legacy_name_sound (name : str) (my : nat) (l : ServicePage) (fleet : list ServiceRef) (p : Picker) :
  (complete (boundedMatches (Some (sp_entities l, sp_truncated l)) (legacy_exact name)) = true ->
     matches (boundedMatches (Some (sp_entities l, sp_truncated l)) (legacy_exact name)) ≡ₚ List.filter (legacy_exact name) fleet) ->
  let named := List.filter (legacy_exact name) fleet in
  let '(p', opened) := on_legacy name my (inr l) p in
  if (my =? serviceSearchSeq p)%nat then
    match opened with
    | Some h => exists s, named = [s] /\ h = fleetChangesUrl (sv_key s) no_changes_query
    | None =>
        serviceSearching p' = false /\
        exists c exact, migrateNote p' = legacy_note name c exact /\
          (c = true -> exact ≡ₚ named /\ length named <> 1%nat) /\
          serviceResults p' = (if c && (0 <? length exact)%nat then exact else nullish (sp_entities l) [])
    end
  else p' = p /\ opened = None.
Proof.
  intros Hp named. unfold on_legacy. destruct (my =? serviceSearchSeq p)%nat; [|done]. cbn [negb].
  destruct (boundedMatches _ _) as [exact c]. cbn [matches complete] in *. fold named in Hp.
  destruct c; [specialize (Hp eq_refl)|].
  - destruct exact as [|e [|e2 es]].
    + split; [done|]. exists true, []. split_and!; [done| |done]. intros _. split; [done|]. by rewrite <- Hp.
    + exists e. split; [|done]. symmetry in Hp. by apply Permutation_singleton_r in Hp.
    + split; [done|]. exists true, (e :: e2 :: es). split_and!; [done| |done]. intros _. split; [done|]. by rewrite <- Hp.
  - split; [done|]. exists false, exact. split_and!; [done|done|]. done.
Qed.

Definition demo_services : ServicePage :=
  {| sp_entities := Some [{| sv_key := "d1/pay"; sv_label := "pay"; sv_domain := None |}; {| sv_key := "d2/pay"; sv_label := "pay"; sv_domain := Some "d2" |}];
     sp_total := Some 2; sp_truncated := Some false |}.

Lemma legacy_name_sound_witness :
  let '(p', opened) := on_legacy "pay" 1 (inr demo_services) (resolveLegacyName "pay" picker0) in
  opened = None /\ serviceSearching p' = false /\
  exists c exact, migrateNote p' = legacy_note "pay" c exact /\
    (c = true -> exact ≡ₚ List.filter (legacy_exact "pay") (nullish (sp_entities demo_services) []) /\ length (List.filter (legacy_exact "pay") (nullish (sp_entities demo_services) [])) <> 1%nat) /\
    serviceResults p' = (if c && (0 <? length exact)%nat then exact else nullish (sp_entities demo_services) []).
Proof.
  split; [reflexivity|].
  apply (legacy_name_sound "pay" 1 demo_services (nullish (sp_entities demo_services) []) (resolveLegacyName "pay" picker0)).
  intros _. reflexivity.
Defined.
