(* ===== verification/AppShell.v ===== *)
(** * The application shell: [src/pkg/dashboard/frontend/src/App.svelte]

    The component that owns the page: it gates the dashboard on the session, probes what the
    host serves, polls the backend, redirects legacy locations and mounts the view of the
    route. A pass of [loadGlobal] is a stage per [await]; the shell with its passes in flight
    and its live timers is stepped by a list of events.

    Every request of a pass has its own [catch], so the pass's own [catch] is reached only for
    a route whose view is not a string, where the page itself has thrown already. *)

From stdpp Require Import base list sets.
From Stdlib Require Import Init.Byte ZArith NArith Lia.
From S2P Require Import Prelude Uri Paging GraphState Router.
Local Open Scope Z_scope.

(** ** What the host serves, and who is asking *)
Record Caps := {
  cp_fleet : option bool; cp_delivery : option bool; cp_hidden : bool; cp_nothingVisible : bool }.

Record SessionInfo := { si_mode : str; si_login : bool; si_tokenLogin : bool; si_signedIn : bool }.

Definition gated (session : option SessionInfo) (hostSignsIn : bool) : bool :=
  match session with
  | None => false
  | Some s => (si_mode s === "shared") && (si_login s || si_tokenLogin s) && negb (si_signedIn s) && negb hostSignsIn
  end.

Inductive DeliveryState := DsUnknown | DsEnabled | DsNoUser | DsNotServed.

Definition deliveryState (caps : option Caps) (session : option SessionInfo) : DeliveryState :=
  match caps with
  | None => DsUnknown
  | Some c =>
      if cp_delivery c === Some true then DsEnabled
      else match session with
           | None => DsNoUser
           | Some s => if (si_mode s === "open") || (si_mode s === "none") then DsNoUser else DsNotServed
           end
  end.

Definition fleetHost (caps : option Caps) : bool := (caps ≫= cp_fleet) === Some true.
Definition legacyHost (caps : option Caps) : bool := (caps ≫= cp_fleet) === Some false.
Definition fleetSearch (caps : option Caps) : bool := (caps ≫= cp_fleet) !== Some false.

(** [view.startsWith('delivery-')] *)
Definition is_delivery (v : View) : bool :=
  match v with
  | VDeliveryInbox | VDeliveryEnvironments | VDeliveryAutonomy | VDeliveryChange | VDeliveryHistory | VDeliveryPublish => true
  | _ => false
  end.

(** ** The view of a route *)
Inductive Screen :=
  | SignInScreen | Starting | NothingVisible | Legacy (v : View) | Product (v : View) | MigrateEntity (kind : str)
  | Migrating | CapabilitiesError | DeliveryView (v : View) | DeliveryUnavailable (noUser : bool)
  | Thrown.   (* the route's view is not a string *)

Definition migrating (capError : bool) : Screen := if capError then CapabilitiesError else Migrating.

Definition legacy_only (caps : option Caps) (capError : bool) (v : View) : Screen :=
  if legacyHost caps then Legacy v else migrating capError.

Definition migrated (caps : option Caps) (capError : bool) (v : View) (kind : str) : Screen :=
  if legacyHost caps then Legacy v else if fleetHost caps then MigrateEntity kind else migrating capError.

Definition route_screen (caps : option Caps) (session : option SessionInfo) (capError : bool) (v : View) : Screen :=
  match v with
  | VDetail => migrated caps capError v "service"
  | VOwnerDetail => migrated caps capError v "owner"
  | VDiff | VGraph | VReadiness | VOwners | VList => legacy_only caps capError v
  | VFleet | VChanges | VFleetOverview | VFleetServices | VFleetOwners | VFleetSources | VFleetDomains
  | VFleetOfferings | VFleetEntity | VFleetEntityList | VFleetAttention => Product v
  | VDeliveryInbox | VDeliveryEnvironments | VDeliveryAutonomy | VDeliveryChange | VDeliveryHistory | VDeliveryPublish =>
      match caps with
      | None => migrating capError
      | Some c => if cp_delivery c === Some true then DeliveryView v
                  else DeliveryUnavailable (match deliveryState caps session with DsNoUser => true | _ => false end)
      end
  | VForeign _ => Thrown
  end.

Definition screen (caps : option Caps) (session : option SessionInfo) (hostSignsIn loaded capError : bool) (v : View) : Screen :=
  if gated session hostSignsIn then SignInScreen
  else if negb loaded then Starting
  else match caps, v with
       | Some c, VForeign _ => Thrown
       | Some c, _ => if cp_nothingVisible c && negb (is_delivery v) then NothingVisible else route_screen caps session capError v
       | None, _ => route_screen caps session capError v
       end.

(** The effect of a Fleet host on a location: the hash that replaces it. [None] is an
    exception of the parser, [Some None] a location that stays. *)
Definition redirect (hash : str) : option (option str) :=
  r ← parseHash (Some hash); t ← legacyRedirectTarget (Some hash);
  Some (match when_truthy t with
        | Some t => Some t
        | None => if view r === VList then Some fleetOverviewUrl else None
        end).

(** ** Polling *)
Definition POLL_FAST : Z := 2000.
Definition POLL_NORMAL : Z := 10000.

Section Polling.
Context {Svc Source : Type}.

(** Where a pass waits: for the refresh, for the capabilities, or for the rest (with or
    without the legacy services). *)
Inductive Stage := SRefresh | SProbe | SRead (needsServices : bool).

(** What the requests of a pass come back with; [None] is a caught failure. *)
Record Reply := {
  r_caps : option Caps; r_services : option (list Svc); r_sources : option (option (list Source) * bool); r_version : option str }.

Record Shell := {
  sh_view : View; sh_session : option SessionInfo; capabilities : option Caps; capError : bool;
  services : list Svc; sourcesInfo : list Source; discovering : bool; appVersion : str;
  autoReload : bool; reloadTimer : option nat; reloadInterval : Z; timers : list (nat * Z); nextTimer : nat;
  refreshing : bool; refreshTick : nat; initialLoading : bool; loadError : option str; passes : list Stage }.

Definition shell0 (v : View) : Shell :=
  {| sh_view := v; sh_session := None; capabilities := None; capError := false; services := []; sourcesInfo := [];
     discovering := false; appVersion := []; autoReload := true; reloadTimer := None; reloadInterval := POLL_FAST;
     timers := []; nextTimer := 1; refreshing := false; refreshTick := 0; initialLoading := true; loadError := None; passes := [] |}.

Definition set_passes (ps : list Stage) (busy : bool) (s : Shell) : Shell :=
  {| sh_view := sh_view s; sh_session := sh_session s; capabilities := capabilities s; capError := capError s;
     services := services s; sourcesInfo := sourcesInfo s; discovering := discovering s; appVersion := appVersion s;
     autoReload := autoReload s; reloadTimer := reloadTimer s; reloadInterval := reloadInterval s; timers := timers s;
     nextTimer := nextTimer s; refreshing := busy; refreshTick := refreshTick s; initialLoading := initialLoading s;
     loadError := loadError s; passes := ps |}.

Definition set_timer (auto : bool) (t : option nat) (interval : Z) (ts : list (nat * Z)) (next : nat) (s : Shell) : Shell :=
  {| sh_view := sh_view s; sh_session := sh_session s; capabilities := capabilities s; capError := capError s;
     services := services s; sourcesInfo := sourcesInfo s; discovering := discovering s; appVersion := appVersion s;
     autoReload := auto; reloadTimer := t; reloadInterval := interval; timers := ts; nextTimer := next;
     refreshing := refreshing s; refreshTick := refreshTick s; initialLoading := initialLoading s;
     loadError := loadError s; passes := passes s |}.

Definition set_caps (c : option Caps) (e : bool) (s : Shell) : Shell :=
  {| sh_view := sh_view s; sh_session := sh_session s; capabilities := c; capError := e;
     services := services s; sourcesInfo := sourcesInfo s; discovering := discovering s; appVersion := appVersion s;
     autoReload := autoReload s; reloadTimer := reloadTimer s; reloadInterval := reloadInterval s; timers := timers s;
     nextTimer := nextTimer s; refreshing := refreshing s; refreshTick := refreshTick s; initialLoading := initialLoading s;
     loadError := loadError s; passes := passes s |}.

Definition set_where (v : View) (session : option SessionInfo) (s : Shell) : Shell :=
  {| sh_view := v; sh_session := session; capabilities := capabilities s; capError := capError s;
     services := services s; sourcesInfo := sourcesInfo s; discovering := discovering s; appVersion := appVersion s;
     autoReload := autoReload s; reloadTimer := reloadTimer s; reloadInterval := reloadInterval s; timers := timers s;
     nextTimer := nextTimer s; refreshing := refreshing s; refreshTick := refreshTick s; initialLoading := initialLoading s;
     loadError := loadError s; passes := passes s |}.

(** [clearInterval] of a handle, and [setInterval]. *)
Definition clearInterval (t : option nat) (ts : list (nat * Z)) : list (nat * Z) :=
  match t with None => ts | Some id => List.filter (fun p => negb (p.1 =? id)%nat) ts end.

Definition new_timer (interval : Z) (ts : list (nat * Z)) (s : Shell) : Shell :=
  set_timer (autoReload s) (Some (nextTimer s)) interval (ts ++ [(nextTimer s, interval)]) (S (nextTimer s)) s.

(** The legacy services are read only where the host does not serve the fleet, and only for
    the views that show them. *)
Definition shows_services (v : View) : bool :=
  match v with VList | VDetail | VGraph | VOwners | VOwnerDetail | VDiff | VReadiness => true | _ => false end.
Definition needsServices (s : Shell) : bool := negb (fleetHost (capabilities s)) && shows_services (sh_view s).

Definition probes (force : bool) (s : Shell) : bool :=
  match capabilities s with
  | None => true
  | Some c => force || is_delivery (sh_view s) && (cp_delivery c !== Some true)
  end.

Definition after_refresh (force : bool) (s : Shell) : Stage := if probes force s then SProbe else SRead (needsServices s).

(** [loadGlobal] up to its first [await]. *)
Definition loadGlobal (hostSignsIn force : bool) (s : Shell) : Shell :=
  if (refreshing s && negb force) || gated (sh_session s) hostSignsIn then s
  else set_passes (passes s ++ [if force then SRefresh else after_refresh false s]) true s.

Definition desired (s : Shell) : Z := if discovering s then POLL_FAST else POLL_NORMAL.

Definition reconcile (s : Shell) : Shell :=
  if autoReload s && negb (reloadInterval s =? desired s) then new_timer (desired s) (clearInterval (reloadTimer s) (timers s)) s
  else s.

(** What the last answers change; the pass then ends. *)
Definition received (needs : bool) (r : Reply) (s : Shell) : Shell :=
  let failed := needs && bool_decide (r_services r = None) in
  {| sh_view := sh_view s; sh_session := sh_session s; capabilities := capabilities s; capError := capError s;
     services := if needs then nullish (r_services r) (services s) else services s;
     sourcesInfo := match r_sources r with Some (l, _) => nullish l [] | None => sourcesInfo s end;
     discovering := match r_sources r with Some (_, d) => d | None => false end;
     appVersion := or_str (r_version r) (appVersion s);
     autoReload := autoReload s; reloadTimer := reloadTimer s; reloadInterval := reloadInterval s; timers := timers s;
     nextTimer := nextTimer s; refreshing := false; refreshTick := S (refreshTick s); initialLoading := false;
     loadError := if failed then Some "Can’t reach the Pacto backend." else None; passes := passes s |}.

(** A pass goes on when what it waits for is there. *)
Definition advance (i : nat) (r : Reply) (s : Shell) : Shell :=
  match (passes s !! i : option Stage) with
  | None => s
  | Some SRefresh => set_passes (<[i := after_refresh true s]> (passes s)) (refreshing s) s
  | Some SProbe =>
      let c := match r_caps r with Some c => Some c | None => capabilities s end in
      let s' := set_caps c (bool_decide (r_caps r = None) && bool_decide (capabilities s = None)) s in
      set_passes (<[i := SRead (needsServices s')]> (passes s)) (refreshing s) s'
  | Some (SRead needs) => reconcile (set_passes (delete i (passes s)) false (received needs r s))
  end.

Definition toggleAutoReload (s : Shell) : Shell :=
  if negb (autoReload s) then new_timer (desired s) (timers s) (set_timer true (reloadTimer s) (reloadInterval s) (timers s) (nextTimer s) s)
  else set_timer false None (reloadInterval s) (clearInterval (reloadTimer s) (timers s)) (nextTimer s) s.

(** The session has been read for the first time. *)
Definition ready (hostSignsIn static : bool) (session : option SessionInfo) (s : Shell) : Shell :=
  let s := set_where (sh_view s) session s in
  if gated session hostSignsIn then s
  else
    let s := loadGlobal hostSignsIn false s in
    if static then s
    else set_timer (autoReload s) (Some (nextTimer s)) (reloadInterval s) (timers s ++ [(nextTimer s, POLL_FAST)]) (S (nextTimer s)) s.

Inductive event :=
  | Tick (id : nat) | Refresh | Resolved | Advance (i : nat) (r : Reply) | Toggle | Navigate (v : View)
  | SessionRead (session : option SessionInfo).

Definition step (hostSignsIn : bool) (s : Shell) (ev : event) : Shell :=
  match ev with
  | Tick id => if bool_decide (id ∈ (timers s).*1) then loadGlobal hostSignsIn false s else s
  | Refresh => loadGlobal hostSignsIn true s
  | Resolved => loadGlobal hostSignsIn false s
  | Advance i r => advance i r s
  | Toggle => toggleAutoReload s
  | Navigate v => set_where v (sh_session s) s
  | SessionRead session => set_where (sh_view s) session s
  end.

(** The session after its first reading. The listener for a forced refresh is registered before
    that; [early] are the events of that time. *)
Definition mounted (hostSignsIn static : bool) (v : View) (early : list event) (session : option SessionInfo) : Shell :=
  ready hostSignsIn static session (fold_left (step hostSignsIn) early (shell0 v)).

(** A run after that, where nothing happened before: see [early_refresh_leaks] for what a refresh
    then does. *)
Definition run (hostSignsIn static : bool) (v : View) (session : option SessionInfo) (evs : list event) : Shell :=
  fold_left (step hostSignsIn) evs (ready hostSignsIn static session (shell0 v)).
End Polling.
Arguments Reply : clear implicits.
Arguments Shell : clear implicits.
Arguments event : clear implicits.

(** ** The overlays *)
Record Overlays := { paletteOpen : bool; searchOpen : bool; searchInitial : str }.

Definition openSearch (caps : option Caps) (o : Overlays) : Overlays :=
  if fleetSearch caps then {| paletteOpen := paletteOpen o; searchOpen := true; searchInitial := searchInitial o |}
  else {| paletteOpen := true; searchOpen := searchOpen o; searchInitial := searchInitial o |}.

(** A key: with the command or control key or not, its name, and whether a field has it. *)
Definition handlePaletteKeydown (caps : option Caps) (cmd : bool) (key : str) (typing : bool) (o : Overlays) : Overlays :=
  if cmd && (key === "k") then
    if searchOpen o then o
    else {| paletteOpen := negb (paletteOpen o); searchOpen := searchOpen o; searchInitial := searchInitial o |}
  else if (key === "/") && negb typing && negb (paletteOpen o) && negb (searchOpen o) then openSearch caps o
  else o.

Inductive ShellAction := ToggleTheme | LoadGlobal | ToggleAutoReload.

(** An action of the palette, which has closed itself before it calls. *)
Definition handlePaletteAction (id : str) (query : option str) (o : Overlays) : Overlays * option ShellAction :=
  if id === "search" then ({| paletteOpen := paletteOpen o; searchOpen := true; searchInitial := nullish query [] |}, None)
  else (o, if id === "theme" then Some ToggleTheme else if id === "refresh" then Some LoadGlobal
           else if id === "autoreload" then Some ToggleAutoReload else None).

Definition closePalette (o : Overlays) : Overlays :=
  {| paletteOpen := false; searchOpen := searchOpen o; searchInitial := searchInitial o |}.
Definition closeSearch (o : Overlays) : Overlays :=
  {| paletteOpen := paletteOpen o; searchOpen := false; searchInitial := [] |}.

Inductive overlay_event :=
  | Key (cmd : bool) (key : str) (typing : bool) | SearchButton | PaletteAction (id : str) (query : option str)
  | ClosePalette | CloseSearch.

(** The search button is under an open overlay, and only an open palette calls an action. *)
Definition overlay_step (caps : option Caps) (o : Overlays) (ev : overlay_event) : Overlays :=
  match ev with
  | Key cmd key typing => handlePaletteKeydown caps cmd key typing o
  | SearchButton => if paletteOpen o || searchOpen o then o else openSearch caps o
  | PaletteAction id query => if paletteOpen o then (handlePaletteAction id query (closePalette o)).1 else o
  | ClosePalette => closePalette o
  | CloseSearch => closeSearch o
  end.

(** ** Proofs: polling *)
Section PollingProofs.
Context {Svc Source : Type} (hostSignsIn : bool).
Implicit Types s : Shell Svc Source.

(** At most one timer is live, the one the shell holds, at the interval it believes; and none
    while reloading is off. *)
Definition timed s : Prop :=
  match reloadTimer s with
  | Some id => timers s = [(id, reloadInterval s)] /\ autoReload s = true
  | None => timers s = []
  end.

(** Once a pass has ended, the interval is the one discovery asks for. *)
Definition paced s : Prop := refreshTick s <> O -> autoReload s = true -> reloadInterval s = desired s.

Lemma clear_timed s : timed s -> clearInterval (reloadTimer s) (timers s) = [].
Proof. unfold timed. destruct (reloadTimer s) as [id|]; simpl; [|done]. intros [-> _]. simpl. by rewrite Nat.eqb_refl. Qed.

Lemma loadGlobal_timed force s : timed s -> timed (loadGlobal hostSignsIn force s).
Proof. unfold loadGlobal. by destruct (_ || _). Qed.

Lemma loadGlobal_paced force s : paced s -> paced (loadGlobal hostSignsIn force s).
Proof. unfold loadGlobal. by destruct (_ || _). Qed.

Lemma reconcile_timed s : timed s -> timed (reconcile s) /\ (autoReload s = true -> reloadInterval (reconcile s) = desired (reconcile s)).
Proof.
  intros Ht. unfold reconcile. destruct (autoReload s) eqn:Ea; simpl; [|done].
  destruct (Z.eqb_spec (reloadInterval s) (desired s)) as [E|E]; simpl; [done|].
  rewrite clear_timed by done. unfold timed. simpl. by rewrite Ea.
Qed.

Lemma advance_timed i r s : timed s -> paced s -> timed (advance i r s) /\ paced (advance i r s).
Proof.
  intros Ht Hp. unfold advance. destruct (passes s !! i) as [[| |needs]|]; [done..| |done].
  destruct (reconcile_timed (set_passes (delete i (passes s)) false (received needs r s)) Ht) as [H1 H2].
  split; [exact H1|]. intros _ Ha. apply H2. revert Ha. unfold reconcile. by destruct (_ && _).
Qed.

Lemma toggle_timed s : timed s -> paced s -> timed (toggleAutoReload s) /\ paced (toggleAutoReload s).
Proof.
  intros Ht Hp. unfold toggleAutoReload. destruct (autoReload s) eqn:Ea; simpl.
  - split; [|by intros _ ?]. unfold timed. simpl. by apply clear_timed.
  - assert (timers s = []) as ->; [|by split].
    revert Ht. unfold timed. destruct (reloadTimer s); [intros [_ ?]; congruence|done].
Qed.

Lemma step_timed s ev : timed s -> paced s -> timed (step hostSignsIn s ev) /\ paced (step hostSignsIn s ev).
Proof.
  intros Ht Hp. destruct ev; simpl; try (by split); try by (split; [apply loadGlobal_timed|apply loadGlobal_paced]).
  - case_bool_decide; [|done]. by split; [apply loadGlobal_timed|apply loadGlobal_paced].
  - by apply advance_timed.
  - by apply toggle_timed.
Qed.

(** Without a forced refresh one pass runs at a time. *)
Definition single s : Prop := passes s = [] /\ refreshing s = false \/ exists st, passes s = [st] /\ refreshing s = true.

Lemma loadGlobal_single s : single s -> single (loadGlobal hostSignsIn false s).
Proof.
  unfold loadGlobal. intros [[E Hr]|(st & E & Hr)]; rewrite Hr; simpl; [|by right; exists st].
  destruct (gated _ _); [by left|]. right. unfold set_passes. simpl. rewrite E. by eexists.
Qed.

Lemma reconcile_passes s : passes (reconcile s) = passes s /\ refreshing (reconcile s) = refreshing s.
Proof. unfold reconcile. by destruct (_ && _). Qed.

Lemma advance_single i r s : single s -> single (advance i r s).
Proof.
  intros Hs. unfold advance. destruct (passes s !! i) as [st|] eqn:E; [|done].
  destruct Hs as [[E' _]|(st' & E' & Hr)]; rewrite E' in E; [done|]. destruct i as [|i]; [|by destruct i]. injection E as ->.
  destruct st as [| |needs].
  - right. unfold set_passes. simpl. rewrite E', Hr. by eexists.
  - right. unfold set_passes. simpl. rewrite E', Hr. by eexists.
  - left. rewrite !(proj1 (reconcile_passes _)), !(proj2 (reconcile_passes _)). unfold set_passes. simpl. by rewrite E'.
Qed.

Lemma step_single s ev : ev <> Refresh -> single s -> single (step hostSignsIn s ev).
Proof.
  intros Hne Hs. destruct ev; simpl; try done.
  - case_bool_decide; [by apply loadGlobal_single|done].
  - by apply loadGlobal_single.
  - by apply advance_single.
  - unfold toggleAutoReload. by destruct (autoReload s).
Qed.

Lemma ready_ok static session v :
  let s := ready hostSignsIn static session (shell0 (Svc := Svc) (Source := Source) v) in
  timed s /\ paced s /\ single s.
Proof.
  unfold ready. simpl. destruct (gated session hostSignsIn) eqn:Eg; [split_and!; [done|by intros []|by left]|].
  unfold loadGlobal. simpl. rewrite Eg. destruct static; (split_and!; [done|by intros []|right; by eexists]).
Qed.
End PollingProofs.

(** C31: Once the session is read, the dashboard polls with one timer, at the pace discovery asks
    for, one pass at a time. However polls, answers, refreshes, navigation and the reload switch
    interleave after that, no more than one timer is live: the one the shell holds, only while
    reloading is on, and once a pass has ended at the fast interval exactly during discovery.
    Unless the reader forces a refresh, a slow backend is never asked by two passes at once. *)
Theorem polls_once {Svc Source : Type} (hostSignsIn static : bool) (v : View) (session : option SessionInfo)
    (evs : list (event Svc Source)) :
  let s := run hostSignsIn static v session evs in
  match reloadTimer s with
  | Some id => timers s = [(id, reloadInterval s)] /\ autoReload s = true
  | None => timers s = []
  end /\
  (refreshTick s <> O -> autoReload s = true -> reloadInterval s = if discovering s then POLL_FAST else POLL_NORMAL) /\
  (Refresh ∉ evs -> (length (passes s) <= 1)%nat /\ refreshing s = bool_decide (passes s <> [])).
Proof.
  destruct (ready_ok (Svc := Svc) (Source := Source) hostSignsIn static session v) as (Ht & Hp & Hs).
  unfold run. revert Ht Hp Hs. generalize (ready hostSignsIn static session (shell0 (Svc := Svc) (Source := Source) v)).
  intros s0 Ht Hp Hs. simpl. split_and!.
  1,2: revert Ht Hp; clear Hs; revert s0; induction evs as [|ev evs IH]; intros s0 Ht Hp; [done|];
    destruct (step_timed hostSignsIn s0 ev Ht Hp); by apply IH.
  intros Hn. assert (single (fold_left (step hostSignsIn) evs s0)) as Hf.
  { clear Ht Hp. revert s0 Hs. induction evs as [|ev evs IH]; intros s0 Hs; [done|].
    apply not_elem_of_cons in Hn as [? ?]. apply IH; [done|]. by apply step_single. }
  destruct Hf as [[-> ->]|(st & -> & ->)]; simpl; (split; [lia|]); by_decide || (by rewrite bool_decide_eq_true_2).
Qed.

Definition demo_reply (svc : nat) : Reply nat nat :=
  {| r_caps := Some {| cp_fleet := Some false; cp_delivery := None; cp_hidden := false; cp_nothingVisible := false |};
     r_services := Some [svc]; r_sources := Some (Some [1%nat], false); r_version := None |}.

(** The static export sets no timer when it mounts, but the end of its first pass does. *)
Theorem static_export_polls :
  timers (run (Svc := nat) (Source := nat) false true VList None [Advance 0 (demo_reply 1); Advance 0 (demo_reply 1)]) = [(1%nat, POLL_NORMAL)].
Proof. vm_compute. reflexivity. Qed.

(** A forced refresh that ends before the session is read sets a timer, and the mount then sets
    its own beside it: two are live, and only the second can be stopped. *)
Theorem early_refresh_leaks :
  let s := mounted (Svc := nat) (Source := nat) false false VList
             [Refresh; Advance 0 (demo_reply 1); Advance 0 (demo_reply 1); Advance 0 (demo_reply 1)] None in
  timers s = [(1%nat, POLL_NORMAL); (2%nat, POLL_FAST)] /\ reloadTimer s = Some 2%nat /\
  timers (step false s Toggle) = [(1%nat, POLL_NORMAL)].
Proof. vm_compute. done. Qed.

(** A forced refresh during a slow pass takes the guard away: when the slow pass ends, the
    next poll starts beside the refresh that still runs. *)
Theorem refresh_unguards :
  let evs := [Refresh; Advance 0 (demo_reply 1); Advance 0 (demo_reply 1); Tick 2] in
  length (passes (run (Svc := nat) (Source := nat) false false VList None evs)) = 2%nat.
Proof. vm_compute. reflexivity. Qed.

(** A pass that began before a refresh and ends after it puts the older answers back. *)
Theorem older_pass_wins :
  let evs := [Advance 0 (demo_reply 1); Refresh; Advance 1 (demo_reply 2); Advance 1 (demo_reply 2); Advance 1 (demo_reply 2)] in
  services (run (Svc := nat) (Source := nat) false false VList None evs) = [2%nat] /\
  services (run (Svc := nat) (Source := nat) false false VList None (evs ++ [Advance 0 (demo_reply 1)])) = [1%nat].
Proof. split; vm_compute; reflexivity. Qed.

(** ** Proofs: the overlays *)

(** The palette and the search are never open together. *)
Theorem overlays_exclusive (caps : option Caps) (evs : list overlay_event) :
  let o := fold_left (overlay_step caps) evs {| paletteOpen := false; searchOpen := false; searchInitial := [] |} in
  paletteOpen o && searchOpen o = false.
Proof.
  simpl. assert (forall o, paletteOpen o && searchOpen o = false -> paletteOpen (fold_left (overlay_step caps) evs o) && searchOpen (fold_left (overlay_step caps) evs o) = false) as H; [|by apply H].
  induction evs as [|ev evs IH]; intros [p q i] Ho; [done|]. simpl in *. apply IH. clear IH.
  destruct ev as [cmd key typing| |id query| |]; cbn.
  - unfold handlePaletteKeydown, openSearch. cbn. destruct p, q; try done; repeat case_match; simplify_eq; try done.
    all: rewrite ?andb_false_r in *; try done.
  - unfold openSearch. destruct p, q; try done; simpl; by destruct (fleetSearch caps).
  - destruct p; [|done]. unfold handlePaletteAction. case_match; done.
  - done.
  - by rewrite andb_false_r.
Qed.

(** ** Proofs: where a Fleet host lands *)
Definition ascii (s : str) : Prop := Forall (fun b => is_ascii b = true) s.
Definition plain (t : list (bool * byte)) : Prop := Forall (fun p => p.1 = false -> is_ascii p.2 = true) t.

Lemma tokens_plain s t : ascii s -> tokens s = Some t -> plain t.
Proof.
  remember (length s) as n eqn:En. revert s t En. induction (lt_wf n) as [n _ IH]; intros s t -> Hs Ht.
  destruct s as [|b s1]; [by injection Ht as <-; constructor|]. apply Forall_cons in Hs as [Hb Hs].
  assert (forall r, tokens s1 = Some r -> plain r) as Hrec by (intros r Hr; eapply IH; [|reflexivity|exact Hs|exact Hr]; simpl; lia).
  destruct (decide (b = x25)) as [->|Hne].
  - cbn [tokens] in Ht. destruct s1 as [|c [|d s2]]; [done..|]. destruct (hex_pair c d) as [v|]; [|done]. cbn [mbind option_bind] in Ht.
    destruct (tokens s2) as [r|] eqn:Er; [|done]. injection Ht as <-. constructor; [done|].
    eapply IH; [|reflexivity| |exact Er]; [simpl; lia|]. by apply Forall_cons in Hs as [_ [_ ?]%Forall_cons].
  - assert (tokens (b :: s1) = (r ← tokens s1; Some ((false, b) :: r))) as E by (by destruct b).
    rewrite E in Ht. destruct (tokens s1) as [r|]; [|done]. injection Ht as <-. constructor; [done|by apply Hrec].
Qed.

Lemma detoken_utf8 t r : plain t -> detoken t = Some r -> Utf8 r.
Proof.
  remember (length t) as n eqn:En. revert t r En. induction (lt_wf n) as [n _ IH]; intros t r -> Ht Hr.
  destruct t as [|[e a] t1]; [injection Hr as <-; constructor|]. cbn [detoken] in Hr.
  apply Forall_cons in Ht as [Ha Ht1]. cbn [fst snd] in Ha.
  assert (forall t' r', plain t' -> (length t' <= length t1)%nat -> detoken t' = Some r' -> Utf8 r') as Hrec.
  { intros t' r' Hp Hl Hd. eapply IH; [|reflexivity|exact Hp|exact Hd]. simpl. lia. }
  destruct (negb e || is_ascii a) eqn:Ea.
  - destruct (detoken t1) as [r1|] eqn:E1; [|done]. injection Hr as <-. apply (Utf8_cons [a]); [|by eapply Hrec; [..|exact E1]].
    apply orb_true_iff in Ea as [Ee|Ea]; [|done]. apply Ha. by destruct e.
  - destruct t1 as [|[[] b] t2]; [done| |done]. apply Forall_cons in Ht1 as [_ Ht2].
    destruct (lead2 a) eqn:E2.
    { destruct (is_cont b) eqn:Eb; [|done]. destruct (detoken t2) as [r2|] eqn:E; [|done]. injection Hr as <-.
      apply (Utf8_cons [a; b]); [simpl; by rewrite E2, Eb|eapply Hrec; [..|exact E]; [done|simpl; lia]]. }
    destruct t2 as [|[[] c] t3]; [done| |done]. apply Forall_cons in Ht2 as [_ Ht3].
    destruct (lead3 a) eqn:E3.
    { destruct (second_ok a b && is_cont c) eqn:Ec; [|done]. destruct (detoken t3) as [r3|] eqn:E; [|done]. injection Hr as <-.
      apply (Utf8_cons [a; b; c]); [simpl; rewrite E3; exact Ec|eapply Hrec; [..|exact E]; [done|simpl; lia]]. }
    destruct t3 as [|[[] d] t4]; [done| |done]. apply Forall_cons in Ht3 as [_ Ht4].
    destruct (lead4 a && _ && _ && _) eqn:Ed; [|done]. destruct (detoken t4) as [r4|] eqn:E; [|done]. injection Hr as <-.
    apply (Utf8_cons [a; b; c; d]); [exact Ed|eapply Hrec; [..|exact E]; [done|simpl; lia]].
Qed.

Lemma decode_utf8 s t : ascii s -> decodeURIComponent s = Some t -> Utf8 t.
Proof.
  unfold decodeURIComponent. intros Hs. destruct (tokens s) as [l|] eqn:E; [|done]. cbn [mbind option_bind].
  apply detoken_utf8. by eapply tokens_plain.
Qed.

(** The locations of the change workspace. *)
Lemma changes_view key o : Utf8 key -> exists ps, parseHash (Some (fleetChangesUrl key o)) = Some (route VChanges ps).
Proof.
  intros Uk. unfold fleetChangesUrl. destruct (truthy key) eqn:Ht.
  - change ("#/fleet/changes/" ++ enc key) with ("#/fleet/" ++ ("changes/" ++ enc key)).
    rewrite parse_fleet_link by no_question. unfold parseFleet.
    change (drop (length ("fleet/" : str)) ("fleet/" ++ ("changes/" ++ enc key))) with ("changes/" ++ enc key).
    rewrite starts_with_app, after_key_enc by (by apply truthy_nonempty).
    cbn [app starts_with]. other_paths. unfold enc. rewrite decode_encode by done. by eexists.
  - pose proof (parse_fleet_link "changes" (qs_build (changes_fields key o))) as Hp.
    eexists. etransitivity; [apply Hp; by_decide | reflexivity].
Qed.

Lemma ascii_sub (u s v : str) : ascii (u ++ s ++ v) -> ascii s.
Proof. unfold ascii. rewrite !Forall_app. tauto. Qed.

Lemma strip_hash_ascii h : ascii h -> ascii (strip_hash h).
Proof.
  intros H. unfold strip_hash. destruct h as [|b h]; [done|]. apply Forall_cons in H as [Hb H].
  assert (ascii (b :: h)) by (by constructor). destruct b; try done. destruct h as [|b h]; [done|].
  assert (ascii (b :: h)) by done. apply Forall_cons in H as [_ H]. by destruct b.
Qed.

Lemma path_of_ascii s : ascii s -> ascii (path_of s).
Proof. unfold path_of. destruct (cut x3f s) as [p q] eqn:E. apply cut_inv in E as [_ ->]. unfold ascii. rewrite Forall_app. tauto. Qed.

Lemma query_get_utf8 s k : Utf8 (or_str (qs_get (query_of s) k) []).
Proof.
  destruct (qs_get (query_of s) k) as [v|] eqn:E; [|constructor].
  assert (Utf8 v) as Hv.
  { pose proof (utf8_search_params (nullish (cut x3f s).2 [])) as H. unfold utf8_pairs in H. rewrite Forall_forall in H.
    apply assoc_elem in E. by apply H in E as [_ ?]. }
  unfold or_str, otruthy. simpl. by destruct v; [constructor|].
Qed.

Definition redirect_views : list View := [VChanges; VFleetOverview; VFleetServices; VFleet; VFleetOwners; VFleetEntityList].

(** The target of a redirect is a product view. *)
Lemma target_view h t : ascii h -> legacyRedirectTarget (Some h) = Some (Some t) ->
  exists r, parseHash (Some t) = Some r /\ view r ∈ redirect_views.
Proof.
  intros Ha. assert (ascii (path_of (strip_hash (or_str (Some h) [])))) as Hp.
  { apply path_of_ascii, strip_hash_ascii. unfold or_str. by destruct h; [constructor|]. }
  assert (forall key o, Utf8 key -> exists r, parseHash (Some (fleetChangesUrl key o)) = Some r /\ view r ∈ redirect_views) as Hc.
  { intros key o (ps & ->)%(changes_view _ o). eexists. split; [done|]. by left. }
  unfold legacyRedirectTarget. destruct (_ ≫= _) as [[name []]|].
  { destruct (decodeURIComponent name); [|done]. intros [= <-]. apply Hc. constructor. }
  destruct (after_key "fleet/impact/" _) as [key|] eqn:Ek.
  { destruct (decodeURIComponent key) as [k|] eqn:Ed; [|done]. intros [= <-]. apply Hc. eapply decode_utf8; [|exact Ed].
    unfold after_key in Ek. destruct (after _ _) as [u|] eqn:E; [|done]. apply after_inv in E. apply dot_plus_inv in Ek as ->.
    rewrite E in Hp. apply (ascii_sub ("fleet/impact/" : str) u []). by rewrite app_nil_r. }
  intros H.
  repeat (match type of H with context [if ?c then _ else _] => destruct c end;
    [lazymatch type of H with
     | context [fleetChangesUrl] => injection H as <-; apply Hc; first [apply query_get_utf8|apply Utf8_nil]
     | _ => injection H as <-; eexists; split; [vm_compute; reflexivity|apply (bool_decide_unpack _); vm_compute; exact I]
     end|]).
  done.
Qed.

Definition legacy_views : list View := [VDiff; VGraph; VReadiness; VOwners].

(** A route that was read as one view is not any of these. *)
Ltac not_legacy :=
  match goal with |- Some (route ?v _) = Some _ -> _ =>
    intros [= <-]; change (v ∉ VList :: legacy_views); apply (bool_decide_unpack _); vm_compute; exact I
  end.

Ltac decoded :=
  repeat match goal with |- context [decodeURIComponent ?x] => destruct (decodeURIComponent x); cbn [mbind option_bind]; [|discriminate] end.

Lemma parseFleet_view path query r : parseFleet path query = Some r -> view r ∉ VList :: legacy_views.
Proof.
  unfold parseFleet. destruct (path === "fleet"); [not_legacy|].
  generalize (drop (length ("fleet/" : str)) path). intros rest.
  destruct (_ || _); [destruct (two_keys _ _) as [[]|]; decoded; not_legacy|].
  destruct (rest === "attention"); [not_legacy|].
  destruct (_ || _ || _); [destruct (after_key "changes/" rest), (after_key "impact/" rest); decoded; not_legacy|].
  destruct (rest === "services"); [not_legacy|]. destruct (_ || _); [not_legacy|].
  unfold list_views. cbn [assoc]. repeat (destruct (bool_decide _); [not_legacy|]).
  destruct (entity_match rest) as [[]|]; decoded; not_legacy.
Qed.

Lemma parseDelivery_view path query r : parseDelivery path query = Some r -> view r ∉ VList :: legacy_views.
Proof.
  unfold parseDelivery. generalize (strip_prefix "/" (drop (length ("delivery" : str)) path)). intros rest.
  destruct (two_segments _ _) as [[]|]; [decoded; not_legacy|].
  unfold delivery_views, obj_get. cbn [assoc]. repeat (destruct (bool_decide _); [not_legacy|]). not_legacy.
Qed.

Lemma opt_query_path p (s : str) q : x3f ∉ p -> opt_query s = Some q -> path_of (p ++ s) = p.
Proof.
  intros Hp. unfold path_of. destruct s as [|b s]; [intros _; by rewrite app_nil_r, cut_none|].
  assert (b <> x3f -> opt_query (b :: s) = None) as Hb by (by destruct b).
  destruct (decide (b = x3f)) as [->|Hne]; [intros _; by rewrite cut_some|]. by rewrite Hb.
Qed.

(** The comparison of one service, where its name holds no question mark, is redirected. *)
Lemma service_diff_target raw name q n : service_diff raw = Some (name, q) -> x3f ∉ name -> decodeURIComponent name = Some n ->
  (after "services/" (path_of raw) ≫= lazy_dot (fun s => if s === "/diff" then Some tt else None)) = Some (name, tt).
Proof.
  unfold service_diff. intros Hs Hq Hn. destruct (after "services/" raw) as [u|] eqn:E; [|done]. apply after_inv in E as ->.
  cbn [mbind option_bind] in Hs. assert (has_line_terminator name = false /\ name <> []) as [Hl Hne].
  { revert Hs. unfold lazy_dot. destruct (lazy_prefix _ u) as [[n' a]|] eqn:El; [|done].
    destruct (has_line_terminator n') eqn:Et; [done|]. intros [= -> ->]. split; [done|]. intros ->.
    destruct u as [|b u]; simpl in El; [done|]. repeat case_match; done. }
  apply lazy_dot_inv in Hs as (t & -> & Ht). destruct (after "/diff" t) as [v|] eqn:E; [|done]. apply after_inv in E as ->.
  cbn [mbind option_bind] in Ht.
  assert (path_of ("services/" ++ name ++ "/diff" ++ v) = "services/" ++ name ++ "/diff") as ->.
  { replace ("services/" ++ name ++ "/diff" ++ v) with (("services/" ++ name ++ "/diff") ++ v) by (by rewrite !(assoc_L app)).
    eapply opt_query_path; [|exact Ht]. rewrite !not_elem_of_app. split_and!; [by_decide|done|by_decide]. }
  rewrite after_app. cbn [mbind option_bind]. unfold lazy_dot.
  rewrite (lazy_prefix_first _ name "/diff" tt); [by rewrite Hl|done| |by rewrite bool_decide_eq_true_2].
  intros x y -> _ Hy. rewrite bool_decide_eq_false_2; [done|]. intros E%(f_equal length). rewrite length_app in E.
  destruct y; [done|simpl in E; lia].
Qed.

(** A path that stands for a view of its own is redirected. *)
Lemma path_target h p : path_of (strip_hash (or_str (Some h) [])) = p -> p ∈ ["diff" : str; "graph"; "readiness"; "owners"] ->
  legacyRedirectTarget (Some h) <> Some None.
Proof.
  intros E Hp. unfold legacyRedirectTarget. rewrite E. generalize (query_of (strip_hash (or_str (Some h) []))). intros qs.
  rewrite !elem_of_cons, elem_of_nil in Hp.
  destruct Hp as [-> |[-> |[-> |[-> |[]]]]];
    match goal with |- context [after "services/" ?p] =>
      change (after "services/" p) with (@None str); change (after_key "fleet/impact/" p) with (@None str); cbn [mbind option_bind] end;
    repeat match goal with |- context [bool_decide (?a = ?b)] =>
      let v := eval vm_compute in (bool_decide (a = b)) in change (bool_decide (a = b)) with v; cbn [orb] end; discriminate.
Qed.

Lemma parsePath_view path query r : parsePath path query = Some r -> view r ∈ legacy_views -> path ∈ ["graph" : str; "readiness"; "owners"].
Proof.
  unfold parsePath.
  assert (forall v ps, Some (route v ps) = Some r -> v ∉ legacy_views -> view r ∈ legacy_views -> path ∈ ["graph" : str; "readiness"; "owners"]) as Hno
    by (intros v ps [= <-] Hv Hi; by apply Hv in Hi).
  destruct (service_version path) as [[]|]; [decoded; intros E; apply (Hno _ _ E); by_decide|].
  destruct (after_key "services/" path); [decoded; intros E; apply (Hno _ _ E); by_decide|].
  destruct (path === "graph") eqn:E1; [apply bool_decide_eq_true in E1 as ->; intros _ _; by_decide|].
  destruct (path === "readiness") eqn:E2; [apply bool_decide_eq_true in E2 as ->; intros _ _; by_decide|].
  destruct (_ || _); [intros E%parseFleet_view Hi; exfalso; set_solver|].
  destruct (_ || _); [intros E%parseDelivery_view Hi; exfalso; set_solver|].
  destruct (path === "impact"); [intros E; apply (Hno _ _ E); by_decide|].
  destruct (after_key "owners/" path); [decoded; intros E; apply (Hno _ _ E); by_decide|].
  destruct (path === "owners") eqn:E3; [apply bool_decide_eq_true in E3 as ->; intros _ _; by_decide|].
  intros E; apply (Hno _ _ E); by_decide.
Qed.

(** A service whose name the hash spells with a question mark before [/diff]. *)
Definition question_in_name (h : str) : Prop :=
  exists name q, service_diff (strip_hash (or_str (Some h) [])) = Some (name, q) /\ x3f ∈ name.

Lemma legacy_redirected h r :
  parseHash (Some h) = Some r -> view r ∈ legacy_views -> ~ question_in_name h -> legacyRedirectTarget (Some h) <> Some None.
Proof.
  intros Hp Hv Hq. unfold parseHash in Hp. set (raw := strip_hash (or_str (Some h) [])) in *.
  destruct (_ || _); [injection Hp as <-; exfalso; revert Hv; by_decide|].
  destruct (after "diff" raw ≫= opt_query) as [q|] eqn:Ed.
  { destruct (after "diff" raw) as [u|] eqn:Eu; [|done]. apply after_inv in Eu. cbn [mbind option_bind] in Ed.
    apply (path_target h "diff"); [|by_decide]. fold raw. rewrite Eu. eapply opt_query_path; [by_decide|exact Ed]. }
  destruct (service_diff raw) as [[name q]|] eqn:Es.
  - unfold parse_service_diff in Hp. destruct (decodeURIComponent name) as [n|] eqn:En; [|done].
    assert (x3f ∉ name) as Hn by (intros ?; apply Hq; by exists name, q).
    unfold legacyRedirectTarget. fold raw. rewrite (service_diff_target raw name q n Es Hn En), En. cbn [mbind option_bind]. discriminate.
  - apply (path_target h (path_of raw)); [done|]. pose proof (parsePath_view _ _ _ Hp Hv). set_solver.
Qed.

(** A screen that shows the product, or migrates to it. *)
Definition lands (s : Screen) : bool :=
  match s with Product _ | MigrateEntity _ | DeliveryView _ | DeliveryUnavailable _ => true | _ => false end.

Lemma product_lands c session capError v : cp_fleet c = Some true -> v ∉ VList :: legacy_views ->
  lands (route_screen (Some c) session capError v) = true \/ exists k, v = VForeign k.
Proof.
  intros Hc Hv. destruct v; try (by left); try (exfalso; revert Hv; by_decide); [..|by right; eexists].
  1,2: left; cbn; unfold migrated, legacyHost, fleetHost; simpl; by rewrite Hc.
  all: left; cbn; by destruct (cp_delivery c === Some true).
Qed.

(** What is no view comes from the path [delivery/] followed by a member of [Object.prototype]. *)
Lemma parseFleet_known path q r k : parseFleet path q = Some r -> view r <> VForeign k.
Proof.
  unfold parseFleet. destruct (path === "fleet"); [by intros [= <-]|].
  generalize (drop (length ("fleet/" : str)) path). intros rest.
  destruct (_ || _); [destruct (two_keys _ _) as [[]|]; decoded; by intros [= <-]|].
  destruct (rest === "attention"); [by intros [= <-]|].
  destruct (_ || _ || _); [destruct (after_key "changes/" rest), (after_key "impact/" rest); decoded; by intros [= <-]|].
  destruct (rest === "services"); [by intros [= <-]|]. destruct (_ || _); [by intros [= <-]|].
  unfold list_views. cbn [assoc]. repeat (destruct (bool_decide _); [by intros [= <-]|]).
  destruct (entity_match rest) as [[]|]; decoded; by intros [= <-].
Qed.

Lemma parseDelivery_foreign path q r k : (path === "delivery") || starts_with "delivery/" path = true ->
  parseDelivery path q = Some r -> view r = VForeign k -> path = "delivery/" ++ k /\ k ∈ object_prototype_keys.
Proof.
  intros Hd. unfold parseDelivery. set (rest := strip_prefix "/" _).
  assert (rest = [] \/ path = "delivery/" ++ rest) as Hpath.
  { apply orb_true_iff in Hd as [->%bool_decide_eq_true|[t ->]%starts_with_spec]; [by left|by right]. }
  destruct (two_segments "changes/" rest) as [[ns name]|]; [by decoded; intros [= <-]|].
  intros [= <-]. cbn [view route]. unfold obj_get. destruct (assoc rest delivery_views) as [v|] eqn:Ev.
  - intros ->. apply assoc_elem in Ev. exfalso. revert Ev. clear. unfold delivery_views. rewrite !elem_of_cons, elem_of_nil. naive_solver.
  - clear Hd. case_bool_decide as Hk; [|done]. intros [= <-]. split; [|done]. destruct Hpath as [Hnil|]; [|done].
    rewrite Hnil in Hk. exfalso. revert Hk. by_decide.
Qed.

Lemma parseHash_foreign h r k : parseHash (Some h) = Some r -> view r = VForeign k ->
  path_of (strip_hash (or_str (Some h) [])) = "delivery/" ++ k /\ k ∈ object_prototype_keys.
Proof.
  unfold parseHash. set (raw := strip_hash _).
  destruct (_ || _); [by intros [= <-]|]. destruct (after "diff" raw ≫= opt_query); [by intros [= <-]|].
  destruct (service_diff raw) as [[name q]|]; [unfold parse_service_diff; by decoded; intros [= <-]|].
  generalize (nullish (cut x3f raw).2 []) as query. intros query. unfold parsePath.
  destruct (service_version _) as [[]|]; [by decoded; intros [= <-]|].
  destruct (after_key "services/" _); [by decoded; intros [= <-]|].
  destruct (_ === "graph"); [by intros [= <-]|]. destruct (_ === "readiness"); [by intros [= <-]|].
  destruct ((path_of raw === "fleet") || _); [intros E Hv; by apply (parseFleet_known _ _ _ k) in E|].
  destruct ((path_of raw === "delivery") || _) eqn:Ed; [by apply parseDelivery_foreign|].
  destruct (_ === "impact"); [by intros [= <-]|]. destruct (after_key "owners/" _); [by decoded; intros [= <-]|].
  destruct (_ === "owners"); by intros [= <-].
Qed.

(** C30: A Fleet host takes a reader from a legacy location to the product. A location in ASCII,
    as a browser reports it, that the router reads is kept or replaced once; the result is read
    as a route and not replaced again, and the page mounts a product view, a delivery view or the
    migration of a named entity, never a legacy view and never the waiting note. Two kinds of
    location are excepted: a service whose name the hash spells with a question mark before
    [/diff], and [#/delivery/] followed by a member of [Object.prototype], which is no view. *)
Theorem fleet_lands (h : str) (r : Route) (o : option str) (c : Caps) (session : option SessionInfo) (capError : bool) :
  ascii h -> parseHash (Some h) = Some r -> redirect h = Some o -> cp_fleet c = Some true -> ~ question_in_name h ->
  exists r', parseHash (Some (default h o)) = Some r' /\ redirect (default h o) = Some None /\
    (lands (route_screen (Some c) session capError (view r')) = true \/
     o = None /\ exists k, path_of (strip_hash (or_str (Some h) [])) = "delivery/" ++ k /\ k ∈ object_prototype_keys).
Proof.
  intros Ha Hp Hr Hc Hq. pose proof Hr as Hr0. unfold redirect in Hr. rewrite Hp in Hr. cbn [mbind option_bind] in Hr.
  destruct (legacyRedirectTarget (Some h)) as [t|] eqn:Et; [|done]. injection Hr as <-.
  destruct (when_truthy t) as [t'|] eqn:Ew.
  - assert (t = Some t') as -> by (revert Ew; unfold when_truthy; destruct (otruthy t); congruence). change (default h (Some t')) with t'.
    destruct (target_view h t' Ha Et) as (r' & Hp' & Hv'). exists r'. split; [done|].
    assert (view r' ∉ VList :: legacy_views) as Hn.
    { revert Hv'. clear. generalize (view r'). intros []; by_decide. }
    split.
    + unfold redirect. rewrite Hp', (proj2 (legacyRedirect_settles _ _ Et)). cbn [mbind option_bind]. simpl.
      by rewrite bool_decide_eq_false_2 by set_solver.
    + left. destruct (product_lands c session capError (view r') Hc Hn) as [|[k Ek]]; [done|]. exfalso.
      rewrite Ek in Hv'. revert Hv'. by_decide.
  - destruct (view r === VList) eqn:El.
    + change (default h (Some fleetOverviewUrl)) with fleetOverviewUrl. eexists. split; [vm_compute; reflexivity|]. split; [vm_compute; reflexivity|]. by left.
    + change (default h None) with h. exists r. apply bool_decide_eq_false in El. split; [done|]. split; [exact Hr0|].
      destruct (product_lands c session capError (view r) Hc) as [|[k Ek]]; [|by left|].
      * rewrite not_elem_of_cons. split; [done|]. intros Hv. apply (legacy_redirected h r Hp Hv Hq).
        rewrite Et. f_equal. destruct t as [t|]; [|done]. exfalso.
        apply legacyRedirect_settles in Et as [Hs _]. destruct t; [done|]. by revert Ew.
      * right. split; [done|]. exists k. by apply (parseHash_foreign h r).
Qed.

Lemma fleet_lands_witness :
  let h := "#/services/pay/diff?from=1" in
  let c := {| cp_fleet := Some true; cp_delivery := None; cp_hidden := false; cp_nothingVisible := false |} in
  let o := Some (fleetChangesUrl [] {| cq_name := Some "pay"; cq_old := None; cq_new := None; cq_observed := false |}) in
  exists r', parseHash (Some (default h o)) = Some r' /\ redirect (default h o) = Some None /\
    (lands (route_screen (Some c) None false (view r')) = true \/
     o = None /\ exists k, path_of (strip_hash (or_str (Some h) [])) = "delivery/" ++ k /\ k ∈ object_prototype_keys).
Proof.
  intros h c o. eapply (fleet_lands h _ o c None false).
  - apply (bool_decide_unpack _). vm_compute. exact I.
  - vm_compute. reflexivity.
  - vm_compute. reflexivity.
  - reflexivity.
  - intros (name & q & E & Hi). vm_compute in E. injection E as <- <-. revert Hi. by_decide.
Defined.

(** A query that ends in [/diff] is part of the name to the router and not to the redirect, so
    a Fleet host keeps waiting on it. *)
Theorem diff_dead_end :
  exists r, parseHash (Some "#/services/pay?tab=api/diff") = Some r /\ redirect "#/services/pay?tab=api/diff" = Some None /\
    route_screen (Some {| cp_fleet := Some true; cp_delivery := None; cp_hidden := false; cp_nothingVisible := false |}) None false (view r) = Migrating.
Proof. eexists. split_and!; [vm_compute; reflexivity..|]. reflexivity. Qed.
